(* ===== verification/_CoqProject ===== *)
-Q . S2P
Prelude.v
GoStrings.v
GoErrors.v
GoNumbers.v
Sha256.v
GoTime.v
Json.v
JsonFacts.v
JsonIndent.v
Rfc3339.v
Domain.v
Records.v
RecordsFacts.v
Auth.v
AuthClaims.v
GoFlags.v
GoPaths.v
GoDuration.v
Config.v
ConfigClaims.v
AppLog.v
Dispatch.v
LightModel.v
LightService.v
LightSpec.v
LightFacts.v
LightClaims.v
GoMemory.v
LightMemory.v
LightMemoryFacts.v
LightMemoryClaims.v
LightOps.v
LightOpsSpec.v
LightOpsFacts.v
LightOpsClaims.v
World.v
Shard.v
ShardFacts.v
Reader.v
Index.v
Repo.v
Rebuild.v
Migrate.v
AuditLog.v
StoreApi.v
QueryService.v
Services.v
Http.v
Hubctl.v
HttpServer.v
Middleware.v
Worker.v
Scheduler.v
Lifecycle.v
Boot.v
StoreFacts.v
RebuildFacts.v
QueryFacts.v
StoreRuns.v
StoreReplay.v
CodecClaims.v
RebuildClaims.v
ReconcileClaims.v
ServiceSpec.v
ServiceInv.v
ServiceLoops.v
ServiceRuns.v
ServiceClaims.v
ServiceLive.v
QueryClaims.v
HttpFacts.v
HttpClaims.v
HttpReplies.v
HttpSession.v
MiddlewareClaims.v
MigrateClaims.v
HubctlClaims.v
LifecycleClaims.v
BootFacts.v
BootClaims.v
