(* ===== verification/Prelude.v ===== *)
(** * Shenzhen Light Governance: verification library

    A model of the Go program under [src/], and the theorems that make its
    core correct. The program has three parts that share no state.

    ** The hub ([internal/hub]) and the light operations ([internal/lightops])

    Two in-memory services for spill-light complaints. Each method holds one
    mutex for its whole body, so a method is one atomic step on the state: an
    [op S E A] of this file, which always yields a final state, also when it
    fails.
    - LightModel: the records of light_models.go, light_policy.go and
      light_registry.go ([Registry], its constructor, the Add methods and the
      accessors). LightService: the operations of light_service.go; the
      arguments of a call hold the outcome of its one context poll and its
      clock reading. The order in which a loop visits a Go map is an argument.
    - LightSpec: what every call may do ([light_effect], [light_noop]) and the
      refinement of each operation. LightFacts: the invariant [light_inv] and
      the growth relation. LightClaims: the theorems, with an execution each.
    - GoMemory: a heap of arrays, maps and times, with slices and pointers into
      it. LightMemory: the records and operations of the hub once more, over
      that heap, with every clone and every shared pointer, and callers that
      write through the references they hold. LightMemoryFacts: who owns which
      cell, and a relational logic by which the operations over the heap do
      what those on values do. LightMemoryClaims: the theorems.
    - LightOps: models.go, store.go (with its armed faults and its table of
      idempotency keys), service.go and worker.go of lightops; LightOpsSpec,
      LightOpsFacts and LightOpsClaims as above.

    ** The compliance half

    Registration, dispatch and escalation of compliance cases over an SQLite
    index and append-only shard files, behind an HTTP server.
    - Domain: [internal/domain] (records, the status machine
      [transitionTable], rule matching) and the machine as a transition system.
      Dispatch: the adjudicator of [internal/dispatch] and its contract.
    - Records, RecordsFacts: the JSON form of every record that is written to
      a shard or sent in an answer, and that reading undoes writing.
    - World: the state of the process ([DB], one list of rows per table, and
      [FS], the bytes of every file) and the class [Env] of everything the code
      asks of its surroundings: clock and time zone, UUIDs, whether a statement or system
      call fails, how much of a write survives, whether the context is still
      alive, what other goroutines commit before a query or a transaction, the
      order in which rows are visited. Its laws are [EnvLaws]; [Sequential]
      says that no other goroutine writes, [Faultless] that nothing outside
      fails.
    - Shard, Reader: [internal/shard]. Index: the statements and queries of
      [internal/index] with the constraints of the schema. Repo: the
      transactions of [internal/repo] store.go; a rollback restores the index,
      not the shard files. Rebuild: rebuild.go, that is the rebuild of the
      index from the shards, the reconciliation and the diagnosis. Migrate: the
      opening of a store with the migrations of schema.go; what SQLite makes of
      a script is a parameter ([Migrations]). AuditLog: [internal/auditlog].
    - StoreApi: the interface [internal/store], two records of operations over
      any state, with the repository's store as an instance. QueryService: the
      queries of [internal/service] over any such store.
    - Services: the five services of [internal/service] over the repository. Worker: the
      re-evaluation of [internal/worker]. Scheduler: the runs with retries and
      the two tasks of [internal/scheduler].
    - Lifecycle: the goroutines of the worker, the scheduler and the server's
      [main] as transition systems: contexts, the wait group, the run mutex,
      tickers (one with an interval that is not positive cannot be made and
      ends the process) and ticks, [Start], [Stop], the shutdown. The sweeps
      and tasks themselves are those of Worker and Scheduler, between two
      moves.
    - Hubctl: the commands of [cmd/hubctl] on a machine with several data
      directories, with what they print and the status they exit with.
    - Auth: the user and session store of [internal/auth] over the bytes of its
      file; bcrypt and the random source are parameters with laws ([AuthEnv],
      [AuthLaws]). Config: [internal/config]; the file, its YAML and the
      variables of the process are parameters ([ConfigEnv]).
    - Http, HttpServer: [internal/httpapi]. A [Request] is what net/http and
      the router hand to the code; the tokens, pages, filters and bodies it
      reads from it; the handlers, the guards and the table of routes over
      a [Process] (the world and the user store); the answers and their text.
      Middleware: the middleware for the log and for panics around any handler,
      over an [Exchange] with the client. AppLog: [internal/applog].
      Which route a path matches is the chi router's: a parameter ([Router],
      [RouterLaws]).
    - Boot: [New] of [internal/httpapi] and the first half of the server's
      [main], from its arguments to [ListenAndServe], on the machine of Hubctl,
      in a race with loops that panic ([ticker_race]); and the life of a machine
      ([live]): the process is started, answers requests, runs tasks and
      sweeps, ends or panics, and is started again, one thing after the other.

    ** What the code uses of Go's standard library

    GoStrings, GoErrors, GoNumbers, Sha256, GoTime, Rfc3339, Json, JsonIndent,
    GoFlags, GoPaths and GoDuration write it out: error chains, decimal numbers, SHA-256, dates,
    the RFC 3339 texts of times and their two parsers, encoding/json both ways
    on bytes (escapes, surrogates, invalid UTF-8, field names without case, the
    limit of nesting, indentation), command-line flags, slash-separated paths,
    durations with their floating point. A time is an instant; the class [Zone]
    says at which offset the process reads and writes it, and a [Stamp] is a
    time that came from outside with an offset of its own.
    JsonFacts: what is printed is parsed back.

    ** The proofs

    - StoreFacts, ShardFacts: what the store's and the shards' operations do.
      RebuildFacts: the rebuild computes the last record of every key, in
      whatever order Go visits its maps. StoreRuns: every committed
      transaction adds its records to the shards ([logged]), so that the shards
      log the tables. StoreReplay: reading them back gives the tables.
    - QueryFacts: the laws a client of the store's interface relies on
      ([StoreLaws]), that the repository's store meets them, and what the query
      service does on every store that does.
    - ServiceSpec: the committed transactions ([db_step]) and the refinement of
      every service call. ServiceInv: the invariant [db_inv] and the history
      relation [later]. ServiceLoops, ServiceRuns: imports, escalation checks,
      sweeps and retries as sequences of transactions; a run is a list of
      activities.
    - ServiceLive: what a weakest precondition of the store's operations gives:
      that the calls of the services succeed when nothing fails.
    - HttpFacts: which handlers only read, and what the others may commit.
      BootFacts: what a start, a request and a task leave of the tables and of
      the users, and with that a whole life of the machine.
    - ServiceClaims, ServiceLive, CodecClaims, RebuildClaims, ReconcileClaims, AuthClaims,
      ConfigClaims, HttpClaims, HttpReplies, HttpSession, QueryClaims,
      MiddlewareClaims, MigrateClaims, HubctlClaims, LifecycleClaims, BootClaims:
      the theorems, with an execution each.

    ** What the theorems show

    - Refinement and atomicity: every operation has exactly the effect of its
      specification or none, on every branch and under every failure
      ([hub_refines_spec], [ops_refines_spec], [services_refine]), and has it
      when its conditions hold and nothing fails from the outside
      ([services_complete], [escalation_check]); the hub does so also when its
      callers write to the memory they know ([hub_memory_refines]); the
      adjudicator meets its contract ([Adjudicate_spec]); an HTTP request
      commits the one transaction it asks for, if it is permitted, or nothing
      ([request_refines]); the query service is right on every store that meets
      the laws of the interface ([query_service_exact]).
    - The whole process: how a start ends ([start_outcome]), that a first start
      serves its users ([first_start_serves]), that the cases survive any number
      of restarts ([cases_survive]) and the passwords do not
      ([restart_locks_out]); that every request is answered and logged, panics
      included ([middleware_answers]).
    - Invariants. Of every execution of the hub that adds fresh resources only
      ([fresh_call], which the code does not check): the ledger of reserved
      measurements, capacities, district isolation ([hub_ledger], the last part
      of [hub_memory_refines], ...). Of every run of the compliance half whose
      activities come one after the other ([Sequential]): one current referral
      per case that agrees with it, unique keys, append-only logs, statuses that
      move only along the status machine ([tables_invariant], [case_history],
      [cases_survive], [register_once], [newer_rule_never_adopted]); two
      requests at the same time can break it ([complete_overwrites_cancel]).
      All theorems about the tables but those of the migrations assume
      [Sequential]: an operation and its transaction see the same tables.
    - The shards: a file is read back as it was written, a location stays valid
      ([shard_file_roundtrip], [location_stays_valid]); the index deleted, the
      rebuild command recovers the tables of a history of successful writes,
      if no shard was rotated and nothing fails ([rebuild_command_recovers]; a
      rotated shard is lost, [rotation_total_but_unscanned]), and a
      rebuild replaces all tables or none ([rebuild_all_or_nothing],
      [rebuild_outcome]); what the reconciliation counts ([reconcile_exact],
      [rebuild_then_reconcile]).
    - The database is migrated script by script, each once ([store_opens]).
    - Concurrency: one sweep at a time, [Stop] waits for the loops and returns
      (if their tickers could be made), the order of a shutdown ([loops_exclusive], [stop_drains],
      [shutdown_order]).
    - Access: a request reaches its handler exactly if its session and role
      allow it, a GET changes nothing, a token is good from its login to its
      end ([access_control], [get_is_safe], [session_over_http]).
    - Answers: bounded pages, the statuses of errors, JSON that parses back
      ([page_bounds], [move_refusals], [responses_parse]).
    - Once-only effects: idempotency keys, external references, reservations.
    - Loops end and do all of their work: the escalation check, the sweep and
      its pages ([sweep_outdated]), the retries ([retry_bounded]; the back-off
      is right for a base below 2^53 ns only, [backoff_overflows]), the
      rotation of shards.
    - Where the code does not do what it means to: a returned case stops all
      escalations, a sweep never adopts a newer rule, a concurrent cancellation
      is lost, an interval that [Load] accepts crashes the process
      ([start_outcome]), a restart loses the passwords, a rebuild fails as soon as there
      are rules, the flags of [hubctl import] cannot be given
      ([own_flags_unusable]), the process exits before its shutdown is done,
      and others; each is a theorem about every execution or a
      concrete one.

    ** Bounds and fuel

    Go's [int] and [time.Duration] are 64-bit and wrap ([i64] of this file).
    Fuel is used by the page loop of a sweep (a page per 200 cases and one more
    is enough, [collectStaleItems_ok]; a sweep that runs out of it has not
    ended, and keeps the run mutex), by the retry loop (the bound on the attempts,
    [retry_loop_spec]), by the rotation of shards (one round more than there
    are files, [rotate_total]), by the JSON parser and by the terms of a
    duration (the length of the text, each step reads a byte) and by the
    calendar (400 years, 12 months).

    ** What is not modelled

    - The SQL of [migrations], which is not Go, and the dynamic typing of SQLite
      beyond the casts the queries ask for. No other process has the database
      open.
    - When a ticker ticks, which is the clock library's: a tick is an event of
      the transition systems. Inside an operation on the store other goroutines
      appear as what they commit in between ([Env]); in a life of Boot the
      process ends between two operations, not inside one.
    - The network and the router's own middleware (request IDs, real IPs); how
      zerolog prints an entry.
    - Of paths only what is done to them: two spellings of one directory are two
      directories, and a file of users placed on the index or on a shard is not
      a file of the index.
    - The texts of errors of the operating system, of SQLite and of encoding/json
      are parameters; no theorem depends on them.
    - Memory and references are those of the hub; elsewhere records are values:
      the light operations clone what they take and give, the compliance half
      keeps nothing between two calls but the store. A call and a write of a
      caller to memory it passes do not run at the same time.
    - Of Go's Unicode tables ([strings.ToUpper], [strings.TrimSpace]) only the
      ASCII part is written out; the rest is a parameter.
    - Daylight saving: the zone of the process is one offset of whole minutes,
      the same in every start ([env_zone]; Shenzhen's is such a one, and the
      container of the Dockerfile runs in UTC). The names of shards, the texts
      of the index and of the records are in that zone; sessions are in UTC, as
      in the code.

    This file: results and operations over a state, machine integers, record
    update, labelled transition systems, sums over maps, the tactics and hint
    databases that the other files share. *)
From Stdlib Require Export ZArith Lia.
From stdpp Require Export base tactics option list gmap strings pretty sorting.

Open Scope Z_scope.

(** ** Results, and operations over a state

    A Go function returning [(T, error)] is a [result E T]; a method that
    mutates the state [S] it is called on and may fail is an [op S E T]: it
    always yields a final state, also when it fails. *)

Inductive result (E A : Type) : Type :=
| Ok (a : A)
| Err (e : E).
Arguments Ok {E A} a.
Arguments Err {E A} e.

#[export] Instance result_ret E : MRet (result E) := λ A a, Ok a.
#[export] Instance result_bind E : MBind (result E) := λ A B f r,
  match r with Ok a => f a | Err e => Err e end.
#[export] Instance result_eq_dec E A `{!EqDecision E, !EqDecision A} :
  EqDecision (result E A).
Proof. solve_decision. Defined.

Definition result_is_ok {E A} (r : result E A) : bool :=
  match r with Ok _ => true | Err _ => false end.

Definition op (S E A : Type) : Type := S → S * result E A.

#[export] Instance op_ret S E : MRet (op S E) := λ A a s, (s, Ok a).
#[export] Instance op_bind S E : MBind (op S E) := λ A B f m s,
  match m s with
  | (s', Ok a) => f a s'
  | (s', Err e) => (s', Err e)
  end.

Section op_primitives.
Context {S E : Type}.

(** [return nil, e] *)
Definition raise {A} (e : E) : op S E A := λ s, (s, Err e).
(** [if !b { return nil, e }] *)
Definition ensure (b : bool) (e : E) : op S E () :=
  λ s, (s, if b then Ok () else Err e).
(** [v, ok := ...; if !ok { return nil, e }] *)
Definition must {A} (o : option A) (e : E) : op S E A :=
  λ s, (s, match o with Some a => Ok a | None => Err e end).
(** [v, err := pure(...); if err != nil { return nil, err }] *)
Definition lift {A} (r : result E A) : op S E A := λ s, (s, r).
Definition gets {A} (f : S → A) : op S E A := λ s, (s, Ok (f s)).
Definition modify (f : S → S) : op S E () := λ s, (f s, Ok ()).
End op_primitives.

(** [for _, x := range l { if err := body(x); err != nil { return err } }] *)
Fixpoint for_each {S E A} (l : list A) (body : A → op S E ()) : op S E () :=
  match l with
  | [] => mret ()
  | x :: l => _ ← body x; for_each l body
  end.

(** What an operation does to the state when it fails, compositionally:
    [pure_op m] never changes the state, [err_pure m] leaves it alone whenever
    it returns an error. *)
Definition pure_op {S E A} (m : op S E A) : Prop := ∀ s, fst (m s) = s.
Definition err_pure {S E A} (m : op S E A) : Prop :=
  ∀ s s' e, m s = (s', Err e) → s' = s.

Create HintDb op_db.

Section op_laws.
Context {S E : Type}.

Lemma bind_ok {A B} (m : op S E A) (f : A → op S E B) s s' b :
  (m ≫= f) s = (s', Ok b) ↔ ∃ s1 a, m s = (s1, Ok a) ∧ f a s1 = (s', Ok b).
Proof.
  unfold mbind, op_bind. destruct (m s) as [s1 [a|e]]; naive_solver.
Qed.

Lemma bind_err {A B} (m : op S E A) (f : A → op S E B) s s' e :
  (m ≫= f) s = (s', Err e) ↔
  m s = (s', Err e) ∨ ∃ s1 a, m s = (s1, Ok a) ∧ f a s1 = (s', Err e).
Proof.
  unfold mbind, op_bind. destruct (m s) as [s1 [a|e1]]; naive_solver.
Qed.

Lemma for_each_app {A} (l k : list A) (f : A → op S E ()) s :
  for_each (l ++ k) f s = (for_each l f ≫= λ _, for_each k f) s.
Proof.
  revert s. induction l as [|x l IH]; intros s; [done|]. simpl. unfold mbind, op_bind.
  destruct (f x s) as [s' [a|e]]; [apply IH|done].
Qed.

Lemma pure_raise {A} e : pure_op (@raise S E A e).
Proof. done. Qed.
Lemma pure_ensure b e : pure_op (@ensure S E b e).
Proof. done. Qed.
Lemma pure_must {A} (o : option A) e : pure_op (@must S E A o e).
Proof. done. Qed.
Lemma pure_lift {A} (r : result E A) : pure_op (@lift S E A r).
Proof. done. Qed.
Lemma pure_gets {A} (f : S → A) : pure_op (@gets S E A f).
Proof. done. Qed.
Lemma pure_ret {A} (a : A) : pure_op (mret a : op S E A).
Proof. done. Qed.

Lemma err_pure_pure {A} (m : op S E A) : pure_op m → err_pure m.
Proof. intros Hm s s' e H. specialize (Hm s). rewrite H in Hm. done. Qed.
Lemma err_pure_ret_after {A} (f : S → S) (a : A) :
  err_pure (modify (E:=E) f ≫= λ _, mret a).
Proof. by intros s s' e [=]. Qed.
Lemma err_pure_modify (f : S → S) : err_pure (modify (E:=E) f).
Proof. by intros s s' e [=]. Qed.
Lemma err_pure_bind {A B} (m : op S E A) (f : A → op S E B) :
  pure_op m → (∀ a, err_pure (f a)) → err_pure (m ≫= f).
Proof.
  intros Hm Hf s s' e [H|(s1 & a & H1 & H2)]%bind_err.
  - by eapply err_pure_pure.
  - specialize (Hm s). rewrite H1 in Hm. simpl in Hm. subst s1.
    by eapply Hf.
Qed.
End op_laws.

#[export] Hint Resolve pure_raise pure_ensure pure_must pure_lift pure_gets
  pure_ret err_pure_ret_after err_pure_modify : op_db.
#[export] Hint Resolve err_pure_bind | 2 : op_db.
#[export] Hint Resolve err_pure_pure | 3 : op_db.

(** [op_unfold H] turns an equation about an operation into the equations of
    the branch it took. *)
Ltac op_unfold H :=
  unfold mbind, op_bind, mret, op_ret, raise, ensure, must, lift, gets, modify in H;
  cbn beta iota zeta in H.
Ltac op_unfold_goal :=
  unfold mbind, op_bind, mret, op_ret, raise, ensure, must, lift, gets, modify;
  cbn beta iota zeta.
(** [op_cases H] walks down the branches of the operation in [H]. *)
Ltac op_cases H :=
  op_unfold H;
  repeat (case_match; simplify_eq; cbn beta iota zeta in H).

(** ** Machine integers

    Go's [int] and [int64] are two's complement 64-bit integers: [i64 z] is
    the value an operation whose mathematical result is [z] returns. *)

Definition i64 (z : Z) : Z := (z + 2 ^ 63) mod 2 ^ 64 - 2 ^ 63.
Definition max_i64 : Z := 2 ^ 63 - 1.
Definition min_i64 : Z := - 2 ^ 63.
Definition is_i64 (z : Z) : Prop := min_i64 ≤ z ≤ max_i64.

#[export] Instance is_i64_dec z : Decision (is_i64 z) := _.

Declare Scope go_scope.
Delimit Scope go_scope with go.
Notation "a +ᵢ b" := (i64 (a + b)) (at level 50, left associativity) : go_scope.
Notation "a -ᵢ b" := (i64 (a - b)) (at level 50, left associativity) : go_scope.
Notation "a *ᵢ b" := (i64 (a * b)) (at level 40, left associativity) : go_scope.
Open Scope go_scope.

Section i64_laws.
Lemma i64_range z : is_i64 (i64 z).
Proof.
  unfold is_i64, i64, min_i64, max_i64.
  pose proof (Z.mod_pos_bound (z + 2 ^ 63) (2 ^ 64) ltac:(lia)). lia.
Qed.
Lemma i64_id z : is_i64 z → i64 z = z.
Proof.
  unfold is_i64, i64, min_i64, max_i64. intros. rewrite Z.mod_small; lia.
Qed.
Lemma i64_mod z : ∃ k, i64 z = z + k * 2 ^ 64.
Proof.
  exists (- ((z + 2 ^ 63) / 2 ^ 64)). unfold i64.
  pose proof (Z.div_mod (z + 2 ^ 63) (2 ^ 64) ltac:(lia)). lia.
Qed.
Lemma i64_add_l a b : i64 (i64 a + b) = i64 (a + b).
Proof.
  unfold i64. f_equal.
  replace ((a + 2 ^ 63) mod 2 ^ 64 - 2 ^ 63 + b + 2 ^ 63)
    with ((a + 2 ^ 63) mod 2 ^ 64 + b) by lia.
  rewrite Zplus_mod_idemp_l. f_equal. lia.
Qed.
(** Adding less than a full turn changes the value. *)
Lemma i64_add_ne a n : 0 < n < 2 ^ 64 → i64 (a + n) ≠ i64 a.
Proof.
  intros Hn. destruct (i64_mod (a + n)) as [k1 ->], (i64_mod a) as [k2 ->]. intros Heq.
  assert (n = (k2 - k1) * 2 ^ 64) by lia. nia.
Qed.
(** A subtraction whose wrapped result is positive did not overflow
    downwards: [a - b] can only have been in range. *)
Lemma i64_sub_pos a b c :
  is_i64 a → is_i64 b → 0 ≤ a → 0 < c → c ≤ a -ᵢ b → c ≤ a - b.
Proof.
  unfold is_i64, min_i64, max_i64. intros Ha Hb Ha0 Hc Hle.
  destruct (decide (a - b ≤ max_i64)) as [Hs|Hs].
  - rewrite i64_id in Hle; [done|]. unfold is_i64, min_i64, max_i64 in *. lia.
  - assert (i64 (a - b) = a - b - 2 ^ 64) as E; [|lia].
    unfold i64, max_i64 in *.
    rewrite (Z.mod_eq (a - b + 2 ^ 63) (2 ^ 64)) by lia.
    assert ((a - b + 2 ^ 63) / 2 ^ 64 = 1) as ->; [|lia].
    symmetry. apply (Z.div_unique _ _ 1 (a - b + 2 ^ 63 - 2 ^ 64)); lia.
Qed.
End i64_laws.

#[export] Hint Resolve i64_range : core.

(** ** Record update

    [r <| f := v |>] is [r] with field [f] replaced, for every record with an
    [Eta] instance that lists its fields. *)

Class Eta (R : Type) : Type := eta : R → R.
Class Upd {R A : Type} (proj : R → A) : Type := upd : (A → A) → R → R.

Ltac mk_upd :=
  lazymatch goal with
  | |- @Upd ?R ?A ?proj =>
      let inst := constr:(_ : Eta R) in
      let e := eval hnf in (@eta R inst) in
      let p := eval pattern proj in e in
      lazymatch p with
      | ?g _ =>
          let body := eval cbv beta in (λ (f : A → A) (r : R), g (λ x, f (proj x)) r) in
          exact body
      end
  end.
#[export] Hint Extern 0 (Upd _) => mk_upd : typeclass_instances.

Notation "r <| f := v |>" := (upd (proj := f) (λ _, v) r)
  (at level 1, f constr at level 40, v at level 200, left associativity,
   format "r  <| f  :=  v |>") : go_scope.
Notation "r <| f ::= g |>" := (upd (proj := f) g r)
  (at level 1, f constr at level 40, g at level 200, left associativity,
   format "r  <| f  ::=  g |>") : go_scope.

(** ** Labelled transition systems *)

Section lts.
Context {S L : Type} (step : S → L → S → Prop).

Inductive steps : S → list L → S → Prop :=
| steps_nil s : steps s [] s
| steps_cons s1 l s2 ls s3 :
    step s1 l s2 → steps s2 ls s3 → steps s1 (l :: ls) s3.

Definition reachable (init : S → Prop) (s : S) : Prop :=
  ∃ s0 ls, init s0 ∧ steps s0 ls s.

Lemma steps_app s1 s2 s3 ls1 ls2 :
  steps s1 ls1 s2 → steps s2 ls2 s3 → steps s1 (ls1 ++ ls2) s3.
Proof. induction 1; simpl; eauto using steps. Qed.

Lemma steps_invariant (I : S → Prop) :
  (∀ s l s', I s → step s l s' → I s') →
  ∀ s ls s', steps s ls s' → I s → I s'.
Proof. intros Hstep s ls s'. induction 1; eauto. Qed.

Lemma steps_preorder (R : S → S → Prop) :
  Reflexive R → Transitive R → (∀ s l s', step s l s' → R s s') →
  ∀ s ls s', steps s ls s' → R s s'.
Proof. intros ?? Hstep s ls s'. induction 1; [done|]. etransitivity; eauto. Qed.
End lts.

(** ** Sums over finite maps *)

Section map_sum.
Context {K V : Type} `{Countable K} (f : V → Z).

Definition map_sum (m : gmap K V) : Z := map_fold (λ _ v acc, f v + acc) 0 m.

Lemma map_sum_empty : map_sum ∅ = 0.
Proof. apply map_fold_empty. Qed.

Lemma map_sum_insert_new m k v :
  m !! k = None → map_sum (<[k:=v]> m) = f v + map_sum m.
Proof.
  intros Hk. unfold map_sum. rewrite map_fold_insert_L; [done| |done].
  intros. lia.
Qed.

Lemma map_sum_delete m k v :
  m !! k = Some v → map_sum m = f v + map_sum (delete k m).
Proof.
  intros Hk. rewrite <- (insert_delete_id m k v Hk) at 1.
  apply map_sum_insert_new. apply lookup_delete_eq.
Qed.

Lemma map_sum_insert m k v :
  map_sum (<[k:=v]> m) = f v + map_sum m - from_option f 0 (m !! k).
Proof.
  destruct (m !! k) as [w|] eqn:Hk; simpl.
  - rewrite <- insert_delete_eq.
    rewrite map_sum_insert_new by apply lookup_delete_eq.
    rewrite (map_sum_delete m k w Hk). lia.
  - rewrite map_sum_insert_new by done. lia.
Qed.

Lemma map_sum_nonneg m : map_Forall (λ _ v, 0 ≤ f v) m → 0 ≤ map_sum m.
Proof.
  induction m as [|k v m Hk IH] using map_ind; intros Hall.
  - rewrite map_sum_empty. lia.
  - apply map_Forall_insert in Hall as [Hv Hm]; [|done].
    rewrite map_sum_insert_new by done. specialize (IH Hm). lia.
Qed.

Lemma map_sum_zero m : map_Forall (λ _ v, f v = 0) m → map_sum m = 0.
Proof.
  induction m as [|k v m Hk IH] using map_ind; intros Hall.
  - apply map_sum_empty.
  - apply map_Forall_insert in Hall as [Hv Hm]; [|done].
    rewrite map_sum_insert_new by done. rewrite Hv, IH by done. lia.
Qed.

Lemma map_sum_ge m k v :
  map_Forall (λ _ v, 0 ≤ f v) m → m !! k = Some v → f v ≤ map_sum m.
Proof.
  intros Hall Hk. rewrite (map_sum_delete m k v Hk).
  pose proof (map_sum_nonneg (delete k m) (map_Forall_delete _ m k Hall)). lia.
Qed.
End map_sum.

(** ** Small generic facts *)

Lemma map_Forall_insert_both {K V} `{Countable K} (P : K → V → Prop)
    (m : gmap K V) k v :
  P k v → map_Forall P m → map_Forall P (<[k:=v]> m).
Proof. apply map_Forall_insert_2. Qed.

#[export] Hint Resolve map_Forall_insert_both : core.

(** [guards] turns the boolean conditions of the context into propositions. *)
Ltac guard_step :=
  match goal with
  | H : negb _ = true |- _ => apply negb_true_iff in H
  | H : negb _ = false |- _ => apply negb_false_iff in H
  | H : _ || _ = false |- _ => apply orb_false_iff in H as [? ?]
  | H : _ && _ = true |- _ => apply andb_true_iff in H as [? ?]
  | H : _ || _ = true |- _ =>
      apply orb_true_iff in H; rewrite ?orb_true_iff, ?andb_true_iff, ?negb_true_iff,
        ?bool_decide_eq_true, ?bool_decide_eq_false, ?Z.leb_le, ?Z.ltb_lt, ?Z.leb_gt,
        ?Z.ltb_ge, ?Z.eqb_eq in H
  | H : _ && _ = false |- _ =>
      apply andb_false_iff in H; rewrite ?orb_false_iff, ?andb_false_iff, ?negb_false_iff,
        ?bool_decide_eq_true, ?bool_decide_eq_false, ?Z.leb_le, ?Z.ltb_lt, ?Z.leb_gt,
        ?Z.ltb_ge, ?Z.eqb_eq in H
  | H : bool_decide _ = true |- _ => apply bool_decide_eq_true in H
  | H : bool_decide _ = false |- _ => apply bool_decide_eq_false in H
  | H : (_ <=? _) = true |- _ => apply Z.leb_le in H
  | H : (_ <=? _) = false |- _ => apply Z.leb_gt in H
  | H : (_ <? _) = true |- _ => apply Z.ltb_lt in H
  | H : (_ <? _) = false |- _ => apply Z.ltb_ge in H
  | H : (_ =? _) = true |- _ => apply Z.eqb_eq in H
  | H : (_ =? _) = false |- _ => apply Z.eqb_neq in H
  | H : ¬ is_Some (?m !! ?k) |- _ => apply eq_None_not_Some in H
  | H : Some _ = Some _ |- _ => injection H as H
  | H : Ok _ = Ok _ |- _ => injection H as H
  | H : Err _ = Err _ |- _ => injection H as H
  end.
Ltac guards := repeat guard_step.

(** [refuted] closes a goal whose hypotheses contradict each other. *)
Ltac refuted :=
  exfalso; destruct_or?; destruct_and?; simplify_eq;
  first [ done | congruence | lia
        | match goal with H : is_Some ?o, E : ?o = None |- _ =>
            by rewrite E in H; destruct H end ].

(** ** Lists *)

Lemma elem_of_filter_bool {A} (f : A → bool) l x : x ∈ List.filter f l ↔ x ∈ l ∧ f x = true.
Proof. by rewrite !list_elem_of_In, filter_In. Qed.
Lemma filter_perm {A} (f : A → bool) l k : l ≡ₚ k → List.filter f l ≡ₚ List.filter f k.
Proof.
  induction 1; simpl; repeat case_match; eauto using Permutation.
Qed.
Lemma filter_all {A} (l : list A) : List.filter (λ _, true) l = l.
Proof. induction l as [|x l IH]; simpl; [done|by rewrite IH]. Qed.
Lemma foldr_max_elem v vs : foldr Z.max v vs ∈ v :: vs.
Proof.
  induction vs as [|x vs IH]; simpl; [by apply list_elem_of_singleton|].
  destruct (Z.max_spec x (foldr Z.max v vs)) as [[_ ->]|[_ ->]]; set_solver.
Qed.
Lemma foldr_max_bound v vs : Forall (λ x, x ≤ foldr Z.max v vs) (v :: vs).
Proof.
  induction vs as [|x vs IH]; simpl; [by repeat constructor; lia|].
  apply Forall_cons in IH as [Hv Hvs]. repeat constructor; [lia..|].
  eapply Forall_impl; [exact Hvs|]. simpl. lia.
Qed.
