(* ===== verification/GoStrings.v ===== *)
(** * The string functions of Go's standard library that the program calls

    A Go string is a sequence of bytes, here a [string] of 8-bit characters.
    [TrimSpace] works on UTF-8 bytes and knows every code point
    [unicode.IsSpace] accepts. [ToUpper] is exact on ASCII input; on other
    input Go consults its Unicode case tables, which are an interface here
    ([UnicodeTables]). *)
From Stdlib Require Import Ascii.
From S2P Require Import Prelude.

(** Byte values, written as in the UTF-8 encodings. *)
Definition byte_val (c : ascii) : Z := Z.of_N (N_of_ascii c).

Definition asciiSpace (c : ascii) : bool :=
  (9 <=? byte_val c) && (byte_val c <=? 13) || (byte_val c =? 32).

(** The multi-byte encodings of white space: U+0085, U+00A0, U+1680,
    U+2000..U+200A, U+2028, U+2029, U+202F, U+205F and U+3000. *)
Definition space2 (b1 b2 : Z) : bool :=
  (b1 =? 0xC2) && ((b2 =? 0x85) || (b2 =? 0xA0)).
Definition space3 (b1 b2 b3 : Z) : bool :=
  (b1 =? 0xE1) && (b2 =? 0x9A) && (b3 =? 0x80) ||
  (b1 =? 0xE2) && (b2 =? 0x80) &&
    ((0x80 <=? b3) && (b3 <=? 0x8A) || (b3 =? 0xA8) || (b3 =? 0xA9) || (b3 =? 0xAF)) ||
  (b1 =? 0xE2) && (b2 =? 0x81) && (b3 =? 0x9F) ||
  (b1 =? 0xE3) && (b2 =? 0x80) && (b3 =? 0x80).

(** Drops the leading white space runes of a byte sequence. *)
Fixpoint trim_left (s : list ascii) : list ascii :=
  match s with
  | c1 :: r1 =>
      if asciiSpace c1 then trim_left r1
      else match r1 with
           | c2 :: r2 =>
               if space2 (byte_val c1) (byte_val c2) then trim_left r2
               else match r2 with
                    | c3 :: r3 =>
                        if space3 (byte_val c1) (byte_val c2) (byte_val c3)
                        then trim_left r3 else s
                    | [] => s
                    end
           | [] => s
           end
  | [] => []
  end.

(** The same on a reversed sequence, where encodings read backwards. *)
Fixpoint trim_left_rev (s : list ascii) : list ascii :=
  match s with
  | c1 :: r1 =>
      if asciiSpace c1 then trim_left_rev r1
      else match r1 with
           | c2 :: r2 =>
               if space2 (byte_val c2) (byte_val c1) then trim_left_rev r2
               else match r2 with
                    | c3 :: r3 =>
                        if space3 (byte_val c3) (byte_val c2) (byte_val c1)
                        then trim_left_rev r3 else s
                    | [] => s
                    end
           | [] => s
           end
  | [] => []
  end.

Definition trim_bytes (s : list ascii) : list ascii :=
  rev (trim_left_rev (rev (trim_left s))).

(** [strings.TrimSpace] *)
Definition TrimSpace (s : string) : string :=
  String.string_of_list_ascii (trim_bytes (String.list_ascii_of_string s)).

Class UnicodeTables : Type := unicode_ToUpper : string → string.

Definition upper_byte (c : ascii) : ascii :=
  if (97 <=? byte_val c) && (byte_val c <=? 122)
  then ascii_of_N (Z.to_N (byte_val c - 32)) else c.

Definition is_ascii (s : string) : bool :=
  forallb (λ c, byte_val c <? 128) (String.list_ascii_of_string s).

(** [strings.ToUpper] *)
Definition ToUpper `{UnicodeTables} (s : string) : string :=
  if is_ascii s
  then String.string_of_list_ascii (map upper_byte (String.list_ascii_of_string s))
  else unicode_ToUpper s.

(** [strings.HasSuffix] and [strings.TrimSuffix] *)
Fixpoint has_prefix_bytes (p s : list ascii) : bool :=
  match p, s with
  | [], _ => true
  | a :: p, b :: s => Ascii.eqb a b && has_prefix_bytes p s
  | _ :: _, [] => false
  end.
Definition HasSuffix (s suffix : string) : bool :=
  has_prefix_bytes (rev (String.list_ascii_of_string suffix)) (rev (String.list_ascii_of_string s)).

(** [encoding/json] replaces every byte that is not part of a valid UTF-8
    encoding by U+FFFD. [utf8_clean] is what a string becomes when it is
    marshalled and unmarshalled. *)
Definition between (lo hi : Z) (c : ascii) : bool := (lo <=? byte_val c) && (byte_val c <=? hi).
Definition cont (c : ascii) : bool := between 0x80 0xBF c.
Definition seq2 (c1 c2 : ascii) : bool := between 0xC2 0xDF c1 && cont c2.
Definition seq3 (c1 c2 c3 : ascii) : bool :=
  cont c3 &&
  (between 0xE0 0xE0 c1 && between 0xA0 0xBF c2 || between 0xE1 0xEC c1 && cont c2 ||
   between 0xED 0xED c1 && between 0x80 0x9F c2 || between 0xEE 0xEF c1 && cont c2).
Definition seq4 (c1 c2 c3 c4 : ascii) : bool :=
  cont c3 && cont c4 &&
  (between 0xF0 0xF0 c1 && between 0x90 0xBF c2 || between 0xF1 0xF3 c1 && cont c2 ||
   between 0xF4 0xF4 c1 && between 0x80 0x8F c2).
Definition replacement : list ascii := [ascii_of_N 0xEF; ascii_of_N 0xBF; ascii_of_N 0xBD].
(** How [utf8.DecodeRune] takes a sequence of bytes apart: the encoding of a
    rune, or one byte that belongs to none. *)
Inductive rune : Type := Valid (enc : list ascii) | Invalid.
Fixpoint runes (s : list ascii) : list rune :=
  match s with
  | [] => []
  | c1 :: r1 =>
      if between 0 0x7F c1 then Valid [c1] :: runes r1
      else match r1 with
           | c2 :: r2 =>
               if seq2 c1 c2 then Valid [c1; c2] :: runes r2
               else match r2 with
                    | c3 :: r3 =>
                        if seq3 c1 c2 c3 then Valid [c1; c2; c3] :: runes r3
                        else match r3 with
                             | c4 :: r4 =>
                                 if seq4 c1 c2 c3 c4 then Valid [c1; c2; c3; c4] :: runes r4
                                 else Invalid :: runes r1
                             | [] => Invalid :: runes r1
                             end
                    | [] => Invalid :: runes r1
                    end
           | [] => [Invalid]
           end
  end.
Definition rune_bytes (r : rune) : list ascii :=
  match r with Valid enc => enc | Invalid => replacement end.
Definition clean_bytes (s : list ascii) : list ascii := runes s ≫= rune_bytes.
Definition utf8_clean (s : string) : string :=
  String.string_of_list_ascii (clean_bytes (String.list_ascii_of_string s)).
(** The strings that survive the round trip. *)
Definition utf8_valid (s : string) : bool := String.eqb (utf8_clean s) s.

(** [strconv.Itoa], and the [%d] verb of [fmt] *)
Definition itoa (z : Z) : string := pretty z.

(** Case tables that know ASCII only, for concrete runs. *)
Definition ascii_tables : UnicodeTables := λ s, s.

Section examples.
Local Existing Instance ascii_tables.
Example TrimSpace_ex : TrimSpace "  Li Hua  " = "Li Hua".
Proof. reflexivity. Qed.
Example ToUpper_ex : ToUpper "Football_Field" = "FOOTBALL_FIELD".
Proof. reflexivity. Qed.
Example utf8_valid_cjk :
  utf8_valid (String.string_of_list_ascii (map ascii_of_N [0xE7; 0x81; 0xAF; 0x41]%N)) = true.
Proof. reflexivity. Qed.
Example utf8_invalid_byte :
  utf8_valid (String.string_of_list_ascii (map ascii_of_N [0x41; 0xFF]%N)) = false.
Proof. reflexivity. Qed.
End examples.
