(* ===== verification/GoErrors.v ===== *)
(** * Go error values, contexts and time

    An [error S] is a chain as [fmt.Errorf] and [%w] build it over the
    sentinel errors [S] of a package; [errors_is] is [errors.Is]. A [ctx_err]
    is the outcome of one poll of [ctx.Err()]. A [Time] is an instant, in
    nanoseconds since Go's zero time (January 1 of year 1, UTC). *)
From S2P Require Import Prelude.

(** ** Errors *)

Inductive ctx_error : Type := Canceled | DeadlineExceeded.
#[export] Instance ctx_error_eq_dec : EqDecision ctx_error.
Proof. solve_decision. Defined.

Inductive error (S : Type) : Type :=
| Sentinel (s : S)
| CtxErr (e : ctx_error)
(** an error value made by code outside this repository, by its text *)
| External (text : string)
(** [domain.ValidationError], whose [Unwrap] is the sentinel [s] *)
| FieldError (field message : string) (s : S)
(** [fmt.Errorf("<pre>%w<post>", e)] *)
| Wrap (pre : string) (e : error S) (post : string)
(** [fmt.Errorf("<pre>%w: %w", e1, e2)] *)
| Join (pre : string) (e1 e2 : error S).
Arguments Sentinel {S} s.
Arguments CtxErr {S} e.
Arguments External {S} text.
Arguments FieldError {S} field message s.
Arguments Wrap {S} pre e post.
Arguments Join {S} pre e1 e2.

#[export] Instance error_eq_dec S `{!EqDecision S} : EqDecision (error S).
Proof. solve_decision. Defined.

Section errors.
Context {S : Type} `{!EqDecision S}.

(** [errors.Is(e, target)] for a sentinel target *)
Fixpoint errors_is (e : error S) (target : S) : bool :=
  match e with
  | Sentinel s | FieldError _ _ s => bool_decide (s = target)
  | CtxErr _ | External _ => false
  | Wrap _ e _ => errors_is e target
  | Join _ e1 e2 => errors_is e1 target || errors_is e2 target
  end.

(** [errors.As(e, &ValidationError{})]: the first one of the chain *)
Fixpoint errors_as_field (e : error S) : option (string * string) :=
  match e with
  | FieldError f m _ => Some (f, m)
  | Sentinel _ | CtxErr _ | External _ => None
  | Wrap _ e _ => errors_as_field e
  | Join _ e1 e2 =>
      match errors_as_field e1 with Some r => Some r | None => errors_as_field e2 end
  end.

(** [e.Error()], given the texts of the sentinels *)
Fixpoint error_text (text : S → string) (e : error S) : string :=
  match e with
  | Sentinel s => text s
  | CtxErr Canceled => "context canceled"
  | CtxErr DeadlineExceeded => "context deadline exceeded"
  | External t => t
  | FieldError f m _ => f +:+ ": " +:+ m
  | Wrap pre e post => pre +:+ error_text text e +:+ post
  | Join pre e1 e2 =>
      pre +:+ error_text text e1 +:+ ": " +:+ error_text text e2
  end.

(** [fmt.Errorf("%w: <detail>", s)] *)
Definition errorf_after (s : S) (detail : string) : error S :=
  Wrap "" (Sentinel s) (": " +:+ detail).
(** [fmt.Errorf("<what>: %w", e)] *)
Definition errorf_before (what : string) (e : error S) : error S :=
  Wrap (what +:+ ": ") e "".

Lemma errors_is_after s d t : errors_is (errorf_after s d) t = bool_decide (s = t).
Proof. done. Qed.
Lemma errors_is_before w e t : errors_is (errorf_before w e) t = errors_is e t.
Proof. done. Qed.

(** [if err := ctx.Err(); err != nil { return err }] *)
Definition check_ctx {St} (cerr : option ctx_error) : op St (error S) () :=
  λ s, (s, match cerr with Some e => Err (CtxErr e) | None => Ok () end).

Lemma pure_check_ctx {St} cerr : pure_op (@check_ctx St cerr).
Proof. done. Qed.
End errors.
#[export] Hint Resolve pure_check_ctx : op_db.

(** ** Time and durations *)

Abbreviation Time := Z.
Abbreviation Duration := Z.

Definition zero_time : Time := 0.
Definition IsZero (t : Time) : bool := t =? 0.
Definition Before (t u : Time) : bool := t <? u.
Definition After (t u : Time) : bool := u <? t.
Definition Add (t : Time) (d : Duration) : Time := t + d.

Definition Nanosecond : Duration := 1.
Definition Second : Duration := 1000000000.
Definition Minute : Duration := 60 * Second.
Definition Hour : Duration := 60 * Minute.
