(* ===== verification/GoNumbers.v ===== *)
(** * Decimal numbers: [strconv], and the digits [fmt] prints

    [ParseInt] with base 10 and 64 bits, [Atoi], and the facts that relate
    them to [pretty], which prints a number the way [strconv.Itoa] does. *)
From Stdlib Require Import Ascii.
From S2P Require Import Prelude GoStrings.

Abbreviation bytes := (list ascii).
Definition to_bytes (s : string) : bytes := String.list_ascii_of_string s.
Definition of_bytes (s : bytes) : string := String.string_of_list_ascii s.

(** Bytes by their code. *)
Definition byte (n : Z) : ascii := ascii_of_N (Z.to_N n).
Definition is_byte (n : Z) (c : ascii) : bool := byte_val c =? n.

Definition is_digit (c : ascii) : bool := (48 <=? byte_val c) && (byte_val c <=? 57).
Definition digit (c : ascii) : Z := byte_val c - 48.
(** The value of a sequence of digits, none if another byte occurs. *)
Fixpoint digits_val (acc : Z) (s : bytes) : option Z :=
  match s with
  | [] => Some acc
  | c :: s => if is_digit c then digits_val (10 * acc + digit c) s else None
  end.

(** [strconv.ParseInt(s, 10, 64)] and [strconv.Atoi(s)], where they succeed *)
Definition ParseInt (s : string) : option Z :=
  z ← match to_bytes s with
      | [] => None
      | c :: r =>
          if is_byte 45 c || is_byte 43 c
          then if bool_decide (r = []) then None
               else (if is_byte 45 c then Z.opp <$> digits_val 0 r else digits_val 0 r)
          else digits_val 0 (c :: r)
      end;
  if bool_decide (is_i64 z) then Some z else None.
Definition Atoi (s : string) : option Z := ParseInt s.

(** ** Texts as bytes *)

Lemma of_to_bytes s : of_bytes (to_bytes s) = s.
Proof. apply String.string_of_list_ascii_of_string. Qed.
Lemma to_of_bytes b : to_bytes (of_bytes b) = b.
Proof. apply String.list_ascii_of_string_of_list_ascii. Qed.
Lemma to_bytes_app s t : to_bytes (s +:+ t) = to_bytes s ++ to_bytes t.
Proof. unfold to_bytes. induction s as [|c s IH]; [done|]. simpl. f_equal. apply IH. Qed.
#[export] Instance to_bytes_inj : Inj (=) (=) to_bytes.
Proof. intros s t Heq. by rewrite <- (of_to_bytes s), Heq, of_to_bytes. Qed.
Lemma to_bytes_length s : length (to_bytes s) = String.length s.
Proof. unfold to_bytes. induction s as [|c s IH]; [done|]. simpl. by f_equal. Qed.
Lemma is_byte_spec n c : is_byte n c = true → c = byte n.
Proof.
  unfold is_byte, byte_val, byte. rewrite Z.eqb_eq. intros <-.
  by rewrite N2Z.id, ascii_N_embedding.
Qed.

(** ** Digits *)

Lemma digit_val_char d : (d < 10)%N → is_digit (pretty_N_char d) = true ∧ digit (pretty_N_char d) = Z.of_N d.
Proof.
  intros Hd.
  assert (d = 0 ∨ d = 1 ∨ d = 2 ∨ d = 3 ∨ d = 4 ∨ d = 5 ∨ d = 6 ∨ d = 7 ∨ d = 8 ∨ d = 9)%N as Hc by lia.
  by destruct_or! Hc; subst.
Qed.

(** [ds] are the decimal digits of [n], with leading zeros allowed. *)
Definition decimal (ds : bytes) (n : Z) : Prop :=
  Forall (λ c, is_digit c = true) ds ∧ 0 ≤ n < 10 ^ Z.of_nat (length ds) ∧
  ∀ acc r, digits_val acc (ds ++ r) = digits_val (acc * 10 ^ Z.of_nat (length ds) + n) r.

Lemma decimal_nil : decimal [] 0.
Proof. split_and!; [done|done|done|]. intros acc r. simpl. f_equal. lia. Qed.
Lemma decimal_snoc ds n d :
  decimal ds n → (d < 10)%N → decimal (ds ++ [pretty_N_char d]) (10 * n + Z.of_N d).
Proof.
  intros (Hall & Hn & Hval) Hd. destruct (digit_val_char d Hd) as [Hdig Hv].
  unfold decimal. rewrite length_app. simpl length.
  rewrite Nat.add_1_r, Nat2Z.inj_succ, Z.pow_succ_r by lia. split_and!.
  - rewrite Forall_app, Forall_singleton. done.
  - lia.
  - lia.
  - intros acc r. rewrite <- app_assoc, Hval. simpl. rewrite Hdig, Hv. f_equal. lia.
Qed.
Lemma decimal_cons_zero ds n : decimal ds n → decimal ("0"%char :: ds) n.
Proof.
  intros (Hall & Hn & Hval). unfold decimal. simpl length.
  rewrite Nat2Z.inj_succ, Z.pow_succ_r by lia. split_and!; [by constructor|lia|lia|].
  intros acc r. rewrite <- app_comm_cons.
  change (digits_val (10 * acc + 0) (ds ++ r) =
    digits_val (acc * (10 * 10 ^ Z.of_nat (length ds)) + n) r).
  rewrite Hval. f_equal. lia.
Qed.
Lemma decimal_val ds n : decimal ds n → digits_val 0 ds = Some n.
Proof. intros (_ & _ & Hval). specialize (Hval 0 []). by rewrite app_nil_r in Hval. Qed.

(** The digits of a positive number start with none but a zero and are as
    many as it needs. *)
Lemma pretty_N_go_decimal x s :
  (0 < x)%N → ∃ c ds, to_bytes (pretty_N_go x s) = (c :: ds) ++ to_bytes s ∧
    decimal (c :: ds) (Z.of_N x) ∧ c ≠ "0"%char ∧ 10 ^ Z.of_nat (length ds) ≤ Z.of_N x.
Proof.
  revert s. induction (N.lt_wf_0 x) as [x _ IH]. intros s Hx. rewrite pretty_N_go_step by done.
  pose proof (N.mod_lt x 10 ltac:(lia)) as Hmod. pose proof (N.div_mod x 10 ltac:(lia)) as Hdm.
  destruct (decide (x < 10)%N) as [Hlt|Hge].
  - rewrite N.div_small, N.mod_small by done. rewrite pretty_N_go_0.
    exists (pretty_N_char x), []. pose proof (decimal_snoc [] 0 x decimal_nil Hlt) as Hd.
    split_and!; [done|exact Hd| |simpl; lia].
    assert (x = 1 ∨ x = 2 ∨ x = 3 ∨ x = 4 ∨ x = 5 ∨ x = 6 ∨ x = 7 ∨ x = 8 ∨ x = 9)%N as Hc by lia.
    by destruct_or! Hc; subst.
  - destruct (IH (x / 10)%N (N.div_lt x 10 Hx ltac:(lia)) (String (pretty_N_char (x mod 10)) s))
      as (c & ds & Heq & Hd & Hc & Hlen); [apply N.div_str_pos; lia|].
    exists c, (ds ++ [pretty_N_char (x mod 10)]). split_and!.
    + rewrite Heq. simpl. by rewrite <- app_assoc.
    + replace (Z.of_N x) with (10 * Z.of_N (x / 10) + Z.of_N (x mod 10)) by lia.
      change (c :: ds ++ [pretty_N_char (x mod 10)]) with ((c :: ds) ++ [pretty_N_char (x mod 10)]).
      by apply decimal_snoc.
    + done.
    + rewrite length_app. simpl length. rewrite Nat.add_1_r, Nat2Z.inj_succ, Z.pow_succ_r by lia.
      revert Hlen Hdm. generalize (x / 10)%N as q, (x mod 10)%N as m. intros. nia.
Qed.

Lemma pretty_pos z :
  0 < z → ∃ c ds, to_bytes (pretty z) = c :: ds ∧ decimal (c :: ds) z ∧ c ≠ "0"%char ∧
    10 ^ Z.of_nat (length ds) ≤ z.
Proof.
  intros Hz. destruct z as [|p|p]; try lia.
  destruct (pretty_N_go_decimal (Npos p) "" ltac:(lia)) as (c & ds & Heq & Hd & Hc & Hlen).
  exists c, ds. split_and!; [|done..]. rewrite app_nil_r in Heq. exact Heq.
Qed.
Lemma pretty_nonneg z : 0 ≤ z → ∃ c ds, to_bytes (pretty z) = c :: ds ∧ decimal (c :: ds) z.
Proof.
  intros Hz. destruct (decide (z = 0)) as [->|Hne].
  - exists "0"%char, []. split; [done|]. apply (decimal_snoc [] 0 0); [apply decimal_nil|lia].
  - destruct (pretty_pos z) as (c & ds & ? & ? & _); [lia|]. eauto.
Qed.

Lemma digit_not_sign c : is_digit c = true → is_byte 45 c = false ∧ is_byte 43 c = false.
Proof. unfold is_digit, is_byte. intros Hc. guards. split; apply Z.eqb_neq; lia. Qed.

(** Printing and parsing. *)
Lemma ParseInt_pretty z : is_i64 z → ParseInt (pretty z) = Some z.
Proof.
  intros Hz. unfold ParseInt. destruct (decide (0 ≤ z)) as [Hpos|Hneg].
  - destruct (pretty_nonneg z Hpos) as (c & ds & -> & Hd).
    pose proof Hd as (Hall & _). apply Forall_cons in Hall as [Hc _].
    destruct (digit_not_sign c Hc) as [-> ->]. simpl orb. cbn iota.
    rewrite (decimal_val _ _ Hd). simpl. by rewrite bool_decide_true.
  - destruct z as [|p|p]; try lia.
    destruct (pretty_pos (Zpos p)) as (c & ds & Heq & Hd & _); [lia|].
    assert (to_bytes (pretty (Zneg p)) = "-"%char :: c :: ds) as -> by (rewrite <- Heq; done).
    simpl is_byte. cbn [orb]. rewrite bool_decide_false by done.
    rewrite (decimal_val _ _ Hd). simpl. by rewrite bool_decide_true.
Qed.

(** ** Digits from the left *)

Lemma decimal_cons c ds n :
  is_digit c = true → decimal ds n →
  decimal (c :: ds) (digit c * 10 ^ Z.of_nat (length ds) + n).
Proof.
  intros Hc (Hall & Hn & Hval). unfold decimal. cbn [length].
  rewrite Nat2Z.inj_succ, Z.pow_succ_r by lia.
  assert (0 ≤ digit c ≤ 9) by (unfold is_digit, digit in *; guards; lia).
  split_and!; [by constructor|nia|nia|]. intros acc r. rewrite <- app_comm_cons. cbn [digits_val].
  rewrite Hc, Hval. f_equal. lia.
Qed.
Lemma decimal_exists ds : Forall (λ c, is_digit c = true) ds → ∃ n, decimal ds n.
Proof.
  induction 1 as [|c ds Hc _ [n IH]]; [exists 0; apply decimal_nil|].
  eexists. by apply decimal_cons.
Qed.
Lemma decimal_unique ds n m : decimal ds n → decimal ds m → n = m.
Proof. intros Hn%decimal_val Hm%decimal_val. congruence. Qed.
Lemma decimal_inv c ds n :
  decimal (c :: ds) n → is_digit c = true ∧
  ∃ m, decimal ds m ∧ n = digit c * 10 ^ Z.of_nat (length ds) + m.
Proof.
  intros Hd. pose proof Hd as (Hall & _). apply Forall_cons in Hall as [Hc Hall].
  split; [done|]. destruct (decimal_exists ds Hall) as [m Hm]. exists m. split; [done|].
  eapply decimal_unique; [exact Hd|]. by apply decimal_cons.
Qed.
