(* ===== verification/Sha256.v ===== *)
(** * SHA-256 and its hexadecimal text

    [crypto/sha256.Sum256] and [encoding/hex.EncodeToString]: what the code
    takes checksums of shard files and digests of session tokens with. Words
    are 32-bit values in [Z]. *)
From Stdlib Require Import Ascii.
From S2P Require Import Prelude GoStrings GoNumbers.

(** ** Words *)

Definition word (z : Z) : Z := Z.land z 0xFFFFFFFF.
Definition rotr (x n : Z) : Z := Z.lor (Z.shiftr x n) (word (Z.shiftl x (32 - n))).
Definition ch (x y z : Z) : Z := Z.lxor (Z.land x y) (Z.land (word (Z.lnot x)) z).
Definition maj (x y z : Z) : Z := Z.lxor (Z.lxor (Z.land x y) (Z.land x z)) (Z.land y z).
Definition big_sigma0 (x : Z) : Z := Z.lxor (Z.lxor (rotr x 2) (rotr x 13)) (rotr x 22).
Definition big_sigma1 (x : Z) : Z := Z.lxor (Z.lxor (rotr x 6) (rotr x 11)) (rotr x 25).
Definition small_sigma0 (x : Z) : Z := Z.lxor (Z.lxor (rotr x 7) (rotr x 18)) (Z.shiftr x 3).
Definition small_sigma1 (x : Z) : Z := Z.lxor (Z.lxor (rotr x 17) (rotr x 19)) (Z.shiftr x 10).

(** FIPS 180-4 defines the constants: the first 32 bits of the fractional parts
    of the cube roots of the first 64 primes, and of the square roots of the
    first eight. [floor_root k n] is the k-th root of [n] rounded down. *)
Definition floor_root (k n : Z) : Z :=
  foldr (λ i r, let r' := r + 2 ^ i in if r' ^ k <=? n then r' else r) 0 (seqZ 0 35).
Definition primes : list Z :=
  List.filter (λ n, forallb (λ d, negb (n mod d =? 0)) (seqZ 2 (n - 2))) (seqZ 2 310).
Definition root_bits (k p : Z) : Z := word (floor_root k (p * 2 ^ (32 * k))).
Definition round_constants : list Z := Eval vm_compute in root_bits 3 <$> primes.
Definition initial_state : list Z := Eval vm_compute in root_bits 2 <$> take 8 primes.

(** ** Blocks *)

(** The message, a 1 bit, zeros, and the length in bits as eight bytes. *)
Definition big_endian (width : nat) (z : Z) : list Z :=
  (λ i, Z.land (Z.shiftr z (8 * (Z.of_nat width - 1 - Z.of_nat i))) 255) <$> seq 0 width.
Definition padded (msg : list Z) : list Z :=
  let n := Z.of_nat (length msg) in
  msg ++ [0x80] ++ replicate (Z.to_nat ((55 - n) mod 64)) 0 ++ big_endian 8 (8 * n).
Fixpoint words (l : list Z) : list Z :=
  match l with
  | a :: b :: c :: d :: l => (a * 0x1000000 + b * 0x10000 + c * 0x100 + d) :: words l
  | _ => []
  end.

(** The message schedule, newest word first: [w] holds the last sixteen. *)
Fixpoint schedule (n : nat) (w : list Z) : list Z :=
  match n with
  | O => []
  | S n =>
      match w with
      | [w15; w14; w13; w12; w11; w10; w9; w8; w7; w6; w5; w4; w3; w2; w1; w0] =>
          w0 :: schedule n
            [word (small_sigma1 w14 + w9 + small_sigma0 w1 + w0); w15; w14; w13; w12; w11; w10; w9;
             w8; w7; w6; w5; w4; w3; w2; w1]
      | _ => []
      end
  end.
Definition round (s : list Z) (kw : Z * Z) : list Z :=
  match s with
  | [a; b; c; d; e; f; g; h] =>
      let t1 := h + big_sigma1 e + ch e f g + kw.1 + kw.2 in
      let t2 := big_sigma0 a + maj a b c in
      [word (t1 + t2); a; b; c; word (d + t1); e; f; g]
  | _ => s
  end.
Definition block (s : list Z) (w : list Z) : list Z :=
  zip_with (λ x y, word (x + y)) s
    (foldl round s (zip round_constants (schedule 64 (rev w)))).
Fixpoint blocks (fuel : nat) (s : list Z) (w : list Z) : list Z :=
  match fuel, w with
  | S fuel, _ :: _ => blocks fuel (block s (take 16 w)) (drop 16 w)
  | _, _ => s
  end.

(** ** The digest *)

Definition Sum256 (msg : bytes) : list Z :=
  let w := words (padded (byte_val <$> msg)) in
  blocks (length w) initial_state w ≫= big_endian 4.
Definition hex_nibble (n : Z) : ascii := byte (if n <? 10 then 48 + n else 87 + n).
Definition EncodeToString (l : list Z) : string :=
  of_bytes (l ≫= λ b, [hex_nibble (b / 16); hex_nibble (b mod 16)]).
Definition sha256_hex (msg : bytes) : string := EncodeToString (Sum256 msg).

(** The test vectors of FIPS 180-2. *)
Example sha256_empty : sha256_hex [] = "e3b0c44298fc1c149afbf4c8996fb92427ae41e4649b934ca495991b7852b855".
Proof. vm_compute. reflexivity. Qed.
Example sha256_abc :
  sha256_hex (to_bytes "abc") = "ba7816bf8f01cfea414140de5dae2223b00361a396177a9cb410ff61f20015ad".
Proof. vm_compute. reflexivity. Qed.
Example sha256_two_blocks :
  sha256_hex (to_bytes "abcdbcdecdefdefgefghfghighijhijkijkljklmklmnlmnomnopnopq") =
  "248d6a61d20638b8e5c026930c3e6039a33ce45964ff2167f6ecedd419db06c1".
Proof. vm_compute. reflexivity. Qed.
