(* ===== verification/GoTime.v ===== *)
(** * Calendar dates and time texts

    What the program uses of Go's [time] package beyond instants: the zone a
    time is read in, its date (shard files are named after it) and how two
    times compare as texts. The index stores times as RFC 3339 texts with
    nanoseconds ([time.RFC3339Nano]) and SQLite compares them byte by byte. The
    readings are in the years 0 to 9999, the range of the format. *)
From S2P Require Import Prelude GoErrors.

(** ** Zones

    [time.Local] as an offset of whole minutes east of UTC, the same at any
    time: UTC where no zone is set, as in the image of the Dockerfile, eight
    hours in Shenzhen. *)
Class Zone : Type := {
  zone_minutes : Z;
  zone_bound : (-1440 <? zone_minutes) && (zone_minutes <? 1440) = true
}.
Definition utc : Zone := {| zone_minutes := 0; zone_bound := eq_refl |}.
Definition shenzhen : Zone := {| zone_minutes := 480; zone_bound := eq_refl |}.

(** ** Calendar *)

Definition Day : Duration := 24 * Hour.

Definition is_leap (y : Z) : bool :=
  (y mod 4 =? 0) && (negb (y mod 100 =? 0) || (y mod 400 =? 0)).
Definition year_len (y : Z) : Z := if is_leap y then 366 else 365.
Definition month_len (y m : Z) : Z :=
  if m =? 2 then (if is_leap y then 29 else 28)
  else if (m =? 4) || (m =? 6) || (m =? 9) || (m =? 11) then 30 else 31.

(** The year and the day of the year of the day [d] counted from the first of
    January of year [y]; 400 years are 146097 days. *)
Fixpoint go_year (fuel : nat) (y d : Z) : Z * Z :=
  match fuel with
  | O => (y, d)
  | S fuel => if d <? year_len y then (y, d) else go_year fuel (y + 1) (d - year_len y)
  end.
Fixpoint go_month (fuel : nat) (y m d : Z) : Z * Z :=
  match fuel with
  | O => (m, d)
  | S fuel => if d <? month_len y m then (m, d) else go_month fuel y (m + 1) (d - month_len y m)
  end.
Definition days_per_400_years : Z := 146097.

(** The civil date of the day [n] counted from 1 January of year 1. *)
Definition civil (n : Z) : Z * Z * Z :=
  let '(y, d) := go_year 400 (1 + 400 * (n / days_per_400_years)) (n mod days_per_400_years) in
  let '(m, d) := go_month 12 y 1 d in
  (y, m, d + 1).

(** The [%0<n>d] verbs of [fmt]. *)
Fixpoint zeros (n : nat) : string := match n with O => "" | S n => "0" +:+ zeros n end.
Definition pad (width : nat) (z : Z) : string :=
  zeros (width - String.length (pretty z)) +:+ pretty z.

(** [t.Format("2006-01-02")] and [t.Format("2006-01")] of a time that reads
    [t]. *)
Definition date_text (t : Time) : string :=
  let '(y, m, d) := civil (t / Day) in
  pad 4 y +:+ "-" +:+ pad 2 m +:+ "-" +:+ pad 2 d.
Definition year_month_text (t : Time) : string :=
  let '(y, m, _) := civil (t / Day) in pad 4 y +:+ "-" +:+ pad 2 m.

(** ** Texts of times *)

(** A time with the offset it is read at. *)
Record Stamp : Type := { sp_time : Time; sp_minutes : Z }.
Definition zero_stamp : Stamp := {| sp_time := zero_time; sp_minutes := 0 |}.
(** What its clock and calendar show, as an instant of UTC. *)
Definition reading (s : Stamp) : Time := sp_time s + sp_minutes s * Minute.

(** The nanoseconds without trailing zeros, nothing for a whole second. The
    part of the text before them has a fixed width. *)
Fixpoint trim_zeros (fuel : nat) (n : Z) (width : nat) : Z * nat :=
  match fuel with
  | O => (n, width)
  | S fuel => if n mod 10 =? 0 then trim_zeros fuel (n / 10) (width - 1) else (n, width)
  end.
Definition frac_text (t : Time) : string :=
  let n := t mod Second in
  if n =? 0 then ""
  else let '(n, width) := trim_zeros 9 n 9 in "." +:+ pad width n.
(** The verb [Z07:00]. *)
Definition offset_text (minutes : Z) : string :=
  if minutes =? 0 then "Z"
  else (if minutes <? 0 then "-" else "+") +:+ pad 2 (Z.abs minutes / 60) +:+ ":" +:+ pad 2 (Z.abs minutes mod 60).
Definition suffix_text (s : Stamp) : string := frac_text (reading s) +:+ offset_text (sp_minutes s).

(** [formatTime(s) < formatTime(u)] and [<=] as SQLite compares texts. The zero
    time is the empty text, which is less than every other. *)
Definition stamp_ltb (s u : Stamp) : bool :=
  if IsZero (sp_time u) then false
  else if IsZero (sp_time s) then true
  else if reading s / Second =? reading u / Second then String.ltb (suffix_text s) (suffix_text u)
  else reading s / Second <? reading u / Second.
Definition stamp_leb (s u : Stamp) : bool := negb (stamp_ltb u s).

(** The times a text can represent: the years 0 to 9999. *)
Definition min_time : Time := - (366 * Day).
Definition max_time : Time := 315537897600 * Second - 1.

Section zone.
Context `{Zone}.

(** A time in the zone of the process. Go's zero value has none: it is read in
    UTC. *)
Definition local (t : Time) : Stamp :=
  {| sp_time := t; sp_minutes := if IsZero t then 0 else zone_minutes |}.
Definition text_ltb (t u : Time) : bool := stamp_ltb (local t) (local u).
Definition text_leb (t u : Time) : bool := negb (text_ltb u t).

Definition formattable (t : Time) : Prop := min_time ≤ reading (local t) ≤ max_time.
#[export] Instance formattable_dec t : Decision (formattable t) := _.
End zone.

(** ** Facts *)

Example civil_epoch : civil (1700000000 / 86400 + 719162) = (2023, 11, 14).
Proof. reflexivity. Qed.
Example date_text_leap : date_text ((719162 + 11016) * Day) = "2000-02-29".
Proof. vm_compute. reflexivity. Qed.

Lemma local_zone `{Zone} t : t ≠ 0 → local t = {| sp_time := t; sp_minutes := zone_minutes |}.
Proof. intros Ht. unfold local, IsZero. by rewrite (proj2 (Z.eqb_neq _ _)). Qed.
Lemma reading_seconds s : reading s / Second = sp_time s / Second + sp_minutes s * 60.
Proof.
  unfold reading. change Minute with (60 * Second). rewrite Z.mul_assoc. by apply Z.div_add.
Qed.
Lemma stamp_ltb_asym s u : stamp_ltb s u = true → stamp_ltb u s = false.
Proof.
  unfold stamp_ltb. rewrite (Z.eqb_sym (reading u / Second)).
  destruct (IsZero _), (IsZero _); try done. destruct (Z.eqb_spec (reading s / Second) (reading u / Second)).
  - unfold String.ltb. rewrite (String.compare_antisym (suffix_text s) (suffix_text u)).
    by destruct (String.compare _ _).
  - rewrite Z.ltb_lt, Z.ltb_ge. lia.
Qed.
Lemma text_ltb_asym `{Zone} t u : text_ltb t u = true → text_ltb u t = false.
Proof. apply stamp_ltb_asym. Qed.
(** Times of different seconds compare as they should. *)
Lemma text_ltb_seconds `{Zone} t u :
  0 < t → 0 < u → t / Second ≠ u / Second → text_ltb t u = (t <? u).
Proof.
  intros Ht Hu Hne. unfold text_ltb, stamp_ltb. rewrite !reading_seconds, !local_zone by lia. simpl. unfold IsZero.
  rewrite (proj2 (Z.eqb_neq u 0)), (proj2 (Z.eqb_neq t 0)) by lia.
  rewrite (proj2 (Z.eqb_neq _ _)) by lia. unfold Second in *.
  destruct (Z.ltb_spec (t / 1000000000 + zone_minutes * 60) (u / 1000000000 + zone_minutes * 60)),
    (Z.ltb_spec t u); try done; exfalso.
  - assert (u / 1000000000 ≤ t / 1000000000) by (apply Z.div_le_mono; lia). lia.
  - assert (t / 1000000000 ≤ u / 1000000000) by (apply Z.div_le_mono; lia). lia.
Qed.
(** Within a second they need not in UTC: half a second sorts before the whole
    one, since the point sorts before the [Z]. The sign of another zone sorts
    before the point. *)
Example text_ltb_same_second :
  (λ z, @text_ltb z (100 * Second) (100 * Second + 500000000)) <$> [utc; shenzhen] = [false; true].
Proof. vm_compute. reflexivity. Qed.
(** Times of different offsets do not compare as instants either: noon in
    Shenzhen is four in the morning of UTC. *)
Example stamp_ltb_offsets : let noon := (719162 * 24 + 12) * Hour in
  stamp_ltb {| sp_time := noon - 8 * Hour; sp_minutes := 480 |} {| sp_time := noon - Hour; sp_minutes := 0 |} = false.
Proof. vm_compute. reflexivity. Qed.
Lemma text_ltb_irrefl `{Zone} t : text_ltb t t = false.
Proof. destruct (text_ltb t t) eqn:E; [|done]. by rewrite text_ltb_asym in E. Qed.
