(* ===== verification/Json.v ===== *)
(** * JSON texts, as [encoding/json] writes and reads them

    The trees of JSON values with their strings and numbers as they are
    written ("raw"), the compact text [json.Marshal] gives a tree, and the
    parser behind [json.Unmarshal]: the grammar of RFC 8259 with Go's limit on
    nesting. Strings are quoted with the escapes of [json.Marshal] (control
    characters, the HTML characters and the line separators U+2028 and
    U+2029; bytes that are not UTF-8 become U+FFFD). *)
From Stdlib Require Import Ascii.
From S2P Require Import Prelude GoStrings GoNumbers.

Definition dquote : ascii := "034".
Definition backslash : ascii := "\".

(** ** Strings *)

Definition hex_digit (n : Z) : ascii := byte (if n <? 10 then 48 + n else 87 + n).
Definition hex_val (c : ascii) : option Z :=
  let b := byte_val c in
  if (48 <=? b) && (b <=? 57) then Some (b - 48)
  else if (97 <=? b) && (b <=? 102) then Some (b - 87)
  else if (65 <=? b) && (b <=? 70) then Some (b - 55)
  else None.

(** The bytes [htmlSafeSet] lists. *)
Definition html_safe (c : ascii) : bool :=
  (32 <=? byte_val c) && negb (is_byte 34 c) && negb (is_byte 92 c)
  && negb (is_byte 60 c) && negb (is_byte 62 c) && negb (is_byte 38 c).
Definition escape_byte (c : ascii) : bytes :=
  if html_safe c then [c]
  else backslash ::
    (if is_byte 34 c || is_byte 92 c then [c]
     else if is_byte 8 c then ["b"%char] else if is_byte 12 c then ["f"%char]
     else if is_byte 10 c then ["n"%char] else if is_byte 13 c then ["r"%char]
     else if is_byte 9 c then ["t"%char]
     else to_bytes "u00" ++ [hex_digit (byte_val c / 16); hex_digit (byte_val c mod 16)]).
Definition escape_rune (r : rune) : bytes :=
  match r with
  | Invalid => backslash :: to_bytes "ufffd"
  | Valid [c] => escape_byte c
  | Valid [c1; c2; c3] =>
      if is_byte 0xE2 c1 && is_byte 0x80 c2 && (is_byte 0xA8 c3 || is_byte 0xA9 c3)
      then backslash :: to_bytes "u202" ++ [hex_digit (byte_val c3 mod 16)]
      else [c1; c2; c3]
  | Valid enc => enc
  end.
(** The text between the quotes. *)
Definition escape (s : bytes) : bytes := runes s ≫= escape_rune.

(** [utf8.AppendRune] *)
Definition encode_rune (r : Z) : bytes :=
  if r <? 0x80 then [byte r]
  else if r <? 0x800 then [byte (0xC0 + r / 0x40); byte (0x80 + r mod 0x40)]
  else if (0xD800 <=? r) && (r <=? 0xDFFF) then replacement
  else if r <? 0x10000 then
    [byte (0xE0 + r / 0x1000); byte (0x80 + r / 0x40 mod 0x40); byte (0x80 + r mod 0x40)]
  else
    [byte (0xF0 + r / 0x40000); byte (0x80 + r / 0x1000 mod 0x40);
     byte (0x80 + r / 0x40 mod 0x40); byte (0x80 + r mod 0x40)].
Definition hex4 (a b c d : ascii) : option Z :=
  a ← hex_val a; b ← hex_val b; c ← hex_val c; d ← hex_val d;
  mret (0x1000 * a + 0x100 * b + 0x10 * c + d).
(** [utf16.DecodeRune], for the two halves of a surrogate pair *)
Definition utf16_decode (hi lo : Z) : option Z :=
  if (0xD800 <=? hi) && (hi <? 0xDC00) && (0xDC00 <=? lo) && (lo <? 0xE000)
  then Some ((hi - 0xD800) * 0x400 + (lo - 0xDC00) + 0x10000) else None.
Definition simple_escape (c : ascii) : option ascii :=
  if is_byte 34 c || is_byte 92 c || is_byte 47 c then Some c
  else if is_byte 98 c then Some (byte 8) else if is_byte 102 c then Some (byte 12)
  else if is_byte 110 c then Some (byte 10) else if is_byte 114 c then Some (byte 13)
  else if is_byte 116 c then Some (byte 9) else None.
(** The escapes of a raw string decoded. *)
Fixpoint unescape (s : bytes) : bytes :=
  match s with
  | [] => []
  | c :: s1 =>
      if negb (is_byte 92 c) then c :: unescape s1
      else match s1 with
           | e :: s2 =>
               if negb (is_byte 117 e) then option_list (simple_escape e) ++ unescape s2
               else match s2 with
                    | h1 :: h2 :: h3 :: h4 :: s3 =>
                        let hi := default 0 (hex4 h1 h2 h3 h4) in
                        match s3 with
                        | b :: u :: l1 :: l2 :: l3 :: l4 :: s4 =>
                            match (if is_byte 92 b && is_byte 117 u
                                   then hex4 l1 l2 l3 l4 ≫= utf16_decode hi else None) with
                            | Some r => encode_rune r ++ unescape s4
                            | None => encode_rune hi ++ unescape s3
                            end
                        | _ => encode_rune hi ++ unescape s3
                        end
                    | _ => []
                    end
           | [] => []
           end
  end.
(** The Go string a raw string denotes: every byte outside a valid encoding is
    U+FFFD (escapes denote whole encodings, so cleaning the decoded text does
    what cleaning the text around the escapes does). *)
Definition unquote (raw : bytes) : bytes := clean_bytes (unescape raw).

(** ** Values *)

#[local] Unset Elimination Schemes.
Inductive json : Type :=
| JNull
| JBool (b : bool)
| JNum (raw : bytes)
| JStr (raw : bytes)
| JArr (l : list json)
| JObj (l : list (bytes * json)).

Section json_ind.
Context (P : json → Prop).
Hypothesis P_null : P JNull.
Hypothesis P_bool : ∀ b, P (JBool b).
Hypothesis P_num : ∀ raw, P (JNum raw).
Hypothesis P_str : ∀ raw, P (JStr raw).
Hypothesis P_arr : ∀ l, Forall P l → P (JArr l).
Hypothesis P_obj : ∀ l, Forall (λ m, P m.2) l → P (JObj l).
Fixpoint json_ind (j : json) : P j :=
  match j with
  | JNull => P_null
  | JBool b => P_bool b
  | JNum raw => P_num raw
  | JStr raw => P_str raw
  | JArr l =>
      P_arr l ((fix go (l : list json) : Forall P l :=
        match l with
        | [] => List.Forall_nil _
        | j :: l => List.Forall_cons _ _ _ (json_ind j) (go l)
        end) l)
  | JObj l =>
      P_obj l ((fix go (l : list (bytes * json)) : Forall (λ m, P m.2) l :=
        match l with
        | [] => List.Forall_nil _
        | m :: l => List.Forall_cons _ _ _ (json_ind m.2) (go l)
        end) l)
  end.
End json_ind.

(** What [json.Marshal] writes for Go values. *)
Definition jstring (s : string) : json := JStr (escape (to_bytes s)).
Definition jint (z : Z) : json := JNum (to_bytes (pretty z)).
Definition jfield (name : string) (v : json) : bytes * json := (escape (to_bytes name), v).

Section printing.
Definition quoted (raw : bytes) : bytes := dquote :: raw ++ [dquote].
(** [a,b,c] *)
Fixpoint joined (l : list bytes) : bytes :=
  match l with
  | [] => []
  | [t] => t
  | t :: l => t ++ ","%char :: joined l
  end.
Fixpoint print (j : json) : bytes :=
  match j with
  | JNull => to_bytes "null"
  | JBool true => to_bytes "true"
  | JBool false => to_bytes "false"
  | JNum raw => raw
  | JStr raw => quoted raw
  | JArr l => "["%char :: joined (print <$> l) ++ ["]"%char]
  | JObj l => "{"%char :: joined ((λ m, quoted m.1 ++ ":"%char :: print m.2) <$> l) ++ ["}"%char]
  end.
End printing.

(** ** The parser *)

Definition is_space (c : ascii) : bool :=
  is_byte 32 c || is_byte 9 c || is_byte 10 c || is_byte 13 c.
Fixpoint skip_space (s : bytes) : bytes :=
  match s with
  | c :: r => if is_space c then skip_space r else s
  | [] => []
  end.
Fixpoint span_digits (s : bytes) : bytes * bytes :=
  match s with
  | c :: r => if is_digit c then let '(a, b) := span_digits r in (c :: a, b) else ([], s)
  | [] => ([], [])
  end.

(** The raw text of a string up to its closing quote. *)
Fixpoint scan_string (s : bytes) : option (bytes * bytes) :=
  match s with
  | [] => None
  | c :: s1 =>
      if is_byte 34 c then Some ([], s1)
      else if byte_val c <? 32 then None
      else if negb (is_byte 92 c) then
        match scan_string s1 with Some (t, r) => Some (c :: t, r) | None => None end
      else match s1 with
           | e :: s2 =>
               if is_byte 117 e then
                 match s2 with
                 | h1 :: h2 :: h3 :: h4 :: s3 =>
                     match hex4 h1 h2 h3 h4, scan_string s3 with
                     | Some _, Some (t, r) => Some (c :: e :: h1 :: h2 :: h3 :: h4 :: t, r)
                     | _, _ => None
                     end
                 | _ => None
                 end
               else match simple_escape e, scan_string s2 with
                    | Some _, Some (t, r) => Some (c :: e :: t, r)
                    | _, _ => None
                    end
           | [] => None
           end
  end.

(** [-? (0 | [1-9][0-9]* ) (\.[0-9]+)? ([eE][+-]?[0-9]+)?] *)
Definition scan_int (s : bytes) : option (bytes * bytes) :=
  match s with
  | c :: r =>
      if is_byte 48 c then Some ([c], r)
      else if is_digit c then let '(a, b) := span_digits r in Some (c :: a, b)
      else None
  | [] => None
  end.
Definition scan_digits (s : bytes) : option (bytes * bytes) :=
  match span_digits s with ([], _) => None | (a, b) => Some (a, b) end.
Definition scan_frac (s : bytes) : option (bytes * bytes) :=
  match s with
  | c :: r =>
      if is_byte 46 c then '(a, b) ← scan_digits r; mret (c :: a, b) else Some ([], s)
  | [] => Some ([], [])
  end.
Definition scan_exp (s : bytes) : option (bytes * bytes) :=
  match s with
  | c :: r =>
      if is_byte 101 c || is_byte 69 c then
        match r with
        | g :: r' =>
            if is_byte 43 g || is_byte 45 g
            then '(a, b) ← scan_digits r'; mret (c :: g :: a, b)
            else '(a, b) ← scan_digits r; mret (c :: a, b)
        | [] => None
        end
      else Some ([], s)
  | [] => Some ([], [])
  end.
Definition scan_number (s : bytes) : option (bytes * bytes) :=
  let '(sign, s0) :=
    match s with
    | c :: r => if is_byte 45 c then ([c], r) else ([], s)
    | [] => ([], [])
    end in
  '(a, s1) ← scan_int s0;
  '(b, s2) ← scan_frac s1;
  '(c, s3) ← scan_exp s2;
  mret (sign ++ a ++ b ++ c, s3).

Fixpoint strip (p s : bytes) : option bytes :=
  match p, s with
  | [], _ => Some s
  | a :: p, b :: s => if Ascii.eqb a b then strip p s else None
  | _ :: _, [] => None
  end.

(** [fuel] bounds the steps, one or more bytes each; [depth] is what is left of
    the limit on nesting. *)
Fixpoint parse_value (fuel : nat) (depth : Z) (s : bytes) : option (json * bytes) :=
  match fuel with
  | O => None
  | S fuel =>
      match skip_space s with
      | [] => None
      | c :: s1 =>
          if is_byte 123 c then
            if depth <=? 0 then None
            else match skip_space s1 with
                 | d :: r =>
                     if is_byte 125 d then Some (JObj [], r)
                     else '(l, r) ← parse_members fuel (depth - 1) s1; mret (JObj l, r)
                 | [] => None
                 end
          else if is_byte 91 c then
            if depth <=? 0 then None
            else match skip_space s1 with
                 | d :: r =>
                     if is_byte 93 d then Some (JArr [], r)
                     else '(l, r) ← parse_elems fuel (depth - 1) s1; mret (JArr l, r)
                 | [] => None
                 end
          else if is_byte 34 c then '(t, r) ← scan_string s1; mret (JStr t, r)
          else if is_byte 116 c then r ← strip (to_bytes "rue") s1; mret (JBool true, r)
          else if is_byte 102 c then r ← strip (to_bytes "alse") s1; mret (JBool false, r)
          else if is_byte 110 c then r ← strip (to_bytes "ull") s1; mret (JNull, r)
          else '(t, r) ← scan_number (c :: s1); mret (JNum t, r)
      end
  end
with parse_elems (fuel : nat) (depth : Z) (s : bytes) : option (list json * bytes) :=
  match fuel with
  | O => None
  | S fuel =>
      '(v, r) ← parse_value fuel depth s;
      match skip_space r with
      | d :: r1 =>
          if is_byte 44 d then '(l, r2) ← parse_elems fuel depth r1; mret (v :: l, r2)
          else if is_byte 93 d then Some ([v], r1)
          else None
      | [] => None
      end
  end
with parse_members (fuel : nat) (depth : Z) (s : bytes) : option (list (bytes * json) * bytes) :=
  match fuel with
  | O => None
  | S fuel =>
      match skip_space s with
      | q :: s1 =>
          if negb (is_byte 34 q) then None
          else
            '(k, r) ← scan_string s1;
            match skip_space r with
            | c :: r1 =>
                if negb (is_byte 58 c) then None
                else
                  '(v, r2) ← parse_value fuel depth r1;
                  match skip_space r2 with
                  | d :: r3 =>
                      if is_byte 44 d then
                        '(l, r4) ← parse_members fuel depth r3; mret ((k, v) :: l, r4)
                      else if is_byte 125 d then Some ([(k, v)], r3)
                      else None
                  | [] => None
                  end
            | [] => None
            end
      | [] => None
      end
  end.

(** [maxNestingDepth] of encoding/json *)
Definition maxNestingDepth : Z := 10000.
Definition parse (s : bytes) : option json :=
  '(j, r) ← parse_value (2 * S (length s)) maxNestingDepth s;
  if bool_decide (skip_space r = []) then Some j else None.

(** ** Decoding into Go values *)

(** [foldName]: how keys are compared with field names when none is equal;
    U+212A folds to K and U+017F to S. *)
Fixpoint fold_name (s : bytes) : bytes :=
  match s with
  | [] => []
  | c1 :: r1 =>
      match r1 with
      | c2 :: r2 =>
          if is_byte 0xC5 c1 && is_byte 0xBF c2 then "S"%char :: fold_name r2
          else match r2 with
               | c3 :: r3 =>
                   if is_byte 0xE2 c1 && is_byte 0x84 c2 && is_byte 0xAA c3
                   then "K"%char :: fold_name r3
                   else upper_byte c1 :: fold_name r1
               | [] => upper_byte c1 :: fold_name r1
               end
      | [] => [upper_byte c1]
      end
  end.

(** A decoder changes a Go value to what the JSON value says, or reports that
    the JSON value has the wrong type. *)
Abbreviation decoder A := (json → A → option A).

Section decode.
Context {R : Type}.
(** The fields of a struct: their JSON names, and how a value is stored. *)
Abbreviation fields := (list (string * decoder R)).

Definition find_field (table : fields) (key : bytes) : option (decoder R) :=
  match List.find (λ f, bool_decide (to_bytes f.1 = key)) table with
  | Some f => Some f.2
  | None =>
      snd <$> List.find (λ f, bool_decide (fold_name (to_bytes f.1) = fold_name key)) table
  end.
(** Unknown keys are skipped; of equal keys the last one stays. *)
Fixpoint decode_members (table : fields) (l : list (bytes * json)) (r : R) : option R :=
  match l with
  | [] => Some r
  | (key, v) :: l =>
      match find_field table (unquote key) with
      | None => decode_members table l r
      | Some set => r ← set v r; decode_members table l r
      end
  end.
Definition decode_struct (table : fields) : decoder R := λ j r,
  match j with
  | JObj l => decode_members table l r
  | JNull => Some r
  | _ => None
  end.

Definition via {A} (dec : decoder A) (get : R → A) (put : A → R → R) : decoder R := λ j r,
  a ← dec j (get r); mret (put a r).
End decode.

Definition dec_string : decoder string := λ j a,
  match j with
  | JStr raw => Some (of_bytes (unquote raw))
  | JNull => Some a
  | _ => None
  end.
Definition dec_bool : decoder bool := λ j a,
  match j with
  | JBool b => Some b
  | JNull => Some a
  | _ => None
  end.
Definition dec_int : decoder Z := λ j a,
  match j with
  | JNum raw => ParseInt (of_bytes raw)
  | JNull => Some a
  | _ => None
  end.
(** A slice of strings; a null element is the empty string. *)
Definition dec_strings : decoder (list string) := λ j a,
  match j with
  | JArr l => mapM (λ v, dec_string v "") l
  | JNull => Some []
  | _ => None
  end.

(** ** Examples *)

Example parse_ex :
  parse (to_bytes " [true, null , -12 ,[ ]] ") =
  Some (JArr [JBool true; JNull; JNum (to_bytes "-12"); JArr []]).
Proof. vm_compute. reflexivity. Qed.
Example escape_ex :
  print (jstring "a<b\c") = quoted (to_bytes "a\u003cb\\c").
Proof. vm_compute. reflexivity. Qed.
Example unquote_ex :
  unquote (to_bytes "\ud83d\ude00\n") =
  [byte 0xF0; byte 0x9F; byte 0x98; byte 0x80; byte 10].
Proof. vm_compute. reflexivity. Qed.
Example parse_trailing : parse (to_bytes "1 2") = None.
Proof. vm_compute. reflexivity. Qed.
