(* ===== verification/JsonFacts.v ===== *)
(** * JSON texts: what is written is what is read

    Cleaning UTF-8 is idempotent, unquoting reverts quoting up to cleaning,
    and the parser reads back every tree it is given in print. *)
From Stdlib Require Import Ascii.
From S2P Require Import Prelude GoStrings GoNumbers Json.

(** ** UTF-8 *)

Definition valid_enc (enc : bytes) : bool :=
  match enc with
  | [c1] => between 0 0x7F c1
  | [c1; c2] => negb (between 0 0x7F c1) && seq2 c1 c2
  | [c1; c2; c3] => negb (between 0 0x7F c1) && negb (seq2 c1 c2) && seq3 c1 c2 c3
  | [c1; c2; c3; c4] =>
      negb (between 0 0x7F c1) && negb (seq2 c1 c2) && negb (seq3 c1 c2 c3) && seq4 c1 c2 c3 c4
  | _ => false
  end.

(** One step of [utf8.DecodeRune]. *)
Inductive rune_step : bytes → Prop :=
| step_nil : rune_step []
| step_valid enc r :
    valid_enc enc = true → runes (enc ++ r) = Valid enc :: runes r → rune_step (enc ++ r)
| step_invalid c r : runes (c :: r) = Invalid :: runes r → rune_step (c :: r).

Lemma runes_valid enc r : valid_enc enc = true → runes (enc ++ r) = Valid enc :: runes r.
Proof.
  destruct enc as [|c1 [|c2 [|c3 [|c4 [|]]]]]; try done; simpl; intros Hv; guards;
    repeat match goal with H : ?b = _ |- _ => rewrite H; clear H end; done.
Qed.
Lemma valid_step enc r : valid_enc enc = true → rune_step (enc ++ r).
Proof. intros Hv. apply step_valid; [done|]. by apply runes_valid. Qed.
Lemma rune_stepP s : rune_step s.
Proof.
  destruct s as [|c1 r1]; [apply step_nil|].
  destruct (between 0 0x7F c1) eqn:H1; [by apply (valid_step [c1])|].
  destruct r1 as [|c2 r2]; [apply step_invalid; simpl; by rewrite H1|].
  destruct (seq2 c1 c2) eqn:H2; [apply (valid_step [c1; c2]); simpl; by rewrite H1, H2|].
  destruct r2 as [|c3 r3]; [apply step_invalid; simpl; by rewrite H1, H2|].
  destruct (seq3 c1 c2 c3) eqn:H3;
    [apply (valid_step [c1; c2; c3]); simpl; by rewrite H1, H2, H3|].
  destruct r3 as [|c4 r4]; [apply step_invalid; simpl; by rewrite H1, H2, H3|].
  destruct (seq4 c1 c2 c3 c4) eqn:H4.
  - apply (valid_step [c1; c2; c3; c4]). simpl. by rewrite H1, H2, H3, H4.
  - apply step_invalid. change (runes (c1 :: c2 :: c3 :: c4 :: r4)) with
      (if between 0 0x7F c1 then Valid [c1] :: runes (c2 :: c3 :: c4 :: r4)
       else if seq2 c1 c2 then Valid [c1; c2] :: runes (c3 :: c4 :: r4)
       else if seq3 c1 c2 c3 then Valid [c1; c2; c3] :: runes (c4 :: r4)
       else if seq4 c1 c2 c3 c4 then Valid [c1; c2; c3; c4] :: runes r4
       else Invalid :: runes (c2 :: c3 :: c4 :: r4)).
    by rewrite H1, H2, H3, H4.
Qed.

(** Induction over the runes of a sequence. *)
Lemma runes_induction (P : bytes → list rune → Prop) :
  P [] [] →
  (∀ enc r, valid_enc enc = true → P r (runes r) → P (enc ++ r) (Valid enc :: runes r)) →
  (∀ c r, P r (runes r) → P (c :: r) (Invalid :: runes r)) →
  ∀ s, P s (runes s).
Proof.
  intros Hnil Hvalid Hinvalid s.
  induction s as [s IH] using (well_founded_induction (well_founded_ltof _ length)).
  unfold ltof in IH. destruct (rune_stepP s) as [|enc r Hv Hr|c r Hr].
  - done.
  - rewrite Hr. apply Hvalid; [done|]. apply IH. rewrite length_app.
    destruct enc; [done|]. simpl. lia.
  - rewrite Hr. apply Hinvalid, IH. simpl. lia.
Qed.

Lemma clean_valid enc r : valid_enc enc = true → clean_bytes (enc ++ r) = enc ++ clean_bytes r.
Proof. intros Hv. unfold clean_bytes. by rewrite runes_valid. Qed.
Lemma clean_idem s : clean_bytes (clean_bytes s) = clean_bytes s.
Proof.
  unfold clean_bytes at 2 3. pattern s, (runes s). apply runes_induction; [done|..]; intros;
    rewrite bind_cons; cbn [rune_bytes]; rewrite clean_valid by done; by f_equal.
Qed.

(** ** Quoting *)

(** The forms of an escaped byte. *)
Definition escape_byte_ok (c : ascii) : bool :=
  match escape_byte c with
  | [x] => negb (is_byte 92 x) && negb (is_byte 34 x) && (32 <=? byte_val x) && Ascii.eqb x c
  | [b; e] =>
      is_byte 92 b && negb (is_byte 117 e) && bool_decide (simple_escape e = Some c)
  | [b; u; h1; h2; h3; h4] =>
      is_byte 92 b && is_byte 117 u &&
      match hex4 h1 h2 h3 h4 with
      | Some v => bool_decide (encode_rune v = [c]) && (v <? 0xD800)
      | None => false
      end
  | _ => false
  end.
Lemma escape_byteP c : between 0 0x7F c = true → escape_byte_ok c = true.
Proof. destruct c as [[] [] [] [] [] [] [] []]; vm_compute; done. Qed.

Lemma utf16_decode_low hi lo : hi < 0xD800 ∨ 0xDC00 ≤ hi → utf16_decode hi lo = None.
Proof.
  intros Hhi. unfold utf16_decode. destruct (_ && _) eqn:Hc; [|done]. guards. lia.
Qed.
Lemma unescape_u b u h1 h2 h3 h4 v r :
  is_byte 92 b = true → is_byte 117 u = true → hex4 h1 h2 h3 h4 = Some v →
  v < 0xD800 ∨ 0xDC00 ≤ v →
  unescape (b :: u :: h1 :: h2 :: h3 :: h4 :: r) = encode_rune v ++ unescape r.
Proof.
  intros Hb Hu Hh Hv. cbn [unescape]. rewrite Hb, Hu, Hh. simpl negb. cbn iota.
  change (default 0 (Some v)) with v.
  destruct r as [|b' [|u' [|l1 [|l2 [|l3 [|l4 r]]]]]]; try done.
  destruct (is_byte 92 b' && is_byte 117 u'); [|done].
  destruct (hex4 l1 l2 l3 l4) as [lo|]; [|done]. simpl. by rewrite utf16_decode_low.
Qed.

(** A sequence without backslash and control characters stands for itself. *)
Definition plain (c : ascii) : bool :=
  negb (is_byte 92 c) && negb (is_byte 34 c) && (32 <=? byte_val c).
Lemma unescape_plain t r : Forall (λ c, plain c = true) t → unescape (t ++ r) = t ++ unescape r.
Proof.
  induction 1 as [|c t Hc _ IH]; [done|]. unfold plain in Hc. guards. simpl.
  match goal with H : is_byte 92 c = false |- _ => rewrite H end. simpl. by f_equal.
Qed.
Lemma enc_plain enc : valid_enc enc = true → length enc ≠ 1%nat → Forall (λ c, plain c = true) enc.
Proof.
  assert (∀ c, (0x80 <=? byte_val c) = true → plain c = true) as Hhigh.
  { intros c Hc. unfold plain, is_byte. guards.
    rewrite !(proj2 (Z.eqb_neq _ _)) by lia. simpl. apply Z.leb_le. lia. }
  unfold valid_enc, seq2, seq3, seq4, cont, between.
  destruct enc as [|c1 [|c2 [|c3 [|c4 [|]]]]]; try done; intros Hv _;
    rewrite ?andb_true_iff, ?orb_true_iff in Hv; rewrite ?Forall_cons, ?Forall_nil;
    split_and!; try done; apply Hhigh; apply Z.leb_le; destruct_and?; destruct_or?;
    destruct_and?; guards; lia.
Qed.

(** The forms of an escaped rune. *)
Inductive escaped : bytes → bytes → Prop :=
| esc_plain t : Forall (λ c, plain c = true) t → escaped t t
| esc_simple b e c :
    is_byte 92 b = true → is_byte 117 e = false → simple_escape e = Some c → escaped [b; e] [c]
| esc_hex b u h1 h2 h3 h4 v :
    is_byte 92 b = true → is_byte 117 u = true → hex4 h1 h2 h3 h4 = Some v →
    v < 0xD800 ∨ 0xDC00 ≤ v → escaped [b; u; h1; h2; h3; h4] (encode_rune v).

Lemma escape_byte_form c : between 0 0x7F c = true → escaped (escape_byte c) [c].
Proof.
  intros Hc%escape_byteP. unfold escape_byte_ok in Hc.
  destruct (escape_byte c) as [|b [|u [|h1 [|h2 [|h3 [|h4 [|]]]]]]]; try done.
  - guards. match goal with H : Ascii.eqb _ _ = true |- _ => apply Ascii.eqb_eq in H as -> end.
    apply esc_plain. apply Forall_singleton. unfold plain.
    repeat match goal with H : is_byte _ _ = _ |- _ => rewrite H end. by apply Z.leb_le.
  - guards. by apply esc_simple.
  - destruct (hex4 h1 h2 h3 h4) as [v|] eqn:Hh; [|by rewrite andb_false_r in Hc]. guards.
    match goal with H : encode_rune v = _ |- _ => rewrite <- H end.
    apply esc_hex; [done..|]. by left.
Qed.
Lemma escape_rune_form enc :
  valid_enc enc = true → escaped (escape_rune (Valid enc)) enc.
Proof.
  intros Hv. destruct enc as [|c1 [|c2 [|c3 [|c4 r]]]]; [done|by apply escape_byte_form|..];
    try (apply esc_plain; by apply enc_plain).
  unfold escape_rune.
  destruct (is_byte 0xE2 c1 && is_byte 0x80 c2 && (is_byte 0xA8 c3 || is_byte 0xA9 c3)) eqn:Hc;
    [|apply esc_plain; by apply enc_plain].
  guards. destruct_or?; repeat match goal with H : is_byte _ _ = true |- _ => apply is_byte_spec in H as -> end;
    [change (escaped (to_bytes "\u2028") (encode_rune 0x2028))
    |change (escaped (to_bytes "\u2029") (encode_rune 0x2029))];
    by apply esc_hex; try done; left.
Qed.
Lemma escape_invalid_form : escaped (escape_rune Invalid) replacement.
Proof.
  change (escaped (to_bytes "\ufffd") (encode_rune 0xFFFD)). apply esc_hex; try done. by right.
Qed.

Lemma unescape_escaped e t r : escaped e t → unescape (e ++ r) = t ++ unescape r.
Proof.
  destruct 1 as [t Ht|b e c Hb He Hs|b u h1 h2 h3 h4 v Hb Hu Hh Hv].
  - by apply unescape_plain.
  - simpl. rewrite Hb, He, Hs. done.
  - by apply unescape_u.
Qed.
Lemma scan_string_escaped e t r x y :
  escaped e t → scan_string r = Some (x, y) → scan_string (e ++ r) = Some (e ++ x, y).
Proof.
  intros He Hr. destruct He as [t Ht|b e c Hb He Hs|b u h1 h2 h3 h4 v Hb Hu Hh Hv].
  - induction Ht as [|c t Hc _ IH]; [done|]. unfold plain in Hc. guards. simpl.
    repeat match goal with H : is_byte _ _ = _ |- _ => rewrite H end.
    rewrite (proj2 (Z.ltb_ge _ _)) by done. simpl. by rewrite IH.
  - simpl. assert (is_byte 34 b = false) as ->.
    { unfold is_byte in *. guards. lia. }
    rewrite (proj2 (Z.ltb_ge _ _)) by (unfold is_byte in *; guards; lia).
    rewrite Hb. simpl. by rewrite He, Hs, Hr.
  - simpl. assert (is_byte 34 b = false) as ->.
    { unfold is_byte in *. guards. lia. }
    rewrite (proj2 (Z.ltb_ge _ _)) by (unfold is_byte in *; guards; lia).
    rewrite Hb. simpl. by rewrite Hu, Hh, Hr.
Qed.

(** A quoted string reads back as its cleaned bytes. *)
Lemma unquote_escape s : unquote (escape s) = clean_bytes s.
Proof.
  unfold unquote. rewrite <- (clean_idem s). f_equal. unfold escape, clean_bytes.
  pattern s, (runes s). apply runes_induction; [done|..]; intros; rewrite !bind_cons.
  - rewrite (unescape_escaped _ enc) by by apply escape_rune_form. by f_equal.
  - rewrite (unescape_escaped _ replacement) by apply escape_invalid_form. by f_equal.
Qed.
Lemma scan_escape s r : scan_string (escape s ++ dquote :: r) = Some (escape s, r).
Proof.
  unfold escape. pattern s, (runes s). apply runes_induction; [done|..]; intros; rewrite bind_cons;
    rewrite <- app_assoc; eapply scan_string_escaped; eauto using escape_rune_form, escape_invalid_form.
Qed.

(** ** Parsing what was printed *)

(** The rest of a sequence whose first step succeeded. *)
Ltac bind_some := cbn [mbind option_bind]; cbv beta iota.
(** Decides the tests of bytes that are known. *)
Ltac known_bytes :=
  cbv beta iota zeta; repeat match goal with
  | |- context [is_byte ?n ?c] =>
      let b := eval vm_compute in (is_byte n c) in
      match b with true => idtac | false => idtac end;
      change (is_byte n c) with b
  end; cbn [negb orb andb]; cbv beta iota zeta.

(** What may follow a number. *)
Definition ends (r : bytes) : Prop :=
  match r with
  | [] => True
  | c :: _ => is_digit c = false ∧ is_byte 46 c = false ∧ is_byte 101 c || is_byte 69 c = false
  end.
Definition literal (raw : bytes) : Prop :=
  ∀ r, scan_string (raw ++ dquote :: r) = Some (raw, r).
(** A byte that does not end a line. *)
Definition inline (c : ascii) : Prop := (32 <=? byte_val c) = true.
Definition numeral (raw : bytes) : Prop :=
  (∃ c t, raw = c :: t ∧ is_byte 45 c || is_digit c = true) ∧
  (∀ r, ends r → scan_number (raw ++ r) = Some (raw, r)) ∧
  Forall inline raw.

Fixpoint writable (j : json) : Prop :=
  match j with
  | JNull | JBool _ => True
  | JNum raw => numeral raw
  | JStr raw => literal raw
  | JArr l => foldr (λ j P, writable j ∧ P) True l
  | JObj l => foldr (λ m P, (literal m.1 ∧ writable m.2) ∧ P) True l
  end.
Lemma foldr_Forall {A} (Q : A → Prop) (l : list A) : foldr (λ a P, Q a ∧ P) True l ↔ Forall Q l.
Proof. induction l as [|a l IH]; simpl; [done|]. by rewrite Forall_cons, IH. Qed.
Lemma writable_arr l : writable (JArr l) ↔ Forall writable l.
Proof. apply foldr_Forall. Qed.
Lemma writable_obj l : writable (JObj l) ↔ Forall (λ m, literal m.1 ∧ writable m.2) l.
Proof. apply (foldr_Forall (λ m : bytes * json, literal m.1 ∧ writable m.2)). Qed.

Fixpoint jdepth (j : json) : nat :=
  match j with
  | JArr l => S (max_list (jdepth <$> l))
  | JObj l => S (max_list ((λ m, jdepth m.2) <$> l))
  | _ => 0%nat
  end.

Lemma writable_string s : writable (jstring s).
Proof. intros r. apply scan_escape. Qed.

Lemma span_digits_all ds r :
  Forall (λ c, is_digit c = true) ds → ends r → span_digits (ds ++ r) = (ds, r).
Proof.
  intros Hds Hr. induction Hds as [|c ds Hc _ IH]; simpl.
  - destruct r as [|c r]; [done|]. destruct Hr as (Hc & _). simpl. by rewrite Hc.
  - by rewrite Hc, IH.
Qed.
Lemma ends_frac r : ends r → scan_frac r = Some ([], r).
Proof. destruct r as [|c r]; [done|]. intros (_ & Hc & _). simpl. by rewrite Hc. Qed.
Lemma ends_exp r : ends r → scan_exp r = Some ([], r).
Proof. destruct r as [|c r]; [done|]. intros (_ & _ & Hc). simpl. by rewrite Hc. Qed.
Lemma scan_int_all c ds r :
  Forall (λ c, is_digit c = true) (c :: ds) → (c = "0"%char → ds = []) → ends r →
  scan_int (c :: ds ++ r) = Some (c :: ds, r).
Proof.
  intros Hall Hzero Hr. apply Forall_cons in Hall as [Hc Hds]. unfold scan_int.
  destruct (is_byte 48 c) eqn:H0; [apply is_byte_spec in H0 as ->; by rewrite Hzero|].
  by rewrite Hc, span_digits_all.
Qed.
Lemma digit_inline ds : Forall (λ c, is_digit c = true) ds → Forall inline ds.
Proof.
  intros Hds. eapply Forall_impl; [exact Hds|]. intros c Hc. unfold inline, is_digit in *. guards.
  apply Z.leb_le. lia.
Qed.
Lemma numeral_pretty (z : Z) : numeral (to_bytes (pretty z)).
Proof.
  assert (∀ z : Z, 0 ≤ z → ∃ c ds, to_bytes (pretty z) = c :: ds ∧
    Forall (λ c, is_digit c = true) (c :: ds) ∧ (c = "0"%char → ds = [])) as Hnn.
  { clear z. intros z Hz. destruct (decide (z = 0)) as [->|Hne].
    - exists "0"%char, []. split_and!; [done|by repeat constructor|done].
    - destruct (pretty_pos z) as (c & ds & -> & (Hall & _) & Hc & _); [lia|]. by exists c, ds. }
  destruct (decide (0 ≤ z)) as [Hz|Hz].
  - destruct (Hnn z Hz) as (c & ds & -> & Hall & Hzero).
    pose proof Hall as Hall'. apply Forall_cons in Hall' as [Hc _].
    split_and!; [exists c, ds; by rewrite Hc, orb_true_r| |by apply digit_inline]. intros r Hr. unfold scan_number.
    simpl app. destruct (digit_not_sign c Hc) as [-> _]. cbn iota beta.
    rewrite scan_int_all by done. simpl. rewrite ends_frac by done. simpl.
    rewrite ends_exp by done. simpl. by rewrite !app_nil_r.
  - destruct z as [|p|p]; try lia.
    destruct (Hnn (Zpos p)) as (c & ds & Heq & Hall & Hzero); [lia|].
    assert (to_bytes (pretty (Zneg p)) = "-"%char :: c :: ds) as -> by (rewrite <- Heq; done).
    split_and!; [by eexists _, _| |by constructor; [|apply digit_inline]]. intros r Hr. unfold scan_number. simpl app. known_bytes.
    rewrite scan_int_all by done. simpl. rewrite ends_frac by done. simpl.
    rewrite ends_exp by done. simpl. by rewrite !app_nil_r.
Qed.
Lemma writable_int z : writable (jint z).
Proof. apply numeral_pretty. Qed.

(** The first byte of a printed value: no space, and it opens the value. *)
Definition opens (c : ascii) : Prop := is_space c = false ∧ is_byte 93 c = false.
Lemma print_head j : writable j → ∃ c t, print j = c :: t ∧ opens c.
Proof.
  destruct j as [|[]|raw|raw|l|l]; try by eexists _, _.
  intros ((c & t & -> & Hc) & _).
  exists c, t. split; [done|]. unfold opens, is_space, is_byte, is_digit in *.
  rewrite !orb_false_iff, !Z.eqb_neq. apply orb_true_iff in Hc as [Hc|Hc]; guards; lia.
Qed.
Lemma skip_head c t : is_space c = false → skip_space (c :: t) = c :: t.
Proof. simpl. by intros ->. Qed.

Definition reads_back (j : json) : Prop := ∀ fuel d r,
  (length (print j) ≤ fuel)%nat → Z.of_nat (jdepth j) ≤ d → ends r →
  parse_value fuel d (print j ++ r) = Some (j, r).

Lemma joined_cons2 t u l : joined (t :: u :: l) = t ++ ","%char :: joined (u :: l).
Proof. done. Qed.

Lemma parse_elems_print l : l ≠ [] →
  Forall reads_back l → ∀ fuel d r, (S (length (joined (print <$> l))) ≤ fuel)%nat →
  Z.of_nat (max_list (jdepth <$> l)) ≤ d →
  parse_elems fuel d (joined (print <$> l) ++ "]"%char :: r) = Some (l, r).
Proof.
  intros Hne Hall. induction Hall as [|j l Hj Hl IH]; [done|]. clear Hne.
  intros fuel d r Hf Hd. destruct fuel as [|fuel]; [lia|]. destruct l as [|j' l].
  - simpl in *. rewrite Hj by (try done; lia). done.
  - rewrite !fmap_cons, joined_cons2, length_app in Hf. cbn [length] in Hf.
    rewrite !fmap_cons, joined_cons2, <- app_assoc, <- app_comm_cons.
    cbn [parse_elems]. rewrite Hj; [|lia|simpl in Hd; lia|done]. bind_some.
    rewrite skip_head by done. known_bytes.
    pose proof (IH ltac:(done) fuel d r) as IH'. rewrite fmap_cons in IH'. rewrite IH'; [done| |].
    + lia.
    + simpl in Hd |- *. lia.
Qed.

Lemma parse_members_print (l : list (bytes * json)) : l ≠ [] →
  Forall (λ m, literal m.1 ∧ reads_back m.2) l →
  ∀ fuel d r,
  (S (length (joined ((λ m, quoted m.1 ++ ":"%char :: print m.2) <$> l))) ≤ fuel)%nat →
  Z.of_nat (max_list ((λ m, jdepth m.2) <$> l)) ≤ d →
  parse_members fuel d
    (joined ((λ m, quoted m.1 ++ ":"%char :: print m.2) <$> l) ++ "}"%char :: r) = Some (l, r).
Proof.
  intros Hne Hall. induction Hall as [|[k v] l [Hk Hv] Hl IH]; [done|]. clear Hne. simpl in Hk, Hv.
  assert (∀ fuel d t, (S (length (quoted k ++ ":"%char :: print v)) ≤ fuel)%nat →
    Z.of_nat (jdepth v) ≤ d → ends t →
    parse_members fuel d ((quoted k ++ ":"%char :: print v) ++ t) =
    match skip_space t with
    | c :: r3 =>
        if is_byte 44 c then
          '(l, r4) ← parse_members (pred fuel) d r3; mret ((k, v) :: l, r4)
        else if is_byte 125 c then Some ([(k, v)], r3) else None
    | [] => None
    end) as Hone.
  { intros fuel d t Hf Hd Ht. destruct fuel as [|fuel]; [lia|].
    unfold quoted in *. simpl in Hf. rewrite !length_app in Hf. simpl in Hf.
    rewrite <- app_assoc, <- !app_comm_cons, <- app_assoc. cbn [parse_members].
    rewrite skip_head by done. known_bytes. simpl app.
    rewrite Hk. bind_some. rewrite skip_head by done. known_bytes. rewrite Hv by (try done; lia). done. }
  intros fuel d r Hf Hd. destruct l as [|m l].
  - simpl in *. rewrite Hone by (try done; lia). done.
  - rewrite !fmap_cons, joined_cons2, length_app in Hf. cbn [length] in Hf.
    rewrite !fmap_cons, joined_cons2, <- (app_assoc (quoted k ++ _)), <- app_comm_cons.
    cbn [fst snd] in *. rewrite Hone; [|lia|simpl in Hd; lia|done].
    rewrite skip_head by done. known_bytes.
    pose proof (IH ltac:(done) (pred fuel) d r) as IH'. rewrite fmap_cons in IH'.
    rewrite IH'; [done|lia|simpl in Hd |- *; lia].
Qed.

Lemma print_arr l : print (JArr l) = "["%char :: joined (print <$> l) ++ ["]"%char].
Proof. done. Qed.
Lemma print_obj l : print (JObj l) =
  "{"%char :: joined ((λ m, quoted m.1 ++ ":"%char :: print m.2) <$> l) ++ ["}"%char].
Proof. done. Qed.
Lemma joined_head {A} (f : A → bytes) l r (P : ascii → Prop) :
  l ≠ [] → (∀ x, head l = Some x → ∃ c t, f x = c :: t ∧ P c) →
  ∃ c t, joined (f <$> l) ++ r = c :: t ∧ P c.
Proof.
  destruct l as [|x l]; [done|]. intros _ Hx. destruct (Hx x eq_refl) as (c & t & Heq & Hc).
  rewrite fmap_cons, Heq. destruct l; simpl; eauto.
Qed.
Lemma Forall_mp {A} (P Q : A → Prop) l : Forall (λ x, P x → Q x) l → Forall P l → Forall Q l.
Proof. induction 1; intros Hp; [done|]. apply Forall_cons in Hp as [??]. constructor; auto. Qed.

Lemma reads_back_print j : writable j → reads_back j.
Proof.
  induction j as [|b|raw|raw|l IH|l IH] using json_ind; intros Hw fuel d r Hf Hd Hr;
    (destruct fuel as [|fuel]; [by destruct (print_head _ Hw) as (? & ? & E & _); rewrite E in Hf; simpl in Hf; lia|]).
  - done.
  - by destruct b.
  - destruct Hw as ((c & t & -> & Hc) & Hs & _).
    specialize (Hs r Hr). simpl print in *. simpl app in *. cbn [parse_value].
    assert (is_space c = false ∧ is_byte 123 c = false ∧ is_byte 91 c = false ∧ is_byte 34 c = false ∧
      is_byte 116 c = false ∧ is_byte 102 c = false ∧ is_byte 110 c = false)
      as (H1 & H2 & H3 & H4 & H5 & H6 & H7).
    { unfold is_space, is_byte, is_digit in *. rewrite !orb_false_iff, !Z.eqb_neq.
      apply orb_true_iff in Hc as [Hc|Hc]; guards; lia. }
    rewrite skip_head, H2, H3, H4, H5, H6, H7 by done. by rewrite Hs.
  - simpl. unfold quoted. rewrite <- app_assoc. simpl.
    by rewrite Hw.
  - apply writable_arr in Hw. rewrite print_arr in *. cbn [length] in Hf.
    rewrite length_app in Hf. cbn [length jdepth] in Hf, Hd.
    cbn [parse_value app]. rewrite skip_head by done. known_bytes.
    rewrite (proj2 (Z.leb_gt d 0)) by lia. rewrite <- app_assoc. destruct l as [|j l].
    + done.
    + destruct (joined_head print (j :: l) (["]"%char] ++ r) opens) as (c & t & Heq & Hsp & Hcl).
      { done. } { intros ? [= <-]. apply Forall_cons in Hw as [Hj _]. by apply print_head. }
      rewrite Heq, skip_head, Hcl by done. rewrite <- Heq.
      change (["]"%char] ++ r) with ("]"%char :: r).
      rewrite parse_elems_print; [done|done|by eapply Forall_mp|lia|lia].
  - apply writable_obj in Hw. rewrite print_obj in *. cbn [length] in Hf.
    rewrite length_app in Hf. cbn [length jdepth] in Hf, Hd.
    cbn [parse_value app]. rewrite skip_head by done. known_bytes.
    rewrite (proj2 (Z.leb_gt d 0)) by lia. rewrite <- app_assoc. destruct l as [|m l].
    + done.
    + destruct (joined_head (λ m, quoted m.1 ++ ":"%char :: print m.2) (m :: l) (["}"%char] ++ r)
          (λ c, c = dquote)) as (c & t & Heq & Hc); [done|by intros ? [= <-]; eexists _, _|].
      rewrite Heq, skip_head by (by subst c). rewrite <- Heq. subst c. known_bytes.
      change (["}"%char] ++ r) with ("}"%char :: r).
      rewrite parse_members_print; [done|done| |lia|lia].
      apply Forall_forall. intros x Hx. rewrite Forall_forall in IH, Hw. naive_solver.
Qed.

(** A printed value is one line. *)
Lemma scan_string_inline s t r : scan_string s = Some (t, r) → Forall inline t.
Proof.
  revert t r. induction s as [s IH] using (well_founded_induction (well_founded_ltof _ length)).
  unfold ltof in IH. intros t r. destruct s as [|c s1]; [done|]. cbn [scan_string].
  destruct (is_byte 34 c); [by intros [= <- _]|].
  destruct (Z.ltb_spec (byte_val c) 32) as [|Hc%Z.leb_le]; [done|].
  assert (∀ c, is_Some (hex_val c) → inline c) as Hhex.
  { intros d [v Hv]. unfold hex_val in Hv. unfold inline. apply Z.leb_le.
    repeat case_match; guards; try done; lia. }
  assert (∀ c, is_Some (simple_escape c) → inline c) as Hesc.
  { intros d [v Hv]. unfold simple_escape, is_byte in Hv. unfold inline. apply Z.leb_le.
    repeat case_match; guards; try done; lia. }
  destruct (is_byte 92 c) eqn:Hb; simpl negb; cbv iota.
  - destruct s1 as [|e s2]; [done|]. destruct (is_byte 117 e) eqn:He.
    + destruct s2 as [|h1 [|h2 [|h3 [|h4 s3]]]]; try done.
      destruct (hex4 h1 h2 h3 h4) as [v|] eqn:Hh; [|done].
      destruct (scan_string s3) as [[t' r']|] eqn:Hs; [|done]. intros [= <- _].
      unfold hex4 in Hh. destruct (hex_val h1) eqn:?, (hex_val h2) eqn:?, (hex_val h3) eqn:?,
        (hex_val h4) eqn:?; try done. apply is_byte_spec in He as ->.
      assert (Forall inline t') as Ht' by (eapply IH; [|done]; simpl; lia).
      repeat apply Forall_cons_2; by eauto.
    + destruct (simple_escape e) eqn:Hse; [|done].
      destruct (scan_string s2) as [[t' r']|] eqn:Hs; [|done]. intros [= <- _].
      assert (Forall inline t') as Ht' by (eapply IH; [|done]; simpl; lia).
      repeat apply Forall_cons_2; by eauto.
  - destruct (scan_string s1) as [[t' r']|] eqn:Hs; [|done]. intros [= <- _].
    apply Forall_cons_2; [done|]. eapply IH; [|done]. simpl. lia.
Qed.
Lemma literal_inline raw : literal raw → Forall inline raw.
Proof. intros Hl. exact (scan_string_inline _ _ _ (Hl [])). Qed.
Lemma quoted_inline raw : literal raw → Forall inline (quoted raw).
Proof.
  intros Hl%literal_inline. unfold quoted.
  apply Forall_cons_2; [done|]. by apply Forall_app_2; [|apply Forall_singleton].
Qed.
Lemma joined_inline l : Forall (Forall inline) l → Forall inline (joined l).
Proof.
  induction 1 as [|t l Ht Hl IH]; [done|]. simpl. destruct l; [done|].
  apply Forall_app_2; [done|]. by apply Forall_cons_2.
Qed.
Lemma print_inline j : writable j → Forall inline (print j).
Proof.
  induction j as [|[]|raw|raw|l IH|l IH] using json_ind; intros Hw.
  1-3: by repeat constructor.
  - apply Hw.
  - by apply quoted_inline.
  - apply writable_arr in Hw. rewrite print_arr. apply Forall_cons_2; [done|].
    apply Forall_app_2; [|by apply Forall_singleton]. apply joined_inline, Forall_fmap.
    by eapply Forall_mp.
  - apply writable_obj in Hw. rewrite print_obj. apply Forall_cons_2; [done|].
    apply Forall_app_2; [|by apply Forall_singleton]. apply joined_inline, Forall_fmap.
    apply Forall_forall. intros m Hm. rewrite Forall_forall in IH, Hw.
    destruct (Hw m Hm) as [Hk Hv]. apply Forall_app_2; [by apply quoted_inline|].
    apply Forall_cons_2; [done|]. by apply IH.
Qed.

(** The parser reverts printing. *)
Lemma parse_print j :
  writable j → Z.of_nat (jdepth j) ≤ maxNestingDepth → parse (print j) = Some j.
Proof.
  intros Hw Hd. unfold parse. rewrite <- (app_nil_r (print j)).
  rewrite reads_back_print; [done|done|rewrite app_nil_r; lia|done|done].
Qed.
