(* ===== verification/JsonIndent.v ===== *)
(** * Indented JSON

    [json.MarshalIndent(v, "", "  ")]: every element and member on a line of
    its own. The parser reads it back. *)
From Stdlib Require Import Ascii.
From S2P Require Import Prelude GoStrings GoNumbers Json JsonFacts.

(** A new line at a level of nesting. *)
Definition line_break (level : nat) : bytes := byte 10 :: repeat (byte 32) (2 * level).
Fixpoint print_indent (level : nat) (j : json) : bytes :=
  match j with
  | JArr ((_ :: _) as l) =>
      "["%char :: joined ((λ v, line_break (S level) ++ print_indent (S level) v) <$> l)
        ++ line_break level ++ ["]"%char]
  | JObj ((_ :: _) as l) =>
      "{"%char :: joined ((λ m, line_break (S level) ++ quoted m.1 ++ ":"%char :: byte 32 ::
                                print_indent (S level) m.2) <$> l)
        ++ line_break level ++ ["}"%char]
  | _ => print j
  end.
Definition MarshalIndent (j : json) : bytes := print_indent 0 j.

Example print_indent_ex :
  MarshalIndent (JArr [jint 1; JArr []]) =
  to_bytes "[" ++ [byte 10] ++ to_bytes "  1," ++ [byte 10] ++ to_bytes "  []" ++ [byte 10] ++ to_bytes "]".
Proof. vm_compute. reflexivity. Qed.

(** ** Spaces between the tokens *)

Definition spaces (g : bytes) : Prop := Forall (λ c, is_space c = true) g.
Lemma skip_spaces g s : spaces g → skip_space (g ++ s) = skip_space s.
Proof. induction 1 as [|c g Hc _ IH]; [done|]. simpl. by rewrite Hc. Qed.
Lemma parse_value_spaces fuel d g s : spaces g → parse_value fuel d (g ++ s) = parse_value fuel d s.
Proof. intros Hg. destruct fuel; [done|]. cbn [parse_value]. by rewrite skip_spaces. Qed.
Lemma parse_elems_spaces fuel d g s : spaces g → parse_elems fuel d (g ++ s) = parse_elems fuel d s.
Proof. intros Hg. destruct fuel; [done|]. cbn [parse_elems]. by rewrite parse_value_spaces. Qed.
Lemma parse_members_spaces fuel d g s : spaces g → parse_members fuel d (g ++ s) = parse_members fuel d s.
Proof. intros Hg. destruct fuel; [done|]. cbn [parse_members]. by rewrite skip_spaces. Qed.
Lemma spaces_break level : spaces (line_break level).
Proof. unfold line_break, spaces. constructor; [done|]. apply Forall_forall. intros c Hc. by apply list_elem_of_In, repeat_spec in Hc as ->. Qed.
Lemma ends_spaces g r : spaces g → g ≠ [] → ends (g ++ r).
Proof.
  intros Hg Hne. destruct g as [|c g]; [done|]. apply Forall_cons in Hg as [Hc _]. simpl.
  unfold is_space, is_digit, is_byte in *. rewrite !orb_true_iff, !Z.eqb_eq in Hc. unfold is_true.
  split_and!; [|apply Z.eqb_neq; lia|apply orb_false_iff; rewrite !Z.eqb_neq; lia].
  apply andb_false_iff. rewrite !Z.leb_gt. lia.
Qed.

(** ** Reading back *)

(** The text [t] is read as [j]. *)
Definition reads (j : json) (t : bytes) : Prop := ∀ fuel d r,
  (length t ≤ fuel)%nat → Z.of_nat (jdepth j) ≤ d → ends r →
  parse_value fuel d (t ++ r) = Some (j, r).
Lemma reads_spaces j g t : spaces g → reads j t → reads j (g ++ t).
Proof.
  intros Hg Ht fuel d r Hf Hd Hr. rewrite length_app in Hf.
  rewrite <- app_assoc, parse_value_spaces by done. apply Ht; [lia|done|done].
Qed.

Lemma parse_elems_texts (l : list json) (ts : list bytes) g : l ≠ [] → spaces g → g ≠ [] →
  Forall2 reads l ts → ∀ fuel d r, (S (length (joined ts)) ≤ fuel)%nat →
  Z.of_nat (max_list (jdepth <$> l)) ≤ d →
  parse_elems fuel d (joined ts ++ g ++ "]"%char :: r) = Some (l, r).
Proof.
  intros Hne Hg Hgne Hall. induction Hall as [|j t l ts Hj Hl IH]; [done|]. clear Hne.
  intros fuel d r Hf Hd. destruct fuel as [|fuel]; [lia|]. destruct Hl as [|j' t' l ts Hj' Hl].
  - simpl in *. rewrite Hj; [|lia|lia|by apply ends_spaces]. bind_some.
    rewrite skip_spaces by done. done.
  - rewrite joined_cons2, length_app in Hf. cbn [length] in Hf.
    rewrite joined_cons2, <- app_assoc, <- app_comm_cons.
    cbn [parse_elems]. rewrite Hj; [|lia|simpl in Hd; lia|done]. bind_some.
    rewrite skip_head by done. known_bytes. rewrite IH; [done|done|lia|simpl in Hd |- *; lia].
Qed.

(** The text of a member. *)
Definition member_text (k t : bytes) : bytes := quoted k ++ ":"%char :: t.
Lemma parse_member k v t fuel d u :
  literal k → reads v t → (length (member_text k t) ≤ fuel)%nat → Z.of_nat (jdepth v) ≤ d → ends u →
  parse_members (S fuel) d (member_text k t ++ u) =
  match skip_space u with
  | c :: r3 =>
      if is_byte 44 c then '(l, r4) ← parse_members fuel d r3; mret ((k, v) :: l, r4)
      else if is_byte 125 c then Some ([(k, v)], r3) else None
  | [] => None
  end.
Proof.
  intros Hk Hv Hf Hd Hu. unfold member_text, quoted in *.
  simpl in Hf. rewrite !length_app in Hf. simpl in Hf.
  rewrite <- app_assoc, <- !app_comm_cons, <- app_assoc. cbn [parse_members].
  rewrite skip_head by done. known_bytes. simpl app.
  rewrite Hk. bind_some. rewrite skip_head by done. known_bytes. rewrite Hv by (try done; lia). done.
Qed.
Lemma parse_members_texts (l : list (bytes * json)) (ts : list bytes) g : l ≠ [] → spaces g → g ≠ [] →
  Forall2 (λ m t, literal m.1 ∧ ∃ g' u, t = g' ++ member_text m.1 u ∧ spaces g' ∧ reads m.2 u) l ts →
  ∀ fuel d r, (S (length (joined ts)) ≤ fuel)%nat →
  Z.of_nat (max_list ((λ m, jdepth m.2) <$> l)) ≤ d →
  parse_members fuel d (joined ts ++ g ++ "}"%char :: r) = Some (l, r).
Proof.
  intros Hne Hg Hgne Hall. induction Hall as [|[k v] t l ts Hm Hl IH]; [done|]. clear Hne.
  destruct Hm as (Hk & g' & u & -> & Hg' & Hv). simpl in Hk, Hv.
  intros fuel d r Hf Hd. destruct fuel as [|fuel]; [lia|]. destruct Hl as [|m' t' l ts Hm' Hl].
  - cbn [joined fst] in *. rewrite length_app in Hf. rewrite <- (app_assoc g'), parse_members_spaces by done.
    simpl in Hd.
    rewrite (parse_member k v u); [|done|done|lia|lia|by apply ends_spaces].
    rewrite skip_spaces by done. done.
  - rewrite joined_cons2, !length_app in Hf. cbn [length fst] in Hf.
    cbn [fst]. rewrite joined_cons2, <- (app_assoc g'), <- (app_assoc g'), parse_members_spaces by done.
    rewrite <- (app_assoc (member_text k u)), <- app_comm_cons.
    rewrite (parse_member k v u); [|done|done|lia|simpl in Hd; lia|done].
    rewrite skip_head by done. known_bytes. rewrite IH; [done|done|lia|simpl in Hd |- *; lia].
Qed.

Lemma print_indent_arr level j l : print_indent level (JArr (j :: l)) =
  "["%char :: joined ((λ v, line_break (S level) ++ print_indent (S level) v) <$> j :: l)
    ++ line_break level ++ ["]"%char].
Proof. done. Qed.
Lemma print_indent_obj level m l : print_indent level (JObj (m :: l)) =
  "{"%char :: joined ((λ m, line_break (S level) ++ member_text m.1 (byte 32 :: print_indent (S level) m.2)) <$> m :: l)
    ++ line_break level ++ ["}"%char].
Proof. done. Qed.
Lemma break_head level (ts : bytes) : ∃ t, skip_space (line_break level ++ ts) = skip_space ts ∧
  line_break level ++ ts = byte 10 :: t.
Proof. eexists. split; [apply skip_spaces, spaces_break|reflexivity]. Qed.
Lemma print_indent_head level j : writable j → ∃ c t, print_indent level j = c :: t ∧ opens c.
Proof.
  intros Hw. destruct j as [|b|raw|raw|[|j l]|[|m l]]; try (by eexists _, _); by apply (print_head _ Hw).
Qed.
Lemma joined_first (t : bytes) ts r : ∃ u, joined (t :: ts) ++ r = t ++ u.
Proof.
  destruct ts as [|t' ts]; [by eexists|]. rewrite joined_cons2, <- app_assoc. by eexists.
Qed.

(** What was printed with indentation is read back. *)
Lemma reads_indent_arr j l level :
  writable (JArr (j :: l)) → Forall (λ j, writable j → ∀ level, reads j (print_indent level j)) (j :: l) →
  reads (JArr (j :: l)) (print_indent level (JArr (j :: l))).
Proof.
  intros Hw IH fuel d r Hf Hd Hr.
  apply writable_arr in Hw. rewrite print_indent_arr in *. cbn [length jdepth] in Hf, Hd.
  rewrite !length_app in Hf. cbn [length] in Hf. destruct fuel as [|fuel]; [lia|].
  cbn [parse_value app]. rewrite skip_head by done. known_bytes.
  rewrite (proj2 (Z.leb_gt d 0)) by lia. rewrite <- !app_assoc.
  destruct (print_indent_head (S level) j) as (c & t & Hj & Hsp & Hcl); [by apply Forall_cons in Hw as [? _]|].
  rewrite fmap_cons.
  destruct (joined_first (line_break (S level) ++ print_indent (S level) j)
    ((λ v, line_break (S level) ++ print_indent (S level) v) <$> l)
    (line_break level ++ ["]"%char] ++ r)) as [u Hu].
  rewrite Hu, <- app_assoc, skip_spaces by apply spaces_break. rewrite Hj, <- app_comm_cons, skip_head, Hcl by done.
  rewrite app_comm_cons, <- Hj, app_assoc, <- Hu, <- (fmap_cons (λ v, line_break (S level) ++ print_indent (S level) v)).
  change (["]"%char] ++ r) with ("]"%char :: r).
  rewrite (parse_elems_texts (j :: l)); [done|done|apply spaces_break|done| |lia|lia].
  clear -IH Hw. induction (j :: l) as [|x xs IHxs]; [constructor|].
  apply Forall_cons in IH as [Hx IH], Hw as [Hwx Hw]. rewrite fmap_cons. constructor; [|by apply IHxs].
  apply reads_spaces; [apply spaces_break|by apply Hx].
Qed.
Lemma reads_indent_obj m l level :
  writable (JObj (m :: l)) →
  Forall (λ m, writable m.2 → ∀ level, reads m.2 (print_indent level m.2)) (m :: l) →
  reads (JObj (m :: l)) (print_indent level (JObj (m :: l))).
Proof.
  intros Hw IH fuel d r Hf Hd Hr.
  apply writable_obj in Hw. rewrite print_indent_obj in *. cbn [length jdepth] in Hf, Hd.
  rewrite !length_app in Hf. cbn [length] in Hf. destruct fuel as [|fuel]; [lia|].
  cbn [parse_value app]. rewrite skip_head by done. known_bytes.
  rewrite (proj2 (Z.leb_gt d 0)) by lia. rewrite <- !app_assoc. rewrite fmap_cons.
  destruct (joined_first (line_break (S level) ++ member_text m.1 (byte 32 :: print_indent (S level) m.2))
    ((λ m, line_break (S level) ++ member_text m.1 (byte 32 :: print_indent (S level) m.2)) <$> l)
    (line_break level ++ ["}"%char] ++ r)) as [u Hu].
  rewrite Hu, <- app_assoc, skip_spaces by apply spaces_break.
  unfold member_text at 1, quoted at 1. rewrite <- !app_comm_cons, skip_head by done. known_bytes.
  match goal with |- context [parse_members fuel (d - 1) ?s] =>
    assert (s = joined ((λ m, line_break (S level) ++ member_text m.1 (byte 32 :: print_indent (S level) m.2)) <$> m :: l)
      ++ line_break level ++ "}"%char :: r) as ->
      by (change ("}"%char :: r) with (["}"%char] ++ r); by rewrite fmap_cons, Hu, <- app_assoc) end.
  rewrite (parse_members_texts (m :: l)); [done|done|apply spaces_break|done| |lia|lia].
  clear -IH Hw. induction (m :: l) as [|x xs IHxs]; [constructor|].
  apply Forall_cons in IH as [Hx IH], Hw as [[Hk Hwx] Hw]. rewrite fmap_cons. constructor; [|by apply IHxs].
  split; [done|]. eexists _, _. split; [reflexivity|]. split; [apply spaces_break|].
  apply (reads_spaces _ [byte 32]); [by repeat constructor|by apply Hx].
Qed.
Lemma reads_indent j : writable j → ∀ level, reads j (print_indent level j).
Proof.
  induction j as [|b|raw|raw|[|j l] IH|[|m l] IH] using json_ind; intros Hw level.
  1-5, 7: by apply (reads_back_print _ Hw).
  - by apply reads_indent_arr.
  - by apply reads_indent_obj.
Qed.
Lemma parse_indent j :
  writable j → Z.of_nat (jdepth j) ≤ maxNestingDepth → parse (MarshalIndent j) = Some j.
Proof.
  intros Hw Hd. unfold parse, MarshalIndent. rewrite <- (app_nil_r (print_indent 0 j)).
  rewrite reads_indent; [done|done|rewrite app_nil_r; lia|done|done].
Qed.
