(* ===== verification/Rfc3339.v ===== *)
(** * The texts of times

    [time.RFC3339Nano] for times in a zone, as [time.Time.MarshalJSON] and the
    columns of the index write them; the parser behind
    [time.Time.UnmarshalJSON]; and the proof that the text of every time in
    the range of the format is read back as that time. *)
From Stdlib Require Import Ascii.
From S2P Require Import Prelude GoErrors GoStrings GoNumbers GoTime Json JsonFacts.

(** ** Printing *)

(** [t.Format("15:04:05")] of a time that reads [t]. *)
Definition clock_text (t : Time) : string :=
  let s := t / Second mod 86400 in
  pad 2 (s / 3600) +:+ ":" +:+ pad 2 (s / 60 mod 60) +:+ ":" +:+ pad 2 (s mod 60).
(** [t.Format(time.RFC3339Nano)] *)
Definition stamp_text (s : Stamp) : string :=
  date_text (reading s) +:+ "T" +:+ clock_text (reading s) +:+ suffix_text s.
Definition time_text `{Zone} (t : Time) : string := stamp_text (local t).

(** ** Parsing ([parseRFC3339] of package time) *)

Definition uint_field (lo hi : Z) (s : bytes) : option Z :=
  v ← digits_val 0 s;
  if (lo <=? v) && (v <=? hi) then Some v else None.
Definition slice (i j : nat) (s : bytes) : bytes := take (j - i) (drop i s).
Definition byte_at (i : nat) (c : ascii) (s : bytes) : bool := bool_decide (s !! i = Some c).

(** Days between 1 January of year 1 and the start of a year or a month. *)
Definition year_start (y : Z) : Z := 365 * (y - 1) + (y - 1) / 4 - (y - 1) / 100 + (y - 1) / 400.
Fixpoint month_start (y : Z) (m : nat) : Z :=
  match m with O => 0 | S m => month_start y m + month_len y (Z.of_nat (S m)) end.
(** [time.Date(y, m, d, hh, mm, ss, ns, time.UTC)] *)
Definition instant (y m d hh mm ss ns : Z) : Time :=
  ((year_start y + month_start y (Z.to_nat (m - 1)) + (d - 1)) * 86400
   + hh * 3600 + mm * 60 + ss) * Second + ns.

(** The digits after the point; those after the ninth are dropped. *)
Definition nanoseconds (ds : bytes) : Z :=
  let ds := take 9 ds in default 0 (digits_val 0 ds) * 10 ^ (9 - Z.of_nat (length ds)).
Definition parse_frac (s : bytes) : Z * bytes :=
  match s with
  | p :: c :: r =>
      if is_byte 46 p && is_digit c
      then let '(ds, r) := span_digits (c :: r) in (nanoseconds ds, r)
      else (0, s)
  | _ => (0, s)
  end.
(** The seconds east of UTC. *)
Definition parse_zone (s : bytes) : option Z :=
  match s with
  | [z] => if is_byte 90 z then Some 0 else None
  | [sg; h1; h2; c; m1; m2] =>
      hr ← uint_field 0 23 [h1; h2];
      mm ← uint_field 0 59 [m1; m2];
      if (is_byte 45 sg || is_byte 43 sg) && is_byte 58 c
      then Some ((if is_byte 45 sg then -1 else 1) * ((hr * 60 + mm) * 60)) else None
  | _ => None
  end.
Definition parseRFC3339 (s : bytes) : option Time :=
  year ← uint_field 0 9999 (slice 0 4 s);
  month ← uint_field 1 12 (slice 5 7 s);
  day ← uint_field 1 (month_len year month) (slice 8 10 s);
  hour ← uint_field 0 23 (slice 11 13 s);
  min ← uint_field 0 59 (slice 14 16 s);
  sec ← uint_field 0 59 (slice 17 19 s);
  if byte_at 4 "-" s && byte_at 7 "-" s && byte_at 10 "T" s && byte_at 13 ":" s && byte_at 16 ":" s
  then
    let '(nsec, r) := parse_frac (drop 19 s) in
    offset ← parse_zone r;
    mret (instant year month day hour min sec nsec - offset * Second)
  else None.

Example time_text_ex :
  (λ z, @time_text z ((719162 * 86400 + 1700000000) * Second + 120000000)) <$> [utc; shenzhen] =
  ["2023-11-14T22:13:20.12Z"; "2023-11-15T06:13:20.12+08:00"].
Proof. vm_compute. reflexivity. Qed.
Example parseRFC3339_ex :
  parseRFC3339 (to_bytes "2023-11-15T06:13:20.12+08:00") =
  Some ((719162 * 86400 + 1700000000) * Second + 120000000).
Proof. vm_compute. reflexivity. Qed.
Example parseRFC3339_no_leap : parseRFC3339 (to_bytes "2023-02-29T00:00:00Z") = None.
Proof. vm_compute. reflexivity. Qed.
Example time_text_zero : @time_text shenzhen zero_time = "0001-01-01T00:00:00Z".
Proof. vm_compute. reflexivity. Qed.

(** ** The calendar *)

Lemma div_succ z k : 0 < k → (z + 1) / k = z / k + (if (z + 1) mod k =? 0 then 1 else 0).
Proof.
  intros Hk. pose proof (Z.div_mod z k ltac:(lia)). pose proof (Z.mod_pos_bound z k Hk).
  pose proof (Z.div_mod (z + 1) k ltac:(lia)). pose proof (Z.mod_pos_bound (z + 1) k Hk).
  destruct (Z.eqb_spec ((z + 1) mod k) 0) as [E|E]; nia.
Qed.
Lemma year_start_succ y : year_start (y + 1) = year_start y + year_len y.
Proof.
  unfold year_start, year_len, is_leap.
  replace (y + 1 - 1) with (y - 1 + 1) by lia. rewrite !div_succ by lia.
  replace (y - 1 + 1) with y by lia.
  assert (y mod 400 = 0 → y mod 100 = 0) as H1.
  { intros H0%Z.mod_divide; [|done]. apply Z.mod_divide; [done|].
    etransitivity; [|done]. by exists 4. }
  assert (y mod 100 = 0 → y mod 4 = 0) as H2.
  { intros H0%Z.mod_divide; [|done]. apply Z.mod_divide; [done|].
    etransitivity; [|done]. by exists 25. }
  destruct (Z.eqb_spec (y mod 4) 0), (Z.eqb_spec (y mod 100) 0), (Z.eqb_spec (y mod 400) 0);
    simpl; lia.
Qed.
Lemma month_len_pos y m : 28 ≤ month_len y m ≤ 31.
Proof. unfold month_len. repeat case_match; lia. Qed.
Lemma month_start_end y : month_start y 12 = year_len y.
Proof. unfold year_len, month_start, month_len. simpl. by destruct (is_leap y). Qed.

Lemma go_year_spec fuel y d y' d' :
  0 ≤ d < year_start (y + Z.of_nat fuel) - year_start y →
  go_year fuel y d = (y', d') →
  y ≤ y' < y + Z.of_nat fuel ∧ 0 ≤ d' < year_len y' ∧ year_start y + d = year_start y' + d'.
Proof.
  revert y d. induction fuel as [|fuel IH]; intros y d Hd Hgo; simpl in Hgo.
  { rewrite Z.add_0_r in Hd. lia. }
  destruct (Z.ltb_spec d (year_len y)) as [Hlt|Hge].
  - injection Hgo as <- <-. lia.
  - apply IH in Hgo; [rewrite year_start_succ in Hgo; lia|].
    rewrite year_start_succ. replace (y + 1 + Z.of_nat fuel) with (y + Z.of_nat (S fuel)) by lia. lia.
Qed.
Lemma go_month_spec fuel y k d m' d' :
  0 ≤ d < month_start y (k + fuel) - month_start y k →
  go_month fuel y (Z.of_nat (S k)) d = (m', d') →
  ∃ k', m' = Z.of_nat (S k') ∧ (k ≤ k' < k + fuel)%nat ∧ 0 ≤ d' < month_len y m' ∧
    month_start y k + d = month_start y k' + d'.
Proof.
  revert k d. induction fuel as [|fuel IH]; intros k d Hd Hgo; cbn [go_month] in Hgo.
  { rewrite Nat.add_0_r in Hd. lia. }
  destruct (Z.ltb_spec d (month_len y (Z.of_nat (S k)))) as [Hlt|Hge].
  - injection Hgo as <- <-. exists k. split_and!; done || lia.
  - replace (Z.of_nat (S k) + 1) with (Z.of_nat (S (S k))) in Hgo by lia.
    apply IH in Hgo as (k' & -> & ? & ? & Heq).
    + exists k'. cbn [month_start] in Heq. split_and!; done || lia.
    + replace (S k + fuel)%nat with (k + S fuel)%nat by lia. cbn [month_start]. lia.
Qed.

(** The date of a day is a date of the calendar, and that of no other day. *)
Lemma civil_spec n :
  ∃ y m d, civil n = (y, m, d) ∧ 1 ≤ m ≤ 12 ∧ 1 ≤ d ≤ month_len y m ∧
    year_start y + month_start y (Z.to_nat (m - 1)) + (d - 1) = n ∧
    year_start y ≤ n < year_start (y + 1).
Proof.
  unfold civil. set (y0 := 1 + 400 * (n / days_per_400_years)).
  assert (year_start y0 + n mod days_per_400_years = n) as Hn.
  { unfold y0, year_start, days_per_400_years. pose proof (Z.div_mod n 146097 ltac:(lia)).
    set (q := n / 146097) in *. replace (1 + 400 * q - 1) with (400 * q) by lia.
    revert H. generalize (n mod 146097) as r, q. clear. intros r q Hn.
    Z.to_euclidean_division_equations. lia. }
  pose proof (Z.mod_pos_bound n days_per_400_years ltac:(done)) as Hb.
  destruct (go_year 400 y0 _) as [y d] eqn:Hy. apply go_year_spec in Hy as (Hy1 & Hd & Hy2).
  - destruct (go_month 12 y 1 d) as [m d'] eqn:Hm.
    assert (0 ≤ d < month_start y (0 + 12) - month_start y 0) as Hd0.
    { change (0 + 12)%nat with 12%nat. rewrite month_start_end. cbn [month_start]. lia. }
    apply (go_month_spec 12 y 0) in Hm as (k & -> & Hk & Hd' & Heq); [|done].
    exists y, (Z.of_nat (S k)), (d' + 1). rewrite year_start_succ.
    replace (Z.to_nat (Z.of_nat (S k) - 1)) with k by lia. simpl month_start in Heq at 1.
    split_and!; try done; lia.
  - split; [lia|].
    assert (year_start (y0 + Z.of_nat 400) = year_start y0 + days_per_400_years) as ->; [|lia].
    unfold year_start, y0, days_per_400_years. set (q := n / 146097).
    change (Z.of_nat 400) with 400.
    replace (1 + 400 * q + 400 - 1) with (400 * q + 400) by lia.
    replace (1 + 400 * q - 1) with (400 * q) by lia.
    clear. Z.to_euclidean_division_equations. lia.
Qed.

(** ** Digits *)

Lemma pad_decimal w z :
  (0 < w)%nat → 0 ≤ z < 10 ^ Z.of_nat w →
  decimal (to_bytes (pad w z)) z ∧ length (to_bytes (pad w z)) = w.
Proof.
  intros Hw Hz. unfold pad. rewrite to_bytes_app, length_app.
  assert (∀ n, to_bytes (zeros n) = replicate n "0"%char) as Hzeros.
  { intros n. induction n as [|n IH]; [done|]. change (to_bytes (zeros (S n))) with ("0"%char :: to_bytes (zeros n)).
    by rewrite IH. }
  assert (decimal (to_bytes (pretty z)) z ∧ (length (to_bytes (pretty z)) ≤ w)%nat) as [Hd Hlen].
  { destruct (decide (z = 0)) as [->|Hne].
    - split; [|simpl; lia]. apply (decimal_snoc [] 0 0); [apply decimal_nil|lia].
    - destruct (pretty_pos z) as (c & ds & -> & Hd & _ & Hlen); [lia|]. split; [done|].
      simpl. destruct (decide (length ds < w)%nat); [lia|].
      assert (10 ^ Z.of_nat w ≤ 10 ^ Z.of_nat (length ds)) by (apply Z.pow_le_mono_r; lia). lia. }
  rewrite Hzeros, length_replicate, <- to_bytes_length. split; [|lia].
  generalize (w - length (to_bytes (pretty z)))%nat as k. intros k.
  induction k as [|k IH]; [done|]. by apply decimal_cons_zero.
Qed.
Lemma uint_field_ok lo hi s v : decimal s v → lo ≤ v ≤ hi → uint_field lo hi s = Some v.
Proof.
  intros Hd Hv. unfold uint_field. rewrite (decimal_val _ _ Hd). simpl.
  by rewrite !(proj2 (Z.leb_le _ _)) by lia.
Qed.

Lemma trim_zeros_spec fuel n w n' w' :
  0 < n < 10 ^ Z.of_nat w → trim_zeros fuel n w = (n', w') →
  (0 < w' ≤ w)%nat ∧ 0 < n' < 10 ^ Z.of_nat w' ∧ n = n' * 10 ^ Z.of_nat (w - w').
Proof.
  revert n w. induction fuel as [|fuel IH]; intros n w Hn Ht; simpl in Ht.
  { injection Ht as <- <-. rewrite Nat.sub_diag. destruct w; simpl in *; lia. }
  destruct (Z.eqb_spec (n mod 10) 0) as [E|E].
  - pose proof (Z.div_mod n 10 ltac:(lia)) as Hdm. destruct w as [|w]; [simpl in Hn; lia|].
    rewrite Nat2Z.inj_succ, Z.pow_succ_r in Hn by lia. replace (S w - 1)%nat with w in Ht by lia.
    apply IH in Ht as (Hw & Hn' & Heq); [|lia]. split_and!; try lia.
    replace (S w - w')%nat with (S (w - w')) by lia. rewrite Nat2Z.inj_succ, Z.pow_succ_r by lia. lia.
  - injection Ht as <- <-. rewrite Nat.sub_diag. destruct w; simpl in *; lia.
Qed.
Lemma length_two (l : bytes) : length l = 2%nat → ∃ a b, l = [a; b].
Proof. destruct l as [|a [|b [|]]]; try done. eauto. Qed.
(** The offset has no digit at its start, and is read as what it is. *)
Lemma offset_ends m : ends (to_bytes (offset_text m)) ∧ to_bytes (offset_text m) !! 0%nat ≠ Some "."%char.
Proof. unfold offset_text. destruct (m =? 0); [done|]. by destruct (m <? 0). Qed.
Lemma parse_offset_text m : -1440 < m < 1440 → parse_zone (to_bytes (offset_text m)) = Some (m * 60).
Proof.
  intros Hm. unfold offset_text. destruct (Z.eqb_spec m 0) as [->|Hne]; [done|].
  assert (∃ a, Z.abs m = a ∧ 0 ≤ a < 1440 ∧ (if m <? 0 then m = - a else m = a)) as (a & -> & Ha & Hsign).
  { exists (Z.abs m). destruct (Z.ltb_spec m 0); lia. }
  assert (0 ≤ a / 60 < 24 ∧ 0 ≤ a mod 60 < 60 ∧ a / 60 * 60 + a mod 60 = a) as (Hq & Hr & Hqr)
    by (Z.to_euclidean_division_equations; lia).
  destruct (pad_decimal 2 (a / 60)) as [Dh Lh]; [lia|simpl; lia|].
  destruct (pad_decimal 2 (a mod 60)) as [Dm Lm]; [lia|simpl; lia|].
  rewrite !to_bytes_app.
  apply length_two in Lh as (h1 & h2 & Eh), Lm as (m1 & m2 & Em). rewrite Eh, Em in *.
  pose proof (uint_field_ok 0 23 _ _ Dh ltac:(lia)) as Fh. pose proof (uint_field_ok 0 59 _ _ Dm ltac:(lia)) as Fm.
  destruct (m <? 0); cbn [app to_bytes String.list_ascii_of_string parse_zone]; rewrite Fh; bind_some;
    rewrite Fm; bind_some; rewrite Hqr.
  - change (Some (-1 * (a * 60)) = Some (m * 60)). f_equal. lia.
  - change (Some (1 * (a * 60)) = Some (m * 60)). f_equal. lia.
Qed.
Lemma parse_frac_text t m :
  parse_frac (to_bytes (frac_text t +:+ offset_text m)) = (t mod Second, to_bytes (offset_text m)).
Proof.
  destruct (offset_ends m) as [He Hp]. rewrite to_bytes_app. unfold frac_text.
  destruct (Z.eqb_spec (t mod Second) 0) as [->|Hne].
  { simpl. destruct (to_bytes (offset_text m)) as [|p [|c r]]; [done..|]. unfold parse_frac.
    destruct (is_byte 46 p) eqn:E; [|done]. apply is_byte_spec in E as ->. by destruct Hp. }
  pose proof (Z.mod_pos_bound t Second ltac:(done)) as Hb.
  destruct (trim_zeros 9 (t mod Second) 9) as [n w] eqn:Ht.
  apply trim_zeros_spec in Ht as (Hw & Hn & Heq); [|unfold Second in *; simpl; lia].
  destruct (pad_decimal w n) as [Hd Hlen]; [lia|lia|].
  rewrite !to_bytes_app. destruct (to_bytes (pad w n)) as [|c ds] eqn:Hpad; [simpl in Hlen; lia|].
  pose proof Hd as (Hall & _). pose proof Hall as Hall'. apply Forall_cons in Hall' as [Hc _].
  set (rest := to_bytes (offset_text m)) in *.
  change (parse_frac ((to_bytes "." ++ (c :: ds)) ++ rest)) with
    (if is_byte 46 "."%char && is_digit c
     then let '(ds, r) := span_digits ((c :: ds) ++ rest) in (nanoseconds ds, r)
     else (0, (to_bytes "." ++ (c :: ds)) ++ rest)).
  rewrite Hc. change (is_byte 46 "."%char) with true. cbn [andb]. cbv iota.
  rewrite span_digits_all by done. f_equal. unfold nanoseconds.
  rewrite take_ge by (rewrite Hlen; lia). rewrite (decimal_val _ _ Hd), Hlen.
  rewrite Heq. simpl default. f_equal. f_equal. lia.
Qed.

Lemma length_four (l : bytes) : length l = 4%nat → ∃ a b c d, l = [a; b; c; d].
Proof. destruct l as [|a [|b [|c [|d [|]]]]]; try done. eauto 6. Qed.

Lemma year_range t y : min_time ≤ t ≤ max_time → year_start y ≤ t / Day < year_start (y + 1) → 0 ≤ y ≤ 9999.
Proof.
  unfold min_time, max_time, Second. intros Ht Hy.
  assert (-366 ≤ t / Day ≤ 3652058) as Hd.
  { unfold Day, Hour, Minute, Second in *.
    split; [apply Z.div_le_lower_bound; lia|]. apply Z.lt_succ_r, Z.div_lt_upper_bound; lia. }
  revert Hy Hd. generalize (t / Day) as n. unfold year_start. clear. intros n Hy Hd.
  Z.to_euclidean_division_equations. lia.
Qed.

(** The fields of a printed time, with the bytes between them. *)
Lemma parse_fields y m d hh mm ss fr :
  0 ≤ y ≤ 9999 → 1 ≤ m ≤ 12 → 1 ≤ d ≤ month_len y m → 0 ≤ hh < 24 → 0 ≤ mm < 60 → 0 ≤ ss < 60 →
  parseRFC3339 (to_bytes ((pad 4 y +:+ "-" +:+ pad 2 m +:+ "-" +:+ pad 2 d) +:+ "T" +:+
    (pad 2 hh +:+ ":" +:+ pad 2 mm +:+ ":" +:+ pad 2 ss) +:+ fr)) =
  (let '(nsec, r) := parse_frac (to_bytes fr) in
   offset ← parse_zone r; mret (instant y m d hh mm ss nsec - offset * Second)).
Proof.
  intros Hy Hm Hd Hhh Hmm Hss. pose proof (month_len_pos y m) as Hml.
  destruct (pad_decimal 4 y) as [Dy Ly]; [lia|simpl; lia|].
  destruct (pad_decimal 2 m) as [Dm Lm]; [lia|simpl; lia|].
  destruct (pad_decimal 2 d) as [Dd Ld]; [lia|simpl; lia|].
  destruct (pad_decimal 2 hh) as [Dh Lh]; [lia|simpl; lia|].
  destruct (pad_decimal 2 mm) as [Dmi Lmi]; [lia|simpl; lia|].
  destruct (pad_decimal 2 ss) as [Ds Ls]; [lia|simpl; lia|].
  rewrite !to_bytes_app.
  apply length_four in Ly as (y1 & y2 & y3 & y4 & Ey). apply length_two in Lm as (m1 & m2 & Em).
  apply length_two in Ld as (d1 & d2 & Ed). apply length_two in Lh as (h1 & h2 & Eh).
  apply length_two in Lmi as (i1 & i2 & Ei). apply length_two in Ls as (s1 & s2 & Es).
  rewrite Ey in *. rewrite Em in *. rewrite Ed in *. rewrite Eh in *. rewrite Ei in *. rewrite Es in *.
  unfold parseRFC3339, slice.
  cbn [app to_bytes String.list_ascii_of_string take drop Nat.sub].
  rewrite (uint_field_ok _ _ _ _ Dy) by lia. bind_some.
  rewrite (uint_field_ok _ _ _ _ Dm) by lia. bind_some.
  rewrite (uint_field_ok _ _ _ _ Dd) by lia. bind_some.
  rewrite (uint_field_ok _ _ _ _ Dh) by lia. bind_some.
  rewrite (uint_field_ok _ _ _ _ Dmi) by lia. bind_some.
  rewrite (uint_field_ok _ _ _ _ Ds) by lia. bind_some.
  done.
Qed.

(** The text of a time in the range of the format reads back as the time. *)
Lemma parse_stamp_text s :
  -1440 < sp_minutes s < 1440 → min_time ≤ reading s ≤ max_time →
  parseRFC3339 (to_bytes (stamp_text s)) = Some (sp_time s).
Proof.
  intros Hz Ht. unfold stamp_text, suffix_text.
  replace (sp_time s) with (reading s - sp_minutes s * 60 * Second)
    by (unfold reading; change Minute with (60 * Second); lia).
  revert Hz Ht. generalize (reading s) as t, (sp_minutes s) as z. clear s. intros t z Hz Ht.
  destruct (civil_spec (t / Day)) as (y & m & d & Hc & Hm & Hd & Hdays & Hy).
  pose proof (year_range t y Ht Hy) as Hy4.
  unfold date_text, clock_text. rewrite Hc.
  set (s := (t / Second) mod 86400). pose proof (Z.mod_pos_bound (t / Second) 86400 ltac:(lia)) as Hs.
  fold s in Hs.
  rewrite parse_fields, parse_frac_text; try done;
    try (Z.to_euclidean_division_equations; lia).
  rewrite parse_offset_text by done. bind_some. f_equal. f_equal. unfold instant. rewrite Hdays.
  assert (t / Day = t / Second / 86400) as -> by (rewrite Z.div_div by done; done).
  assert (s / 3600 * 3600 + s / 60 mod 60 * 60 + s mod 60 = s) as Hhms
    by (Z.to_euclidean_division_equations; lia).
  pose proof (Z.div_mod (t / Second) 86400 ltac:(lia)). pose proof (Z.div_mod t Second ltac:(done)).
  fold s in H. unfold Second in *. lia.
Qed.
Lemma local_bound `{Zone} t : -1440 < sp_minutes (local t) < 1440.
Proof. simpl. destruct (IsZero t); [lia|]. pose proof zone_bound. guards. lia. Qed.
Lemma parse_time_text `{Zone} t : formattable t → parseRFC3339 (to_bytes (time_text t)) = Some t.
Proof. intros Ht. exact (parse_stamp_text (local t) (local_bound t) Ht). Qed.

(** ** [time.Parse(time.RFC3339, s)]

    More lenient than the parser of JSON values: the hour may have one digit,
    the fraction may follow a comma, an offset may be 24 hours and 60 minutes.
    The time keeps its offset. *)

Definition getnum (fixed : bool) (s : bytes) : option (Z * bytes) :=
  match s with
  | a :: b :: r =>
      if negb (is_digit a) then None
      else if is_digit b then Some (10 * digit a + digit b, r)
      else if fixed then None else Some (digit a, b :: r)
  | [a] => if is_digit a && negb fixed then Some (digit a, []) else None
  | [] => None
  end.
Definition ranged (lo hi : Z) (p : option (Z * bytes)) : option (Z * bytes) :=
  '(v, r) ← p;
  if (lo <=? v) && (v <=? hi) then Some (v, r) else None.
Definition expect (c : ascii) (s : bytes) : option bytes :=
  match s with x :: r => if bool_decide (x = c) then Some r else None | [] => None end.
Definition lenient_frac (s : bytes) : Z * bytes :=
  match s with
  | p :: c :: r =>
      if (is_byte 46 p || is_byte 44 p) && is_digit c
      then let '(ds, r) := span_digits (c :: r) in (nanoseconds ds, r)
      else (0, s)
  | _ => (0, s)
  end.
Definition lenient_zone (s : bytes) : option Z :=
  match s with
  | [z] => if is_byte 90 z then Some 0 else None
  | [sg; h1; h2; c; m1; m2] =>
      hr ← uint_field 0 24 [h1; h2];
      mm ← uint_field 0 60 [m1; m2];
      if (is_byte 45 sg || is_byte 43 sg) && is_byte 58 c
      then Some ((if is_byte 45 sg then -1 else 1) * ((hr * 60 + mm) * 60)) else None
  | _ => None
  end.
Definition Parse (s : string) : option Stamp :=
  let b := to_bytes s in
  year ← (if bool_decide (length b < 4)%nat then None else uint_field 0 9999 (take 4 b));
  b ← expect "-" (drop 4 b);
  '(month, b) ← ranged 1 12 (getnum true b);
  b ← expect "-" b;
  '(day, b) ← getnum true b;
  b ← expect "T" b;
  '(hour, b) ← ranged 0 23 (getnum false b);
  b ← expect ":" b;
  '(min, b) ← ranged 0 59 (getnum true b);
  b ← expect ":" b;
  '(sec, b) ← ranged 0 59 (getnum true b);
  let '(nsec, b) := lenient_frac b in
  offset ← lenient_zone b;
  if (1 <=? day) && (day <=? month_len year month)
  then Some {| sp_time := instant year month day hour min sec nsec - offset * Second; sp_minutes := offset / 60 |}
  else None.

Example Parse_ex :
  Parse <$> ["2023-11-15T06:13:20+08:00"; "2023-11-14T22:13:20,5Z"; "2023-11-14T2:13:20Z"; "2023-02-29T00:00:00Z";
             "2023-11-14 22:13:20Z"; "2023-11-14T22:13Z"] =
  let t := (719162 * 86400 + 1700000000) * Second in
  [Some {| sp_time := t; sp_minutes := 480 |}; Some {| sp_time := t + 500000000; sp_minutes := 0 |};
   Some {| sp_time := t - 20 * Hour; sp_minutes := 0 |}; None; None; None].
Proof. vm_compute. reflexivity. Qed.

Lemma uint_field_two lo hi a b v :
  uint_field lo hi [a; b] = Some v →
  is_digit a = true ∧ is_digit b = true ∧ v = 10 * digit a + digit b ∧ lo ≤ v ≤ hi.
Proof.
  unfold uint_field. cbn [digits_val]. destruct (is_digit a) eqn:Ha; [|done]. destruct (is_digit b) eqn:Hb; [|done].
  cbn [mbind option_bind]. destruct (_ && _) eqn:Hr; [|done]. intros [= <-].
  apply andb_true_iff in Hr as [H1%Z.leb_le H2%Z.leb_le]. split_and!; try done; lia.
Qed.
Lemma getnum_two fixed lo hi a b r v : uint_field lo hi [a; b] = Some v → getnum fixed (a :: b :: r) = Some (v, r).
Proof. intros (Ha & Hb & -> & _)%uint_field_two. unfold getnum. by rewrite Ha, Hb. Qed.
Lemma ranged_two fixed lo hi a b r v :
  uint_field lo hi [a; b] = Some v → ranged lo hi (getnum fixed (a :: b :: r)) = Some (v, r).
Proof.
  intros Hv. unfold ranged. rewrite (getnum_two fixed lo hi a b r v Hv). apply uint_field_two in Hv as (_ & _ & _ & ? & ?).
  cbn [mbind option_bind]. by rewrite (proj2 (Z.leb_le _ _)), (proj2 (Z.leb_le _ _)).
Qed.
Lemma uint_field_wider lo hi hi' s v : uint_field lo hi s = Some v → hi ≤ hi' → uint_field lo hi' s = Some v.
Proof.
  unfold uint_field. destruct (digits_val 0 s) as [x|]; [|done]. cbn [mbind option_bind].
  destruct (Z.leb_spec lo x), (Z.leb_spec x hi); simpl; try done. intros [= <-] ?.
  by rewrite (proj2 (Z.leb_le x hi')) by lia.
Qed.
Lemma lenient_zone_of s z : parse_zone s = Some z → lenient_zone s = Some z.
Proof.
  destruct s as [|sg [|h1 [|h2 [|c [|m1 [|m2 [|]]]]]]]; try done. unfold parse_zone, lenient_zone.
  destruct (uint_field 0 23 [h1; h2]) as [h|] eqn:Hh; [|done]. destruct (uint_field 0 59 [m1; m2]) as [m|] eqn:Hm; [|done].
  rewrite (uint_field_wider 0 23 24 _ h Hh) by lia. by rewrite (uint_field_wider 0 59 60 _ m Hm) by lia.
Qed.
Lemma lenient_frac_of s n r z : parse_frac s = (n, r) → parse_zone r = Some z → lenient_frac s = (n, r).
Proof.
  destruct s as [|p [|c s]]; [by intros [= <- <-]..|]. unfold parse_frac, lenient_frac.
  destruct (is_byte 46 p) eqn:Hp; simpl; [done|]. intros [= <- <-] Hz.
  destruct (is_byte 44 p) eqn:Hc; [|done]. apply is_byte_spec in Hc as ->. exfalso. revert Hz. unfold parse_zone.
  destruct s as [|h2 [|x [|m1 [|m2 [|]]]]]; try done.
  intros (h & _ & (m & _ & Hm)%bind_Some)%bind_Some. by vm_compute in Hm.
Qed.
(** Both read the same time where the stricter one reads one. *)
Lemma Parse_of s t : parseRFC3339 (to_bytes s) = Some t → sp_time <$> Parse s = Some t.
Proof.
  unfold parseRFC3339, Parse. generalize (to_bytes s) as b. clear s. intros b.
  intros (y & Hy & (m & Hm & (d & Hd & (hh & Hh & (mm & Hmm & (ss & Hs & Hr)%bind_Some)%bind_Some)%bind_Some)%bind_Some)%bind_Some)%bind_Some.
  destruct (_ && _) eqn:Hbytes; [|done]. destruct (parse_frac (drop 19 b)) as [n r] eqn:Hf.
  apply bind_Some in Hr as (z & Hz & [= <-]).
  assert (20 ≤ length b)%nat as Hlen.
  { destruct (Nat.le_gt_cases 20 (length b)); [done|]. rewrite (drop_ge b 19) in Hf by lia.
    injection Hf as <- <-. done. }
  rewrite bool_decide_false by lia.
  do 19 (destruct b as [|? b]; [simpl in Hlen; lia|]). unfold slice, byte_at in *. simpl in *.
  rewrite drop_0 in Hf.
  rewrite !andb_true_iff, !bool_decide_eq_true in Hbytes.
  destruct Hbytes as [[[[[= ->] [= ->]] [= ->]] [= ->]] [= ->]].
  rewrite Hy. cbn [mbind option_bind expect]. rewrite bool_decide_true by done. cbn [mbind option_bind].
  rewrite (ranged_two true _ _ _ _ _ _ Hm). cbn [mbind option_bind expect]. rewrite bool_decide_true by done.
  cbn [mbind option_bind]. rewrite (getnum_two true _ _ _ _ _ _ Hd). cbn [mbind option_bind expect].
  rewrite bool_decide_true by done. cbn [mbind option_bind].
  rewrite (ranged_two false _ _ _ _ _ _ Hh). cbn [mbind option_bind expect]. rewrite bool_decide_true by done.
  cbn [mbind option_bind]. rewrite (ranged_two true _ _ _ _ _ _ Hmm). cbn [mbind option_bind expect].
  rewrite bool_decide_true by done. cbn [mbind option_bind]. rewrite (ranged_two true _ _ _ _ _ _ Hs).
  cbn [mbind option_bind]. rewrite (lenient_frac_of _ _ _ _ Hf Hz), (lenient_zone_of _ _ Hz).
  cbn [mbind option_bind]. apply uint_field_two in Hd as (_ & _ & _ & ? & ?).
  by rewrite (proj2 (Z.leb_le 1 d)), (proj2 (Z.leb_le d _)).
Qed.
