(* ===== verification/Domain.v ===== *)
(** * The domain package: compliance cases, dispatch rules, records

    [internal/domain]: the status machine of a compliance case, its guards,
    rule matching, and the records the persistence layer stores. Go [int]
    fields are [Z] values of the 64-bit range; a [*time.Time] is an option;
    [Materials], [Keywords] and the like are lists (nil is the empty list;
    the code does not tell the two apart on a stored case). Then the status
    machine as a transition system, what [TransitionTo] does on every branch,
    rule matching as a specification, escalation names. *)
From stdpp Require Import relations.
From S2P Require Import Prelude GoErrors GoTime.
Definition DataVersion : Z := 2.

(** ** Errors (errors.go) *)

Inductive domain_error : Type :=
| ErrNotFound | ErrDuplicate | ErrInvalidTransition | ErrNoMatchingRule
| ErrMaxEscalationReached | ErrValidation | ErrAlreadyCompleted
| ErrAlreadyCancelled | ErrShardCorrupted | ErrConcurrentConflict
(** [sql.ErrNoRows], which one query of the index lets through *)
| ErrNoRows
(** [worker.ErrRuleReeval] *)
| ErrRuleReeval.
#[export] Instance domain_error_eq_dec : EqDecision domain_error.
Proof. solve_decision. Defined.

Definition domain_error_text (e : domain_error) : string :=
  match e with
  | ErrNotFound => "entity not found"
  | ErrDuplicate => "duplicate entity"
  | ErrInvalidTransition => "invalid status transition"
  | ErrNoMatchingRule => "no matching dispatch rule"
  | ErrMaxEscalationReached => "maximum escalation level reached"
  | ErrValidation => "validation error"
  | ErrAlreadyCompleted => "item already completed"
  | ErrAlreadyCancelled => "item already cancelled"
  | ErrShardCorrupted => "shard file corrupted"
  | ErrConcurrentConflict => "concurrent modification conflict"
  | ErrNoRows => "sql: no rows in result set"
  | ErrRuleReeval => "rule re-evaluation failure"
  end.

Abbreviation derror := (error domain_error).

(** [ValidationError{Field: f, Message: m}] *)
Definition ValidationError (f m : string) : derror := FieldError f m ErrValidation.

(** ** Compliance cases (compliance_case.go) *)

(** [ItemStatus] is a string type; the values of the constants, and every
    other string. *)
Inductive ItemStatus : Type :=
| StatusRegistered | StatusAdjudicated | StatusInProgress | StatusReturned
| StatusEscalated | StatusCompleted | StatusCancelled
| StatusOther (s : string).
#[export] Instance ItemStatus_eq_dec : EqDecision ItemStatus.
Proof. solve_decision. Defined.

Definition status_text (s : ItemStatus) : string :=
  match s with
  | StatusRegistered => "registered"
  | StatusAdjudicated => "adjudicated"
  | StatusInProgress => "in_progress"
  | StatusReturned => "returned"
  | StatusEscalated => "escalated"
  | StatusCompleted => "completed"
  | StatusCancelled => "cancelled"
  | StatusOther s => s
  end.

(** The status a stored string denotes. *)
Definition status_of_text (s : string) : ItemStatus :=
  if bool_decide (s = "registered") then StatusRegistered
  else if bool_decide (s = "adjudicated") then StatusAdjudicated
  else if bool_decide (s = "in_progress") then StatusInProgress
  else if bool_decide (s = "returned") then StatusReturned
  else if bool_decide (s = "escalated") then StatusEscalated
  else if bool_decide (s = "completed") then StatusCompleted
  else if bool_decide (s = "cancelled") then StatusCancelled
  else StatusOther s.

Definition IsTerminal (s : ItemStatus) : bool :=
  bool_decide (s = StatusCompleted) || bool_decide (s = StatusCancelled).

Record ComplianceCase : Type := {
  ic_ID : string;
  ic_ExternalRef : string;
  ic_Title : string;
  ic_Description : string;
  ic_OperatorName : string;
  ic_OperatorContact : string;
  ic_Materials : list string;
  ic_Category : string;
  ic_Keywords : list string;
  ic_Status : ItemStatus;
  ic_LeadDepartment : string;
  ic_CoDepartments : list string;
  ic_RuleVersion : Z;
  ic_RegisteredAt : Time;
  ic_RegisteredBy : string;
  ic_Deadline : Time;
  ic_EscalationLevel : Z;
  ic_StoreID : string;
  ic_CompletedAt : option Time;
  ic_CancelledAt : option Time;
  ic_CancelReason : string;
  ic_ShardPath : string;
  ic_ShardOffset : Z;
  ic_DataVersion : Z;
  ic_CreatedAt : Time;
  ic_UpdatedAt : Time
}.

#[export] Instance ComplianceCase_eta : Eta ComplianceCase := λ c, {|
  ic_ID := ic_ID c; ic_ExternalRef := ic_ExternalRef c; ic_Title := ic_Title c;
  ic_Description := ic_Description c; ic_OperatorName := ic_OperatorName c;
  ic_OperatorContact := ic_OperatorContact c; ic_Materials := ic_Materials c;
  ic_Category := ic_Category c; ic_Keywords := ic_Keywords c;
  ic_Status := ic_Status c; ic_LeadDepartment := ic_LeadDepartment c;
  ic_CoDepartments := ic_CoDepartments c; ic_RuleVersion := ic_RuleVersion c;
  ic_RegisteredAt := ic_RegisteredAt c; ic_RegisteredBy := ic_RegisteredBy c;
  ic_Deadline := ic_Deadline c; ic_EscalationLevel := ic_EscalationLevel c;
  ic_StoreID := ic_StoreID c; ic_CompletedAt := ic_CompletedAt c;
  ic_CancelledAt := ic_CancelledAt c; ic_CancelReason := ic_CancelReason c;
  ic_ShardPath := ic_ShardPath c; ic_ShardOffset := ic_ShardOffset c;
  ic_DataVersion := ic_DataVersion c; ic_CreatedAt := ic_CreatedAt c;
  ic_UpdatedAt := ic_UpdatedAt c |}.
#[export] Instance ComplianceCase_eq_dec : EqDecision ComplianceCase.
Proof. solve_decision. Defined.

(** [transitionTable], a Go map: [None] where the key is absent. *)
Definition transitionTable (from : ItemStatus) : option (list ItemStatus) :=
  match from with
  | StatusRegistered => Some [StatusAdjudicated; StatusCancelled; StatusReturned]
  | StatusAdjudicated =>
      Some [StatusInProgress; StatusCancelled; StatusReturned; StatusEscalated]
  | StatusInProgress => Some [StatusCompleted; StatusCancelled; StatusEscalated]
  | StatusReturned => Some [StatusRegistered; StatusCancelled]
  | StatusEscalated => Some [StatusInProgress; StatusCompleted; StatusCancelled]
  | StatusCompleted => Some []
  | StatusCancelled => Some []
  | StatusOther _ => None
  end.

Definition CanTransition (from to : ItemStatus) : bool :=
  match transitionTable from with
  | None => false
  | Some allowed => existsb (λ s, bool_decide (s = to)) allowed
  end.

Definition ValidateTransition (from to : ItemStatus) : result derror () :=
  if bool_decide (from = to) then Ok ()
  else if negb (CanTransition from to) then
    Err (errorf_after ErrInvalidTransition
           ("cannot transition from " +:+ status_text from +:+ " to " +:+ status_text to))
  else Ok ().

(** The [TransitionTo] method of a case: the case after the call. *)
Definition TransitionTo (i : ComplianceCase) (to : ItemStatus) :
    result derror ComplianceCase :=
  match ValidateTransition (ic_Status i) to with
  | Err e => Err e
  | Ok _ => Ok (i <| ic_Status := to |>)
  end.

Definition IsOverdue (i : ComplianceCase) (now : Time) : bool :=
  if IsTerminal (ic_Status i) then false else After now (ic_Deadline i).

Definition case_Validate (i : ComplianceCase) : result derror () :=
  if bool_decide (ic_ExternalRef i = "") then
    Err (ValidationError "external_ref" "must not be empty")
  else if bool_decide (ic_Title i = "") then
    Err (ValidationError "title" "must not be empty")
  else if bool_decide (ic_RegisteredBy i = "") then
    Err (ValidationError "reported_by" "must not be empty")
  else if IsZero (ic_Deadline i) then
    Err (ValidationError "deadline" "must not be zero")
  else Ok ().

Record ItemFilter : Type := {
  if_Status : ItemStatus;
  if_LeadDepartment : string;
  if_StoreID : string;
  if_RegisteredBy : string;
  if_From : Stamp;
  if_To : Stamp;
  if_OverdueOnly : bool;
  if_PageSize : Z;
  if_PageOffset : Z
}.

(** ** Rules (rule.go) *)

Inductive RuleStatus : Type :=
| RuleStatusDraft | RuleStatusActive | RuleStatusSuperseded
| RuleStatusOther (s : string).
#[export] Instance RuleStatus_eq_dec : EqDecision RuleStatus.
Proof. solve_decision. Defined.

Record Rule : Type := {
  ru_Version : Z;
  ru_Name : string;
  ru_Description : string;
  ru_MatchKeywords : list string;
  ru_MatchCategory : string;
  ru_LeadDepartment : string;
  ru_CoDepartments : list string;
  ru_Priority : Z;
  ru_IsDefault : bool;
  ru_EffectiveFrom : Time;
  ru_EffectiveTo : Time;
  ru_Status : RuleStatus;
  ru_CreatedAt : Time;
  ru_CreatedBy : string;
  ru_ShardPath : string;
  ru_DataVersion : Z
}.
#[export] Instance Rule_eta : Eta Rule := λ r, {|
  ru_Version := ru_Version r; ru_Name := ru_Name r;
  ru_Description := ru_Description r; ru_MatchKeywords := ru_MatchKeywords r;
  ru_MatchCategory := ru_MatchCategory r; ru_LeadDepartment := ru_LeadDepartment r;
  ru_CoDepartments := ru_CoDepartments r; ru_Priority := ru_Priority r;
  ru_IsDefault := ru_IsDefault r; ru_EffectiveFrom := ru_EffectiveFrom r;
  ru_EffectiveTo := ru_EffectiveTo r; ru_Status := ru_Status r;
  ru_CreatedAt := ru_CreatedAt r; ru_CreatedBy := ru_CreatedBy r;
  ru_ShardPath := ru_ShardPath r; ru_DataVersion := ru_DataVersion r |}.
#[export] Instance Rule_eq_dec : EqDecision Rule.
Proof. solve_decision. Defined.

Definition IsActiveAt (r : Rule) (t : Time) : bool :=
  if negb (bool_decide (ru_Status r = RuleStatusActive)) then false
  else if Before t (ru_EffectiveFrom r) then false
  else if negb (IsZero (ru_EffectiveTo r)) && negb (Before t (ru_EffectiveTo r)) then false
  else true.

(** The set [itemKW] built from the item's keywords, and the loop over the
    rule's keywords that stops at the first hit. *)
Definition keyword_set (kws : list string) : gset string := list_to_set kws.
Fixpoint keyword_hit (kws : list string) (itemKW : gset string) : bool :=
  match kws with
  | [] => false
  | k :: kws => if bool_decide (k ∈ itemKW) then true else keyword_hit kws itemKW
  end.

Definition Matches (r : Rule) (item : ComplianceCase) : bool :=
  if ru_IsDefault r then true
  else
    let keywords (matched : bool) : bool :=
      if bool_decide (ru_MatchKeywords r = []) then matched
      else keyword_hit (ru_MatchKeywords r) (keyword_set (ic_Keywords item)) in
    if bool_decide (ru_MatchCategory r = "") then keywords false
    else if bool_decide (ic_Category item = ru_MatchCategory r) then keywords true
    else false.

Definition rule_Validate (r : Rule) : result derror () :=
  if bool_decide (ru_Name r = "") then
    Err (ValidationError "name" "must not be empty")
  else if bool_decide (ru_LeadDepartment r = "") then
    Err (ValidationError "lead_department" "must not be empty")
  else if IsZero (ru_EffectiveFrom r) then
    Err (ValidationError "effective_from" "must not be zero")
  else if negb (IsZero (ru_EffectiveTo r)) &&
          negb (After (ru_EffectiveTo r) (ru_EffectiveFrom r)) then
    Err (ValidationError "effective_to" "must be after effective_from")
  else Ok ().

(** ** Referrals, escalations, audit entries, failures, batches *)

Record Referral : Type := {
  rf_ID : string;
  rf_ItemID : string;
  rf_LeadDepartment : string;
  rf_CoDepartments : list string;
  rf_RuleVersion : Z;
  rf_AdjudicatedAt : Time;
  rf_AdjudicatedBy : string;
  rf_IsCurrent : bool;
  rf_ShardPath : string;
  rf_DataVersion : Z
}.
#[export] Instance Referral_eta : Eta Referral := λ r, {|
  rf_ID := rf_ID r; rf_ItemID := rf_ItemID r;
  rf_LeadDepartment := rf_LeadDepartment r; rf_CoDepartments := rf_CoDepartments r;
  rf_RuleVersion := rf_RuleVersion r; rf_AdjudicatedAt := rf_AdjudicatedAt r;
  rf_AdjudicatedBy := rf_AdjudicatedBy r; rf_IsCurrent := rf_IsCurrent r;
  rf_ShardPath := rf_ShardPath r; rf_DataVersion := rf_DataVersion r |}.
#[export] Instance Referral_eq_dec : EqDecision Referral.
Proof. solve_decision. Defined.

Record Escalation : Type := {
  es_ID : string;
  es_ItemID : string;
  es_FromLevel : Z;
  es_ToLevel : Z;
  es_OldLeadDept : string;
  es_NewLeadDept : string;
  es_EscalatedAt : Time;
  es_Reason : string;
  es_NewDeadline : Time;
  es_ShardPath : string;
  es_DataVersion : Z
}.
#[export] Instance Escalation_eta : Eta Escalation := λ e, {|
  es_ID := es_ID e; es_ItemID := es_ItemID e; es_FromLevel := es_FromLevel e;
  es_ToLevel := es_ToLevel e; es_OldLeadDept := es_OldLeadDept e;
  es_NewLeadDept := es_NewLeadDept e; es_EscalatedAt := es_EscalatedAt e;
  es_Reason := es_Reason e; es_NewDeadline := es_NewDeadline e;
  es_ShardPath := es_ShardPath e; es_DataVersion := es_DataVersion e |}.
#[export] Instance Escalation_eq_dec : EqDecision Escalation.
Proof. solve_decision. Defined.

Definition EscalationDepartmentName (baseDept : string) (level : Z) : string :=
  if level <=? 0 then baseDept
  else baseDept +:+ "-supervisor-l" +:+ pretty level.

Record AuditEntry : Type := {
  au_ID : string;
  au_EntityID : string;
  au_EntityType : string;
  au_Action : string;
  au_Actor : string;
  au_Timestamp : Time;
  au_Details : string;
  au_ShardPath : string;
  au_DataVersion : Z
}.
#[export] Instance AuditEntry_eta : Eta AuditEntry := λ a, {|
  au_ID := au_ID a; au_EntityID := au_EntityID a; au_EntityType := au_EntityType a;
  au_Action := au_Action a; au_Actor := au_Actor a; au_Timestamp := au_Timestamp a;
  au_Details := au_Details a; au_ShardPath := au_ShardPath a;
  au_DataVersion := au_DataVersion a |}.
#[export] Instance AuditEntry_eq_dec : EqDecision AuditEntry.
Proof. solve_decision. Defined.

Inductive FailureStatus : Type :=
| FailureStatusActive | FailureStatusRetried | FailureStatusResolved
| FailureStatusOther (s : string).
#[export] Instance FailureStatus_eq_dec : EqDecision FailureStatus.
Proof. solve_decision. Defined.

Record PermanentFailure : Type := {
  pf_ID : string;
  pf_EntityType : string;
  pf_EntityID : string;
  pf_TaskType : string;
  pf_LastError : string;
  pf_Attempts : Z;
  pf_FirstFailedAt : Time;
  pf_LastFailedAt : Time;
  pf_Status : FailureStatus;
  pf_ResolvedAt : option Time;
  pf_NextRetryAt : option Time;
  pf_BackoffState : string;
  pf_DataVersion : Z
}.
#[export] Instance PermanentFailure_eta : Eta PermanentFailure := λ f, {|
  pf_ID := pf_ID f; pf_EntityType := pf_EntityType f; pf_EntityID := pf_EntityID f;
  pf_TaskType := pf_TaskType f; pf_LastError := pf_LastError f;
  pf_Attempts := pf_Attempts f; pf_FirstFailedAt := pf_FirstFailedAt f;
  pf_LastFailedAt := pf_LastFailedAt f; pf_Status := pf_Status f;
  pf_ResolvedAt := pf_ResolvedAt f; pf_NextRetryAt := pf_NextRetryAt f;
  pf_BackoffState := pf_BackoffState f; pf_DataVersion := pf_DataVersion f |}.
#[export] Instance PermanentFailure_eq_dec : EqDecision PermanentFailure.
Proof. solve_decision. Defined.

Record ImportBatch : Type := {
  ib_ID : string;
  ib_StoreID : string;
  ib_BatchDate : Time;
  ib_TotalRows : Z;
  ib_SuccessCount : Z;
  ib_FailureCount : Z;
  ib_ImportedAt : Time;
  ib_ShardPath : string;
  ib_DataVersion : Z
}.
#[export] Instance ImportBatch_eta : Eta ImportBatch := λ b, {|
  ib_ID := ib_ID b; ib_StoreID := ib_StoreID b; ib_BatchDate := ib_BatchDate b;
  ib_TotalRows := ib_TotalRows b; ib_SuccessCount := ib_SuccessCount b;
  ib_FailureCount := ib_FailureCount b; ib_ImportedAt := ib_ImportedAt b;
  ib_ShardPath := ib_ShardPath b; ib_DataVersion := ib_DataVersion b |}.
#[export] Instance ImportBatch_eq_dec : EqDecision ImportBatch.
Proof. solve_decision. Defined.

Record BatchRowResult : Type := {
  br_RowIndex : Z;
  br_ExternalRef : string;
  br_Success : bool;
  br_ItemID : string;
  br_Error : string
}.

Record BatchImportResult : Type := {
  bi_BatchID : string;
  bi_TotalRows : Z;
  bi_SuccessCount : Z;
  bi_FailureCount : Z;
  bi_Results : list BatchRowResult
}.

Record AuditFilter : Type := {
  af_EntityID : string;
  af_EntityType : string;
  af_Actor : string;
  af_From : Stamp;
  af_To : Stamp;
  af_PageSize : Z;
  af_PageOffset : Z
}.

Record BatchFilter : Type := {
  bf_StoreID : string;
  bf_From : Stamp;
  bf_To : Stamp;
  bf_PageSize : Z;
  bf_PageOffset : Z
}.

(** ** The status machine *)

Definition case_step (from to : ItemStatus) : Prop := CanTransition from to = true.

#[export] Instance case_step_dec from to : Decision (case_step from to).
Proof. unfold case_step. apply _. Defined.

Lemma TransitionTo_ok i to i' :
  TransitionTo i to = Ok i' ↔
  (ic_Status i = to ∨ case_step (ic_Status i) to) ∧ i' = i <| ic_Status := to |>.
Proof.
  unfold TransitionTo, ValidateTransition, case_step.
  repeat case_bool_decide; destruct (CanTransition _ _); simpl; naive_solver.
Qed.

Lemma TransitionTo_err i to e :
  TransitionTo i to = Err e →
  errors_is e ErrInvalidTransition = true ∧
  ic_Status i ≠ to ∧ ¬ case_step (ic_Status i) to.
Proof.
  unfold TransitionTo, ValidateTransition, case_step.
  repeat case_bool_decide; destruct (CanTransition _ _); simpl; naive_solver.
Qed.

Lemma terminal_no_step from to : IsTerminal from = true → ¬ case_step from to.
Proof. by destruct from. Qed.

(** The statuses the constants name. *)
Definition named_statuses : list ItemStatus :=
  [StatusRegistered; StatusAdjudicated; StatusInProgress; StatusReturned;
   StatusEscalated; StatusCompleted; StatusCancelled].

(** A call to [TransitionTo] succeeds exactly when the target is the
    current status or an entry of [transitionTable] for it, changes nothing
    but the status, and fails with [ErrInvalidTransition] otherwise. *)
Theorem TransitionTo_spec i to :
  match TransitionTo i to with
  | Ok i' => (ic_Status i = to ∨ case_step (ic_Status i) to) ∧
             i' = i <| ic_Status := to |>
  | Err e => errors_is e ErrInvalidTransition = true ∧
             ic_Status i ≠ to ∧ ¬ case_step (ic_Status i) to
  end.
Proof.
  destruct (TransitionTo i to) as [i'|e] eqn:E.
  - by apply TransitionTo_ok.
  - by apply TransitionTo_err.
Qed.

(** The lists of [transitionTable] for named statuses hold named statuses. *)
Lemma case_step_named from to : case_step from to → from ∈ named_statuses ∧ to ∈ named_statuses.
Proof.
  destruct from, to; intros H; try discriminate H; split; by vm_compute; set_solver.
Qed.

(** [status_path]: a path in the status machine, found by search. *)
Ltac status_path :=
  first [ by apply rtc_refl | by apply rtc_once
        | eapply (rtc_l _ _ StatusAdjudicated); [reflexivity|status_path]
        | eapply (rtc_l _ _ StatusRegistered); [reflexivity|status_path]
        | eapply (rtc_l _ _ StatusInProgress); [reflexivity|status_path] ].

(** The life cycle of a case. From [registered] every named status can
    be reached; every status that is not terminal can still reach both
    [completed] and [cancelled]; no status can be left once it is terminal,
    and no other string is ever entered. *)
Theorem case_lifecycle :
  (∀ s, s ∈ named_statuses → rtc case_step StatusRegistered s) ∧
  (∀ s, s ∈ named_statuses → IsTerminal s = false →
     rtc case_step s StatusCompleted ∧ rtc case_step s StatusCancelled) ∧
  (∀ s s', IsTerminal s = true → rtc case_step s s' → s' = s) ∧
  (∀ s s', s ∈ named_statuses → rtc case_step s s' → s' ∈ named_statuses).
Proof.
  split_and!.
  - unfold named_statuses. intros s. rewrite !elem_of_cons, elem_of_nil.
    intros [->|[->|[->|[->|[->|[->|[->|[]]]]]]]]; status_path.
  - unfold named_statuses. intros s. rewrite !elem_of_cons, elem_of_nil.
    intros [->|[->|[->|[->|[->|[->|[->|[]]]]]]]] Ht; try discriminate Ht; split; status_path.
  - intros s s' Ht Hrtc. destruct Hrtc as [|from mid to Hstep _]; [done|].
    by apply terminal_no_step in Hstep.
  - intros s s' Hs Hrtc. induction Hrtc as [|x y z Hxy _ IH]; [done|].
    apply IH. by apply case_step_named in Hxy as [_ ?].
Qed.

(** ** Matching *)

Lemma keyword_hit_spec kws S :
  keyword_hit kws S = true ↔ ∃ k, k ∈ kws ∧ k ∈ S.
Proof.
  induction kws as [|k kws IH]; simpl; [set_solver|].
  case_bool_decide; set_solver.
Qed.

(** What a rule asks of an item: the default rule asks nothing; any other rule
    has at least one criterion, and the item meets every criterion it has. *)
Definition rule_asks (r : Rule) (item : ComplianceCase) : Prop :=
  ru_IsDefault r = true ∨
  (ru_MatchCategory r ≠ "" ∨ ru_MatchKeywords r ≠ []) ∧
  (ru_MatchCategory r ≠ "" → ic_Category item = ru_MatchCategory r) ∧
  (ru_MatchKeywords r ≠ [] → ∃ k, k ∈ ru_MatchKeywords r ∧ k ∈ ic_Keywords item).

(** [Matches] decides [rule_asks]: a non-default rule without any
    criterion matches nothing, and criteria are conjunctive. *)
Lemma Matches_spec r item : Matches r item = true ↔ rule_asks r item.
Proof.
  unfold Matches, rule_asks, keyword_set.
  destruct (ru_IsDefault r); [naive_solver|].
  assert (∀ kws : list string, keyword_hit kws (list_to_set (ic_Keywords item)) = true ↔
    ∃ k, k ∈ kws ∧ k ∈ ic_Keywords item) as Hhit.
  { intros kws. rewrite keyword_hit_spec. by setoid_rewrite elem_of_list_to_set. }
  repeat case_bool_decide; rewrite ?Hhit; naive_solver.
Qed.

Lemma IsActiveAt_spec r t :
  IsActiveAt r t = true ↔
  ru_Status r = RuleStatusActive ∧ ru_EffectiveFrom r ≤ t ∧
  (ru_EffectiveTo r = zero_time ∨ t < ru_EffectiveTo r).
Proof.
  unfold IsActiveAt, IsZero, Before, zero_time.
  case_bool_decide; simpl; [|naive_solver].
  destruct (Z.ltb_spec t (ru_EffectiveFrom r)); [naive_solver lia|].
  destruct (Z.eqb_spec (ru_EffectiveTo r) 0), (Z.ltb_spec t (ru_EffectiveTo r));
    simpl; naive_solver lia.
Qed.

(** ** Escalation department names *)

Lemma EscalationDepartmentName_inj dept :
  ∀ l1 l2, 0 < l1 → 0 < l2 →
  EscalationDepartmentName dept l1 = EscalationDepartmentName dept l2 → l1 = l2.
Proof.
  intros l1 l2 H1 H2. unfold EscalationDepartmentName.
  destruct (Z.leb_spec l1 0), (Z.leb_spec l2 0); try lia.
  intros Heq. apply (inj (String.append dept)) in Heq.
  apply (inj (String.append "-supervisor-l")) in Heq. by apply (inj pretty) in Heq.
Qed.
