(* ===== verification/Records.v ===== *)
(** * The records of the shard files as JSON

    The struct tags of [internal/domain]: how [json.Marshal] writes each of
    the seven records a shard holds, and how [json.Unmarshal] reads one. A
    field tagged [json:"-"] is not written and reads back as its zero value;
    [omitempty] leaves out a nil time and an empty string. A nil slice is
    written [null] and an empty one [[]]: [nil] says which, by the name of the
    field. Enumerated strings are written by their text. Times are those of the
    process's zone, in the record as in its text. *)
From S2P Require Import Prelude GoErrors GoStrings GoNumbers GoTime Json JsonFacts Rfc3339 Domain.

(** ** Enumerations *)

Definition rule_status_text (s : RuleStatus) : string :=
  match s with
  | RuleStatusDraft => "draft"
  | RuleStatusActive => "active"
  | RuleStatusSuperseded => "superseded"
  | RuleStatusOther s => s
  end.
Definition rule_status_of_text (s : string) : RuleStatus :=
  if bool_decide (s = "draft") then RuleStatusDraft
  else if bool_decide (s = "active") then RuleStatusActive
  else if bool_decide (s = "superseded") then RuleStatusSuperseded
  else RuleStatusOther s.
Definition failure_status_text (s : FailureStatus) : string :=
  match s with
  | FailureStatusActive => "active"
  | FailureStatusRetried => "retried"
  | FailureStatusResolved => "resolved"
  | FailureStatusOther s => s
  end.
Definition failure_status_of_text (s : string) : FailureStatus :=
  if bool_decide (s = "active") then FailureStatusActive
  else if bool_decide (s = "retried") then FailureStatusRetried
  else if bool_decide (s = "resolved") then FailureStatusResolved
  else FailureStatusOther s.

(** ** Field values *)

Definition jtime `{Zone} (t : Time) : json := JStr (to_bytes (time_text t)).
Definition jslice (nil : bool) (l : list string) : json :=
  if nil && bool_decide (l = []) then JNull else JArr (jstring <$> l).
Definition omit (empty : bool) (m : bytes * json) : list (bytes * json) :=
  if empty then [] else [m].
Definition opt_time `{Zone} (name : string) (t : option Time) : list (bytes * json) :=
  match t with None => [] | Some t => [jfield name (jtime t)] end.

Definition dec_text {A} (of_text : string → A) : decoder A := λ j a,
  match j with
  | JStr raw => Some (of_text (of_bytes (unquote raw)))
  | JNull => Some a
  | _ => None
  end.
(** [time.Time.UnmarshalJSON] looks at the bytes between the quotes. *)
Definition dec_time : decoder Time := λ j a,
  match j with
  | JStr raw => parseRFC3339 raw
  | JNull => Some a
  | _ => None
  end.
Definition dec_opt_time : decoder (option Time) := λ j _,
  match j with
  | JNull => Some None
  | _ => Some <$> dec_time j zero_time
  end.

(** ** Records *)

(** A struct type with its tags. [rec_clean] is the record that comes back
    after a round trip. *)
Class JsonRecord (R : Type) : Type := {
  rec_zero : R;
  rec_fields : list (string * decoder R);
  rec_members : ∀ `{Zone}, (string → bool) → R → list (bytes * json);
  rec_times : R → list Time;
  rec_ints : R → list Z;
  rec_clean : R → R
}.

(** [json.Marshal]: it fails on a time whose year has more than four digits. *)
Definition Marshal {R} `{JsonRecord R, Zone} (nil : string → bool) (r : R) : result string bytes :=
  if forallb (λ t, bool_decide (formattable t)) (rec_times r)
  then Ok (print (JObj (rec_members nil r)))
  else Err "json: error calling MarshalJSON for type time.Time: Time.MarshalJSON: year outside of range [0,9999]".
(** [json.Unmarshal] into a zero value *)
Definition Unmarshal {R} `{JsonRecord R} (data : bytes) : option R :=
  j ← parse data;
  decode_struct rec_fields j rec_zero.

Definition zero_item : ComplianceCase := {|
  ic_ID := ""; ic_ExternalRef := ""; ic_Title := ""; ic_Description := ""; ic_OperatorName := "";
  ic_OperatorContact := ""; ic_Materials := []; ic_Category := ""; ic_Keywords := [];
  ic_Status := StatusOther ""; ic_LeadDepartment := ""; ic_CoDepartments := [];
  ic_RuleVersion := 0; ic_RegisteredAt := zero_time; ic_RegisteredBy := "";
  ic_Deadline := zero_time; ic_EscalationLevel := 0; ic_StoreID := ""; ic_CompletedAt := None;
  ic_CancelledAt := None; ic_CancelReason := ""; ic_ShardPath := ""; ic_ShardOffset := 0;
  ic_DataVersion := 0; ic_CreatedAt := zero_time; ic_UpdatedAt := zero_time |}.

Definition item_fields : list (string * decoder ComplianceCase) := [
  ("id", via dec_string ic_ID (λ v r, r <| ic_ID := v |>));
  ("external_ref", via dec_string ic_ExternalRef (λ v r, r <| ic_ExternalRef := v |>));
  ("title", via dec_string ic_Title (λ v r, r <| ic_Title := v |>));
  ("description", via dec_string ic_Description (λ v r, r <| ic_Description := v |>));
  ("operator_name", via dec_string ic_OperatorName (λ v r, r <| ic_OperatorName := v |>));
  ("operator_contact", via dec_string ic_OperatorContact (λ v r, r <| ic_OperatorContact := v |>));
  ("materials", via dec_strings ic_Materials (λ v r, r <| ic_Materials := v |>));
  ("category", via dec_string ic_Category (λ v r, r <| ic_Category := v |>));
  ("keywords", via dec_strings ic_Keywords (λ v r, r <| ic_Keywords := v |>));
  ("status", via (dec_text status_of_text) ic_Status (λ v r, r <| ic_Status := v |>));
  ("lead_department", via dec_string ic_LeadDepartment (λ v r, r <| ic_LeadDepartment := v |>));
  ("co_departments", via dec_strings ic_CoDepartments (λ v r, r <| ic_CoDepartments := v |>));
  ("rule_version", via dec_int ic_RuleVersion (λ v r, r <| ic_RuleVersion := v |>));
  ("registered_at", via dec_time ic_RegisteredAt (λ v r, r <| ic_RegisteredAt := v |>));
  ("reported_by", via dec_string ic_RegisteredBy (λ v r, r <| ic_RegisteredBy := v |>));
  ("deadline", via dec_time ic_Deadline (λ v r, r <| ic_Deadline := v |>));
  ("escalation_level", via dec_int ic_EscalationLevel (λ v r, r <| ic_EscalationLevel := v |>));
  ("store_id", via dec_string ic_StoreID (λ v r, r <| ic_StoreID := v |>));
  ("completed_at", via dec_opt_time ic_CompletedAt (λ v r, r <| ic_CompletedAt := v |>));
  ("cancelled_at", via dec_opt_time ic_CancelledAt (λ v r, r <| ic_CancelledAt := v |>));
  ("cancel_reason", via dec_string ic_CancelReason (λ v r, r <| ic_CancelReason := v |>));
  ("data_version", via dec_int ic_DataVersion (λ v r, r <| ic_DataVersion := v |>));
  ("created_at", via dec_time ic_CreatedAt (λ v r, r <| ic_CreatedAt := v |>));
  ("updated_at", via dec_time ic_UpdatedAt (λ v r, r <| ic_UpdatedAt := v |>))
].

Definition item_members `{Zone} (nil : string → bool) (r : ComplianceCase) : list (bytes * json) :=
  [jfield "id" (jstring (ic_ID r)); jfield "external_ref" (jstring (ic_ExternalRef r));
    jfield "title" (jstring (ic_Title r)); jfield "description" (jstring (ic_Description r));
    jfield "operator_name" (jstring (ic_OperatorName r));
    jfield "operator_contact" (jstring (ic_OperatorContact r));
    jfield "materials" (jslice (nil "materials") (ic_Materials r));
    jfield "category" (jstring (ic_Category r));
    jfield "keywords" (jslice (nil "keywords") (ic_Keywords r));
    jfield "status" (jstring (status_text (ic_Status r)));
    jfield "lead_department" (jstring (ic_LeadDepartment r));
    jfield "co_departments" (jslice (nil "co_departments") (ic_CoDepartments r));
    jfield "rule_version" (jint (ic_RuleVersion r));
    jfield "registered_at" (jtime (ic_RegisteredAt r));
    jfield "reported_by" (jstring (ic_RegisteredBy r)); jfield "deadline" (jtime (ic_Deadline r));
    jfield "escalation_level" (jint (ic_EscalationLevel r));
    jfield "store_id" (jstring (ic_StoreID r))] ++
  opt_time "completed_at" (ic_CompletedAt r) ++
  opt_time "cancelled_at" (ic_CancelledAt r) ++
  omit (bool_decide (ic_CancelReason r = "")) (jfield "cancel_reason" (jstring (ic_CancelReason r))) ++
  [jfield "data_version" (jint (ic_DataVersion r)); jfield "created_at" (jtime (ic_CreatedAt r));
    jfield "updated_at" (jtime (ic_UpdatedAt r))].

Definition item_times (r : ComplianceCase) : list Time :=
  [ic_RegisteredAt r; ic_Deadline r; ic_CreatedAt r; ic_UpdatedAt r] ++
  option_list (ic_CompletedAt r) ++ option_list (ic_CancelledAt r).

Definition item_ints (r : ComplianceCase) : list Z :=
  [ic_RuleVersion r; ic_EscalationLevel r; ic_DataVersion r].

Definition item_clean (r : ComplianceCase) : ComplianceCase := {|
  ic_ID := utf8_clean (ic_ID r); ic_ExternalRef := utf8_clean (ic_ExternalRef r);
  ic_Title := utf8_clean (ic_Title r); ic_Description := utf8_clean (ic_Description r);
  ic_OperatorName := utf8_clean (ic_OperatorName r);
  ic_OperatorContact := utf8_clean (ic_OperatorContact r);
  ic_Materials := utf8_clean <$> ic_Materials r; ic_Category := utf8_clean (ic_Category r);
  ic_Keywords := utf8_clean <$> ic_Keywords r;
  ic_Status := status_of_text (utf8_clean (status_text (ic_Status r)));
  ic_LeadDepartment := utf8_clean (ic_LeadDepartment r);
  ic_CoDepartments := utf8_clean <$> ic_CoDepartments r; ic_RuleVersion := ic_RuleVersion r;
  ic_RegisteredAt := ic_RegisteredAt r; ic_RegisteredBy := utf8_clean (ic_RegisteredBy r);
  ic_Deadline := ic_Deadline r; ic_EscalationLevel := ic_EscalationLevel r;
  ic_StoreID := utf8_clean (ic_StoreID r); ic_CompletedAt := ic_CompletedAt r;
  ic_CancelledAt := ic_CancelledAt r; ic_CancelReason := utf8_clean (ic_CancelReason r);
  ic_ShardPath := ""; ic_ShardOffset := 0; ic_DataVersion := ic_DataVersion r;
  ic_CreatedAt := ic_CreatedAt r; ic_UpdatedAt := ic_UpdatedAt r |}.

#[export] Instance item_json : JsonRecord ComplianceCase := {|
  rec_zero := zero_item; rec_fields := item_fields; rec_members := @item_members;
  rec_times := item_times; rec_ints := item_ints; rec_clean := item_clean |}.

Definition zero_rule : Rule := {|
  ru_Version := 0; ru_Name := ""; ru_Description := ""; ru_MatchKeywords := [];
  ru_MatchCategory := ""; ru_LeadDepartment := ""; ru_CoDepartments := []; ru_Priority := 0;
  ru_IsDefault := false; ru_EffectiveFrom := zero_time; ru_EffectiveTo := zero_time;
  ru_Status := RuleStatusOther ""; ru_CreatedAt := zero_time; ru_CreatedBy := "";
  ru_ShardPath := ""; ru_DataVersion := 0 |}.

Definition rule_fields : list (string * decoder Rule) := [
  ("version", via dec_int ru_Version (λ v r, r <| ru_Version := v |>));
  ("name", via dec_string ru_Name (λ v r, r <| ru_Name := v |>));
  ("description", via dec_string ru_Description (λ v r, r <| ru_Description := v |>));
  ("match_keywords", via dec_strings ru_MatchKeywords (λ v r, r <| ru_MatchKeywords := v |>));
  ("match_category", via dec_string ru_MatchCategory (λ v r, r <| ru_MatchCategory := v |>));
  ("lead_department", via dec_string ru_LeadDepartment (λ v r, r <| ru_LeadDepartment := v |>));
  ("co_departments", via dec_strings ru_CoDepartments (λ v r, r <| ru_CoDepartments := v |>));
  ("priority", via dec_int ru_Priority (λ v r, r <| ru_Priority := v |>));
  ("is_default", via dec_bool ru_IsDefault (λ v r, r <| ru_IsDefault := v |>));
  ("effective_from", via dec_time ru_EffectiveFrom (λ v r, r <| ru_EffectiveFrom := v |>));
  ("effective_to", via dec_time ru_EffectiveTo (λ v r, r <| ru_EffectiveTo := v |>));
  ("status", via (dec_text rule_status_of_text) ru_Status (λ v r, r <| ru_Status := v |>));
  ("created_at", via dec_time ru_CreatedAt (λ v r, r <| ru_CreatedAt := v |>));
  ("created_by", via dec_string ru_CreatedBy (λ v r, r <| ru_CreatedBy := v |>));
  ("data_version", via dec_int ru_DataVersion (λ v r, r <| ru_DataVersion := v |>))
].

Definition rule_members `{Zone} (nil : string → bool) (r : Rule) : list (bytes * json) :=
  [jfield "version" (jint (ru_Version r)); jfield "name" (jstring (ru_Name r));
    jfield "description" (jstring (ru_Description r));
    jfield "match_keywords" (jslice (nil "match_keywords") (ru_MatchKeywords r));
    jfield "match_category" (jstring (ru_MatchCategory r));
    jfield "lead_department" (jstring (ru_LeadDepartment r));
    jfield "co_departments" (jslice (nil "co_departments") (ru_CoDepartments r));
    jfield "priority" (jint (ru_Priority r)); jfield "is_default" (JBool (ru_IsDefault r));
    jfield "effective_from" (jtime (ru_EffectiveFrom r));
    jfield "effective_to" (jtime (ru_EffectiveTo r));
    jfield "status" (jstring (rule_status_text (ru_Status r)));
    jfield "created_at" (jtime (ru_CreatedAt r)); jfield "created_by" (jstring (ru_CreatedBy r));
    jfield "data_version" (jint (ru_DataVersion r))].

Definition rule_times (r : Rule) : list Time :=
  [ru_EffectiveFrom r; ru_EffectiveTo r; ru_CreatedAt r].

Definition rule_ints (r : Rule) : list Z :=
  [ru_Version r; ru_Priority r; ru_DataVersion r].

Definition rule_clean (r : Rule) : Rule := {|
  ru_Version := ru_Version r; ru_Name := utf8_clean (ru_Name r);
  ru_Description := utf8_clean (ru_Description r);
  ru_MatchKeywords := utf8_clean <$> ru_MatchKeywords r;
  ru_MatchCategory := utf8_clean (ru_MatchCategory r);
  ru_LeadDepartment := utf8_clean (ru_LeadDepartment r);
  ru_CoDepartments := utf8_clean <$> ru_CoDepartments r; ru_Priority := ru_Priority r;
  ru_IsDefault := ru_IsDefault r; ru_EffectiveFrom := ru_EffectiveFrom r;
  ru_EffectiveTo := ru_EffectiveTo r;
  ru_Status := rule_status_of_text (utf8_clean (rule_status_text (ru_Status r)));
  ru_CreatedAt := ru_CreatedAt r; ru_CreatedBy := utf8_clean (ru_CreatedBy r); ru_ShardPath := "";
  ru_DataVersion := ru_DataVersion r |}.

#[export] Instance rule_json : JsonRecord Rule := {|
  rec_zero := zero_rule; rec_fields := rule_fields; rec_members := @rule_members;
  rec_times := rule_times; rec_ints := rule_ints; rec_clean := rule_clean |}.

Definition zero_referral : Referral := {|
  rf_ID := ""; rf_ItemID := ""; rf_LeadDepartment := ""; rf_CoDepartments := [];
  rf_RuleVersion := 0; rf_AdjudicatedAt := zero_time; rf_AdjudicatedBy := "";
  rf_IsCurrent := false; rf_ShardPath := ""; rf_DataVersion := 0 |}.

Definition referral_fields : list (string * decoder Referral) := [
  ("id", via dec_string rf_ID (λ v r, r <| rf_ID := v |>));
  ("item_id", via dec_string rf_ItemID (λ v r, r <| rf_ItemID := v |>));
  ("lead_department", via dec_string rf_LeadDepartment (λ v r, r <| rf_LeadDepartment := v |>));
  ("co_departments", via dec_strings rf_CoDepartments (λ v r, r <| rf_CoDepartments := v |>));
  ("rule_version", via dec_int rf_RuleVersion (λ v r, r <| rf_RuleVersion := v |>));
  ("adjudicated_at", via dec_time rf_AdjudicatedAt (λ v r, r <| rf_AdjudicatedAt := v |>));
  ("adjudicated_by", via dec_string rf_AdjudicatedBy (λ v r, r <| rf_AdjudicatedBy := v |>));
  ("is_current", via dec_bool rf_IsCurrent (λ v r, r <| rf_IsCurrent := v |>));
  ("data_version", via dec_int rf_DataVersion (λ v r, r <| rf_DataVersion := v |>))
].

Definition referral_members `{Zone} (nil : string → bool) (r : Referral) : list (bytes * json) :=
  [jfield "id" (jstring (rf_ID r)); jfield "item_id" (jstring (rf_ItemID r));
    jfield "lead_department" (jstring (rf_LeadDepartment r));
    jfield "co_departments" (jslice (nil "co_departments") (rf_CoDepartments r));
    jfield "rule_version" (jint (rf_RuleVersion r));
    jfield "adjudicated_at" (jtime (rf_AdjudicatedAt r));
    jfield "adjudicated_by" (jstring (rf_AdjudicatedBy r));
    jfield "is_current" (JBool (rf_IsCurrent r)); jfield "data_version" (jint (rf_DataVersion r))].

Definition referral_times (r : Referral) : list Time :=
  [rf_AdjudicatedAt r].

Definition referral_ints (r : Referral) : list Z :=
  [rf_RuleVersion r; rf_DataVersion r].

Definition referral_clean (r : Referral) : Referral := {|
  rf_ID := utf8_clean (rf_ID r); rf_ItemID := utf8_clean (rf_ItemID r);
  rf_LeadDepartment := utf8_clean (rf_LeadDepartment r);
  rf_CoDepartments := utf8_clean <$> rf_CoDepartments r; rf_RuleVersion := rf_RuleVersion r;
  rf_AdjudicatedAt := rf_AdjudicatedAt r; rf_AdjudicatedBy := utf8_clean (rf_AdjudicatedBy r);
  rf_IsCurrent := rf_IsCurrent r; rf_ShardPath := ""; rf_DataVersion := rf_DataVersion r |}.

#[export] Instance referral_json : JsonRecord Referral := {|
  rec_zero := zero_referral; rec_fields := referral_fields; rec_members := @referral_members;
  rec_times := referral_times; rec_ints := referral_ints; rec_clean := referral_clean |}.

Definition zero_escalation : Escalation := {|
  es_ID := ""; es_ItemID := ""; es_FromLevel := 0; es_ToLevel := 0; es_OldLeadDept := "";
  es_NewLeadDept := ""; es_EscalatedAt := zero_time; es_Reason := ""; es_NewDeadline := zero_time;
  es_ShardPath := ""; es_DataVersion := 0 |}.

Definition escalation_fields : list (string * decoder Escalation) := [
  ("id", via dec_string es_ID (λ v r, r <| es_ID := v |>));
  ("item_id", via dec_string es_ItemID (λ v r, r <| es_ItemID := v |>));
  ("from_level", via dec_int es_FromLevel (λ v r, r <| es_FromLevel := v |>));
  ("to_level", via dec_int es_ToLevel (λ v r, r <| es_ToLevel := v |>));
  ("old_lead_dept", via dec_string es_OldLeadDept (λ v r, r <| es_OldLeadDept := v |>));
  ("new_lead_dept", via dec_string es_NewLeadDept (λ v r, r <| es_NewLeadDept := v |>));
  ("escalated_at", via dec_time es_EscalatedAt (λ v r, r <| es_EscalatedAt := v |>));
  ("reason", via dec_string es_Reason (λ v r, r <| es_Reason := v |>));
  ("new_deadline", via dec_time es_NewDeadline (λ v r, r <| es_NewDeadline := v |>));
  ("data_version", via dec_int es_DataVersion (λ v r, r <| es_DataVersion := v |>))
].

Definition escalation_members `{Zone} (nil : string → bool) (r : Escalation) : list (bytes * json) :=
  [jfield "id" (jstring (es_ID r)); jfield "item_id" (jstring (es_ItemID r));
    jfield "from_level" (jint (es_FromLevel r)); jfield "to_level" (jint (es_ToLevel r));
    jfield "old_lead_dept" (jstring (es_OldLeadDept r));
    jfield "new_lead_dept" (jstring (es_NewLeadDept r));
    jfield "escalated_at" (jtime (es_EscalatedAt r)); jfield "reason" (jstring (es_Reason r));
    jfield "new_deadline" (jtime (es_NewDeadline r));
    jfield "data_version" (jint (es_DataVersion r))].

Definition escalation_times (r : Escalation) : list Time :=
  [es_EscalatedAt r; es_NewDeadline r].

Definition escalation_ints (r : Escalation) : list Z :=
  [es_FromLevel r; es_ToLevel r; es_DataVersion r].

Definition escalation_clean (r : Escalation) : Escalation := {|
  es_ID := utf8_clean (es_ID r); es_ItemID := utf8_clean (es_ItemID r);
  es_FromLevel := es_FromLevel r; es_ToLevel := es_ToLevel r;
  es_OldLeadDept := utf8_clean (es_OldLeadDept r);
  es_NewLeadDept := utf8_clean (es_NewLeadDept r); es_EscalatedAt := es_EscalatedAt r;
  es_Reason := utf8_clean (es_Reason r); es_NewDeadline := es_NewDeadline r; es_ShardPath := "";
  es_DataVersion := es_DataVersion r |}.

#[export] Instance escalation_json : JsonRecord Escalation := {|
  rec_zero := zero_escalation; rec_fields := escalation_fields; rec_members := @escalation_members;
  rec_times := escalation_times; rec_ints := escalation_ints; rec_clean := escalation_clean |}.

Definition zero_audit : AuditEntry := {|
  au_ID := ""; au_EntityID := ""; au_EntityType := ""; au_Action := ""; au_Actor := "";
  au_Timestamp := zero_time; au_Details := ""; au_ShardPath := ""; au_DataVersion := 0 |}.

Definition audit_fields : list (string * decoder AuditEntry) := [
  ("id", via dec_string au_ID (λ v r, r <| au_ID := v |>));
  ("entity_id", via dec_string au_EntityID (λ v r, r <| au_EntityID := v |>));
  ("entity_type", via dec_string au_EntityType (λ v r, r <| au_EntityType := v |>));
  ("action", via dec_string au_Action (λ v r, r <| au_Action := v |>));
  ("actor", via dec_string au_Actor (λ v r, r <| au_Actor := v |>));
  ("timestamp", via dec_time au_Timestamp (λ v r, r <| au_Timestamp := v |>));
  ("details", via dec_string au_Details (λ v r, r <| au_Details := v |>));
  ("data_version", via dec_int au_DataVersion (λ v r, r <| au_DataVersion := v |>))
].

Definition audit_members `{Zone} (nil : string → bool) (r : AuditEntry) : list (bytes * json) :=
  [jfield "id" (jstring (au_ID r)); jfield "entity_id" (jstring (au_EntityID r));
    jfield "entity_type" (jstring (au_EntityType r)); jfield "action" (jstring (au_Action r));
    jfield "actor" (jstring (au_Actor r)); jfield "timestamp" (jtime (au_Timestamp r))] ++
  omit (bool_decide (au_Details r = "")) (jfield "details" (jstring (au_Details r))) ++
  [jfield "data_version" (jint (au_DataVersion r))].

Definition audit_times (r : AuditEntry) : list Time :=
  [au_Timestamp r].

Definition audit_ints (r : AuditEntry) : list Z :=
  [au_DataVersion r].

Definition audit_clean (r : AuditEntry) : AuditEntry := {|
  au_ID := utf8_clean (au_ID r); au_EntityID := utf8_clean (au_EntityID r);
  au_EntityType := utf8_clean (au_EntityType r); au_Action := utf8_clean (au_Action r);
  au_Actor := utf8_clean (au_Actor r); au_Timestamp := au_Timestamp r;
  au_Details := utf8_clean (au_Details r); au_ShardPath := ""; au_DataVersion := au_DataVersion r |}.

#[export] Instance audit_json : JsonRecord AuditEntry := {|
  rec_zero := zero_audit; rec_fields := audit_fields; rec_members := @audit_members;
  rec_times := audit_times; rec_ints := audit_ints; rec_clean := audit_clean |}.

Definition zero_failure : PermanentFailure := {|
  pf_ID := ""; pf_EntityType := ""; pf_EntityID := ""; pf_TaskType := ""; pf_LastError := "";
  pf_Attempts := 0; pf_FirstFailedAt := zero_time; pf_LastFailedAt := zero_time;
  pf_Status := FailureStatusOther ""; pf_ResolvedAt := None; pf_NextRetryAt := None;
  pf_BackoffState := ""; pf_DataVersion := 0 |}.

Definition failure_fields : list (string * decoder PermanentFailure) := [
  ("id", via dec_string pf_ID (λ v r, r <| pf_ID := v |>));
  ("entity_type", via dec_string pf_EntityType (λ v r, r <| pf_EntityType := v |>));
  ("entity_id", via dec_string pf_EntityID (λ v r, r <| pf_EntityID := v |>));
  ("task_type", via dec_string pf_TaskType (λ v r, r <| pf_TaskType := v |>));
  ("last_error", via dec_string pf_LastError (λ v r, r <| pf_LastError := v |>));
  ("attempts", via dec_int pf_Attempts (λ v r, r <| pf_Attempts := v |>));
  ("first_failed_at", via dec_time pf_FirstFailedAt (λ v r, r <| pf_FirstFailedAt := v |>));
  ("last_failed_at", via dec_time pf_LastFailedAt (λ v r, r <| pf_LastFailedAt := v |>));
  ("status", via (dec_text failure_status_of_text) pf_Status (λ v r, r <| pf_Status := v |>));
  ("resolved_at", via dec_opt_time pf_ResolvedAt (λ v r, r <| pf_ResolvedAt := v |>));
  ("next_retry_at", via dec_opt_time pf_NextRetryAt (λ v r, r <| pf_NextRetryAt := v |>));
  ("backoff_state", via dec_string pf_BackoffState (λ v r, r <| pf_BackoffState := v |>));
  ("data_version", via dec_int pf_DataVersion (λ v r, r <| pf_DataVersion := v |>))
].

Definition failure_members `{Zone} (nil : string → bool) (r : PermanentFailure) : list (bytes * json) :=
  [jfield "id" (jstring (pf_ID r)); jfield "entity_type" (jstring (pf_EntityType r));
    jfield "entity_id" (jstring (pf_EntityID r)); jfield "task_type" (jstring (pf_TaskType r));
    jfield "last_error" (jstring (pf_LastError r)); jfield "attempts" (jint (pf_Attempts r));
    jfield "first_failed_at" (jtime (pf_FirstFailedAt r));
    jfield "last_failed_at" (jtime (pf_LastFailedAt r));
    jfield "status" (jstring (failure_status_text (pf_Status r)))] ++
  opt_time "resolved_at" (pf_ResolvedAt r) ++
  opt_time "next_retry_at" (pf_NextRetryAt r) ++
  omit (bool_decide (pf_BackoffState r = "")) (jfield "backoff_state" (jstring (pf_BackoffState r))) ++
  [jfield "data_version" (jint (pf_DataVersion r))].

Definition failure_times (r : PermanentFailure) : list Time :=
  [pf_FirstFailedAt r; pf_LastFailedAt r] ++ option_list (pf_ResolvedAt r) ++
  option_list (pf_NextRetryAt r).

Definition failure_ints (r : PermanentFailure) : list Z :=
  [pf_Attempts r; pf_DataVersion r].

Definition failure_clean (r : PermanentFailure) : PermanentFailure := {|
  pf_ID := utf8_clean (pf_ID r); pf_EntityType := utf8_clean (pf_EntityType r);
  pf_EntityID := utf8_clean (pf_EntityID r); pf_TaskType := utf8_clean (pf_TaskType r);
  pf_LastError := utf8_clean (pf_LastError r); pf_Attempts := pf_Attempts r;
  pf_FirstFailedAt := pf_FirstFailedAt r; pf_LastFailedAt := pf_LastFailedAt r;
  pf_Status := failure_status_of_text (utf8_clean (failure_status_text (pf_Status r)));
  pf_ResolvedAt := pf_ResolvedAt r; pf_NextRetryAt := pf_NextRetryAt r;
  pf_BackoffState := utf8_clean (pf_BackoffState r); pf_DataVersion := pf_DataVersion r |}.

#[export] Instance failure_json : JsonRecord PermanentFailure := {|
  rec_zero := zero_failure; rec_fields := failure_fields; rec_members := @failure_members;
  rec_times := failure_times; rec_ints := failure_ints; rec_clean := failure_clean |}.

Definition zero_batch : ImportBatch := {|
  ib_ID := ""; ib_StoreID := ""; ib_BatchDate := zero_time; ib_TotalRows := 0;
  ib_SuccessCount := 0; ib_FailureCount := 0; ib_ImportedAt := zero_time; ib_ShardPath := "";
  ib_DataVersion := 0 |}.

Definition batch_fields : list (string * decoder ImportBatch) := [
  ("id", via dec_string ib_ID (λ v r, r <| ib_ID := v |>));
  ("store_id", via dec_string ib_StoreID (λ v r, r <| ib_StoreID := v |>));
  ("batch_date", via dec_time ib_BatchDate (λ v r, r <| ib_BatchDate := v |>));
  ("total_rows", via dec_int ib_TotalRows (λ v r, r <| ib_TotalRows := v |>));
  ("success_count", via dec_int ib_SuccessCount (λ v r, r <| ib_SuccessCount := v |>));
  ("failure_count", via dec_int ib_FailureCount (λ v r, r <| ib_FailureCount := v |>));
  ("imported_at", via dec_time ib_ImportedAt (λ v r, r <| ib_ImportedAt := v |>));
  ("data_version", via dec_int ib_DataVersion (λ v r, r <| ib_DataVersion := v |>))
].

Definition batch_members `{Zone} (nil : string → bool) (r : ImportBatch) : list (bytes * json) :=
  [jfield "id" (jstring (ib_ID r)); jfield "store_id" (jstring (ib_StoreID r));
    jfield "batch_date" (jtime (ib_BatchDate r)); jfield "total_rows" (jint (ib_TotalRows r));
    jfield "success_count" (jint (ib_SuccessCount r));
    jfield "failure_count" (jint (ib_FailureCount r));
    jfield "imported_at" (jtime (ib_ImportedAt r));
    jfield "data_version" (jint (ib_DataVersion r))].

Definition batch_times (r : ImportBatch) : list Time :=
  [ib_BatchDate r; ib_ImportedAt r].

Definition batch_ints (r : ImportBatch) : list Z :=
  [ib_TotalRows r; ib_SuccessCount r; ib_FailureCount r; ib_DataVersion r].

Definition batch_clean (r : ImportBatch) : ImportBatch := {|
  ib_ID := utf8_clean (ib_ID r); ib_StoreID := utf8_clean (ib_StoreID r);
  ib_BatchDate := ib_BatchDate r; ib_TotalRows := ib_TotalRows r;
  ib_SuccessCount := ib_SuccessCount r; ib_FailureCount := ib_FailureCount r;
  ib_ImportedAt := ib_ImportedAt r; ib_ShardPath := ""; ib_DataVersion := ib_DataVersion r |}.

#[export] Instance batch_json : JsonRecord ImportBatch := {|
  rec_zero := zero_batch; rec_fields := batch_fields; rec_members := @batch_members;
  rec_times := batch_times; rec_ints := batch_ints; rec_clean := batch_clean |}.

