(* ===== verification/RecordsFacts.v ===== *)
(** * The round trip of a record through its JSON text

    Every record of a shard is read back as it was written, up to the fields
    that are not written and to bytes that are not UTF-8. *)
From Stdlib Require Import Ascii.
From S2P Require Import Prelude GoErrors GoStrings GoNumbers GoTime Json JsonFacts Rfc3339.
From S2P Require Import Domain Records.

(** ** Values *)

Lemma utf8_clean_bytes s : of_bytes (clean_bytes (to_bytes s)) = utf8_clean s.
Proof. done. Qed.
Lemma unquote_plain t : Forall (λ c, plain c = true) t → unescape t = t.
Proof. intros Ht. pose proof (unescape_plain t [] Ht) as E. by rewrite !app_nil_r in E. Qed.

Lemma plain_pretty (z : Z) : Forall (λ c, plain c = true) (to_bytes (pretty z)).
Proof.
  assert (∀ ds n, decimal ds n → Forall (λ c, plain c = true) ds) as Hdec.
  { intros ds n (Hall & _). eapply Forall_impl; [exact Hall|]. intros c Hc.
    unfold plain, is_digit, is_byte in *. guards.
    rewrite !(proj2 (Z.eqb_neq _ _)) by lia. simpl. apply Z.leb_le. lia. }
  destruct z as [|p|p]; [by repeat constructor|..].
  - destruct (pretty_pos (Zpos p)) as (c & ds & -> & Hd & _); [lia|]. by eapply Hdec.
  - destruct (pretty_pos (Zpos p)) as (c & ds & Heq & Hd & _); [lia|].
    assert (to_bytes (pretty (Zneg p)) = "-"%char :: c :: ds) as -> by (rewrite <- Heq; done).
    constructor; [done|]. by eapply Hdec.
Qed.
Lemma plain_pad w (z : Z) : Forall (λ c, plain c = true) (to_bytes (pad w z)).
Proof.
  unfold pad. rewrite to_bytes_app. apply Forall_app_2; [|apply plain_pretty].
  generalize (w - String.length (pretty z))%nat as n. intros n.
  induction n as [|n IH]; [done|]. by constructor.
Qed.
Lemma plain_time `{Zone} t : Forall (λ c, plain c = true) (to_bytes (time_text t)).
Proof.
  unfold time_text, stamp_text, suffix_text, date_text, clock_text, frac_text, offset_text.
  destruct (civil _) as [[y m] d]. destruct (trim_zeros _ _ _) as [n w]. rewrite !to_bytes_app.
  repeat case_match; rewrite ?to_bytes_app, ?Forall_app; split_and!; try apply plain_pad; by repeat constructor.
Qed.

Definition member_ok (m : bytes * json) : Prop :=
  literal m.1 ∧ writable m.2 ∧ (jdepth m.2 ≤ 1)%nat.
Create HintDb json_db.

Lemma member_field name v : writable v → (jdepth v ≤ 1)%nat → member_ok (jfield name v).
Proof. intros Hw Hd. split_and!; [|done..]. intros r. apply scan_escape. Qed.
Lemma writable_time `{Zone} t : writable (jtime t).
Proof.
  intros r. rewrite <- (app_nil_r (to_bytes (time_text t))) at 2.
  by apply (scan_string_escaped _ (to_bytes (time_text t))); [constructor; apply plain_time|].
Qed.
Lemma writable_slice nil l : writable (jslice nil l).
Proof.
  unfold jslice. case_match; [done|]. apply writable_arr. apply Forall_fmap, Forall_true.
  intros s. apply writable_string.
Qed.
Lemma depth_slice nil l : (jdepth (jslice nil l) ≤ 1)%nat.
Proof.
  unfold jslice. case_match; [simpl; lia|]. clear. simpl.
  assert (max_list (jdepth <$> (jstring <$> l)) = 0%nat) as E; [|lia].
  induction l as [|s l IH]; [done|]. exact IH.
Qed.
Lemma members_omit b m : member_ok m → Forall member_ok (omit b m).
Proof. intros Hm. unfold omit. destruct b; [done|by constructor]. Qed.
Lemma members_opt_time `{Zone} name t : Forall member_ok (opt_time name t).
Proof.
  destruct t as [t|]; [|done]. constructor; [|done].
  apply member_field; [apply writable_time|simpl; lia].
Qed.

#[export] Hint Resolve writable_time writable_slice writable_string writable_int depth_slice
  members_omit members_opt_time member_field : json_db.
#[export] Hint Extern 1 (jdepth _ ≤ 1)%nat => (simpl; lia) : json_db.
#[export] Hint Extern 1 (writable (JBool _)) => exact I : json_db.

(** ** Decoding *)

Lemma dec_string_of s a : dec_string (jstring s) a = Some (utf8_clean s).
Proof. unfold dec_string, jstring. by rewrite unquote_escape. Qed.
Lemma dec_text_of {A} (f : string → A) s a : dec_text f (jstring s) a = Some (f (utf8_clean s)).
Proof. unfold dec_text, jstring. by rewrite unquote_escape. Qed.
Lemma dec_int_of z a : is_i64 z → dec_int (jint z) a = Some z.
Proof. intros Hz. unfold dec_int, jint. by rewrite of_to_bytes, ParseInt_pretty. Qed.
Lemma dec_time_of `{Zone} t a : formattable t → dec_time (jtime t) a = Some t.
Proof. apply parse_time_text. Qed.
Lemma dec_opt_time_of `{Zone} t a : formattable t → dec_opt_time (jtime t) a = Some (Some t).
Proof. intros Ht. unfold dec_opt_time. simpl. by rewrite parse_time_text. Qed.
Lemma mapM_step {A B} (f : A → option B) x l :
  mapM f (x :: l) = (y ← f x; k ← mapM f l; mret (y :: k)).
Proof. done. Qed.
Lemma dec_elems l : mapM (λ v, dec_string v "") (jstring <$> l) = Some (utf8_clean <$> l).
Proof.
  induction l as [|s l IH]; [done|]. rewrite !fmap_cons, mapM_step, dec_string_of, IH. done.
Qed.
Lemma dec_slice_of nil l a : dec_strings (jslice nil l) a = Some (utf8_clean <$> l).
Proof.
  unfold jslice. destruct (nil && bool_decide (l = [])) eqn:E; [|apply dec_elems].
  guards. by subst.
Qed.

(** The names of a table: all different, and plain. *)
Definition names_ok {R} (table : list (string * decoder R)) : bool :=
  bool_decide (NoDup table.*1) && forallb utf8_valid table.*1.

Lemma find_field_in {R} (table : list (string * decoder R)) name set :
  names_ok table = true → (name, set) ∈ table →
  find_field table (unquote (escape (to_bytes name))) = Some set.
Proof.
  intros [Hnd%bool_decide_eq_true Hall]%andb_true_iff Hin. rewrite unquote_escape.
  assert (clean_bytes (to_bytes name) = to_bytes name) as ->.
  { rewrite forallb_forall in Hall. pose proof (Hall name) as Hv.
    unfold utf8_valid in Hv. rewrite String.eqb_eq in Hv. rewrite <- Hv at 2.
    - unfold utf8_clean. by rewrite to_of_bytes.
    - apply list_elem_of_In, list_elem_of_fmap. by exists (name, set). }
  unfold find_field. clear Hall.
  assert (List.find (λ f, bool_decide (to_bytes f.1 = to_bytes name)) table = Some (name, set)) as ->; [|done].
  induction table as [|[n s] table IH]; [by apply elem_of_nil in Hin|].
  apply NoDup_cons in Hnd as [Hn Hnd]. simpl. case_bool_decide as Heq.
  - apply (inj to_bytes) in Heq as ->. apply elem_of_cons in Hin as [[= ->]|Hin]; [done|].
    destruct Hn. apply list_elem_of_fmap. by exists (name, set).
  - apply elem_of_cons in Hin as [[= -> ->]|Hin]; [done|]. by apply IH.
Qed.

(** Decoding one member. *)
Lemma field_step {R A} table name (dec : decoder A) get (put : A → R → R) v a l r :
  names_ok table = true → (name, via dec get put) ∈ table → dec v (get r) = Some a →
  decode_members table (jfield name v :: l) r = decode_members table l (put a r).
Proof.
  intros Hok Hin Hdec. simpl. rewrite (find_field_in _ _ _ Hok Hin). unfold via. by rewrite Hdec.
Qed.

(** ** The laws *)

Definition storable_ints {R} `{JsonRecord R} (r : R) : Prop := Forall is_i64 (rec_ints r).
Definition storable_times {R} `{JsonRecord R, Zone} (r : R) : Prop := Forall formattable (rec_times r).

(** What the codec of a struct promises. *)
Class JsonRecordLaws (R : Type) `{JsonRecord R} : Prop := {
  rec_members_ok `{Zone} nil r : Forall member_ok (rec_members nil r);
  rec_decode `{Zone} nil r :
    storable_ints r → storable_times r →
    decode_members rec_fields (rec_members nil r) rec_zero = Some (rec_clean r)
}.

(** Every member of a record is well formed. *)
Ltac members :=
  repeat match goal with
  | |- Forall _ (_ ++ _) => apply Forall_app_2
  | |- Forall _ (_ :: _) => apply Forall_cons_2
  | |- Forall _ [] => apply Forall_nil_2
  end; auto with json_db.

(** One member after the other. *)
Ltac in_table T := unfold T; repeat first [apply list_elem_of_here | apply list_elem_of_further].
Ltac decoded :=
  first [apply dec_string_of | apply dec_text_of | apply dec_slice_of
        | apply dec_int_of; assumption | apply dec_time_of; assumption
        | apply dec_opt_time_of; assumption | reflexivity].
Ltac dec_fields T :=
  repeat (lazymatch goal with |- decode_members _ (jfield _ _ :: _) _ = _ => idtac end;
    etransitivity; [eapply field_step; [vm_compute; reflexivity|in_table T|decoded]|cbv beta]).

Ltac foralls :=
  repeat match goal with
  | H : Forall _ (_ :: _) |- _ => apply Forall_cons in H as [? H]
  | H : Forall _ (_ ++ _) |- _ => apply Forall_app in H as [? H]
  | H : Forall ?P (option_list (Some ?x)) |- _ => change (Forall P [x]) in H
  end.
Ltac storable Hi Ht :=
  unfold storable_ints, storable_times in Hi, Ht;
  cbv [rec_ints rec_times item_json rule_json referral_json escalation_json audit_json failure_json
    batch_json item_ints rule_ints referral_ints escalation_ints audit_ints failure_ints batch_ints
    item_times rule_times referral_times escalation_times audit_times failure_times batch_times] in Hi, Ht;
  foralls.

#[export] Instance rule_laws : JsonRecordLaws Rule.
Proof.
  split; [intros z nil r; simpl; unfold rule_members; members|].
  intros z nil r Hi Ht. storable Hi Ht.
  cbn [rec_members rec_fields rec_zero rec_clean rule_json]. unfold rule_members, omit, opt_time.
  dec_fields rule_fields; done.
Qed.
#[export] Instance referral_laws : JsonRecordLaws Referral.
Proof.
  split; [intros z nil r; simpl; unfold referral_members; members|].
  intros z nil r Hi Ht. storable Hi Ht.
  cbn [rec_members rec_fields rec_zero rec_clean referral_json]. unfold referral_members, omit, opt_time.
  dec_fields referral_fields; done.
Qed.
#[export] Instance escalation_laws : JsonRecordLaws Escalation.
Proof.
  split; [intros z nil r; simpl; unfold escalation_members; members|].
  intros z nil r Hi Ht. storable Hi Ht.
  cbn [rec_members rec_fields rec_zero rec_clean escalation_json]. unfold escalation_members, omit, opt_time.
  dec_fields escalation_fields; done.
Qed.
#[export] Instance batch_laws : JsonRecordLaws ImportBatch.
Proof.
  split; [intros z nil r; simpl; unfold batch_members; members|].
  intros z nil r Hi Ht. storable Hi Ht.
  cbn [rec_members rec_fields rec_zero rec_clean batch_json]. unfold batch_members, omit, opt_time.
  dec_fields batch_fields; done.
Qed.
#[export] Instance audit_laws : JsonRecordLaws AuditEntry.
Proof.
  split; [intros z nil r; simpl; unfold audit_members; members|].
  intros z nil r Hi Ht. storable Hi Ht.
  cbn [rec_members rec_fields rec_zero rec_clean audit_json]. unfold audit_members, omit.
  destruct (bool_decide_reflect (au_Details r = "")) as [E|_]; cbn [app];
    dec_fields audit_fields; [|done].
  unfold audit_clean. by rewrite E.
Qed.
#[export] Instance item_laws : JsonRecordLaws ComplianceCase.
Proof.
  split; [intros z nil r; simpl; unfold item_members; members|].
  intros z nil r Hi Ht. storable Hi Ht.
  cbn [rec_members rec_fields rec_zero rec_clean item_json]. unfold item_members, omit, opt_time.
  destruct (ic_CompletedAt r) eqn:E1, (ic_CancelledAt r) eqn:E2,
    (bool_decide_reflect (ic_CancelReason r = "")) as [E3|_]; cbn [app];
    foralls;
    dec_fields item_fields; unfold item_clean; rewrite ?E1, ?E2, ?E3; reflexivity.
Qed.
#[export] Instance failure_laws : JsonRecordLaws PermanentFailure.
Proof.
  split; [intros z nil r; simpl; unfold failure_members; members|].
  intros z nil r Hi Ht. storable Hi Ht.
  cbn [rec_members rec_fields rec_zero rec_clean failure_json].
  unfold failure_members, omit, opt_time.
  destruct (pf_ResolvedAt r) eqn:E1, (pf_NextRetryAt r) eqn:E2,
    (bool_decide_reflect (pf_BackoffState r = "")) as [E3|_]; cbn [app];
    foralls;
    dec_fields failure_fields; unfold failure_clean; by rewrite ?E1, ?E2, ?E3.
Qed.

(** ** The round trip *)

Section roundtrip.
Context {R : Type} `{JsonRecordLaws R, Zone}.

Lemma Marshal_ok nil r b :
  Marshal nil r = Ok b → storable_times r ∧ b = print (JObj (rec_members nil r)).
Proof.
  unfold Marshal. destruct (forallb _ _) eqn:Hf; [|done]. intros [= <-]. split; [|done].
  apply Forall_forall. intros t Ht. rewrite forallb_forall in Hf.
  by apply (bool_decide_eq_true_1 _), Hf, list_elem_of_In.
Qed.
Lemma Marshal_storable nil r : storable_times r → Marshal nil r = Ok (print (JObj (rec_members nil r))).
Proof.
  intros Ht. unfold Marshal. assert (forallb (λ t, bool_decide (formattable t)) (rec_times r) = true) as ->; [|done].
  apply forallb_forall. intros t Hin. apply bool_decide_eq_true.
  unfold storable_times in Ht. rewrite Forall_forall in Ht. by apply Ht, list_elem_of_In.
Qed.
Lemma record_writable nil r : writable (JObj (rec_members nil r)).
Proof.
  apply writable_obj. eapply Forall_impl; [apply rec_members_ok|]. by intros m (? & ? & _).
Qed.
Lemma record_depth nil r : (jdepth (JObj (rec_members nil r)) ≤ 2)%nat.
Proof.
  cbn [jdepth]. apply le_n_S. pose proof (rec_members_ok nil r) as Hall.
  induction Hall as [|m l (_ & _ & Hd) _ IH]; [simpl; lia|].
  rewrite fmap_cons. cbn [max_list foldr]. by apply Nat.max_lub.
Qed.

(** What was marshalled is unmarshalled. *)
Lemma Unmarshal_Marshal nil r b :
  storable_ints r → Marshal nil r = Ok b → Unmarshal b = Some (rec_clean r).
Proof.
  intros Hi [Ht ->]%Marshal_ok. unfold Unmarshal.
  rewrite parse_print; [|apply record_writable|].
  - simpl. by apply rec_decode.
  - pose proof (record_depth nil r). unfold maxNestingDepth. lia.
Qed.
End roundtrip.
