(* ===== verification/Auth.v ===== *)
(** * Authentication: users, sessions and the file they are kept in

    [internal/auth/auth.go]. The store is its data in memory and the content
    of its file ([None]: there is none); a method locks the mutex, so each is
    one step ([Login] is two, with nothing in between that it could notice).
    Hashing of passwords is [bcrypt]'s, a parameter. *)
From Stdlib Require Import Ascii.
From S2P Require Import Prelude GoErrors GoStrings GoNumbers GoTime Sha256 Json JsonFacts JsonIndent.
From S2P Require Import Rfc3339 Records.

(** ** Types *)

Inductive auth_error : Type :=
| ErrInvalidCredentials
| ErrSessionExpired
| ErrSessionRevoked
| ErrForbidden.
#[export] Instance auth_error_eq_dec : EqDecision auth_error.
Proof. solve_decision. Defined.
Definition auth_error_text (e : auth_error) : string :=
  match e with
  | ErrInvalidCredentials => "invalid credentials"
  | ErrSessionExpired => "session expired"
  | ErrSessionRevoked => "session revoked"
  | ErrForbidden => "forbidden"
  end.
Abbreviation aerror := (error auth_error).

Inductive Role : Type :=
| RoleVenueOperator
| RoleLightingAssessor
| RoleUrbanManagementReviewer
| RoleAdmin
| RoleOther (s : string).
#[export] Instance Role_eq_dec : EqDecision Role.
Proof. solve_decision. Defined.
Definition role_text (r : Role) : string :=
  match r with
  | RoleVenueOperator => "venue_operator"
  | RoleLightingAssessor => "lighting_assessor"
  | RoleUrbanManagementReviewer => "urban_management_reviewer"
  | RoleAdmin => "admin"
  | RoleOther s => s
  end.
Definition role_of_text (s : string) : Role :=
  if bool_decide (s = "venue_operator") then RoleVenueOperator
  else if bool_decide (s = "lighting_assessor") then RoleLightingAssessor
  else if bool_decide (s = "urban_management_reviewer") then RoleUrbanManagementReviewer
  else if bool_decide (s = "admin") then RoleAdmin
  else RoleOther s.
Definition validRole (role : Role) : bool :=
  match role with RoleOther _ => false | _ => true end.

Record User : Type := {
  us_ID : string; us_Username : string; us_PasswordHash : string; us_Role : Role;
  us_Disabled : bool
}.
#[export] Instance User_eta : Eta User := λ u, {|
  us_ID := us_ID u; us_Username := us_Username u; us_PasswordHash := us_PasswordHash u;
  us_Role := us_Role u; us_Disabled := us_Disabled u |}.
#[export] Instance User_eq_dec : EqDecision User.
Proof. solve_decision. Defined.
Definition zero_user : User := {|
  us_ID := ""; us_Username := ""; us_PasswordHash := ""; us_Role := RoleOther "";
  us_Disabled := false |}.
Record BootstrapUser : Type := {
  bu_ID : string; bu_Username : string; bu_Password : string; bu_Role : Role
}.
Record Session : Type := {
  se_ID : string; se_UserID : string; se_TokenHash : string; se_ExpiresAt : Time;
  se_RevokedAt : option Time
}.
#[export] Instance Session_eta : Eta Session := λ s, {|
  se_ID := se_ID s; se_UserID := se_UserID s; se_TokenHash := se_TokenHash s;
  se_ExpiresAt := se_ExpiresAt s; se_RevokedAt := se_RevokedAt s |}.
Definition zero_session : Session := {|
  se_ID := ""; se_UserID := ""; se_TokenHash := ""; se_ExpiresAt := zero_time;
  se_RevokedAt := None |}.
(** A nil slice is [None]. *)
Record diskState : Type := {
  ds_Users : option (list User);
  ds_Sessions : option (list Session)
}.
#[export] Instance diskState_eta : Eta diskState := λ d, {|
  ds_Users := ds_Users d; ds_Sessions := ds_Sessions d |}.
Definition empty_disk : diskState := {| ds_Users := None; ds_Sessions := None |}.

Record Store : Type := { st_data : diskState; st_disk : option bytes; st_tick : nat }.
#[export] Instance Store_eta : Eta Store := λ s, {|
  st_data := st_data s; st_disk := st_disk s; st_tick := st_tick s |}.
Definition st_users (s : Store) : list User := default [] (ds_Users (st_data s)).
Definition st_sessions (s : Store) : list Session := default [] (ds_Sessions (st_data s)).

Abbreviation aop := (op Store aerror).

(** ** The file *)

Definition user_fields : list (string * decoder User) := [
  ("id", via dec_string us_ID (λ v r, r <| us_ID := v |>));
  ("username", via dec_string us_Username (λ v r, r <| us_Username := v |>));
  ("role", via (dec_text role_of_text) us_Role (λ v r, r <| us_Role := v |>));
  ("disabled", via dec_bool us_Disabled (λ v r, r <| us_Disabled := v |>))
].
Definition user_members (r : User) : list (bytes * json) :=
  [jfield "id" (jstring (us_ID r)); jfield "username" (jstring (us_Username r));
   jfield "role" (jstring (role_text (us_Role r))); jfield "disabled" (JBool (us_Disabled r))].
Definition session_fields : list (string * decoder Session) := [
  ("id", via dec_string se_ID (λ v r, r <| se_ID := v |>));
  ("user_id", via dec_string se_UserID (λ v r, r <| se_UserID := v |>));
  ("token_hash", via dec_string se_TokenHash (λ v r, r <| se_TokenHash := v |>));
  ("expires_at", via dec_time se_ExpiresAt (λ v r, r <| se_ExpiresAt := v |>));
  ("revoked_at", via dec_opt_time se_RevokedAt (λ v r, r <| se_RevokedAt := v |>))
].
Definition session_members (r : Session) : list (bytes * json) :=
  [jfield "id" (jstring (se_ID r)); jfield "user_id" (jstring (se_UserID r));
   jfield "token_hash" (jstring (se_TokenHash r)); jfield "expires_at" (@jtime utc (se_ExpiresAt r))] ++
  @opt_time utc "revoked_at" (se_RevokedAt r).
Definition session_times (r : Session) : list Time :=
  se_ExpiresAt r :: option_list (se_RevokedAt r).

(** A slice of structs: elements that were there are decoded into. *)
Section slices.
Context {A : Type} (dec : decoder A) (zero : A).
Fixpoint dec_elems (l : list json) (old : list A) : option (list A) :=
  match l with
  | [] => Some []
  | j :: l =>
      a ← dec j (default zero (head old));
      rest ← dec_elems l (tail old);
      mret (a :: rest)
  end.
Definition dec_list : decoder (option (list A)) := λ j old,
  match j with
  | JArr l => Some <$> dec_elems l (default [] old)
  | JNull => Some None
  | _ => None
  end.
End slices.
Definition jlist {A} (members : A → list (bytes * json)) (l : option (list A)) : json :=
  match l with None => JNull | Some l => JArr ((λ a, JObj (members a)) <$> l) end.

Definition disk_fields : list (string * decoder diskState) := [
  ("users", via (dec_list (decode_struct user_fields) zero_user) ds_Users (λ v r, r <| ds_Users := v |>));
  ("sessions", via (dec_list (decode_struct session_fields) zero_session) ds_Sessions
     (λ v r, r <| ds_Sessions := v |>))
].
Definition disk_json (d : diskState) : json :=
  JObj [jfield "users" (jlist user_members (ds_Users d));
        jfield "sessions" (jlist session_members (ds_Sessions d))].
(** [json.MarshalIndent]: it fails on a time whose year has more than four
    digits. The times of sessions are in UTC ([time.Now().UTC()]). *)
Definition encode_disk (d : diskState) : option bytes :=
  if forallb (λ t, bool_decide (@formattable utc t)) (default [] (ds_Sessions d) ≫= session_times)
  then Some (MarshalIndent (disk_json d)) else None.
Definition decode_disk (data : bytes) (d : diskState) : option diskState :=
  j ← parse data;
  decode_struct disk_fields j d.

(** ** The environment *)

(** The answers of the world outside, by the number of the question: whether
    a call of the file system fails, the bytes of [rand.Read], the salted hash
    of a password; whether a hash is that of a password; how the standard
    library quotes a text and words its errors. *)
Class AuthEnv : Type := {
  auth_fault : nat → option string;
  auth_random : nat → result string (list Z);
  bcrypt_generate : nat → string → result string string;
  bcrypt_matches : string → string → bool;
  go_quote : string → string;
  decode_error : bytes → string
}.
(** What is documented of [bcrypt] and [rand.Read]: the hash of a password
    matches it, no password has the empty hash; the buffer is filled. *)
Class AuthLaws `(AuthEnv) : Prop := {
  bcrypt_generated n p h : bcrypt_generate n p = Ok h → bcrypt_matches h p = true;
  bcrypt_empty p : bcrypt_matches "" p = false;
  random_length n b : auth_random n = Ok b → length b = 32%nat ∧ Forall (λ z, 0 ≤ z < 256) b
}.

Section auth.
Context `{AuthEnv}.

Definition auth_ask {A} (answer : nat → A) : aop A := λ s,
  (s <| st_tick := S (st_tick s) |>, Ok (answer (st_tick s))).
(** A call of the file system. *)
Definition fs_call (what : string) : aop () :=
  f ← auth_ask auth_fault;
  match f with None => mret () | Some t => raise (errorf_before what (External t)) end.
Definition set_data (f : diskState → diskState) (s : Store) : Store :=
  s <| st_data := f (st_data s) |>.

Definition load : aop () :=
  _ ← fs_call "read auth store";
  disk ← gets st_disk;
  match disk with
  | None => mret ()
  | Some data =>
      d ← gets st_data;
      match decode_disk data d with
      | Some d => modify (set_data (λ _, d))
      | None => raise (errorf_before "decode auth store" (External (decode_error data)))
      end
  end.

(** The file is replaced by a rename of a complete one. *)
Definition persist : aop () :=
  _ ← fs_call "create auth directory";
  d ← gets st_data;
  data ← must (encode_disk d) (errorf_before "encode auth store" (External
    "json: error calling MarshalJSON for type time.Time: Time.MarshalJSON: year outside of range [0,9999]"));
  _ ← fs_call "write auth store";
  _ ← fs_call "replace auth store";
  modify (λ s, s <| st_disk := Some data |>).

Definition hashPassword (password : string) : aop string :=
  r ← auth_ask (λ n, bcrypt_generate n password);
  match r with
  | Ok hash => mret hash
  | Err t => raise (errorf_before "bcrypt password hash" (External t))
  end.
Definition tokenHash (token : string) : string := sha256_hex (to_bytes token).
Definition newToken : aop string :=
  r ← auth_ask auth_random;
  match r with
  | Ok b => mret (EncodeToString b)
  | Err t => raise (errorf_before "generate session token" (External t))
  end.

(** The loop over the bootstrap users. *)
Fixpoint provision (bootstrap : list BootstrapUser) (seenIDs seenNames : gset string) : aop () :=
  match bootstrap with
  | [] => mret ()
  | seed :: bootstrap =>
      _ ← ensure (negb (bool_decide (bu_ID seed = "") || bool_decide (bu_Username seed = "")
                    || (Z.of_nat (String.length (bu_Password seed)) <? 12)
                    || negb (validRole (bu_Role seed))))
            (External ("invalid bootstrap user " +:+ go_quote (bu_Username seed) +:+
               ": id, username, role and a 12-character password are required"));
      _ ← ensure (negb (bool_decide (bu_ID seed ∈ seenIDs)))
            (External ("duplicate bootstrap user id " +:+ go_quote (bu_ID seed)));
      _ ← ensure (negb (bool_decide (bu_Username seed ∈ seenNames)))
            (External ("duplicate bootstrap username " +:+ go_quote (bu_Username seed)));
      hash ← (λ s, match hashPassword (bu_Password seed) s with
                   | (s, Ok h) => (s, Ok h)
                   | (s, Err e) =>
                       (s, Err (errorf_before ("hash bootstrap password for " +:+ bu_Username seed) e))
                   end);
      _ ← modify (set_data (λ d, d <| ds_Users := Some (default [] (ds_Users d) ++
            [{| us_ID := bu_ID seed; us_Username := bu_Username seed; us_PasswordHash := hash;
                us_Role := bu_Role seed; us_Disabled := false |}]) |>));
      provision bootstrap ({[bu_ID seed]} ∪ seenIDs) ({[bu_Username seed]} ∪ seenNames)
  end.
(** A store that does not open is not returned. *)
Definition Open (bootstrap : list BootstrapUser) : aop () :=
  _ ← modify (set_data (λ _, empty_disk));
  _ ← load;
  users ← gets st_users;
  if bool_decide (users = []) && negb (bool_decide (bootstrap = []) )
  then _ ← provision bootstrap ∅ ∅; persist
  else mret ().

(** ** Methods *)

Definition credentials (username password : string) (u : User) : bool :=
  bool_decide (us_Username u = username) && negb (us_Disabled u)
  && bcrypt_matches (us_PasswordHash u) password.
Definition Authenticate (username password : string) : aop User :=
  users ← gets st_users;
  must (List.find (credentials username password) users) (Sentinel ErrInvalidCredentials).

Definition Login (username password : string) (ttl : Duration) (now : Time) :
    aop (User * string * Time) :=
  user ← Authenticate username password;
  token ← newToken;
  let expires := Add now ttl in
  let session := {| se_ID := String.substring 0 16 token; se_UserID := us_ID user;
    se_TokenHash := tokenHash token; se_ExpiresAt := expires; se_RevokedAt := None |} in
  _ ← modify (set_data (λ d, d <| ds_Sessions := Some (default [] (ds_Sessions d) ++ [session]) |>));
  _ ← persist;
  mret (user, token, expires).

Definition has_token (token : string) (s : Session) : bool :=
  bool_decide (se_TokenHash s = tokenHash token).
Definition session_user (users : list User) (session : Session) (now : Time) : result aerror User :=
  if bool_decide (se_RevokedAt session ≠ None) then Err (Sentinel ErrSessionRevoked)
  else if negb (Before now (se_ExpiresAt session)) then Err (Sentinel ErrSessionExpired)
  else match List.find (λ u, bool_decide (us_ID u = se_UserID session) && negb (us_Disabled u)) users with
       | Some u => Ok u
       | None => Err (Sentinel ErrInvalidCredentials)
       end.
Definition Resolve (token : string) (now : Time) : aop User :=
  users ← gets st_users;
  sessions ← gets st_sessions;
  match List.find (has_token token) sessions with
  | Some session => lift (session_user users session now)
  | None => raise (Sentinel ErrInvalidCredentials)
  end.

(** The first session with the token. *)
Fixpoint revoke (token : string) (now : Time) (l : list Session) : list Session :=
  match l with
  | [] => []
  | s :: l =>
      if has_token token s
      then (if bool_decide (se_RevokedAt s = None) then s <| se_RevokedAt := Some now |> else s) :: l
      else s :: revoke token now l
  end.
Definition Logout (token : string) (now : Time) : aop () :=
  sessions ← gets st_sessions;
  _ ← ensure (existsb (has_token token) sessions) (Sentinel ErrInvalidCredentials);
  _ ← modify (set_data (λ d, d <| ds_Sessions := revoke token now <$> ds_Sessions d |>));
  persist.
End auth.

Definition RequireRole (user : User) (allowed : list Role) : result aerror () :=
  if existsb (λ role, bool_decide (us_Role user = role)) allowed then Ok ()
  else Err (Sentinel ErrForbidden).
