(* ===== verification/AuthClaims.v ===== *)
(** * Authentication: theorems

    The life of a session, the users a first start provisions, and what a
    restart keeps. *)
From Stdlib Require Import Ascii.
From S2P Require Import Prelude GoErrors GoStrings GoNumbers GoTime Sha256 Json JsonFacts JsonIndent.
From S2P Require Import Rfc3339 Records RecordsFacts Auth.

Section sessions.
Context `{AuthEnv}.

(** ** What the operations do to the data *)

Lemma auth_ask_data {A} (f : nat → A) s s' r : auth_ask f s = (s', r) → st_data s' = st_data s ∧ st_disk s' = st_disk s.
Proof. by intros [= <- _]. Qed.
Lemma fs_call_data what s s' r : fs_call what s = (s', r) → st_data s' = st_data s ∧ st_disk s' = st_disk s.
Proof.
  unfold fs_call, mbind, op_bind. destruct (auth_ask _ s) as [s1 [f|e]] eqn:E; [|done].
  apply auth_ask_data in E as [E1 E2]. destruct f; by intros [= <- _].
Qed.
Lemma persist_data s s' r : persist s = (s', r) → st_data s' = st_data s ∧
  match r with
  | Ok _ => ∃ data, encode_disk (st_data s) = Some data ∧ st_disk s' = Some data
  | Err _ => st_disk s' = st_disk s
  end.
Proof.
  unfold persist, mbind, op_bind. destruct (fs_call _ s) as [s1 [u1|e1]] eqn:E1;
    apply fs_call_data in E1 as [D1 K1]; [|by intros [= <- <-]].
  unfold gets at 1. unfold must. rewrite D1. destruct (encode_disk (st_data s)) as [data|] eqn:He; [|by intros [= <- <-]].
  destruct (fs_call _ s1) as [s2 [u2|e2]] eqn:E2; apply fs_call_data in E2 as [D2 K2];
    [|intros [= <- <-]; split; congruence].
  destruct (fs_call _ s2) as [s3 [u3|e3]] eqn:E3; apply fs_call_data in E3 as [D3 K3];
    [|intros [= <- <-]; split; congruence].
  intros [= <- <-]. split; [simpl; congruence|]. by exists data.
Qed.
Lemma newToken_data s s' r : newToken s = (s', r) → st_data s' = st_data s.
Proof.
  unfold newToken, mbind, op_bind. destruct (auth_ask _ s) as [s1 [f|e]] eqn:E; [|done].
  apply auth_ask_data in E as [E1 E2]. destruct f; by intros [= <- _].
Qed.

(** A login adds a session at the end or none; users stay. *)
Lemma Login_data u p ttl now s s' r :
  Login u p ttl now s = (s', r) → st_users s' = st_users s ∧
  match r with
  | Ok (user, token, expires) =>
      List.find (credentials u p) (st_users s) = Some user ∧ expires = Add now ttl ∧
      st_sessions s' = st_sessions s ++ [{| se_ID := String.substring 0 16 token;
        se_UserID := us_ID user; se_TokenHash := tokenHash token; se_ExpiresAt := expires;
        se_RevokedAt := None |}]
  | Err _ => ∃ more, st_sessions s' = st_sessions s ++ more
  end.
Proof.
  unfold Login, Authenticate, mbind, op_bind, gets, must.
  destruct (List.find (credentials u p) (st_users s)) as [user|] eqn:Hf;
    [|intros [= <- <-]; split; [done|exists []; by rewrite app_nil_r]].
  destruct (newToken s) as [s1 [token|e1]] eqn:E1; apply newToken_data in E1;
    [|intros [= <- <-]; unfold st_users, st_sessions; rewrite E1; split; [done|exists []; by rewrite app_nil_r]].
  unfold modify. destruct (persist _) as [s2 [u2|e2]] eqn:E2; apply persist_data in E2 as [D2 _];
    intros [= <- <-]; unfold st_users, st_sessions; rewrite D2; simpl; rewrite E1; eauto.
Qed.
(** A logout revokes the session, if there is one; users stay. *)
Lemma revoke_none token now l : existsb (has_token token) l = false → revoke token now l = l.
Proof.
  induction l as [|x l IH]; [done|]. simpl. intros [Hx Hl]%orb_false_iff. rewrite Hx. by rewrite IH.
Qed.
Lemma Logout_data token now s s' r :
  Logout token now s = (s', r) → st_users s' = st_users s ∧
  st_sessions s' = revoke token now (st_sessions s).
Proof.
  unfold Logout, mbind, op_bind, gets, ensure.
  destruct (existsb (has_token token) (st_sessions s)) eqn:He;
    [|intros [= <- <-]; by rewrite revoke_none].
  unfold modify. destruct (persist _) as [s2 r2] eqn:E2. apply persist_data in E2 as [D2 _].
  assert (∀ s3, s2 = s3 → st_users s3 = st_users s ∧ st_sessions s3 = revoke token now (st_sessions s)) as Hs.
  { intros s3 <-. unfold st_users, st_sessions. rewrite D2. simpl. split; [done|].
    by destruct (ds_Sessions (st_data s)). }
  destruct r2; intros [= <- _]; by apply Hs.
Qed.

(** ** The life of a session *)

Inductive action : Type :=
| DoLogin (username password : string) (ttl : Duration) (now : Time)
| DoLogout (token : string) (now : Time).
Definition act (a : action) (s : Store) : Store :=
  match a with
  | DoLogin u p ttl now => fst (Login u p ttl now s)
  | DoLogout token now => fst (Logout token now s)
  end.
Definition acts (l : list action) (s : Store) : Store := foldl (λ s a, act a s) s l.
(** A logout with a token of this hash. *)
Definition logs_out (token : string) (a : action) : bool :=
  match a with
  | DoLogin _ _ _ _ => false
  | DoLogout t _ => bool_decide (tokenHash t = tokenHash token)
  end.

Definition session_of (token : string) (s : Store) : option Session :=
  List.find (has_token token) (st_sessions s).
Lemma find_app_l {A} (p : A → bool) l l' x : List.find p l = Some x → List.find p (l ++ l') = Some x.
Proof. induction l as [|y l IH]; [done|]. simpl. by destruct (p y). Qed.
Lemma find_app_r {A} (p : A → bool) l l' : List.find p l = None → List.find p (l ++ l') = List.find p l'.
Proof. induction l as [|y l IH]; [done|]. simpl. by destruct (p y). Qed.
Lemma find_revoke token t now l session :
  List.find (has_token token) l = Some session →
  ∃ session', List.find (has_token token) (revoke t now l) = Some session' ∧
    se_UserID session' = se_UserID session ∧ se_ExpiresAt session' = se_ExpiresAt session ∧
    (se_RevokedAt session' ≠ None ↔ se_RevokedAt session ≠ None ∨ tokenHash t = tokenHash token).
Proof.
  induction l as [|x l IH]; [done|]. simpl. destruct (has_token token x) eqn:Hx.
  - intros [= ->]. unfold has_token in *. apply bool_decide_eq_true in Hx.
    destruct (bool_decide_reflect (se_TokenHash session = tokenHash t)) as [Ht|Ht]; simpl.
    + assert (tokenHash t = tokenHash token) as E by congruence.
      destruct (bool_decide_reflect (se_RevokedAt session = None)) as [Hn|Hn]; simpl;
        rewrite bool_decide_true by done; eexists; (split; [done|]); simpl; naive_solver.
    + rewrite bool_decide_true by done. eexists. split; [done|]. naive_solver congruence.
  - intros Hl. destruct (has_token t x) eqn:Ht; [|simpl; rewrite Hx; by apply IH].
    assert (has_token token (if bool_decide (se_RevokedAt x = None) then x <| se_RevokedAt := Some now |> else x)
      = false) as Hx' by by case_bool_decide.
    simpl. rewrite Hx'. exists session. split_and!; [done..|]. split; [by left|].
    intros [?|E]; [done|]. unfold has_token in Hx, Ht. apply bool_decide_eq_true in Ht.
    apply bool_decide_eq_false in Hx. congruence.
Qed.

(** A session, once there, is only ever revoked. *)
Lemma act_session token a s session :
  session_of token s = Some session →
  st_users (act a s) = st_users s ∧ ∃ session', session_of token (act a s) = Some session' ∧
    se_UserID session' = se_UserID session ∧ se_ExpiresAt session' = se_ExpiresAt session ∧
    (se_RevokedAt session' ≠ None ↔ se_RevokedAt session ≠ None ∨ logs_out token a = true).
Proof.
  unfold session_of. intros Hs. destruct a as [u p ttl now|t now]; simpl.
  - destruct (Login u p ttl now s) as [s' r] eqn:E. apply Login_data in E as [Hu Hd]. split; [done|].
    assert (∃ more, st_sessions s' = st_sessions s ++ more) as [more Hmore].
    { destruct r as [[[? ?] ?]|]; [destruct Hd as (_ & _ & ->); by eexists|done]. }
    simpl. rewrite Hmore. exists session. split_and!; [by apply find_app_l|done|done|simpl; naive_solver].
  - destruct (Logout t now s) as [s' r] eqn:E. apply Logout_data in E as [Hu Hd]. split; [done|].
    simpl. rewrite Hd. destruct (find_revoke token t now _ _ Hs) as (s2 & H2 & U2 & E2 & R2).
    exists s2. split_and!; [done..|]. by rewrite R2, bool_decide_eq_true.
Qed.
Lemma acts_session token l s session :
  session_of token s = Some session →
  st_users (acts l s) = st_users s ∧ ∃ session', session_of token (acts l s) = Some session' ∧
    se_UserID session' = se_UserID session ∧ se_ExpiresAt session' = se_ExpiresAt session ∧
    (se_RevokedAt session' ≠ None ↔ se_RevokedAt session ≠ None ∨ existsb (logs_out token) l = true).
Proof.
  revert s session. induction l as [|a l IH]; intros s session Hs.
  { split; [done|]. exists session. simpl. naive_solver. }
  destruct (act_session token a s session Hs) as (Hu & s1 & H1 & U1 & E1 & R1).
  destruct (IH _ _ H1) as (Hu' & s2 & H2 & U2 & E2 & R2). unfold acts in *. simpl.
  split; [congruence|]. exists s2. split_and!; [done|congruence|congruence|].
  rewrite R2, R1, orb_true_iff. naive_solver.
Qed.

Lemma find_user users user :
  NoDup (us_ID <$> users) → user ∈ users → us_Disabled user = false →
  List.find (λ u, bool_decide (us_ID u = us_ID user) && negb (us_Disabled u)) users = Some user.
Proof.
  induction users as [|u users IH]; intros Hnd Hin Hd; [by apply elem_of_nil in Hin|].
  rewrite fmap_cons in Hnd. apply NoDup_cons in Hnd as [Hnew Hnd]. simpl.
  apply elem_of_cons in Hin as [->|Hin]; [by rewrite bool_decide_true, Hd|].
  rewrite bool_decide_false; [by apply IH|]. intros E. apply Hnew. rewrite E. by apply list_elem_of_fmap_2.
Qed.
Lemma find_credentials u p users user :
  List.find (credentials u p) users = Some user →
  user ∈ users ∧ us_Username user = u ∧ us_Disabled user = false ∧ bcrypt_matches (us_PasswordHash user) p = true.
Proof.
  intros [Hin Hc]%List.find_some. unfold credentials in Hc. apply andb_true_iff in Hc as [Hc Hm].
  apply andb_true_iff in Hc as [Hu%bool_decide_eq_true Hd%negb_true_iff]. by rewrite list_elem_of_In.
Qed.

(** What becomes of the session of a login. *)
Lemma session_after u p ttl now s s1 user token expires l t :
  Login u p ttl now s = (s1, Ok (user, token, expires)) →
  NoDup (us_ID <$> st_users s) → session_of token s = None →
  us_Username user = u ∧ expires = now + ttl ∧
  snd (Resolve token t (acts l s1)) =
    if existsb (logs_out token) l then Err (Sentinel ErrSessionRevoked)
    else if t <? expires then Ok user
    else Err (Sentinel ErrSessionExpired).
Proof.
  intros (Hu & Hf & -> & Hs)%Login_data Hnd Hnew.
  apply find_credentials in Hf as (Hin & Hname & Hen & _). split; [done|]. split; [done|].
  set (session := {| se_ID := _ |}) in Hs.
  assert (session_of token s1 = Some session) as Hsess.
  { unfold session_of in *. rewrite Hs, find_app_r by done. simpl. unfold has_token. simpl.
    by rewrite bool_decide_true. }
  destruct (acts_session token l s1 session Hsess) as (Hu' & session' & Hf' & Huser & Hexp & Hrev).
  unfold Resolve, mbind, op_bind, gets. unfold session_of in Hf'. rewrite Hf'. unfold lift. simpl.
  unfold session_user. rewrite Hexp, Huser. unfold Before, Add. simpl.
  destruct (existsb (logs_out token) l).
  - rewrite bool_decide_true; [done|]. apply Hrev. by right.
  - rewrite bool_decide_false by (rewrite Hrev; simpl; naive_solver).
    change (Add now ttl) with (now + ttl). destruct (Z.ltb_spec t (now + ttl)); simpl; [|done].
    rewrite Hu', Hu. by rewrite find_user.
Qed.
(** The life of a session, through any logins and logouts by anybody and
    whatever the file system does: the token of a successful login resolves
    to its user as long as it is not used to log out and the time is before
    its end; from its end on it is expired; once logged out, even when the
    file could not be written, it is revoked for good. This needs users with
    different IDs, and a token whose hash no session had before. *)
Theorem session_lifecycle u p ttl now s s1 user token expires l t :
  Login u p ttl now s = (s1, Ok (user, token, expires)) →
  NoDup (us_ID <$> st_users s) → session_of token s = None →
  us_Username user = u ∧ expires = now + ttl ∧
  snd (Resolve token t (acts l s1)) =
    if existsb (logs_out token) l then Err (Sentinel ErrSessionRevoked)
    else if t <? expires then Ok user
    else Err (Sentinel ErrSessionExpired).
Proof. apply session_after. Qed.
End sessions.

(** ** The first start *)

Section bootstrap.
Context `{AuthEnv, !AuthLaws H}.

Definition seed_ok (b : BootstrapUser) : Prop :=
  bu_ID b ≠ "" ∧ bu_Username b ≠ "" ∧ (12 ≤ String.length (bu_Password b))%nat ∧ validRole (bu_Role b) = true.
(** The user made of a seed. *)
Definition seeded (b : BootstrapUser) (u : User) : Prop :=
  us_ID u = bu_ID b ∧ us_Username u = bu_Username b ∧ us_Role u = bu_Role b ∧ us_Disabled u = false ∧
  bcrypt_matches (us_PasswordHash u) (bu_Password b) = true.

Lemma hashPassword_data p s s' r : hashPassword p s = (s', r) →
  st_data s' = st_data s ∧ st_disk s' = st_disk s ∧
  match r with Ok h => bcrypt_matches h p = true | Err _ => True end.
Proof.
  unfold hashPassword, mbind, op_bind, auth_ask. simpl. destruct (bcrypt_generate _ p) as [h|t] eqn:E;
    intros [= <- <-]; split_and!; try done. by eapply bcrypt_generated.
Qed.
Lemma provision_data boot ids names s s' r :
  provision boot ids names s = (s', r) → st_disk s' = st_disk s ∧
  match r with
  | Ok _ => Forall seed_ok boot ∧ NoDup (bu_ID <$> boot) ∧ NoDup (bu_Username <$> boot) ∧
      Forall (λ b, (bu_ID b ∉ ids) ∧ (bu_Username b ∉ names)) boot ∧
      ∃ users, st_users s' = st_users s ++ users ∧ Forall2 seeded boot users
  | Err _ => True
  end.
Proof.
  revert ids names s. induction boot as [|b boot IH]; intros ids names s.
  { intros [= <- <-]. split; [done|]. split_and!; try constructor. exists []. by rewrite app_nil_r. }
  cbn [provision]. unfold mbind, op_bind, ensure.
  destruct (negb _) eqn:Hok; [|by intros [= <- <-]].
  destruct (negb (bool_decide (bu_ID b ∈ ids))) eqn:Hid; [|by intros [= <- <-]].
  destruct (negb (bool_decide (bu_Username b ∈ names))) eqn:Hname; [|by intros [= <- <-]].
  destruct (hashPassword (bu_Password b) s) as [s1 [h|e]] eqn:Hh; apply hashPassword_data in Hh as (D1 & K1 & Hm);
    [|by intros [= <- <-]].
  unfold modify. intros Hr. apply IH in Hr as [Hdisk Hr]. split; [simpl in Hdisk; congruence|].
  destruct r as [u|e]; [|done]. destruct Hr as (Hall & Hnd1 & Hnd2 & Hfresh & users & Hu & Hseeds).
  apply negb_true_iff in Hok, Hid, Hname. rewrite bool_decide_eq_false in Hid, Hname.
  rewrite !orb_false_iff, !bool_decide_eq_false, Z.ltb_ge, negb_false_iff in Hok.
  destruct Hok as [[[Hne1 Hne2] Hlen] Hrole]. rewrite Forall_forall in Hfresh. split_and!.
  - constructor; [|done]. split_and!; [done|done|lia|done].
  - rewrite fmap_cons. constructor; [|done]. intros (b' & E & Hin)%list_elem_of_fmap.
    destruct (Hfresh b' Hin) as [Hf _]. set_solver.
  - rewrite fmap_cons. constructor; [|done]. intros (b' & E & Hin)%list_elem_of_fmap.
    destruct (Hfresh b' Hin) as [_ Hf]. set_solver.
  - constructor; [done|]. apply Forall_forall. intros b' Hin. destruct (Hfresh b' Hin). set_solver.
  - eexists (_ :: users). rewrite Hu. unfold st_users. simpl. rewrite D1, <- app_assoc.
    split; [reflexivity|]. by constructor.
Qed.

(** Provisioning leaves the sessions alone. *)
Lemma provision_sessions boot ids names s :
  st_sessions (fst (provision boot ids names s)) = st_sessions s.
Proof.
  revert ids names s. induction boot as [|b boot IH]; intros ids names s; [done|].
  cbn [provision]. unfold mbind, op_bind, ensure.
  destruct (negb _); [|done]. destruct (negb (bool_decide (bu_ID b ∈ ids))); [|done].
  destruct (negb (bool_decide (bu_Username b ∈ names))); [|done].
  destruct (hashPassword (bu_Password b) s) as [s1 [h|e]] eqn:Hh; apply hashPassword_data in Hh as (D1 & K1 & Hm);
    unfold st_sessions; [|by rewrite <- D1].
  unfold modify. rewrite <- D1. apply IH.
Qed.
Lemma seeded_proj {A} (f : User → A) (g : BootstrapUser → A) boot users :
  (∀ b u, seeded b u → f u = g b) → Forall2 seeded boot users → f <$> users = g <$> boot.
Proof.
  intros Hfg. induction 1 as [|b u boot users Hs _ IH]; [done|]. by rewrite !fmap_cons, IH, (Hfg b u).
Qed.
(** Every seed logs in as its user. *)
Lemma seeded_authenticate boot users b :
  NoDup (us_Username <$> users) → Forall2 seeded boot users → b ∈ boot →
  ∃ u, List.find (credentials (bu_Username b) (bu_Password b)) users = Some u ∧ seeded b u.
Proof.
  intros Hnd Hs. induction Hs as [|b' u boot users Hs Hall IH]; intros Hin; [by apply elem_of_nil in Hin|].
  rewrite fmap_cons in Hnd. apply NoDup_cons in Hnd as [Hnew Hnd]. pose proof Hs as Hseeded.
  destruct Hs as (Hid & Hname & _ & Hdis & Hm). simpl. unfold credentials at 1. rewrite Hdis, Hname.
  apply elem_of_cons in Hin as [->|Hin].
  - rewrite bool_decide_true, Hm by done. by exists u.
  - rewrite bool_decide_false; [by apply IH|]. intros E. apply Hnew. rewrite Hname, E.
    rewrite (seeded_proj us_Username bu_Username boot users) by (done || by intros ?? (? & ? & _)).
    by apply list_elem_of_fmap_2.
Qed.

(** What a first start that provisions users leaves. *)
Lemma Open_provisions boot s s' r :
  st_disk s = None → boot ≠ [] → Open boot s = (s', r) →
  match r with
  | Ok _ => Forall seed_ok boot ∧ NoDup (us_ID <$> st_users s') ∧ NoDup (us_Username <$> st_users s') ∧
      Forall2 seeded boot (st_users s') ∧ st_sessions s' = [] ∧
      st_disk s' = encode_disk (st_data s') ∧
      Forall (λ b, ∃ u, snd (Authenticate (bu_Username b) (bu_Password b) s') = Ok u ∧ us_ID u = bu_ID b) boot
  | Err _ => st_disk s' = None
  end.
Proof.
  intros Hnone Hboot. unfold Open, load, mbind, op_bind, modify. set (s0 := set_data (λ _, empty_disk) s).
  destruct (fs_call _ s0) as [s1 [u1|e1]] eqn:E1; apply fs_call_data in E1 as [D1 K1];
    [|intros [= <- <-]; by rewrite K1].
  unfold gets. rewrite K1. change (st_disk s0) with (st_disk s). rewrite Hnone. cbn [mret op_ret].
  assert (st_users s1 = []) as Hu1 by (unfold st_users; by rewrite D1). rewrite Hu1.
  rewrite bool_decide_true, bool_decide_false by done. simpl.
  destruct (provision boot ∅ ∅ s1) as [s2 [u2|e2]] eqn:E2; pose proof E2 as E2'; apply provision_data in E2 as [K2 Hp];
    [|intros [= <- <-]; by rewrite K2, K1].
  destruct Hp as (Hall & Hnd1 & Hnd2 & _ & users & Hu & Hseeds). rewrite Hu1, app_nil_l in Hu.
  pose proof (provision_sessions boot ∅ ∅ s1) as Hss. rewrite E2' in Hss. simpl in Hss.
  intros Hp. apply persist_data in Hp as [D3 Hp]. destruct r as [u3|e3]; [|by rewrite Hp, K2, K1].
  destruct Hp as (data & Henc & Hdisk). assert (st_users s' = users) as Hu' by (unfold st_users in *; by rewrite D3).
  assert (us_ID <$> users = bu_ID <$> boot) as Hids
    by (apply (seeded_proj us_ID bu_ID); [by intros ?? (? & _)|done]).
  assert (us_Username <$> users = bu_Username <$> boot) as Hnames
    by (apply (seeded_proj us_Username bu_Username); [by intros ?? (_ & ? & _)|done]).
  rewrite Hu', Hids, Hnames. split_and!; [done..| | |].
  - unfold st_sessions in *. rewrite D3, Hss, D1. done.
  - by rewrite D3, Henc.
  - apply Forall_forall. intros b Hb.
    destruct (seeded_authenticate boot users b) as (u & Hf & Hid & _); [by rewrite Hnames|done|done|].
    exists u. by rewrite Hf.
Qed.
(** C29: a first start that provisions users either provisions all of them or
    no file: with success, every user of the store has an ID and a name of
    its own, a role the program knows and a password of at least twelve
    bytes, which logs the user in; nothing but that is in the store. Without,
    no file was written. *)
Theorem bootstrap_typed boot s s' r :
  st_disk s = None → boot ≠ [] → Open boot s = (s', r) →
  match r with
  | Ok _ => Forall seed_ok boot ∧ NoDup (us_ID <$> st_users s') ∧ NoDup (us_Username <$> st_users s') ∧
      Forall2 seeded boot (st_users s') ∧ st_sessions s' = [] ∧
      st_disk s' = encode_disk (st_data s') ∧
      Forall (λ b, ∃ u, snd (Authenticate (bu_Username b) (bu_Password b) s') = Ok u ∧ us_ID u = bu_ID b) boot
  | Err _ => st_disk s' = None
  end.
Proof. apply Open_provisions. Qed.
End bootstrap.

(** ** Restarts *)

(** What comes back from the file. *)
Definition user_clean (u : User) : User := {|
  us_ID := utf8_clean (us_ID u); us_Username := utf8_clean (us_Username u); us_PasswordHash := "";
  us_Role := role_of_text (utf8_clean (role_text (us_Role u))); us_Disabled := us_Disabled u |}.
Definition session_clean (s : Session) : Session := {|
  se_ID := utf8_clean (se_ID s); se_UserID := utf8_clean (se_UserID s);
  se_TokenHash := utf8_clean (se_TokenHash s); se_ExpiresAt := se_ExpiresAt s;
  se_RevokedAt := se_RevokedAt s |}.
Definition disk_clean (d : diskState) : diskState := {|
  ds_Users := map user_clean <$> ds_Users d; ds_Sessions := map session_clean <$> ds_Sessions d |}.

Lemma user_members_ok u : Forall member_ok (user_members u).
Proof. unfold user_members. members. Qed.
Lemma session_members_ok s : Forall member_ok (session_members s).
Proof. unfold session_members. members. Qed.
Lemma jlist_ok {A} (members : A → list (bytes * json)) l :
  (∀ a, Forall member_ok (members a)) → writable (jlist members l) ∧ (jdepth (jlist members l) ≤ 3)%nat.
Proof.
  intros Hm. destruct l as [l|]; [|simpl; split; [done|lia]]. split.
  - apply writable_arr, Forall_fmap, Forall_true. intros a. apply writable_obj.
    eapply Forall_impl; [apply Hm|]. by intros m (? & ? & _).
  - cbn [jlist jdepth]. apply le_n_S.
    induction l as [|a l IH]; [simpl; lia|]. rewrite !fmap_cons. cbn [max_list foldr].
    apply Nat.max_lub; [|exact IH]. cbn [jdepth]. apply le_n_S. clear IH.
    specialize (Hm a). induction Hm as [|m ms (_ & _ & Hd) _ IH]; [simpl; lia|].
    rewrite fmap_cons. cbn [max_list foldr]. by apply Nat.max_lub.
Qed.
Lemma disk_parse d : parse (MarshalIndent (disk_json d)) = Some (disk_json d).
Proof.
  destruct (jlist_ok user_members (ds_Users d) user_members_ok) as [Hw1 Hd1].
  destruct (jlist_ok session_members (ds_Sessions d) session_members_ok) as [Hw2 Hd2].
  unfold disk_json. revert Hw1 Hd1 Hw2 Hd2.
  generalize (jlist user_members (ds_Users d)) as ju, (jlist session_members (ds_Sessions d)) as js.
  intros ju Hw1 Hd1 js Hw2 Hd2. apply parse_indent.
  - apply writable_obj. repeat apply Forall_cons_2; [| |done]; (split; [|done]); intros r; apply scan_escape.
  - unfold maxNestingDepth. simpl. lia.
Qed.

Lemma dec_elems_of {A} (dec : decoder A) zero (to : A → json) (clean : A → A) l :
  (∀ a, a ∈ l → dec (to a) zero = Some (clean a)) →
  Auth.dec_elems dec zero (to <$> l) [] = Some (clean <$> l).
Proof.
  induction l as [|a l IH]; intros Hd; [done|]. rewrite !fmap_cons. cbn [Auth.dec_elems head tail default from_option].
  rewrite Hd by (by left). cbn [mbind option_bind]. rewrite IH; [done|]. intros x Hx. apply Hd. by right.
Qed.
Lemma user_decode u : decode_struct user_fields (JObj (user_members u)) zero_user = Some (user_clean u).
Proof. cbn [decode_struct]. unfold user_members. dec_fields user_fields; done. Qed.
Lemma session_decode s : Forall (@formattable utc) (session_times s) →
  decode_struct session_fields (JObj (session_members s)) zero_session = Some (session_clean s).
Proof.
  intros Ht. cbn [decode_struct]. unfold session_times in Ht. unfold session_members, opt_time, session_clean.
  destruct (se_RevokedAt s) as [t|]; foralls; cbn [app]; dec_fields session_fields; done.
Qed.
(** The file is decoded to what was encoded. *)
Lemma decode_encode d data : encode_disk d = Some data → decode_disk data empty_disk = Some (disk_clean d).
Proof.
  unfold encode_disk. destruct (forallb _ _) eqn:Hf; [|done]. intros [= <-]. unfold decode_disk.
  rewrite disk_parse. cbn [mbind option_bind]. unfold disk_json. cbn [decode_struct].
  assert (∀ s, s ∈ default [] (ds_Sessions d) → Forall (@formattable utc) (session_times s)) as Ht.
  { intros s Hs. apply Forall_forall. intros t Ht. rewrite forallb_forall in Hf.
    apply (bool_decide_eq_true_1 _), Hf, list_elem_of_In, list_elem_of_bind. by exists s. }
  etransitivity; [eapply (field_step disk_fields "users" _ _ _ _ (map user_clean <$> ds_Users d));
    [vm_compute; reflexivity|in_table disk_fields|]|].
  { destruct (ds_Users d) as [l|]; [|done]. cbn [jlist dec_list ds_Users empty_disk default from_option].
    rewrite (dec_elems_of _ _ (λ a, JObj (user_members a)) user_clean); [done|]. intros u _. apply user_decode. }
  etransitivity; [eapply (field_step disk_fields "sessions" _ _ _ _ (map session_clean <$> ds_Sessions d));
    [vm_compute; reflexivity|in_table disk_fields|]|].
  { destruct (ds_Sessions d) as [l|]; [|done]. cbn [jlist dec_list ds_Sessions empty_disk default from_option upd].
    rewrite (dec_elems_of _ _ (λ a, JObj (session_members a)) session_clean); [done|].
    intros s Hs. apply session_decode. by apply Ht. }
  done.
Qed.

Section restart.
Context `{AuthEnv, !AuthLaws H}.

(** The identities of the store are texts the file gives back as they are. *)
Definition texts_kept (d : diskState) : Prop :=
  Forall (λ u, utf8_clean (us_ID u) = us_ID u) (default [] (ds_Users d)) ∧
  Forall (λ s, utf8_clean (se_UserID s) = se_UserID s ∧ utf8_clean (se_TokenHash s) = se_TokenHash s)
    (default [] (ds_Sessions d)).

Lemma Open_again boot s :
  auth_fault (st_tick s) = None → is_Some (st_disk s) → st_disk s = encode_disk (st_data s) →
  st_users s ≠ [] →
  ∃ s', Open boot s = (s', Ok ()) ∧ st_data s' = disk_clean (st_data s).
Proof.
  intros Hf [data Hdata] Henc Hne. symmetry in Henc. rewrite Hdata in Henc. pose proof (decode_encode _ _ Henc) as Hd.
  unfold Open, load, fs_call, auth_ask, mbind, op_bind, modify, gets. simpl. rewrite Hf. simpl. rewrite Hdata. simpl.
  rewrite Hd. cbn [mret op_ret]. rewrite bool_decide_false; [by eexists|].
  unfold st_users, disk_clean in *. simpl. destruct (ds_Users (st_data s)) as [[|]|]; [done..|]. simpl in Hne. done.
Qed.
Lemma disk_clean_users d : default [] (ds_Users (disk_clean d)) = map user_clean (default [] (ds_Users d)).
Proof. unfold disk_clean. simpl. by destruct (ds_Users d). Qed.
Lemma disk_clean_sessions d : default [] (ds_Sessions (disk_clean d)) = map session_clean (default [] (ds_Sessions d)).
Proof. unfold disk_clean. simpl. by destruct (ds_Sessions d). Qed.

Lemma find_map_same {A} (f : A → A) (p : A → bool) l :
  Forall (λ a, p (f a) = p a) l → List.find p (map f l) = f <$> List.find p l.
Proof.
  induction 1 as [|a l Ha _ IH]; [done|]. simpl. rewrite Ha. by destruct (p a).
Qed.
(** An emptied hash lets nobody in. *)
Lemma find_clean_user u p l : List.find (credentials u p) (map user_clean l) = None.
Proof.
  induction l as [|a l IH]; [done|]. simpl. unfold credentials at 1. simpl. by rewrite bcrypt_empty, andb_false_r.
Qed.
Lemma session_user_clean users session t :
  Forall (λ u, utf8_clean (us_ID u) = us_ID u) users → utf8_clean (se_UserID session) = se_UserID session →
  session_user (map user_clean users) (session_clean session) t =
  match session_user users session t with Ok u => Ok (user_clean u) | Err e => Err e end.
Proof.
  intros Hu Hs. unfold session_user. simpl. destruct (bool_decide _); [done|]. destruct (negb _); [done|].
  rewrite Hs, find_map_same; [by destruct (List.find _ users)|].
  eapply Forall_impl; [exact Hu|]. intros u E. simpl. by rewrite E.
Qed.

(** A restart keeps the sessions and loses the passwords: the file has no
    hash of a password in it, so a store opened again on the file of one
    that had users (which is not provisioned again) lets nobody log in, by
    any name and password; the tokens of before resolve as they did, to the
    same users but for the hash. *)
Theorem restart_loses_passwords boot s :
  auth_fault (st_tick s) = None → is_Some (st_disk s) → st_disk s = encode_disk (st_data s) →
  st_users s ≠ [] → texts_kept (st_data s) →
  ∃ s', Open boot s = (s', Ok ()) ∧
    (∀ username password, snd (Authenticate username password s') = Err (Sentinel ErrInvalidCredentials)) ∧
    (∀ token t, snd (Resolve token t s') =
       match snd (Resolve token t s) with Ok u => Ok (user_clean u) | Err e => Err e end).
Proof.
  intros Hf Hdata Henc Hne [Hu Hs]. destruct (Open_again boot s) as (s' & Ho & Hd); [done..|].
  exists s'. split; [done|].
  assert (st_users s' = map user_clean (st_users s)) as Eu by (unfold st_users; by rewrite Hd, disk_clean_users).
  assert (st_sessions s' = map session_clean (st_sessions s)) as Es
    by (unfold st_sessions; by rewrite Hd, disk_clean_sessions).
  split.
  - intros u p. unfold Authenticate, mbind, op_bind, gets, must. by rewrite Eu, find_clean_user.
  - intros token t. unfold Resolve, mbind, op_bind, gets. rewrite Eu, Es, find_map_same.
    + destruct (List.find (has_token token) (st_sessions s)) as [session|] eqn:Hfind; [|done].
      unfold lift. simpl. apply session_user_clean; [done|].
      apply List.find_some in Hfind as [Hin _]. rewrite Forall_forall in Hs.
      by destruct (Hs session); [apply list_elem_of_In|].
    + eapply Forall_impl; [exact Hs|]. intros session [_ E]. unfold has_token. simpl. by rewrite E.
Qed.
End restart.

(** ** An example *)

(** A world in which nothing fails, the bytes of a token count from the
    number of the question and the hash of a password is the password with
    a mark. *)
Definition counted (n : nat) : list Z := (λ k, Z.of_nat (n + k) mod 256) <$> seq 0 32.
Definition plain_env : AuthEnv := {|
  auth_fault _ := None;
  auth_random n := Ok (counted n);
  bcrypt_generate _ p := Ok ("#" +:+ p);
  bcrypt_matches h p := bool_decide (h = "#" +:+ p);
  go_quote s := s;
  decode_error _ := "invalid"
|}.
#[export] Instance plain_laws : AuthLaws plain_env.
Proof.
  split.
  - intros n p h [= <-]. by apply bool_decide_eq_true.
  - intros p. by apply bool_decide_eq_false.
  - intros n b Hb. assert (counted n = b) as <- by (injection Hb; done). unfold counted.
    split; [by rewrite length_fmap, length_seq|]. apply Forall_fmap, Forall_true. intros k. apply Z.mod_pos_bound. lia.
Qed.
Definition ex_boot : list BootstrapUser := [
  {| bu_ID := "u-1"; bu_Username := "lamp"; bu_Password := "a long password"; bu_Role := RoleAdmin |};
  {| bu_ID := "u-2"; bu_Username := "sign"; bu_Password := "another password"; bu_Role := RoleVenueOperator |}].
Definition ex_new : Store := {| st_data := empty_disk; st_disk := None; st_tick := 0 |}.
Definition ex_open : Store := fst (Open (H := plain_env) ex_boot ex_new).
Definition ex_login : Store * result aerror (User * string * Time) :=
  Login (H := plain_env) "sign" "another password" 3600 1000 ex_open.
Definition ex_token : string := match snd ex_login with Ok (_, token, _) => token | Err _ => "" end.

Lemma bootstrap_typed_witness :
  ∃ s' r, Open (H := plain_env) ex_boot ex_new = (s', r) ∧ r = Ok () ∧
    us_ID <$> st_users s' = ["u-1"; "u-2"] ∧ Forall seed_ok ex_boot.
Proof.
  exists ex_open, (Ok ()). split_and!; [vm_compute; reflexivity|done|vm_compute; reflexivity|].
  refine (proj1 (bootstrap_typed (H := plain_env) ex_boot ex_new ex_open (Ok ()) _ _ _)).
  - reflexivity.
  - discriminate.
  - vm_compute. reflexivity.
Defined.

(** The second user logs in, somebody logs out, and the token expires. *)
Lemma session_lifecycle_witness :
  ∃ user, snd ex_login = Ok (user, ex_token, 4600) ∧ us_ID user = "u-2" ∧
    snd (Resolve ex_token 4599 (acts (H := plain_env) [DoLogout "other" 2000] (fst ex_login))) = Ok user ∧
    snd (Resolve ex_token 4600 (acts (H := plain_env) [DoLogout "other" 2000] (fst ex_login)))
      = Err (Sentinel ErrSessionExpired) ∧
    snd (Resolve ex_token 3000 (acts (H := plain_env) [DoLogout ex_token 2000] (fst ex_login)))
      = Err (Sentinel ErrSessionRevoked).
Proof.
  destruct (snd ex_login) as [[[user token] expires]|e] eqn:E; [|by vm_compute in E].
  assert (ex_token = token ∧ expires = 4600 ∧ us_ID user = "u-2") as (Ht & He & Hid)
    by (unfold ex_token; rewrite E; vm_compute in E; injection E as <- <- <-; vm_compute; done).
  rewrite Ht, He in *. exists user. split; [done|]. split; [done|].
  assert (∀ l t, snd (Resolve token t (acts (H := plain_env) l (fst ex_login))) =
    if existsb (logs_out token) l then Err (Sentinel ErrSessionRevoked)
    else if t <? 4600 then Ok user else Err (Sentinel ErrSessionExpired)) as Hres.
  { intros l t. refine (proj2 (proj2 (session_lifecycle (H := plain_env) "sign" "another password" 3600 1000 ex_open
      (fst ex_login) user token 4600 l t _ _ _))).
    - rewrite <- E. by apply surjective_pairing.
    - apply (bool_decide_eq_true_1 _). vm_compute. reflexivity.
    - vm_compute. reflexivity. }
  rewrite !Hres, <- Ht. vm_compute. done.
Defined.

(** After a restart the second user is locked out, but still has a session. *)
Lemma restart_loses_passwords_witness :
  ∃ s' user, Open (H := plain_env) ex_boot (fst ex_login) = (s', Ok ()) ∧
    snd (Authenticate (H := plain_env) "sign" "another password" (fst ex_login)) = Ok user ∧
    snd (Authenticate (H := plain_env) "sign" "another password" s') = Err (Sentinel ErrInvalidCredentials) ∧
    snd (Resolve ex_token 3000 s') = Ok (user_clean user).
Proof.
  destruct (restart_loses_passwords (H := plain_env) ex_boot (fst ex_login)) as (s' & Ho & Ha & Hr).
  - done.
  - vm_compute. by eexists.
  - vm_compute. reflexivity.
  - vm_compute. done.
  - apply (bool_decide_eq_true_1 _). vm_compute. reflexivity.
  - exists s'. eexists. split; [exact Ho|]. split; [vm_compute; reflexivity|]. split; [apply Ha|].
    rewrite Hr. vm_compute. reflexivity.
Defined.
