(* ===== verification/GoFlags.v ===== *)
(** * Command-line flags: Go's package [flag]

    Flag sets whose flags are texts, with [flag.ExitOnError]: the value of
    every defined flag, and [Parse] as a function of the arguments. *)
From Stdlib Require Import Ascii.
From S2P Require Import Prelude GoStrings GoNumbers.

(** The defined flags with their values. *)
Abbreviation FlagSet := (gmap string string).

(** How [parseOne] reads an argument: no flag, the end of the flags ([--]), a
    bad one, or a flag with the value after its equals sign. *)
Inductive argument : Type :=
| Operand
| Terminator
| BadSyntax
| Flag (name : string) (value : option string).

(** What precedes and follows the first equals sign. *)
Fixpoint cut_equals (s : bytes) : bytes * option bytes :=
  match s with
  | [] => ([], None)
  | c :: s =>
      if is_byte 61 c then ([], Some s)
      else let '(a, b) := cut_equals s in (c :: a, b)
  end.
Definition read_argument (s : string) : argument :=
  match to_bytes s with
  | c1 :: (c2 :: rest) as dashed =>
      if negb (is_byte 45 c1) then Operand
      else if is_byte 45 c2 && bool_decide (rest = []) then Terminator
      else match (if is_byte 45 c2 then rest else c2 :: rest) with
           | [] => BadSyntax
           | n :: name =>
               if is_byte 45 n || is_byte 61 n then BadSyntax
               else let '(name, value) := cut_equals name in
                    Flag (of_bytes (n :: name)) (of_bytes <$> value)
           end
  | _ => Operand
  end.

(** [fs.Parse(args)]: the flags afterwards, or the status the process exits
    with. *)
Fixpoint Parse (args : list string) (f : FlagSet) : result Z FlagSet :=
  match args with
  | [] => Ok f
  | s :: args =>
      match read_argument s with
      | Operand | Terminator => Ok f
      | BadSyntax => Err 2
      | Flag name value =>
          match f !! name with
          | None => Err (if bool_decide (name = "help" ∨ name = "h") then 0 else 2)
          | Some _ =>
              match value with
              | Some v => Parse args (<[name := v]> f)
              | None =>
                  match args with
                  | v :: args => Parse args (<[name := v]> f)
                  | [] => Err 2
                  end
              end
          end
      end
  end.

(** The values the arguments set do not depend on the values before, nor on
    flags they do not name. *)
Lemma Parse_sets args f f1 :
  Parse args f = Ok f1 →
  ∃ u : FlagSet, dom u ⊆ dom f ∧ f1 = u ∪ f ∧ ∀ g : FlagSet, dom f ⊆ dom g → Parse args g = Ok (u ∪ g).
Proof.
  assert (∀ n args f f1, (length args ≤ n)%nat → Parse args f = Ok f1 →
    ∃ u : FlagSet, dom u ⊆ dom f ∧ f1 = u ∪ f ∧ ∀ g : FlagSet, dom f ⊆ dom g → Parse args g = Ok (u ∪ g))
    as Hn; [|apply (Hn (length args)); lia].
  clear. induction n as [|n IH]; intros [|s args] f f1 Hlen Hp; simpl in Hlen; try lia.
  1,2: injection Hp as <-; exists ∅; split_and!; [set_solver|by rewrite (left_id ∅ (∪))|];
    intros g _; simpl; by rewrite (left_id ∅ (∪)).
  assert (∀ (v name : string) args' old, (length args' ≤ n)%nat → f !! name = Some old →
    Parse args' (<[name := v]> f) = Ok f1 →
    ∃ u : FlagSet, dom u ⊆ dom f ∧ f1 = u ∪ f ∧
      ∀ g : FlagSet, dom f ⊆ dom g → is_Some (g !! name) ∧ Parse args' (<[name := v]> g) = Ok (u ∪ g)) as Hset.
  { intros v name args' old Hl Hold Hp'. apply IH in Hp' as (u & Hu & -> & Hg); [|done].
    assert (name ∈ dom f) as Hin by by eapply elem_of_dom_2.
    exists (u ∪ {[name := v]}). rewrite dom_insert_L in Hu.
    assert (∀ g : FlagSet, u ∪ <[name := v]> g = u ∪ {[name := v]} ∪ g) as Hass
      by (intros g; by rewrite <- (assoc (∪)), <- insert_union_singleton_l).
    split_and!; [rewrite dom_union_L, dom_singleton_L; set_solver|apply Hass|].
    intros g Hfg. split; [apply elem_of_dom; set_solver|].
    rewrite Hg; [by rewrite Hass|]. rewrite !dom_insert_L. set_solver. }
  simpl in *. destruct (read_argument s) as [| | |name value] eqn:Ha; [| |done|].
  1,2: injection Hp as <-; exists ∅; split_and!; [set_solver|by rewrite (left_id ∅ (∪))|];
    intros g _; by rewrite (left_id ∅ (∪)).
  destruct (f !! name) as [old|] eqn:Hold; [|done].
  destruct value as [v|]; [|destruct args as [|v args]; [done|]].
  - destruct (Hset v name args old) as (u & Hu & Hf & Hg); [lia|done|done|].
    exists u. split_and!; [done..|]. intros g Hfg. by destruct (Hg g Hfg) as [[x ->] Hrun].
  - destruct (Hset v name args old) as (u & Hu & Hf & Hg); [simpl in Hlen; lia|done|done|].
    exists u. split_and!; [done..|]. intros g Hfg. by destruct (Hg g Hfg) as [[x ->] Hrun].
Qed.
Lemma Parse_status args f status : Parse args f = Err status → status = 0 ∨ status = 2.
Proof.
  assert (∀ n args f, (length args ≤ n)%nat → Parse args f = Err status → status = 0 ∨ status = 2)
    as Hn; [|apply (Hn (length args)); lia].
  clear. induction n as [|n IH]; intros [|s args] f Hlen Hp; simpl in *; try done; try lia.
  destruct (read_argument s) as [| | |name value]; try done; [injection Hp as <-; by right|].
  destruct (f !! name); [|injection Hp as <-; case_bool_decide; [by left|by right]].
  destruct value as [v|]; [by apply (IH args (<[name := v]> f)); [lia|]|].
  destruct args as [|v args]; [injection Hp as <-; by right|].
  apply (IH args (<[name := v]> f)); [simpl in *; lia|done].
Qed.

(** Help is asked for by one of the arguments. *)
Definition help_asked (args : list string) : bool :=
  existsb (λ s, match read_argument s with Flag name _ => bool_decide (name = "help" ∨ name = "h") | _ => false end) args.
Lemma help_later s args : help_asked args = true → help_asked (s :: args) = true.
Proof. unfold help_asked. simpl. intros ->. apply orb_true_r. Qed.
(** [flag.ExitOnError] exits with 0 for help only. *)
Lemma Parse_help args f : Parse args f = Err 0 → help_asked args = true.
Proof.
  assert (∀ n args f, (length args ≤ n)%nat → Parse args f = Err 0 → help_asked args = true)
    as Hn; [|apply (Hn (length args)); lia].
  clear. induction n as [|n IH]; intros [|s args] f Hlen Hp; simpl in Hlen, Hp; try done; try lia.
  destruct (read_argument s) as [| | |name value] eqn:Ha; try done.
  destruct (f !! name).
  - apply help_later. destruct value as [v|]; [by apply (IH args (<[name := v]> f)); [lia|]|].
    destruct args as [|v args]; [done|].
    apply help_later, (IH args (<[name := v]> f)); [simpl in *; lia|done].
  - unfold help_asked. simpl. rewrite Ha. by case_bool_decide.
Qed.

Example flags_ex : Parse ["--data-dir"; "/x"; "-config=a=b"; "rest"; "-file"] {[ "data-dir" := "./data"; "config" := "" ]}
  = Ok {[ "data-dir" := "/x"; "config" := "a=b" ]}.
Proof. by vm_compute. Qed.
Example Parse_undefined : Parse ["--file"; "items.json"] {[ "data-dir" := "./data"; "config" := "" ]} = Err 2.
Proof. by vm_compute. Qed.
