(* ===== verification/GoPaths.v ===== *)
(** * Paths of files, as [path/filepath] of Go handles them on Unix

    [Clean], [Base], [IsAbs] and [Join], on the bytes of a path. *)
From Stdlib Require Import Ascii.
From S2P Require Import Prelude GoStrings GoNumbers Json.

(** ** Elements *)

(** What is between the slashes. *)
Fixpoint elements (s : bytes) : list bytes :=
  match s with
  | [] => [[]]
  | c :: s =>
      if is_byte 47 c then [] :: elements s
      else match elements s with
           | e :: es => (c :: e) :: es
           | [] => [[c]]
           end
  end.
Fixpoint slashed (es : list bytes) : bytes :=
  match es with
  | [] => []
  | [e] => e
  | e :: es => e ++ byte 47 :: slashed es
  end.
Definition dot : bytes := [byte 46].
Definition dot_dot : bytes := [byte 46; byte 46].

(** ** [Clean] *)

(** One element; [out] has the elements so far, the last one first. A [..]
    takes the one before it away, stays if there is none, and is dropped at
    the root. *)
Definition walk (rooted : bool) (out : list bytes) (e : bytes) : list bytes :=
  if bool_decide (e = [] ∨ e = dot) then out
  else if bool_decide (e = dot_dot)
  then match out with
       | top :: rest => if bool_decide (top = dot_dot) then e :: out else rest
       | [] => if rooted then [] else [e]
       end
  else e :: out.
Definition cleaned (rooted : bool) (es : list bytes) : list bytes := rev (foldl (walk rooted) [] es).
Definition rooted (s : bytes) : bool := match s with c :: _ => is_byte 47 c | [] => false end.
Definition clean_path (s : bytes) : bytes :=
  let es := cleaned (rooted s) (elements s) in
  if rooted s then byte 47 :: slashed es
  else if bool_decide (es = []) then dot else slashed es.
Definition Clean (path : string) : string := of_bytes (clean_path (to_bytes path)).

(** ** [IsAbs], [Base], [Join] *)

Definition IsAbs (path : string) : bool := rooted (to_bytes path).
(** Trailing slashes do not count; nothing but slashes is the root. *)
Fixpoint drop_slashes (s : bytes) : bytes :=
  match s with
  | c :: s' => if is_byte 47 c then drop_slashes s' else s
  | [] => []
  end.
Definition Base (path : string) : string :=
  if bool_decide (path = "") then "."
  else match rev (drop_slashes (rev (to_bytes path))) with
       | [] => "/"
       | s => of_bytes (List.last (elements s) [])
       end.
(** Leading empty elements are dropped. *)
Fixpoint Join (elem : list string) : string :=
  match elem with
  | [] => ""
  | e :: rest => if bool_decide (e = "") then Join rest else Clean (of_bytes (slashed (to_bytes <$> elem)))
  end.

Example clean_examples :
  Clean <$> [""; "a/b/"; "./a//b/../c"; "../a/../../b"; "/../a"; "/"; "a/.."; "./data"] =
  ["."; "a/b"; "a/c"; "../../b"; "/a"; "/"; "."; "data"].
Proof. vm_compute. reflexivity. Qed.
Example base_examples :
  Base <$> [""; "a/b/"; "./data/auth.json"; "/"; "auth.json"; ".."] = ["."; "b"; "auth.json"; "/"; "auth.json"; ".."].
Proof. vm_compute. reflexivity. Qed.

(** ** What [Clean] yields *)

Definition no_slash (e : bytes) : Prop := Forall (λ c, is_byte 47 c = false) e.
Lemma elements_no_slash s : Forall no_slash (elements s).
Proof.
  induction s as [|c s IH]; simpl; [by repeat constructor|]. destruct (is_byte 47 c) eqn:Hc; [by repeat constructor|].
  destruct (elements s) as [|e es]; [by repeat constructor|]. apply Forall_cons in IH as [He Hes].
  constructor; [by constructor|done].
Qed.
Lemma elements_app e s : no_slash e → elements (e ++ byte 47 :: s) = e :: elements s.
Proof. induction 1 as [|c e Hc _ IH]; [done|]. simpl. by rewrite Hc, IH. Qed.
Lemma elements_single e : no_slash e → elements e = [e].
Proof. induction 1 as [|c e Hc _ IH]; [done|]. simpl. by rewrite Hc, IH. Qed.
Lemma elements_slashed es : Forall no_slash es → es ≠ [] → elements (slashed es) = es.
Proof.
  induction 1 as [|e es He Hes IH]; [done|]. intros _. destruct es as [|e2 es]; [simpl; by apply elements_single|].
  change (slashed (e :: e2 :: es)) with (e ++ byte 47 :: slashed (e2 :: es)).
  rewrite elements_app by done. by rewrite IH.
Qed.

(** An element that names a file or a directory. *)
Definition proper (e : bytes) : Prop := no_slash e ∧ e ≠ [] ∧ e ≠ dot ∧ e ≠ dot_dot.
(** The elements of a clean path, the last one first: no [..] but at its
    beginning, and none below the root. *)
Definition clean_stack (root : bool) (out : list bytes) : Prop :=
  ∃ names n, out = names ++ replicate n dot_dot ∧ Forall proper names ∧ (root = true → n = 0%nat).

Lemma rev_replicate {A} n (x : A) : rev (replicate n x) = replicate n x.
Proof. rewrite rev_alt. apply reverse_replicate. Qed.
Lemma elem_of_rev {A} (x : A) l : x ∈ rev l ↔ x ∈ l.
Proof. by rewrite !list_elem_of_In, <- in_rev. Qed.

Lemma walk_up n : walk false (replicate n dot_dot) dot_dot = replicate (S n) dot_dot.
Proof. by destruct n. Qed.
Lemma walk_name root out e : proper e → walk root out e = e :: out.
Proof. intros (_ & ? & ? & ?). unfold walk. by rewrite !bool_decide_false by tauto. Qed.
Lemma walk_clean root out e : no_slash e → clean_stack root out → clean_stack root (walk root out e).
Proof.
  intros He (names & n & -> & Hn & Hr). unfold walk. case_bool_decide as H1; [by exists names, n|].
  case_bool_decide as H2; [|exists (e :: names), n; split_and!; try done; constructor; [split_and!; tauto|done]].
  subst e. destruct Hn as [|top names (_ & _ & _ & Hne) Hn]; simpl.
  - destruct root; [rewrite Hr by done; by exists [], 0%nat|].
    exists [], (S n). split_and!; [by destruct n|constructor|done].
  - rewrite bool_decide_false by done. by exists names, n.
Qed.
Lemma cleaned_clean root es : Forall no_slash es → clean_stack root (rev (cleaned root es)).
Proof.
  intros Hes. unfold cleaned. rewrite rev_involutive.
  assert (clean_stack root []) as Hout by by exists [], 0%nat. revert Hout. generalize (@nil bytes) as out.
  induction Hes as [|e es He _ IH]; intros out Hout; [done|]. simpl. by apply IH, walk_clean.
Qed.
Lemma walk_names root names out : Forall proper names → foldl (walk root) out names = rev names ++ out.
Proof.
  intros Hn. revert out. induction Hn as [|e names He _ IH]; intros out; [done|].
  simpl. by rewrite walk_name, IH, <- app_assoc.
Qed.
Lemma walk_ups root n m : (root = true → n = 0%nat) →
  foldl (walk root) (replicate m dot_dot) (replicate n dot_dot) = replicate (n + m) dot_dot.
Proof.
  intros Hr. revert m. induction n as [|n IH]; intros m; [done|]. destruct root; [by specialize (Hr eq_refl)|].
  rewrite replicate_S. cbn [foldl]. rewrite walk_up, IH by done. f_equal. lia.
Qed.
Lemma cleaned_fixed root es : clean_stack root (rev es) → cleaned root es = es.
Proof.
  intros (names & n & E & Hn & Hr). apply (f_equal (@rev bytes)) in E. rewrite rev_involutive in E. subst es.
  unfold cleaned. rewrite rev_app_distr, foldl_app, rev_replicate.
  pose proof (walk_ups root n 0 Hr) as Hu. rewrite Nat.add_0_r in Hu. change (replicate 0 dot_dot) with (@nil bytes) in Hu.
  rewrite Hu, walk_names by by apply Forall_rev.
  by rewrite rev_involutive, rev_app_distr, rev_replicate.
Qed.
Lemma clean_stack_members root out e : clean_stack root out → e ∈ out → no_slash e ∧ e ≠ [].
Proof.
  intros (names & n & -> & Hn & _) [Hin|Hin]%elem_of_app.
  - rewrite Forall_forall in Hn. by destruct (Hn e Hin) as (? & ? & _).
  - apply elem_of_replicate in Hin as [-> _]. split; [by repeat constructor|done].
Qed.

(** Cleaning a clean path changes nothing. *)
Lemma clean_path_idempotent s : clean_path (clean_path s) = clean_path s.
Proof.
  unfold clean_path at 2 3. set (es := cleaned _ _).
  pose proof (cleaned_clean (rooted s) (elements s) (elements_no_slash s)) as Hc. fold es in Hc.
  assert (Forall no_slash es) as Hes.
  { apply Forall_forall. intros e He. apply (clean_stack_members _ _ e Hc). by rewrite elem_of_rev. }
  destruct (rooted s) eqn:Hroot.
  - unfold clean_path. change (rooted (byte 47 :: slashed es)) with true. cbn iota.
    change (elements (byte 47 :: slashed es)) with ([] :: elements (slashed es)).
    assert (cleaned true ([] :: elements (slashed es)) = es) as ->; [|done].
    change (cleaned true ([] :: elements (slashed es))) with (cleaned true (elements (slashed es))).
    destruct (decide (es = [])) as [->|Hne]; [done|]. rewrite elements_slashed by done. by apply cleaned_fixed.
  - case_bool_decide as Hnil; [done|]. unfold clean_path.
    assert (rooted (slashed es) = false) as ->.
    { destruct es as [|e es']; [done|]. destruct (clean_stack_members _ _ e Hc) as [Hn Hne].
      { rewrite elem_of_rev. by left. }
      destruct e as [|c e]; [done|]. apply Forall_cons in Hn as [Hn _]. by destruct es'. }
    rewrite elements_slashed by done. rewrite cleaned_fixed by done. by rewrite bool_decide_false.
Qed.
Lemma Clean_idempotent path : Clean (Clean path) = Clean path.
Proof. unfold Clean. by rewrite to_of_bytes, clean_path_idempotent. Qed.
