(* ===== verification/GoDuration.v ===== *)
(** * The texts of durations

    [time.ParseDuration] of Go's standard library, to the nanosecond: the
    integer part of a term in 64 unsigned bits, its fraction in the binary64
    arithmetic of [SpecFloat]. *)
From Stdlib Require Import Ascii.
From Stdlib Require Import SpecFloat.
From S2P Require Import Prelude GoErrors GoStrings GoNumbers.

(** ** Numbers of a term *)

(** [leadingInt]: none when the value exceeds 2^63. *)
Fixpoint leadingInt (x : Z) (s : bytes) : option (Z * bytes) :=
  match s with
  | c :: r =>
      if is_digit c then
        if 2 ^ 63 / 10 <? x then None
        else let x := 10 * x + digit c in
             if 2 ^ 63 <? x then None else leadingInt x r
      else Some (x, s)
  | [] => Some (x, [])
  end.

Abbreviation float64 := spec_float.
Definition float_of (z : Z) : float64 := binary_normalize 53 1024 z 0 false.
Definition float_mul (a b : float64) : float64 := SFmul 53 1024 a b.
Definition float_div (a b : float64) : float64 := SFdiv 53 1024 a b.
(** [uint64(x)] of a float that is not negative *)
Definition truncate (x : float64) : Z :=
  match x with
  | S754_finite _ m e => Z.shiftl (Zpos m) e
  | _ => 0
  end.

(** [leadingFraction]: digits that do not fit are dropped. *)
Fixpoint leadingFraction (x : Z) (scale : float64) (overflow : bool) (s : bytes) : Z * float64 * bytes :=
  match s with
  | c :: r =>
      if is_digit c then
        if overflow || ((2 ^ 63 - 1) / 10 <? x) then leadingFraction x scale true r
        else let y := 10 * x + digit c in
             if 2 ^ 63 <? y then leadingFraction x scale true r
             else leadingFraction y (float_mul scale (float_of 10)) false r
      else (x, scale, s)
  | [] => (x, scale, [])
  end.

(** ** Units *)

Definition Microsecond : Duration := 1000.
Definition Millisecond : Duration := 1000000.
Definition micro_sign : string := of_bytes [byte 0xC2; byte 0xB5].
Definition greek_mu : string := of_bytes [byte 0xCE; byte 0xBC].
Definition unitMap (u : string) : option Z :=
  snd <$> List.find (λ e, bool_decide (e.1 = u))
    [("ns", Nanosecond); ("us", Microsecond); (micro_sign +:+ "s", Microsecond);
     (greek_mu +:+ "s", Microsecond); ("ms", Millisecond); ("s", Second); ("m", Minute); ("h", Hour)].
(** The bytes before the next digit or point. *)
Fixpoint take_unit (s : bytes) : bytes * bytes :=
  match s with
  | c :: r => if is_byte 46 c || is_digit c then ([], s) else let '(u, r) := take_unit r in (c :: u, r)
  | [] => ([], [])
  end.

(** ** Terms *)

(** One term and the rest of the text. *)
Definition duration_term (s : bytes) : option (Z * bytes) :=
  '(v, s1) ← leadingInt 0 s;
  let pre := negb (bool_decide (length s1 = length s)) in
  let '(f, scale, s2, post) :=
    match s1 with
    | p :: r =>
        if is_byte 46 p
        then let '(f, scale, r') := leadingFraction 0 (float_of 1) false r in
             (f, scale, r', negb (bool_decide (length r' = length r)))
        else (0, float_of 1, s1, false)
    | [] => (0, float_of 1, s1, false)
    end in
  if negb pre && negb post then None else
  let '(u, s3) := take_unit s2 in
  unit ← unitMap (of_bytes u);
  if 2 ^ 63 / unit <? v then None else
  let v := v * unit in
  let v := if 0 <? f then v + truncate (float_mul (float_of f) (float_div (float_of unit) scale)) else v in
  if (0 <? f) && (2 ^ 63 <? v) then None else Some (v, s3).

Fixpoint duration_terms (fuel : nat) (d : Z) (s : bytes) : option Z :=
  match s, fuel with
  | [], _ => Some d
  | _ :: _, O => None
  | c :: _, S fuel =>
      if negb (is_byte 46 c || is_digit c) then None else
      '(v, s) ← duration_term s;
      let d := (d + v) mod 2 ^ 64 in
      if 2 ^ 63 <? d then None else duration_terms fuel d s
  end.

(** [time.ParseDuration(s)], where it succeeds; the sum of the terms is kept
    in 64 bits. *)
Definition ParseDuration (s : string) : option Duration :=
  let b := to_bytes s in
  let '(neg, b) :=
    match b with
    | c :: r => if is_byte 45 c || is_byte 43 c then (is_byte 45 c, r) else (false, b)
    | [] => (false, b)
    end in
  if bool_decide (b = to_bytes "0") then Some 0
  else if bool_decide (b = []) then None
  else d ← duration_terms (length b) 0 b;
       if (neg : bool) then Some (- d) else if 2 ^ 63 - 1 <? d then None else Some d.

Example ParseDuration_ex :
  ParseDuration <$> ["72h"; "1h30m"; "1.5h"; "-1.5s"; "0.1ms"; "0"; "+5m"; ".3h"; "2540400h10m10.000000000s"] =
  Some <$> [72 * Hour; 90 * Minute; 90 * Minute; - (1500 * Millisecond); 100 * Microsecond; 0;
            5 * Minute; 18 * Minute; 2540400 * Hour + 10 * Minute + 10 * Second].
Proof. vm_compute. reflexivity. Qed.
Example ParseDuration_bad :
  ParseDuration <$> [""; "5"; "h"; "1 h"; "3x"; ".s"; "9223372036854775808ns"; "2562048h"] =
  repeat None 8.
Proof. vm_compute. reflexivity. Qed.
(** Two halves of the range wrap around to nothing. *)
Example ParseDuration_wraps :
  ParseDuration "9223372036854775808ns9223372036854775808ns" = Some 0.
Proof. vm_compute. reflexivity. Qed.
Example ParseDuration_min : ParseDuration "-9223372036854775808ns" = Some min_i64.
Proof. vm_compute. reflexivity. Qed.

(** ** Bounds *)

Lemma leadingInt_nonneg x s v r : leadingInt x s = Some (v, r) → 0 ≤ x → 0 ≤ v.
Proof.
  revert x. induction s as [|c s IH]; intros x; simpl; [by intros [= <- _]|].
  destruct (is_digit c) eqn:Hc; [|by intros [= <- _]]. destruct (_ <? x); [done|].
  case_match eqn:Hx; [done|]. intros Hl Hge. apply (IH _ Hl).
  unfold is_digit, digit in *. apply andb_true_iff in Hc as [Hc _]. apply Z.leb_le in Hc. lia.
Qed.
Lemma truncate_nonneg x : 0 ≤ truncate x.
Proof. destruct x as [| | |s m e]; try done. simpl. apply Z.shiftl_nonneg. lia. Qed.
Lemma duration_term_nonneg s v r : duration_term s = Some (v, r) → 0 ≤ v.
Proof.
  unfold duration_term. destruct (leadingInt 0 s) as [[v0 s1]|] eqn:Hl; [|done].
  apply leadingInt_nonneg in Hl; [|done]. cbn [mbind option_bind].
  destruct (match s1 with [] => _ | _ :: _ => _ end) as [[[f scale] s2] post].
  destruct (_ && _); [done|]. destruct (take_unit s2) as [u s3].
  destruct (unitMap (of_bytes u)) as [unit|] eqn:Hu; [|done]. cbn [mbind option_bind].
  assert (0 ≤ unit) as Hunit.
  { unfold unitMap in Hu. apply fmap_Some in Hu as ([name n] & [Hin _]%List.find_some & ->).
    simpl in Hin. by destruct_or? Hin; injection Hin as _ <-. }
  destruct (_ <? v0); [done|]. destruct (_ && _); [done|]. intros [= <- _].
  destruct (0 <? f); [|nia].
  pose proof (truncate_nonneg (float_mul (float_of f) (float_div (float_of unit) scale))). nia.
Qed.
Lemma duration_terms_bounds fuel d s r :
  duration_terms fuel d s = Some r → 0 ≤ d ≤ 2 ^ 63 → 0 ≤ r ≤ 2 ^ 63.
Proof.
  revert d s. induction fuel as [|fuel IH]; intros d [|c s]; cbn [duration_terms]; try (by intros [= <-]).
  destruct (negb _); [done|]. destruct (duration_term (c :: s)) as [[v s']|] eqn:Ht; [|done].
  apply duration_term_nonneg in Ht. cbn [mbind option_bind].
  destruct (Z.ltb_spec (2 ^ 63) ((d + v) mod 2 ^ 64)); [done|]. intros Hr ?. apply (IH _ _ Hr).
  pose proof (Z.mod_pos_bound (d + v) (2 ^ 64) ltac:(done)). lia.
Qed.
(** A duration that parses fits an [int64]. *)
Lemma ParseDuration_i64 s d : ParseDuration s = Some d → is_i64 d.
Proof.
  unfold ParseDuration, is_i64, min_i64, max_i64.
  destruct (match to_bytes s with [] => _ | _ :: _ => _ end) as [neg b].
  case_bool_decide; [intros [= <-]; lia|]. case_bool_decide; [done|].
  destruct (duration_terms _ 0 b) as [r|] eqn:Hr; [|done]. apply duration_terms_bounds in Hr; [|lia].
  cbn [mbind option_bind]. destruct neg; [intros [= <-]; lia|].
  destruct (Z.ltb_spec (2 ^ 63 - 1) r); [done|]. intros [= <-]. lia.
Qed.
