(* ===== verification/Config.v ===== *)
(** * Configuration

    [internal/config/config.go]: defaults, a YAML file over them, environment
    variables over both, and the validation of the result. The YAML library
    is a parameter. *)
From Stdlib Require Import Ascii.
From S2P Require Import Prelude GoErrors GoStrings GoNumbers GoDuration Json Auth.

(** ** Types *)

Record AuthBootstrapUser : Type := {
  ab_ID : string; ab_Username : string; ab_Password : string; ab_Role : string
}.
#[export] Instance AuthBootstrapUser_eta : Eta AuthBootstrapUser := λ u, {|
  ab_ID := ab_ID u; ab_Username := ab_Username u; ab_Password := ab_Password u; ab_Role := ab_Role u |}.
Record AuthConfig : Type := {
  ac_StorePath : string;
  ac_SessionTTL : Duration;
  ac_Required : bool;
  ac_BootstrapUsers : list AuthBootstrapUser;
  ac_BootstrapError : string
}.
#[export] Instance AuthConfig_eta : Eta AuthConfig := λ c, {|
  ac_StorePath := ac_StorePath c; ac_SessionTTL := ac_SessionTTL c; ac_Required := ac_Required c;
  ac_BootstrapUsers := ac_BootstrapUsers c; ac_BootstrapError := ac_BootstrapError c |}.
Record ServerConfig : Type := {
  sv_Port : Z;
  sv_ReadTimeout : Duration;
  sv_WriteTimeout : Duration;
  sv_ShutdownTimeout : Duration
}.
#[export] Instance ServerConfig_eta : Eta ServerConfig := λ c, {|
  sv_Port := sv_Port c; sv_ReadTimeout := sv_ReadTimeout c; sv_WriteTimeout := sv_WriteTimeout c;
  sv_ShutdownTimeout := sv_ShutdownTimeout c |}.
Record StorageConfig : Type := {
  st_DataDir : string;
  st_ShardMaxSize : Z;
  st_SyncOnWrite : bool
}.
#[export] Instance StorageConfig_eta : Eta StorageConfig := λ c, {|
  st_DataDir := st_DataDir c; st_ShardMaxSize := st_ShardMaxSize c; st_SyncOnWrite := st_SyncOnWrite c |}.
Record SchedulerConfig : Type := {
  sg_EscalationInterval : Duration;
  sg_ReconciliationInterval : Duration;
  sg_ReevalInterval : Duration;
  sg_MaxRetries : Z;
  sg_BaseBackoff : Duration;
  sg_TaskTimeout : Duration
}.
#[export] Instance SchedulerConfig_eta : Eta SchedulerConfig := λ c, {|
  sg_EscalationInterval := sg_EscalationInterval c; sg_ReconciliationInterval := sg_ReconciliationInterval c;
  sg_ReevalInterval := sg_ReevalInterval c; sg_MaxRetries := sg_MaxRetries c;
  sg_BaseBackoff := sg_BaseBackoff c; sg_TaskTimeout := sg_TaskTimeout c |}.
Record LoggingConfig : Type := { lg_Level : string; lg_Format : string }.
#[export] Instance LoggingConfig_eta : Eta LoggingConfig := λ c, {|
  lg_Level := lg_Level c; lg_Format := lg_Format c |}.
Record BusinessConfig : Type := {
  bc_DefaultDeadline : Duration;
  bc_EscalationDeadlineExtension : Duration;
  bc_MaxEscalationLevel : Z
}.
#[export] Instance BusinessConfig_eta : Eta BusinessConfig := λ c, {|
  bc_DefaultDeadline := bc_DefaultDeadline c;
  bc_EscalationDeadlineExtension := bc_EscalationDeadlineExtension c;
  bc_MaxEscalationLevel := bc_MaxEscalationLevel c |}.
Record Config : Type := {
  cf_Server : ServerConfig;
  cf_Storage : StorageConfig;
  cf_Scheduler : SchedulerConfig;
  cf_Logging : LoggingConfig;
  cf_Business : BusinessConfig;
  cf_Auth : AuthConfig
}.
#[export] Instance Config_eta : Eta Config := λ c, {|
  cf_Server := cf_Server c; cf_Storage := cf_Storage c; cf_Scheduler := cf_Scheduler c;
  cf_Logging := cf_Logging c; cf_Business := cf_Business c; cf_Auth := cf_Auth c |}.

Definition Defaults : Config := {|
  cf_Server := {| sv_Port := 49820; sv_ReadTimeout := 30 * Second; sv_WriteTimeout := 30 * Second;
    sv_ShutdownTimeout := 15 * Second |};
  cf_Storage := {| st_DataDir := "./data"; st_ShardMaxSize := 1048576; st_SyncOnWrite := true |};
  cf_Scheduler := {| sg_EscalationInterval := 30 * Second; sg_ReconciliationInterval := 5 * Minute;
    sg_ReevalInterval := 1 * Minute; sg_MaxRetries := 3; sg_BaseBackoff := 1 * Second;
    sg_TaskTimeout := 10 * Second |};
  cf_Logging := {| lg_Level := "info"; lg_Format := "json" |};
  cf_Business := {| bc_DefaultDeadline := 72 * Hour; bc_EscalationDeadlineExtension := 48 * Hour;
    bc_MaxEscalationLevel := 3 |};
  cf_Auth := {| ac_StorePath := "./data/auth.json"; ac_SessionTTL := 8 * Hour; ac_Required := true;
    ac_BootstrapUsers := []; ac_BootstrapError := "" |} |}.

(** ** Validation *)

Definition Validate (c : Config) : result string () :=
  if (sv_Port (cf_Server c) <=? 0) || (65535 <? sv_Port (cf_Server c))
  then Err ("server.port must be between 1 and 65535, got " +:+ itoa (sv_Port (cf_Server c)))
  else if bool_decide (st_DataDir (cf_Storage c) = "")
  then Err "storage.data_dir must not be empty"
  else if bc_MaxEscalationLevel (cf_Business c) <? 1
  then Err "business.max_escalation_level must be at least 1"
  else if bc_DefaultDeadline (cf_Business c) <=? 0
  then Err "business.default_deadline must be positive"
  else if bc_EscalationDeadlineExtension (cf_Business c) <=? 0
  then Err "business.escalation_deadline_extension must be positive"
  else if sg_MaxRetries (cf_Scheduler c) <? 1
  then Err "scheduler.max_retries must be at least 1"
  else if bool_decide (ac_StorePath (cf_Auth c) = "") || (ac_SessionTTL (cf_Auth c) <=? 0)
  then Err "auth.store_path and auth.session_ttl must be configured"
  else if negb (bool_decide (ac_BootstrapError (cf_Auth c) = ""))
  then Err ("auth bootstrap users are invalid: " +:+ ac_BootstrapError (cf_Auth c))
  else Ok ().

(** ** The environment *)

(** [os.Getenv], [os.ReadFile] of the configuration file, [yaml.Unmarshal]
    into a configuration and the text of an error of [json.Unmarshal]. *)
Class ConfigEnv : Type := {
  Getenv : string → string;
  read_config : string → result string bytes;
  yaml_Unmarshal : bytes → Config → result string Config;
  json_error : bytes → string
}.
(** What is documented of them: fields tagged ["-"] are left alone; an error
    has a text. *)
Class ConfigLaws `(ConfigEnv) : Prop := {
  yaml_skips data c c' : yaml_Unmarshal data c = Ok c' →
    ac_BootstrapUsers (cf_Auth c') = ac_BootstrapUsers (cf_Auth c) ∧
    ac_BootstrapError (cf_Auth c') = ac_BootstrapError (cf_Auth c);
  json_error_text data : json_error data ≠ ""
}.

Definition bootstrap_fields : list (string * decoder AuthBootstrapUser) := [
  ("id", via dec_string ab_ID (λ v r, r <| ab_ID := v |>));
  ("username", via dec_string ab_Username (λ v r, r <| ab_Username := v |>));
  ("password", via dec_string ab_Password (λ v r, r <| ab_Password := v |>));
  ("role", via dec_string ab_Role (λ v r, r <| ab_Role := v |>))
].
Definition zero_bootstrap : AuthBootstrapUser :=
  {| ab_ID := ""; ab_Username := ""; ab_Password := ""; ab_Role := "" |}.
Definition decode_bootstrap (data : bytes) : option (list AuthBootstrapUser) :=
  j ← parse data;
  users ← dec_list (decode_struct bootstrap_fields) zero_bootstrap j None;
  mret (default [] users).

(** [strings.ToLower(v) == "true"]: no letter outside ASCII is lowered to one
    of these. *)
Definition lower_byte (c : ascii) : ascii :=
  if (65 <=? byte_val c) && (byte_val c <=? 90) then byte (byte_val c + 32) else c.
Definition is_true (v : string) : bool := bool_decide (map lower_byte (to_bytes v) = to_bytes "true").

Section env.
Context `{ConfigEnv}.

Definition variable (name : string) : string := Getenv ("SHENZHEN_LIGHT_GOVERNANCE_" +:+ name).
(** A variable that is set, and parses, decides the setting. *)
Definition set_text (name : string) (put : string → Config → Config) (c : Config) : Config :=
  if bool_decide (variable name = "") then c else put (variable name) c.
Definition set_parsed {A} (parse : string → option A) (name : string) (put : A → Config → Config)
    (c : Config) : Config :=
  set_text name (λ v c, match parse v with Some a => put a c | None => c end) c.
Definition set_int := set_parsed Atoi.
Definition set_duration := set_parsed ParseDuration.
(** The list of users is replaced, or the error kept for [Validate]. *)
Definition set_bootstrap (v : string) (c : Config) : Config :=
  c <| cf_Auth ::= λ a,
      match decode_bootstrap (to_bytes v) with
      | Some users => a <| ac_BootstrapUsers := users |>
      | None => a <| ac_BootstrapError := json_error (to_bytes v) |>
      end |>.

Definition applyEnvOverrides (c : Config) : Config :=
  let c := set_int "SERVER_PORT" (λ v c, c <| cf_Server ::= λ s, s <| sv_Port := v |> |>) c in
  let c := set_duration "SERVER_READ_TIMEOUT" (λ v c, c <| cf_Server ::= λ s, s <| sv_ReadTimeout := v |> |>) c in
  let c := set_duration "SERVER_WRITE_TIMEOUT" (λ v c, c <| cf_Server ::= λ s, s <| sv_WriteTimeout := v |> |>) c in
  let c := set_duration "SERVER_SHUTDOWN_TIMEOUT"
    (λ v c, c <| cf_Server ::= λ s, s <| sv_ShutdownTimeout := v |> |>) c in
  let c := set_text "STORAGE_DATA_DIR" (λ v c, c <| cf_Storage ::= λ s, s <| st_DataDir := v |> |>) c in
  let c := set_parsed ParseInt "STORAGE_SHARD_MAX_SIZE"
    (λ v c, c <| cf_Storage ::= λ s, s <| st_ShardMaxSize := v |> |>) c in
  let c := set_text "STORAGE_SYNC_ON_WRITE"
    (λ v c, c <| cf_Storage ::= λ s, s <| st_SyncOnWrite := is_true v |> |>) c in
  let c := set_duration "SCHEDULER_ESCALATION_INTERVAL"
    (λ v c, c <| cf_Scheduler ::= λ s, s <| sg_EscalationInterval := v |> |>) c in
  let c := set_duration "SCHEDULER_RECONCILIATION_INTERVAL"
    (λ v c, c <| cf_Scheduler ::= λ s, s <| sg_ReconciliationInterval := v |> |>) c in
  let c := set_duration "SCHEDULER_REEVAL_INTERVAL"
    (λ v c, c <| cf_Scheduler ::= λ s, s <| sg_ReevalInterval := v |> |>) c in
  let c := set_int "SCHEDULER_MAX_RETRIES"
    (λ v c, c <| cf_Scheduler ::= λ s, s <| sg_MaxRetries := v |> |>) c in
  let c := set_duration "SCHEDULER_BASE_BACKOFF"
    (λ v c, c <| cf_Scheduler ::= λ s, s <| sg_BaseBackoff := v |> |>) c in
  let c := set_duration "SCHEDULER_TASK_TIMEOUT"
    (λ v c, c <| cf_Scheduler ::= λ s, s <| sg_TaskTimeout := v |> |>) c in
  let c := set_text "LOGGING_LEVEL" (λ v c, c <| cf_Logging ::= λ s, s <| lg_Level := v |> |>) c in
  let c := set_text "LOGGING_FORMAT" (λ v c, c <| cf_Logging ::= λ s, s <| lg_Format := v |> |>) c in
  let c := set_duration "BUSINESS_DEFAULT_DEADLINE"
    (λ v c, c <| cf_Business ::= λ s, s <| bc_DefaultDeadline := v |> |>) c in
  let c := set_duration "BUSINESS_ESCALATION_DEADLINE_EXTENSION"
    (λ v c, c <| cf_Business ::= λ s, s <| bc_EscalationDeadlineExtension := v |> |>) c in
  let c := set_int "BUSINESS_MAX_ESCALATION_LEVEL"
    (λ v c, c <| cf_Business ::= λ s, s <| bc_MaxEscalationLevel := v |> |>) c in
  let c := set_text "AUTH_STORE_PATH" (λ v c, c <| cf_Auth ::= λ s, s <| ac_StorePath := v |> |>) c in
  let c := set_duration "AUTH_SESSION_TTL" (λ v c, c <| cf_Auth ::= λ s, s <| ac_SessionTTL := v |> |>) c in
  set_text "AUTH_BOOTSTRAP_USERS" set_bootstrap c.

Definition Load (path : string) : result string Config :=
  match
    (if bool_decide (path = "") then Ok Defaults
     else match read_config path with
          | Err t => Err ("read config file " +:+ path +:+ ": " +:+ t)
          | Ok data =>
              match yaml_Unmarshal data Defaults with
              | Err t => Err ("parse config yaml: " +:+ t)
              | Ok c => Ok c
              end
          end)
  with
  | Err t => Err t
  | Ok c =>
      let c := applyEnvOverrides c in
      match Validate c with
      | Err t => Err t
      | Ok _ => Ok c
      end
  end.
End env.
