(* ===== verification/ConfigClaims.v ===== *)
(** * Configuration: theorems

    Which configurations [Load] returns, and what an operator can rely on. *)
From Stdlib Require Import Ascii.
From S2P Require Import Prelude GoErrors GoStrings GoNumbers GoDuration Json Auth Config.

Section config.
Context `{ConfigEnv}.

(** ** Each setting by itself *)

(** The value of a setting: its variable's, if it is set and parses. *)
Definition setting {A} (parse : string → option A) (name : string) (old : A) : A :=
  if bool_decide (variable name = "") then old else default old (parse (variable name)).
Definition duration_setting := setting ParseDuration.
Definition text_setting := setting Some.

(** The whole configuration, computed setting by setting. *)
Definition overridden (c : Config) : Config := {|
  cf_Server := let s := cf_Server c in {|
    sv_Port := setting Atoi "SERVER_PORT" (sv_Port s);
    sv_ReadTimeout := duration_setting "SERVER_READ_TIMEOUT" (sv_ReadTimeout s);
    sv_WriteTimeout := duration_setting "SERVER_WRITE_TIMEOUT" (sv_WriteTimeout s);
    sv_ShutdownTimeout := duration_setting "SERVER_SHUTDOWN_TIMEOUT" (sv_ShutdownTimeout s) |};
  cf_Storage := let s := cf_Storage c in {|
    st_DataDir := text_setting "STORAGE_DATA_DIR" (st_DataDir s);
    st_ShardMaxSize := setting ParseInt "STORAGE_SHARD_MAX_SIZE" (st_ShardMaxSize s);
    st_SyncOnWrite := setting (λ v, Some (is_true v)) "STORAGE_SYNC_ON_WRITE" (st_SyncOnWrite s) |};
  cf_Scheduler := let s := cf_Scheduler c in {|
    sg_EscalationInterval := duration_setting "SCHEDULER_ESCALATION_INTERVAL" (sg_EscalationInterval s);
    sg_ReconciliationInterval :=
      duration_setting "SCHEDULER_RECONCILIATION_INTERVAL" (sg_ReconciliationInterval s);
    sg_ReevalInterval := duration_setting "SCHEDULER_REEVAL_INTERVAL" (sg_ReevalInterval s);
    sg_MaxRetries := setting Atoi "SCHEDULER_MAX_RETRIES" (sg_MaxRetries s);
    sg_BaseBackoff := duration_setting "SCHEDULER_BASE_BACKOFF" (sg_BaseBackoff s);
    sg_TaskTimeout := duration_setting "SCHEDULER_TASK_TIMEOUT" (sg_TaskTimeout s) |};
  cf_Logging := let s := cf_Logging c in {|
    lg_Level := text_setting "LOGGING_LEVEL" (lg_Level s);
    lg_Format := text_setting "LOGGING_FORMAT" (lg_Format s) |};
  cf_Business := let s := cf_Business c in {|
    bc_DefaultDeadline := duration_setting "BUSINESS_DEFAULT_DEADLINE" (bc_DefaultDeadline s);
    bc_EscalationDeadlineExtension :=
      duration_setting "BUSINESS_ESCALATION_DEADLINE_EXTENSION" (bc_EscalationDeadlineExtension s);
    bc_MaxEscalationLevel := setting Atoi "BUSINESS_MAX_ESCALATION_LEVEL" (bc_MaxEscalationLevel s) |};
  cf_Auth := let s := cf_Auth c in {|
    ac_StorePath := text_setting "AUTH_STORE_PATH" (ac_StorePath s);
    ac_SessionTTL := duration_setting "AUTH_SESSION_TTL" (ac_SessionTTL s);
    ac_Required := ac_Required s;
    ac_BootstrapUsers := setting (λ v, decode_bootstrap (to_bytes v)) "AUTH_BOOTSTRAP_USERS" (ac_BootstrapUsers s);
    ac_BootstrapError := setting (λ v, match decode_bootstrap (to_bytes v) with
        | Some _ => None
        | None => Some (json_error (to_bytes v))
        end) "AUTH_BOOTSTRAP_USERS" (ac_BootstrapError s) |}
|}.

(** An override changes one setting, to its value. *)
Lemma set_text_as {A} name put (f : string → option A) (put' : A → Config → Config) (get : Config → A) c :
  (∀ v c, put v c = match f v with Some a => put' a c | None => c end) → (∀ c, put' (get c) c = c) →
  set_text name put c = put' (setting f name (get c)) c.
Proof.
  intros Hput Hget. unfold set_text, setting. case_bool_decide; [by rewrite Hget|].
  rewrite Hput. destruct (f _); simpl; [done|by rewrite Hget].
Qed.

Lemma set_put_as name (put : string → Config → Config) get c :
  (∀ c, put (get c) c = c) → set_text name put c = put (text_setting name (get c)) c.
Proof. intros Hget. by apply set_text_as. Qed.
Lemma set_parsed_as {A} parse name (put : A → Config → Config) get c :
  (∀ c, put (get c) c = c) → set_parsed parse name put c = put (setting parse name (get c)) c.
Proof. intros Hget. by apply set_text_as. Qed.

#[local] Arguments setting : simpl never.
#[local] Arguments decode_bootstrap : simpl never.
(** The innermost override is that of the setting [get]. *)
Ltac override name get :=
  lazymatch goal with
  | |- context [set_parsed ?parse name ?put ?c] =>
      let new := eval cbn in (put (setting parse name (get c)) c) in
      replace (set_parsed parse name put c) with new
        by (symmetry; apply (set_parsed_as parse name put get c); by intros [[] [] [] [] [] []])
  | |- context [set_text name ?put ?c] =>
      let new := eval cbn in (put (setting Some name (get c)) c) in
      replace (set_text name put c) with new
        by (symmetry; apply (set_put_as name put get c); by intros [[] [] [] [] [] []])
  end.

Lemma applyEnvOverrides_setting c : applyEnvOverrides c = overridden c.
Proof.
  unfold applyEnvOverrides, set_int, set_duration. cbv zeta.
  override "SERVER_PORT" (λ c, sv_Port (cf_Server c)).
  override "SERVER_READ_TIMEOUT" (λ c, sv_ReadTimeout (cf_Server c)).
  override "SERVER_WRITE_TIMEOUT" (λ c, sv_WriteTimeout (cf_Server c)).
  override "SERVER_SHUTDOWN_TIMEOUT" (λ c, sv_ShutdownTimeout (cf_Server c)).
  override "STORAGE_DATA_DIR" (λ c, st_DataDir (cf_Storage c)).
  override "STORAGE_SHARD_MAX_SIZE" (λ c, st_ShardMaxSize (cf_Storage c)).
  rewrite (set_text_as "STORAGE_SYNC_ON_WRITE" _ (λ v, Some (is_true v))
    (λ v c, c <| cf_Storage ::= λ s, s <| st_SyncOnWrite := v |> |>) (λ c, st_SyncOnWrite (cf_Storage c)));
    [cbn|done|by intros [[] [] [] [] [] []]].
  override "SCHEDULER_ESCALATION_INTERVAL" (λ c, sg_EscalationInterval (cf_Scheduler c)).
  override "SCHEDULER_RECONCILIATION_INTERVAL" (λ c, sg_ReconciliationInterval (cf_Scheduler c)).
  override "SCHEDULER_REEVAL_INTERVAL" (λ c, sg_ReevalInterval (cf_Scheduler c)).
  override "SCHEDULER_MAX_RETRIES" (λ c, sg_MaxRetries (cf_Scheduler c)).
  override "SCHEDULER_BASE_BACKOFF" (λ c, sg_BaseBackoff (cf_Scheduler c)).
  override "SCHEDULER_TASK_TIMEOUT" (λ c, sg_TaskTimeout (cf_Scheduler c)).
  override "LOGGING_LEVEL" (λ c, lg_Level (cf_Logging c)).
  override "LOGGING_FORMAT" (λ c, lg_Format (cf_Logging c)).
  override "BUSINESS_DEFAULT_DEADLINE" (λ c, bc_DefaultDeadline (cf_Business c)).
  override "BUSINESS_ESCALATION_DEADLINE_EXTENSION" (λ c, bc_EscalationDeadlineExtension (cf_Business c)).
  override "BUSINESS_MAX_ESCALATION_LEVEL" (λ c, bc_MaxEscalationLevel (cf_Business c)).
  override "AUTH_STORE_PATH" (λ c, ac_StorePath (cf_Auth c)).
  override "AUTH_SESSION_TTL" (λ c, ac_SessionTTL (cf_Auth c)).
  unfold set_text, set_bootstrap, overridden, setting. cbn.
  case_bool_decide; [done|]. by destruct (decode_bootstrap (to_bytes (variable "AUTH_BOOTSTRAP_USERS"))).
Qed.

(** ** Loading *)

(** What the file, or its absence, gives. *)
Definition base (path : string) : result string Config :=
  if bool_decide (path = "") then Ok Defaults
  else match read_config path with
       | Err t => Err ("read config file " +:+ path +:+ ": " +:+ t)
       | Ok data =>
           match yaml_Unmarshal data Defaults with
           | Err t => Err ("parse config yaml: " +:+ t)
           | Ok c => Ok c
           end
       end.
Definition in_bounds (c : Config) : Prop :=
  1 ≤ sv_Port (cf_Server c) ≤ 65535 ∧ st_DataDir (cf_Storage c) ≠ "" ∧
  1 ≤ bc_MaxEscalationLevel (cf_Business c) ∧ 0 < bc_DefaultDeadline (cf_Business c) ∧
  0 < bc_EscalationDeadlineExtension (cf_Business c) ∧ 1 ≤ sg_MaxRetries (cf_Scheduler c) ∧
  ac_StorePath (cf_Auth c) ≠ "" ∧ 0 < ac_SessionTTL (cf_Auth c).
(** The list of bootstrap users is not set, or is a list of users. *)
Definition bootstrap_readable : Prop :=
  variable "AUTH_BOOTSTRAP_USERS" = "" ∨ is_Some (decode_bootstrap (to_bytes (variable "AUTH_BOOTSTRAP_USERS"))).

Lemma Validate_spec c : Validate c = Ok () ↔ in_bounds c ∧ ac_BootstrapError (cf_Auth c) = "".
Proof.
  unfold Validate, in_bounds.
  destruct (Z.leb_spec (sv_Port (cf_Server c)) 0), (Z.ltb_spec 65535 (sv_Port (cf_Server c))); simpl;
    [split; [done|lia]..|].
  case_bool_decide; [split; [done|naive_solver]|].
  destruct (Z.ltb_spec (bc_MaxEscalationLevel (cf_Business c)) 1); [split; [done|lia]|].
  destruct (Z.leb_spec (bc_DefaultDeadline (cf_Business c)) 0); [split; [done|lia]|].
  destruct (Z.leb_spec (bc_EscalationDeadlineExtension (cf_Business c)) 0); [split; [done|lia]|].
  destruct (Z.ltb_spec (sg_MaxRetries (cf_Scheduler c)) 1); [split; [done|lia]|].
  case_bool_decide; simpl; [split; [done|naive_solver]|].
  destruct (Z.leb_spec (ac_SessionTTL (cf_Auth c)) 0); [split; [done|lia]|].
  case_bool_decide; simpl; (split; [|naive_solver]); [intros _; split_and!; (done || lia)|done].
Qed.
Lemma base_bootstrap `{!ConfigLaws H} path c :
  base path = Ok c → ac_BootstrapUsers (cf_Auth c) = [] ∧ ac_BootstrapError (cf_Auth c) = "".
Proof.
  unfold base. case_bool_decide; [by intros [= <-]|]. destruct (read_config path) as [data|]; [|done].
  destruct (yaml_Unmarshal data Defaults) as [c'|] eqn:E; [|done]. intros [= <-].
  by apply yaml_skips in E.
Qed.

(** C21: [Load] returns a configuration exactly when the file, if one is
    named, is read and parsed, the bootstrap users in the environment, if
    set, are a list of users, and the result is in bounds: a port a server
    can listen on, a directory, positive deadlines, at least one level and
    one attempt, a session time. The result is, setting by setting, the value
    of its environment variable if that is set and parses, otherwise the
    file's, otherwise the default. *)
Theorem Load_exact `{!ConfigLaws H} path c :
  Load path = Ok c ↔
  ∃ c0, base path = Ok c0 ∧ c = overridden c0 ∧ in_bounds c ∧ bootstrap_readable.
Proof.
  assert (∀ c0, base path = Ok c0 → ac_BootstrapError (cf_Auth (overridden c0)) = "" ↔ bootstrap_readable) as Hboot.
  { intros c0 [_ He]%base_bootstrap. unfold bootstrap_readable. simpl. unfold setting. rewrite He.
    case_bool_decide as Hv; [naive_solver|]. destruct (decode_bootstrap (to_bytes (variable "AUTH_BOOTSTRAP_USERS"))) as [l|]; simpl; [naive_solver|].
    split; [intros E; by apply json_error_text in E|]. intros [?|[? ?]]; done. }
  unfold Load. fold (base path). destruct (base path) as [c0|t];
    [|split; [done|by intros (c0 & ? & _)]].
  specialize (Hboot c0 eq_refl). rewrite applyEnvOverrides_setting.
  pose proof (Validate_spec (overridden c0)) as Hval. rewrite Hboot in Hval.
  destruct (Validate (overridden c0)) as [[]|t].
  - destruct (proj1 Hval eq_refl) as [Hb Hr]. split; [intros [= <-]; by exists c0|].
    by intros (c1 & [= <-] & -> & _).
  - split; [done|]. intros (c1 & [= <-] & -> & Hb & Hr). by discriminate (proj2 Hval (conj Hb Hr)).
Qed.
End config.

(** ** An example *)

(** Two variables, one of which does not parse, a file that asks for a longer
    session and a list of users. *)
Definition ex_users : string :=
  of_bytes (print (JArr [JObj [jfield "id" (jstring "u-1"); jfield "username" (jstring "lamp");
    jfield "password" (jstring "a long password"); jfield "role" (jstring "admin")]])).
Definition ex_config_env : ConfigEnv := {|
  Getenv name :=
    if bool_decide (name = "SHENZHEN_LIGHT_GOVERNANCE_SERVER_PORT") then "8080"
    else if bool_decide (name = "SHENZHEN_LIGHT_GOVERNANCE_SERVER_READ_TIMEOUT") then "soon"
    else if bool_decide (name = "SHENZHEN_LIGHT_GOVERNANCE_AUTH_BOOTSTRAP_USERS") then ex_users
    else "";
  read_config _ := Ok [];
  yaml_Unmarshal _ c := Ok (c <| cf_Auth ::= λ a, a <| ac_SessionTTL := 24 * Hour |> |>);
  json_error _ := "invalid"
|}.
#[export] Instance ex_config_laws : ConfigLaws ex_config_env.
Proof. split; [by intros data c c' [= <-]|done]. Qed.
Definition ex_config : Config := Defaults
  <| cf_Server ::= λ s, s <| sv_Port := 8080 |> |>
  <| cf_Auth ::= λ a, a <| ac_SessionTTL := 24 * Hour |>
      <| ac_BootstrapUsers := [{| ab_ID := "u-1"; ab_Username := "lamp"; ab_Password := "a long password";
                                  ab_Role := "admin" |}] |> |>.
Example Load_ex : Load (H := ex_config_env) "config.yaml" = Ok ex_config.
Proof. vm_compute. reflexivity. Qed.

(** An interval is not checked: [time.NewTicker], which the worker hands it
    to, panics on one that is not positive. *)
Definition stuck_env : ConfigEnv := {|
  Getenv name :=
    if bool_decide (name = "SHENZHEN_LIGHT_GOVERNANCE_SCHEDULER_REEVAL_INTERVAL") then "-1s" else "";
  read_config _ := Ok []; yaml_Unmarshal _ c := Ok c; json_error _ := "invalid" |}.
Example Load_interval :
  Load (H := stuck_env) "" = Ok (Defaults <| cf_Scheduler ::= λ s, s <| sg_ReevalInterval := - Second |> |>).
Proof. vm_compute. reflexivity. Qed.

Lemma Load_exact_witness :
  Load (H := ex_config_env) "config.yaml" = Ok ex_config ∧ in_bounds ex_config ∧ ex_config <> Defaults.
Proof.
  assert (Load (H := ex_config_env) "config.yaml" = Ok ex_config) as E by (vm_compute; reflexivity).
  destruct (proj1 (Load_exact (H := ex_config_env) "config.yaml" ex_config) E) as (c0 & _ & _ & Hb & _).
  split; [exact E|]. split; [exact Hb|]. intros Heq. apply (f_equal (λ c, sv_Port (cf_Server c))) in Heq.
  by vm_compute in Heq.
Defined.
