(* ===== verification/AppLog.v ===== *)
(** * The application's log

    [internal/applog]. A logger writes an entry if the level of the entry is
    not below its own; how zerolog prints an entry, with the time and the
    caller, is left out. *)
From Stdlib Require Import Ascii.
From S2P Require Import Prelude GoErrors GoStrings GoNumbers GoTime Config.

(** zerolog's levels that are used here, in their order. *)
Inductive Level : Type := DebugLevel | InfoLevel | WarnLevel | ErrorLevel.
#[export] Instance Level_eq_dec : EqDecision Level.
Proof. solve_decision. Defined.
Definition severity (l : Level) : Z :=
  match l with DebugLevel => 0 | InfoLevel => 1 | WarnLevel => 2 | ErrorLevel => 3 end.
(** [lo_console]: for reading, instead of JSON. *)
Record Logger : Type := { lo_console : bool; lo_level : Level }.

(** [strings.ToLower], on ASCII: of the letters beyond, only one is lowered to
    a letter of these words, the dotted capital I to the i of [info], which is
    also what an unknown level stands for. *)
Definition level_of (level : string) : Level :=
  let level := of_bytes (map lower_byte (to_bytes level)) in
  if bool_decide (level = "debug") then DebugLevel
  else if bool_decide (level = "info") then InfoLevel
  else if bool_decide (level = "warn") then WarnLevel
  else if bool_decide (level = "error") then ErrorLevel
  else InfoLevel.
Definition New (level format : string) : Logger :=
  {| lo_console := bool_decide (format = "console"); lo_level := level_of level |}.

(** ** Entries *)

Inductive field : Type :=
| FText (s : string)
| FInt (n : Z)
| FDuration (d : Duration).
Record Entry : Type := { en_level : Level; en_fields : list (string * field); en_message : string }.

Definition enabled (logger : Logger) (level : Level) : bool := severity (lo_level logger) <=? severity level.
(** What an entry adds to the log. *)
Definition entry (logger : Logger) (level : Level) (fields : list (string * field)) (message : string) : list Entry :=
  if enabled logger level then [{| en_level := level; en_fields := fields; en_message := message |}] else [].

Example levels : level_of <$> ["debug"; "INFO"; "Warn"; "error"; ""; "trace"] =
  [DebugLevel; InfoLevel; WarnLevel; ErrorLevel; InfoLevel; InfoLevel].
Proof. vm_compute. reflexivity. Qed.
