(* ===== verification/Dispatch.v ===== *)
(** * The adjudicator

    [internal/dispatch/adjudicator.go]: chooses the rule that decides the lead
    department of a case. [uuid.NewString()] is third-party code: the fresh
    identifier is the argument [uuid]; [now] is the reading of the clock. *)
From S2P Require Import Prelude GoErrors Domain.

(** The [less] function given to [sort.Slice]. *)
Definition rule_less (a b : Rule) : bool :=
  if negb (ru_Priority a =? ru_Priority b)
  then ru_Priority b <? ru_Priority a
  else ru_Version b <? ru_Version a.

(** [sort.Slice(matched, less)]. Go's sort is not stable; only the first
    element is used, and it is shown below that every sorted
    permutation has the same one when versions are distinct. *)
Definition rule_le (a b : Rule) : Prop := rule_less b a = false.
#[export] Instance rule_le_dec a b : Decision (rule_le a b).
Proof. unfold rule_le. apply _. Defined.
Definition sort_rules (l : list Rule) : list Rule := merge_sort rule_le l.

(** The loop that looks for the first active default rule. *)
Fixpoint first_default (at_ : Time) (rules : list Rule) : list Rule :=
  match rules with
  | [] => []
  | rule :: rules =>
      if IsActiveAt rule at_ && ru_IsDefault rule then [rule]
      else first_default at_ rules
  end.

Fixpoint matched_rules (item : ComplianceCase) (rules : list Rule) : list Rule :=
  match rules with
  | [] => []
  | rule :: rules =>
      if negb (IsActiveAt rule (ic_RegisteredAt item)) then matched_rules item rules
      else if Matches rule item then rule :: matched_rules item rules
      else matched_rules item rules
  end.

Definition mk_referral (uuid : string) (now : Time) (item : ComplianceCase)
    (chosen : Rule) : Referral := {|
  rf_ID := uuid;
  rf_ItemID := ic_ID item;
  rf_LeadDepartment := ru_LeadDepartment chosen;
  rf_CoDepartments := ru_CoDepartments chosen;
  rf_RuleVersion := ru_Version chosen;
  rf_AdjudicatedAt := now;
  rf_AdjudicatedBy := "system";
  rf_IsCurrent := true;
  rf_ShardPath := "";
  rf_DataVersion := DataVersion
|}.

Definition Adjudicate (cerr : option ctx_error) (uuid : string) (now : Time)
    (item : ComplianceCase) (rules : list Rule) : result derror Referral :=
  match cerr with
  | Some e => Err (CtxErr e)
  | None =>
      let matched := matched_rules item rules in
      let matched :=
        if bool_decide (matched = []) then first_default (ic_RegisteredAt item) rules
        else matched in
      match sort_rules matched with
      | [] => Err (Wrap ("no matching dispatch rule for item " +:+ ic_ID item +:+ ": ")
                     (Sentinel ErrNoMatchingRule) "")
      | chosen :: _ => Ok (mk_referral uuid now item chosen)
      end
  end.

Definition SelectEscalationLead (currentLead : string) (level : Z) : string :=
  EscalationDepartmentName currentLead level.

(** ** Specification *)

(** The rules that apply to an item: in force when it was registered, and
    matching it. *)
Definition applies (r : Rule) (item : ComplianceCase) : Prop :=
  IsActiveAt r (ic_RegisteredAt item) = true ∧ rule_asks r item.

(** The contract of an adjudication: the referral carries the department, the
    co-departments and the version of a rule that applies, and no rule that
    applies has a higher priority, or the same priority and a newer version. *)
Definition adjudicated_by (item : ComplianceCase) (rules : list Rule)
    (chosen : Rule) (referral : Referral) : Prop :=
  chosen ∈ rules ∧ applies chosen item ∧
  (∀ r, r ∈ rules → applies r item → rule_le chosen r) ∧
  rf_ItemID referral = ic_ID item ∧
  rf_LeadDepartment referral = ru_LeadDepartment chosen ∧
  rf_CoDepartments referral = ru_CoDepartments chosen ∧
  rf_RuleVersion referral = ru_Version chosen ∧
  rf_IsCurrent referral = true.

(** Two rules in force and one that is not, and an item that asks for light
    rules. *)
Definition ex_rule (v p : Z) (dept : string) (kws : list string) (def : bool) : Rule := {|
  ru_Version := v; ru_Name := "r"; ru_Description := ""; ru_MatchKeywords := kws;
  ru_MatchCategory := ""; ru_LeadDepartment := dept; ru_CoDepartments := [];
  ru_Priority := p; ru_IsDefault := def; ru_EffectiveFrom := 10;
  ru_EffectiveTo := 0; ru_Status := RuleStatusActive; ru_CreatedAt := 10;
  ru_CreatedBy := "init"; ru_ShardPath := ""; ru_DataVersion := 2 |}.
Definition ex_item : ComplianceCase := {|
  ic_ID := "i-1"; ic_ExternalRef := "REF-1"; ic_Title := "glare"; ic_Description := "";
  ic_OperatorName := ""; ic_OperatorContact := ""; ic_Materials := [];
  ic_Category := "lighting"; ic_Keywords := ["glare"]; ic_Status := StatusRegistered;
  ic_LeadDepartment := ""; ic_CoDepartments := []; ic_RuleVersion := 0;
  ic_RegisteredAt := 20; ic_RegisteredBy := "u"; ic_Deadline := 100;
  ic_EscalationLevel := 0; ic_StoreID := ""; ic_CompletedAt := None;
  ic_CancelledAt := None; ic_CancelReason := ""; ic_ShardPath := "";
  ic_ShardOffset := 0; ic_DataVersion := 2; ic_CreatedAt := 20; ic_UpdatedAt := 20 |}.
Definition ex_rules : list Rule :=
  [ex_rule 1 0 "general" [] true; ex_rule 2 5 "lighting-bureau" ["glare"; "spill"] false;
   ex_rule 3 9 "water" ["flood"] false].

(** ** The order on rules *)

Lemma rule_le_spec a b :
  rule_le a b ↔
  ru_Priority b < ru_Priority a ∨
  ru_Priority b = ru_Priority a ∧ ru_Version b ≤ ru_Version a.
Proof.
  unfold rule_le, rule_less. destruct (Z.eqb_spec (ru_Priority b) (ru_Priority a)); simpl.
  - destruct (Z.ltb_spec (ru_Version a) (ru_Version b)); naive_solver lia.
  - destruct (Z.ltb_spec (ru_Priority a) (ru_Priority b)); naive_solver lia.
Qed.

#[export] Instance rule_le_total : Total rule_le.
Proof. intros a b. rewrite !rule_le_spec. lia. Qed.
#[export] Instance rule_le_trans : Transitive rule_le.
Proof. intros a b c. rewrite !rule_le_spec. lia. Qed.

Lemma rule_le_antisymm a b :
  rule_le a b → rule_le b a → ru_Version a = ru_Version b.
Proof. rewrite !rule_le_spec. lia. Qed.

Lemma sort_rules_perm l : sort_rules l ≡ₚ l.
Proof. apply merge_sort_Permutation. Qed.

Lemma sort_rules_head l c t : sort_rules l = c :: t → c ∈ l ∧ ∀ r, r ∈ l → rule_le c r.
Proof.
  intros E. pose proof (sort_rules_perm l) as P. rewrite E in P.
  split; [rewrite <- P; left|].
  intros r Hr. rewrite <- P in Hr. apply elem_of_cons in Hr as [->|Hr].
  { rewrite rule_le_spec. lia. }
  pose proof (StronglySorted_merge_sort rule_le l) as Hs.
  unfold sort_rules in E. rewrite E in Hs. apply StronglySorted_inv in Hs as [_ Hf].
  rewrite Forall_forall in Hf. by apply Hf.
Qed.

(** ** Matching *)

Lemma matched_rules_elem item rules r :
  r ∈ matched_rules item rules ↔ r ∈ rules ∧ applies r item.
Proof.
  unfold applies. rewrite <- Matches_spec.
  induction rules as [|x rules IH]; simpl; [set_solver|].
  rewrite elem_of_cons.
  destruct (IsActiveAt x _) eqn:Ea; simpl.
  1: destruct (Matches x item) eqn:Em; rewrite ?elem_of_cons.
  all: rewrite IH; split; [|intros ([->|] & ? & ?)]; naive_solver congruence.
Qed.

(** The search for a default rule never finds one after the matching loop came
    back empty: a default rule in force matches every item. *)
Lemma first_default_dead item rules :
  matched_rules item rules = [] → first_default (ic_RegisteredAt item) rules = [].
Proof.
  induction rules as [|x rules IH]; simpl; [done|].
  destruct (IsActiveAt x _) eqn:Ea; simpl; [|done].
  destruct (Matches x item) eqn:Em; [done|].
  destruct (ru_IsDefault x) eqn:Ed; [|done].
  unfold Matches in Em. by rewrite Ed in Em.
Qed.

Lemma Adjudicate_unfold uuid now item rules :
  Adjudicate None uuid now item rules =
  match sort_rules (matched_rules item rules) with
  | [] => Err (Wrap ("no matching dispatch rule for item " +:+ ic_ID item +:+ ": ")
                 (Sentinel ErrNoMatchingRule) "")
  | chosen :: _ => Ok (mk_referral uuid now item chosen)
  end.
Proof.
  unfold Adjudicate. case_bool_decide as E; [|done].
  by rewrite (first_default_dead _ _ E), E.
Qed.

Lemma chosen_unique (l1 l2 : list Rule) c1 c2 t1 :
  NoDup (ru_Version <$> l1) → l1 ≡ₚ l2 →
  sort_rules l1 = c1 :: t1 → c2 ∈ l2 → (∀ r, r ∈ l2 → rule_le c2 r) → c1 = c2.
Proof.
  intros Hnd Hp Hs Hin Hle. apply sort_rules_head in Hs as [Hin1 Hle1].
  rewrite <- Hp in Hin.
  assert (ru_Version c1 = ru_Version c2) as Hv.
  { apply rule_le_antisymm; [by apply Hle1|]. apply Hle. by rewrite <- Hp. }
  apply list_elem_of_lookup in Hin as [i Hi], Hin1 as [j Hj].
  assert (i = j) as ->; [|congruence].
  eapply (NoDup_lookup _ _ _ (ru_Version c2) Hnd); rewrite list_lookup_fmap.
  - by rewrite Hi.
  - by rewrite Hj, <- Hv.
Qed.

Lemma Adjudicate_ok cerr uuid now item rules referral :
  Adjudicate cerr uuid now item rules = Ok referral →
  cerr = None ∧ ∃ chosen, adjudicated_by item rules chosen referral.
Proof.
  destruct cerr as [c|]; [done|]. rewrite Adjudicate_unfold.
  destruct (sort_rules _) as [|chosen t] eqn:E; [done|]. intros [= <-].
  split; [done|]. exists chosen. apply sort_rules_head in E as [Hin Hbest].
  apply matched_rules_elem in Hin as [Hin Happ].
  unfold adjudicated_by. split_and!; try done.
  intros r Hr Ha. apply Hbest. by apply matched_rules_elem.
Qed.

(** ** What the adjudicator promises *)

Lemma Adjudicate_none uuid now item rules e :
  Adjudicate None uuid now item rules = Err e →
  errors_is e ErrNoMatchingRule = true ∧ ∀ r, r ∈ rules → ¬ applies r item.
Proof.
  rewrite Adjudicate_unfold. destruct (sort_rules _) as [|chosen t] eqn:E; [|done]. intros [= <-].
  split; [done|]. intros r Hr Ha.
  pose proof (sort_rules_perm (matched_rules item rules)) as P. rewrite E in P.
  apply Permutation_nil_l in P.
  pose proof (proj2 (matched_rules_elem item rules r) (conj Hr Ha)) as Hin.
  rewrite <- P in Hin. by apply elem_of_nil in Hin.
Qed.

(** C31: [Adjudicate] refines its contract on every branch: it yields a
    referral to a best applicable rule; it fails with [ErrNoMatchingRule]
    exactly when no rule applies (the search for a default rule adds nothing);
    a cancelled context is reported before anything else. *)
Theorem Adjudicate_spec cerr uuid now item rules :
  match Adjudicate cerr uuid now item rules with
  | Ok referral => cerr = None ∧ ∃ chosen, adjudicated_by item rules chosen referral
  | Err e =>
      (∃ c, cerr = Some c ∧ e = CtxErr c) ∨
      cerr = None ∧ errors_is e ErrNoMatchingRule = true ∧
      ∀ r, r ∈ rules → ¬ applies r item
  end.
Proof.
  destruct (Adjudicate cerr uuid now item rules) as [referral|e] eqn:Ea;
    [by eapply Adjudicate_ok|].
  destruct cerr as [c|]; [injection Ea as <-; by left; exists c|]. right.
  by apply Adjudicate_none in Ea.
Qed.

Lemma NoDup_matched item rules :
  NoDup (ru_Version <$> rules) → NoDup (ru_Version <$> matched_rules item rules).
Proof.
  induction rules as [|x rules IH]; simpl; [done|]. intros [Hx Hnd]%NoDup_cons.
  destruct (IsActiveAt x _), (Matches x item); simpl; auto.
  apply NoDup_cons; split; [|auto]. contradict Hx.
  apply list_elem_of_fmap in Hx as (r & Hv & Hr).
  apply matched_rules_elem in Hr as [Hr _]. rewrite Hv. by apply list_elem_of_fmap_2.
Qed.

(** With distinct rule versions the choice does not depend on the order in
    which the rules are listed, nor on how [sort.Slice] orders equal
    elements: any sorted permutation of the matching rules starts with the
    rule the adjudicator chose. *)
Theorem Adjudicate_deterministic uuid now item rules sorted c t :
  NoDup (ru_Version <$> rules) →
  sorted ≡ₚ matched_rules item rules →
  StronglySorted rule_le sorted → sorted = c :: t →
  ∀ rules', rules' ≡ₚ rules →
  Adjudicate None uuid now item rules' = Ok (mk_referral uuid now item c).
Proof.
  intros Hnd Hp Hs -> rules' Hr. rewrite Adjudicate_unfold.
  assert (matched_rules item rules ≡ₚ matched_rules item rules') as Hm.
  { clear -Hr. induction Hr as [|x l l' _ IH|x y l|l l' l'' _ IH1 _ IH2]; simpl; [done|..].
    - repeat case_match; by rewrite ?IH.
    - repeat case_match; try done. constructor.
    - by rewrite IH2, IH1. }
  destruct (sort_rules (matched_rules item rules')) as [|c' t'] eqn:E.
  { pose proof (sort_rules_perm (matched_rules item rules')) as P.
    rewrite E, <- Hm, <- Hp in P. by apply Permutation_nil_cons in P. }
  enough (c' = c) as -> by done.
  eapply (chosen_unique _ (c :: t)); [| |exact E|left|].
  - rewrite <- Hm. by apply NoDup_matched.
  - by rewrite <- Hm, Hp.
  - apply StronglySorted_inv in Hs as [_ Hf]. rewrite Forall_forall in Hf.
    intros r [->|Hin]%elem_of_cons; [rewrite rule_le_spec; lia|by apply Hf].
Qed.

Lemma Adjudicate_deterministic_witness :
  Adjudicate None "ref-1" 30 ex_item (rev ex_rules) =
  Ok (mk_referral "ref-1" 30 ex_item (ex_rule 2 5 "lighting-bureau" ["glare"; "spill"] false)).
Proof.
  apply (Adjudicate_deterministic "ref-1" 30 ex_item ex_rules
           [ex_rule 2 5 "lighting-bureau" ["glare"; "spill"] false; ex_rule 1 0 "general" [] true]
           _ [ex_rule 1 0 "general" [] true]).
  - apply (bool_decide_unpack _). vm_compute. exact I.
  - apply (bool_decide_unpack _). vm_compute. exact I.
  - repeat constructor.
  - reflexivity.
  - apply (bool_decide_unpack _). vm_compute. exact I.
Defined.
