(* ===== verification/LightModel.v ===== *)
(** * The light-governance hub: data, policy and registry

    [internal/hub/light_models.go], [light_policy.go] and
    [light_registry.go]. Every method of the registry holds its mutex from
    before its first read to its return, so a method is one atomic step on the
    [Registry] record. The registry clones slices and maps on the way in and
    on the way out, so records are plain values here; LightMemory has the
    references, and shows what callers can do with those they share. A nil
    [Milestones] or [Metadata] map is [None]. *)
From S2P Require Import Prelude GoErrors GoStrings.

(** ** Errors (light_registry.go) *)

Inductive light_error : Type :=
| ErrLightComplaintNotFound | ErrLightAssessmentTeamNotFound | ErrLightZoneNotFound
| ErrLightRuleNotFound | ErrLightRectificationNotFound | ErrLightAssessorPanelNotFound
| ErrLightConflict | ErrLightInvalidState | ErrLightCapacity
| ErrLightAuthorization | ErrLightValidation.
#[export] Instance light_error_eq_dec : EqDecision light_error.
Proof. solve_decision. Defined.

Abbreviation lerror := (error light_error).

(** ** Records (light_models.go) *)

Inductive ComplaintStatus : Type :=
| ComplaintPending | ComplaintAccepted | ComplaintActive
| ComplaintReturned | ComplaintClosed | ComplaintCancelled
| ComplaintOther (s : string).
#[export] Instance ComplaintStatus_eq_dec : EqDecision ComplaintStatus.
Proof. solve_decision. Defined.

Definition complaint_status_text (s : ComplaintStatus) : string :=
  match s with
  | ComplaintPending => "pending"
  | ComplaintAccepted => "accepted"
  | ComplaintActive => "active"
  | ComplaintReturned => "returned"
  | ComplaintClosed => "closed"
  | ComplaintCancelled => "cancelled"
  | ComplaintOther s => s
  end.

Record SpillLightComplaint : Type := {
  sc_ID : string;
  sc_DistrictID : string;
  sc_ResidentID : string;
  sc_ResidentName : string;
  sc_FacilityName : string;
  sc_VenueKind : string;
  sc_Status : ComplaintStatus;
  sc_Evidence : list string;
  sc_RequestedMeasurements : Z;
  sc_LightingZoneID : string;
  sc_OperatingRuleID : string;
  sc_RuleVersion : Z;
  sc_Attempt : Z;
  sc_Deadline : Time;
  sc_CreatedAt : Time;
  sc_UpdatedAt : Time;
  sc_Version : Z
}.
#[export] Instance SpillLightComplaint_eta : Eta SpillLightComplaint := λ c, {|
  sc_ID := sc_ID c; sc_DistrictID := sc_DistrictID c; sc_ResidentID := sc_ResidentID c;
  sc_ResidentName := sc_ResidentName c; sc_FacilityName := sc_FacilityName c;
  sc_VenueKind := sc_VenueKind c; sc_Status := sc_Status c; sc_Evidence := sc_Evidence c;
  sc_RequestedMeasurements := sc_RequestedMeasurements c;
  sc_LightingZoneID := sc_LightingZoneID c; sc_OperatingRuleID := sc_OperatingRuleID c;
  sc_RuleVersion := sc_RuleVersion c; sc_Attempt := sc_Attempt c;
  sc_Deadline := sc_Deadline c; sc_CreatedAt := sc_CreatedAt c;
  sc_UpdatedAt := sc_UpdatedAt c; sc_Version := sc_Version c |}.
#[export] Instance SpillLightComplaint_eq_dec : EqDecision SpillLightComplaint.
Proof. solve_decision. Defined.

Record AssessmentReservation : Type := {
  ar_ComplaintID : string;
  ar_AssessmentTeamID : string;
  ar_MeasurementCount : Z;
  ar_ReservedAt : Time;
  ar_ReleasedAt : option Time
}.
#[export] Instance AssessmentReservation_eta : Eta AssessmentReservation := λ a, {|
  ar_ComplaintID := ar_ComplaintID a; ar_AssessmentTeamID := ar_AssessmentTeamID a;
  ar_MeasurementCount := ar_MeasurementCount a; ar_ReservedAt := ar_ReservedAt a;
  ar_ReleasedAt := ar_ReleasedAt a |}.
#[export] Instance AssessmentReservation_eq_dec : EqDecision AssessmentReservation.
Proof. solve_decision. Defined.

Record AssessmentTeam : Type := {
  at_ID : string;
  at_VenueKind : string;
  at_MeasurementCapacity : Z;
  at_ReservedMeasurements : Z;
  at_Version : Z
}.
#[export] Instance AssessmentTeam_eta : Eta AssessmentTeam := λ t, {|
  at_ID := at_ID t; at_VenueKind := at_VenueKind t;
  at_MeasurementCapacity := at_MeasurementCapacity t;
  at_ReservedMeasurements := at_ReservedMeasurements t; at_Version := at_Version t |}.
#[export] Instance AssessmentTeam_eq_dec : EqDecision AssessmentTeam.
Proof. solve_decision. Defined.

Record LightingZone : Type := {
  lz_ID : string;
  lz_DistrictID : string;
  lz_VenueKind : string;
  lz_FixtureCapacity : Z;
  lz_AllocatedFixtures : Z;
  lz_CutoffGrace : Duration;
  lz_Active : bool;
  lz_Version : Z
}.
#[export] Instance LightingZone_eta : Eta LightingZone := λ z, {|
  lz_ID := lz_ID z; lz_DistrictID := lz_DistrictID z; lz_VenueKind := lz_VenueKind z;
  lz_FixtureCapacity := lz_FixtureCapacity z; lz_AllocatedFixtures := lz_AllocatedFixtures z;
  lz_CutoffGrace := lz_CutoffGrace z; lz_Active := lz_Active z; lz_Version := lz_Version z |}.
#[export] Instance LightingZone_eq_dec : EqDecision LightingZone.
Proof. solve_decision. Defined.

Record OperatingRule : Type := {
  or_ID : string;
  or_AuthorityID : string;
  or_Kind : string;
  or_VenueKinds : list string;
  or_Capacity : Z;
  or_Used : Z;
  or_EffectiveFrom : Time;
  or_EffectiveTo : Time;
  or_Version : Z
}.
#[export] Instance OperatingRule_eta : Eta OperatingRule := λ r, {|
  or_ID := or_ID r; or_AuthorityID := or_AuthorityID r; or_Kind := or_Kind r;
  or_VenueKinds := or_VenueKinds r; or_Capacity := or_Capacity r; or_Used := or_Used r;
  or_EffectiveFrom := or_EffectiveFrom r; or_EffectiveTo := or_EffectiveTo r;
  or_Version := or_Version r |}.
#[export] Instance OperatingRule_eq_dec : EqDecision OperatingRule.
Proof. solve_decision. Defined.

Record RectificationSubmission : Type := {
  rs_ID : string;
  rs_DistrictID : string;
  rs_CrewID : string;
  rs_PlanType : string;
  rs_Status : string;
  rs_Evidence : list string;
  rs_ComplaintID : string;
  rs_SubmittedAt : Time;
  rs_ReviewedAt : option Time;
  rs_Version : Z
}.
#[export] Instance RectificationSubmission_eta : Eta RectificationSubmission := λ r, {|
  rs_ID := rs_ID r; rs_DistrictID := rs_DistrictID r; rs_CrewID := rs_CrewID r;
  rs_PlanType := rs_PlanType r; rs_Status := rs_Status r; rs_Evidence := rs_Evidence r;
  rs_ComplaintID := rs_ComplaintID r; rs_SubmittedAt := rs_SubmittedAt r;
  rs_ReviewedAt := rs_ReviewedAt r; rs_Version := rs_Version r |}.
#[export] Instance RectificationSubmission_eq_dec : EqDecision RectificationSubmission.
Proof. solve_decision. Defined.

Record AssessorPanel : Type := {
  ap_ID : string;
  ap_Name : string;
  ap_Capacity : Z;
  ap_AssessorIDs : list string;
  ap_SupervisorIDs : list string;
  ap_Milestones : option (gmap string string);
  ap_Version : Z
}.
#[export] Instance AssessorPanel_eta : Eta AssessorPanel := λ p, {|
  ap_ID := ap_ID p; ap_Name := ap_Name p; ap_Capacity := ap_Capacity p;
  ap_AssessorIDs := ap_AssessorIDs p; ap_SupervisorIDs := ap_SupervisorIDs p;
  ap_Milestones := ap_Milestones p; ap_Version := ap_Version p |}.
#[export] Instance AssessorPanel_eq_dec : EqDecision AssessorPanel.
Proof. solve_decision. Defined.

Record GovernanceEvent : Type := {
  ge_ID : string;
  ge_DistrictID : string;
  ge_EntityID : string;
  ge_Action : string;
  ge_ActorID : string;
  ge_At : Time;
  ge_Metadata : option (gmap string string)
}.

(** A query filters by status when its status is not the empty string. *)
Record ComplaintQuery : Type := {
  cq_DistrictID : string;
  cq_Status : ComplaintStatus;
  cq_VenueKind : string;
  cq_Offset : Z;
  cq_Limit : Z
}.

Record ComplaintQueryResult : Type := {
  cr_Complaints : list SpillLightComplaint;
  cr_Total : Z
}.

(** ** Policy (light_policy.go) *)

Definition allowedVenueKinds : list string :=
  ["FOOTBALL_FIELD"; "BASKETBALL_COURT"; "TENNIS_COURT"; "RUNNING_TRACK"].

Section policy.
Context `{UnicodeTables}.

Definition normalizeVenueKind (venueKind : string) : string :=
  ToUpper (TrimSpace venueKind).

Definition validateComplaintInput (complaint : SpillLightComplaint) : result lerror () :=
  if bool_decide (sc_ID complaint = "") || bool_decide (sc_DistrictID complaint = "")
     || bool_decide (sc_ResidentID complaint = "")
     || bool_decide (TrimSpace (sc_ResidentName complaint) = "") then
    Err (errorf_after ErrLightValidation "identity")
  else if negb (bool_decide (normalizeVenueKind (sc_VenueKind complaint) ∈ allowedVenueKinds)) then
    Err (errorf_after ErrLightValidation "venue kind")
  else if (sc_RequestedMeasurements complaint <=? 0)
          || (5000 <? sc_RequestedMeasurements complaint) then
    Err (errorf_after ErrLightValidation "requested measurements")
  else if bool_decide (sc_Evidence complaint = []) then
    Err (errorf_after ErrLightValidation "evidence")
  else Ok ().

Definition validComplaintTransition (from to : ComplaintStatus) : bool :=
  match from with
  | ComplaintPending =>
      bool_decide (to = ComplaintAccepted) || bool_decide (to = ComplaintReturned)
      || bool_decide (to = ComplaintCancelled)
  | ComplaintReturned =>
      bool_decide (to = ComplaintPending) || bool_decide (to = ComplaintCancelled)
  | ComplaintAccepted =>
      bool_decide (to = ComplaintActive) || bool_decide (to = ComplaintCancelled)
  | ComplaintActive => bool_decide (to = ComplaintClosed)
  | ComplaintClosed | ComplaintCancelled => false
  | ComplaintOther _ => false
  end.

Definition ruleAvailable (rule : OperatingRule) (venueKind : string) (at_ : Time) : bool :=
  if Before at_ (or_EffectiveFrom rule) || negb (Before at_ (or_EffectiveTo rule)) then false
  else if or_Capacity rule <=? or_Used rule then false
  else existsb (λ candidate,
         bool_decide (normalizeVenueKind candidate = normalizeVenueKind venueKind))
         (or_VenueKinds rule).

Definition rectificationCanApprove (rectification : RectificationSubmission) :
    result lerror () :=
  if negb (bool_decide (rs_Status rectification = "submitted")) then
    Err (errorf_after ErrLightInvalidState
           ("rectification status " +:+ rs_Status rectification))
  else if bool_decide (TrimSpace (rs_CrewID rectification) = "")
          || (Z.of_nat (length (rs_Evidence rectification)) <? 2) then
    Err (errorf_after ErrLightValidation "rectification evidence")
  else Ok ().

Definition measurementCapacityAvailable (team : AssessmentTeam) (requested : Z) : bool :=
  (0 <? requested) &&
  (requested <=? at_MeasurementCapacity team -ᵢ at_ReservedMeasurements team).
End policy.

(** [nowOr]: the argument, or the wall clock [wall] when it is the zero
    time. *)
Definition nowOr (wall value : Time) : Time := if IsZero value then wall else value.

(** ** The registry (light_registry.go) *)

Record Registry : Type := {
  complaints : gmap string SpillLightComplaint;
  teams : gmap string AssessmentTeam;
  assessments : gmap string AssessmentReservation;
  zones : gmap string LightingZone;
  rules : gmap string OperatingRule;
  rectifications : gmap string RectificationSubmission;
  panels : gmap string AssessorPanel;
  events : list GovernanceEvent;
  idempotency : gmap string string
}.
#[export] Instance Registry_eta : Eta Registry := λ r, {|
  complaints := complaints r; teams := teams r; assessments := assessments r;
  zones := zones r; rules := rules r; rectifications := rectifications r;
  panels := panels r; events := events r; idempotency := idempotency r |}.

Definition NewLightGovernanceRegistry : Registry := {|
  complaints := ∅; teams := ∅; assessments := ∅; zones := ∅; rules := ∅;
  rectifications := ∅; panels := ∅; events := []; idempotency := ∅ |}.

Abbreviation lop := (op Registry lerror).

Definition put_complaint (id : string) (c : SpillLightComplaint) (r : Registry) : Registry :=
  r <| complaints := <[id := c]> (complaints r) |>.
Definition put_team (id : string) (t : AssessmentTeam) (r : Registry) : Registry :=
  r <| teams := <[id := t]> (teams r) |>.
Definition put_assessment (id : string) (a : AssessmentReservation) (r : Registry) : Registry :=
  r <| assessments := <[id := a]> (assessments r) |>.
Definition put_zone (id : string) (z : LightingZone) (r : Registry) : Registry :=
  r <| zones := <[id := z]> (zones r) |>.
Definition put_rule (id : string) (o : OperatingRule) (r : Registry) : Registry :=
  r <| rules := <[id := o]> (rules r) |>.
Definition put_rectification (id : string) (s : RectificationSubmission) (r : Registry) : Registry :=
  r <| rectifications := <[id := s]> (rectifications r) |>.
Definition put_panel (id : string) (p : AssessorPanel) (r : Registry) : Registry :=
  r <| panels := <[id := p]> (panels r) |>.
Definition append_event (e : GovernanceEvent) (r : Registry) : Registry :=
  r <| events := events r ++ [e] |>.

Definition AddAssessmentTeam (cerr : option ctx_error) (team : AssessmentTeam) : lop () :=
  _ ← check_ctx cerr;
  _ ← ensure (negb (bool_decide (at_ID team = "") || (at_MeasurementCapacity team <=? 0)))
        (errorf_after ErrLightValidation "team");
  exists_ ← gets (λ r, bool_decide (is_Some (teams r !! at_ID team)));
  _ ← ensure (negb exists_) (errorf_after ErrLightConflict "team exists");
  modify (put_team (at_ID team) team).

Definition AddZone (cerr : option ctx_error) (zone : LightingZone) : lop () :=
  _ ← check_ctx cerr;
  _ ← ensure (negb (bool_decide (lz_ID zone = "") || bool_decide (lz_DistrictID zone = "")
                    || bool_decide (lz_VenueKind zone = "") || (lz_FixtureCapacity zone <=? 0)))
        (errorf_after ErrLightValidation "zone");
  exists_ ← gets (λ r, bool_decide (is_Some (zones r !! lz_ID zone)));
  _ ← ensure (negb exists_) (errorf_after ErrLightConflict "zone exists");
  modify (put_zone (lz_ID zone) zone).

Definition AddRule (cerr : option ctx_error) (rule : OperatingRule) : lop () :=
  _ ← check_ctx cerr;
  _ ← ensure (negb (bool_decide (or_ID rule = "") || bool_decide (or_AuthorityID rule = "")
                    || (or_Capacity rule <=? 0)
                    || negb (Before (or_EffectiveFrom rule) (or_EffectiveTo rule))))
        (errorf_after ErrLightValidation "rule");
  exists_ ← gets (λ r, bool_decide (is_Some (rules r !! or_ID rule)));
  _ ← ensure (negb exists_) (errorf_after ErrLightConflict "rule exists");
  modify (put_rule (or_ID rule) rule).

Definition AddPanel (cerr : option ctx_error) (panel : AssessorPanel) : lop () :=
  _ ← check_ctx cerr;
  _ ← ensure (negb (bool_decide (ap_ID panel = "") || (ap_Capacity panel <=? 0)))
        (errorf_after ErrLightValidation "panel");
  exists_ ← gets (λ r, bool_decide (is_Some (panels r !! ap_ID panel)));
  _ ← ensure (negb exists_) (errorf_after ErrLightConflict "panel exists");
  modify (put_panel (ap_ID panel) panel).

(** The read methods: each returns a copy, here the value itself. *)
Definition Complaint (r : Registry) (id : string) : option SpillLightComplaint :=
  complaints r !! id.
Definition Assessment (r : Registry) (complaintID : string) : option AssessmentReservation :=
  assessments r !! complaintID.
Definition AssessmentTeam_ (r : Registry) (id : string) : option AssessmentTeam :=
  teams r !! id.
Definition Rectification (r : Registry) (id : string) : option RectificationSubmission :=
  rectifications r !! id.
Definition Panel (r : Registry) (id : string) : option AssessorPanel := panels r !! id.
Definition Events (r : Registry) : list GovernanceEvent := events r.
