(* ===== verification/LightService.v ===== *)
(** * The light-governance hub: the service operations

    [internal/hub/light_service.go], one definition per method, guards in the
    code's order. A [Call] holds what an operation reads from its
    surroundings: the poll of [ctx.Err()], the reading of the service's [now]
    function and the wall clock [nowOr] falls back to. The last section makes
    the registry a labelled transition system, one label per mutating call. *)
From S2P Require Import Prelude GoErrors GoStrings LightModel.

Record Call : Type := {
  call_ctx : option ctx_error;
  call_clock : Time;
  call_wall : Time
}.
Definition call_now (c : Call) : Time := nowOr (call_wall c) (call_clock c).

Section service.
Context `{UnicodeTables}.

Definition SubmitComplaint (call : Call) (complaint : SpillLightComplaint) :
    lop SpillLightComplaint :=
  _ ← check_ctx (call_ctx call);
  _ ← lift (validateComplaintInput complaint);
  let now := call_now call in
  let complaint := complaint
    <| sc_ResidentName := TrimSpace (sc_ResidentName complaint) |>
    <| sc_VenueKind := normalizeVenueKind (sc_VenueKind complaint) |>
    <| sc_Status := ComplaintPending |>
    <| sc_Attempt := 1 |>
    <| sc_CreatedAt := now |> <| sc_UpdatedAt := now |> in
  exists_ ← gets (λ r, bool_decide (is_Some (complaints r !! sc_ID complaint)));
  _ ← ensure (negb exists_) (errorf_after ErrLightConflict "complaint exists");
  _ ← modify (λ r, append_event
    {| ge_ID := sc_ID complaint +:+ "-submitted"; ge_DistrictID := sc_DistrictID complaint;
       ge_EntityID := sc_ID complaint; ge_Action := "complaint.submitted";
       ge_ActorID := sc_ResidentID complaint; ge_At := now; ge_Metadata := None |}
    (put_complaint (sc_ID complaint) complaint r));
  mret complaint.

(** [existing, exists := assessments[id]; exists && existing.ReleasedAt == nil] *)
Definition active_assessment (r : Registry) (complaintID : string) :
    option AssessmentReservation :=
  match assessments r !! complaintID with
  | Some a => if bool_decide (ar_ReleasedAt a = None) then Some a else None
  | None => None
  end.

Definition ReserveAssessment (call : Call) (complaintID teamID : string)
    (measurementCount : Z) : lop AssessmentReservation :=
  _ ← check_ctx (call_ctx call);
  _ ← ensure (negb (measurementCount <=? 0))
        (errorf_after ErrLightValidation "measurement count");
  let now := call_now call in
  r ← gets id;
  complaint ← must (complaints r !! complaintID) (Sentinel ErrLightComplaintNotFound);
  team ← must (teams r !! teamID) (Sentinel ErrLightAssessmentTeamNotFound);
  _ ← ensure (bool_decide (sc_Status complaint = ComplaintPending)
              || bool_decide (sc_Status complaint = ComplaintReturned))
        (errorf_after ErrLightInvalidState "assessment requires pending complaint");
  _ ← ensure (measurementCapacityAvailable team measurementCount)
        (Sentinel ErrLightCapacity);
  match active_assessment r complaintID with
  | Some existing => mret existing
  | None =>
      let team := team
        <| at_ReservedMeasurements := at_ReservedMeasurements team +ᵢ measurementCount |>
        <| at_Version := at_Version team +ᵢ 1 |> in
      let assessment := {| ar_ComplaintID := complaintID; ar_AssessmentTeamID := teamID;
        ar_MeasurementCount := measurementCount; ar_ReservedAt := now;
        ar_ReleasedAt := None |} in
      let complaint := complaint
        <| sc_UpdatedAt := now |> <| sc_Version := sc_Version complaint +ᵢ 1 |> in
      _ ← modify (λ r, put_complaint complaintID complaint
            (put_assessment complaintID assessment (put_team teamID team r)));
      mret assessment
  end.

Definition ReleaseAssessment (call : Call) (complaintID : string) : lop () :=
  _ ← check_ctx (call_ctx call);
  let now := call_now call in
  r ← gets id;
  match active_assessment r complaintID with
  | None => mret ()
  | Some assessment =>
      team ← must (teams r !! ar_AssessmentTeamID assessment)
               (Sentinel ErrLightAssessmentTeamNotFound);
      _ ← ensure (negb (at_ReservedMeasurements team <? ar_MeasurementCount assessment))
            (errorf_after ErrLightConflict "allocated measurements underflow");
      let team := team
        <| at_ReservedMeasurements :=
             at_ReservedMeasurements team -ᵢ ar_MeasurementCount assessment |>
        <| at_Version := at_Version team +ᵢ 1 |> in
      let assessment := assessment <| ar_ReleasedAt := Some now |> in
      modify (λ r, put_assessment complaintID assessment (put_team (at_ID team) team r))
  end.

Definition AcceptComplaint (call : Call) (complaintID actorID : string) :
    lop SpillLightComplaint :=
  _ ← check_ctx (call_ctx call);
  let now := call_now call in
  r ← gets id;
  complaint ← must (complaints r !! complaintID) (Sentinel ErrLightComplaintNotFound);
  _ ← ensure (negb (bool_decide (actorID = ""))) (Sentinel ErrLightAuthorization);
  _ ← ensure (validComplaintTransition (sc_Status complaint) ComplaintAccepted)
        (errorf_after ErrLightInvalidState
           ("approve from " +:+ complaint_status_text (sc_Status complaint)));
  _ ← ensure (bool_decide (is_Some (assessments r !! complaintID)))
        (errorf_after ErrLightCapacity "assessment is not reserved");
  _ ← ensure (negb (bool_decide (sc_LightingZoneID complaint = "")))
        (errorf_after ErrLightZoneNotFound "lighting zone is required");
  _ ← ensure (match zones r !! sc_LightingZoneID complaint with
              | Some zone => lz_Active zone
              | None => false
              end)
        (errorf_after ErrLightZoneNotFound "zone unavailable");
  let complaint := complaint
    <| sc_Status := ComplaintAccepted |> <| sc_UpdatedAt := now |>
    <| sc_Version := sc_Version complaint +ᵢ 1 |> in
  _ ← modify (λ r, append_event
    {| ge_ID := complaintID +:+ "-accepted"; ge_DistrictID := "";
       ge_EntityID := complaintID; ge_Action := "complaint.accepted";
       ge_ActorID := actorID; ge_At := now; ge_Metadata := None |}
    (put_complaint complaintID complaint r));
  mret complaint.

Definition AssignZone (cerr : option ctx_error) (complaintID zoneID : string)
    (fixtureCount : Z) : lop () :=
  _ ← check_ctx cerr;
  _ ← ensure (negb (fixtureCount <=? 0)) (errorf_after ErrLightValidation "zone capacity");
  r ← gets id;
  complaint ← must (complaints r !! complaintID) (Sentinel ErrLightComplaintNotFound);
  zone ← must (zones r !! zoneID) (Sentinel ErrLightZoneNotFound);
  _ ← ensure (negb (negb (bool_decide (lz_DistrictID zone = sc_DistrictID complaint))
                    || negb (bool_decide (normalizeVenueKind (lz_VenueKind zone) =
                                          normalizeVenueKind (sc_VenueKind complaint)))))
        (errorf_after ErrLightAuthorization "zone district or venueKind");
  _ ← ensure (negb (negb (lz_Active zone)
                    || (lz_FixtureCapacity zone -ᵢ lz_AllocatedFixtures zone <? fixtureCount)))
        (Sentinel ErrLightCapacity);
  let zone := zone
    <| lz_AllocatedFixtures := lz_AllocatedFixtures zone +ᵢ fixtureCount |>
    <| lz_Version := lz_Version zone +ᵢ 1 |> in
  let complaint := complaint
    <| sc_LightingZoneID := zoneID |> <| sc_Version := sc_Version complaint +ᵢ 1 |> in
  modify (λ r, put_complaint complaintID complaint (put_zone zoneID zone r)).

Definition PublishRectification (call : Call) (rectification : RectificationSubmission) :
    lop RectificationSubmission :=
  _ ← check_ctx (call_ctx call);
  _ ← ensure (negb (bool_decide (rs_ID rectification = "")
                    || bool_decide (rs_DistrictID rectification = "")
                    || bool_decide (TrimSpace (rs_CrewID rectification) = "")
                    || bool_decide (rs_ComplaintID rectification = "")))
        (errorf_after ErrLightValidation "rectification identity");
  _ ← ensure (negb (Z.of_nat (length (rs_Evidence rectification)) <? 2))
        (errorf_after ErrLightValidation "at least two evidence items");
  let now := call_now call in
  let rectification := rectification
    <| rs_CrewID := TrimSpace (rs_CrewID rectification) |>
    <| rs_Status := "submitted" |> <| rs_SubmittedAt := now |> in
  r ← gets id;
  _ ← ensure (negb (bool_decide (is_Some (rectifications r !! rs_ID rectification))))
        (errorf_after ErrLightConflict "rectification exists");
  _ ← ensure (match complaints r !! rs_ComplaintID rectification with
              | Some complaint =>
                  bool_decide (sc_DistrictID complaint = rs_DistrictID rectification)
              | None => false
              end)
        (Sentinel ErrLightComplaintNotFound);
  _ ← modify (put_rectification (rs_ID rectification) rectification);
  mret rectification.

Definition VerifyRectification (call : Call) (rectificationID reviewerID : string) :
    lop RectificationSubmission :=
  _ ← check_ctx (call_ctx call);
  _ ← ensure (negb (bool_decide (reviewerID = ""))) (Sentinel ErrLightAuthorization);
  let now := call_now call in
  r ← gets id;
  rectification ← must (rectifications r !! rectificationID)
                    (Sentinel ErrLightRectificationNotFound);
  _ ← lift (rectificationCanApprove rectification);
  let rectification := rectification
    <| rs_Status := "accepted" |> <| rs_Version := rs_Version rectification +ᵢ 1 |>
    <| rs_ReviewedAt := Some now |> in
  _ ← modify (put_rectification rectificationID rectification);
  mret rectification.

(** [at_] is the [now] argument of the method, [wall] the wall clock. *)
Definition ApplyRule (cerr : option ctx_error) (wall : Time) (complaintID ruleID : string)
    (at_ : Time) : lop () :=
  _ ← check_ctx cerr;
  r ← gets id;
  complaint ← must (complaints r !! complaintID) (Sentinel ErrLightComplaintNotFound);
  rule ← must (rules r !! ruleID) (Sentinel ErrLightRuleNotFound);
  _ ← ensure (ruleAvailable rule (sc_VenueKind complaint) (nowOr wall at_))
        (Sentinel ErrLightCapacity);
  let rule := rule <| or_Used := or_Used rule +ᵢ 1 |>
                   <| or_Version := or_Version rule +ᵢ 1 |> in
  let complaint := complaint
    <| sc_OperatingRuleID := ruleID |> <| sc_Version := sc_Version complaint +ᵢ 1 |> in
  modify (λ r, put_complaint complaintID complaint (put_rule ruleID rule r)).

Definition EnrollAssessor (cerr : option ctx_error) (panelID assessorID : string) :
    lop AssessorPanel :=
  _ ← check_ctx cerr;
  _ ← ensure (negb (bool_decide (TrimSpace assessorID = "")))
        (errorf_after ErrLightValidation "assessor");
  r ← gets id;
  panel ← must (panels r !! panelID) (Sentinel ErrLightAssessorPanelNotFound);
  if bool_decide (assessorID ∈ ap_AssessorIDs panel) then mret panel
  else
    _ ← ensure (negb (ap_Capacity panel <=? Z.of_nat (length (ap_AssessorIDs panel))))
          (Sentinel ErrLightCapacity);
    let panel := panel
      <| ap_AssessorIDs := ap_AssessorIDs panel ++ [assessorID] |>
      <| ap_Version := ap_Version panel +ᵢ 1 |> in
    _ ← modify (put_panel panelID panel);
    mret panel.

Definition ResubmitComplaint (call : Call) (complaintID : string) (evidence : list string) :
    lop SpillLightComplaint :=
  _ ← check_ctx (call_ctx call);
  _ ← ensure (negb (bool_decide (evidence = [])))
        (errorf_after ErrLightValidation "resubmission evidence");
  let now := call_now call in
  r ← gets id;
  complaint ← must (complaints r !! complaintID) (Sentinel ErrLightComplaintNotFound);
  _ ← ensure (bool_decide (sc_Status complaint = ComplaintReturned))
        (errorf_after ErrLightInvalidState
           ("resubmit from " +:+ complaint_status_text (sc_Status complaint)));
  let complaint := complaint
    <| sc_Status := ComplaintPending |> <| sc_Attempt := sc_Attempt complaint +ᵢ 1 |>
    <| sc_Evidence := evidence |> <| sc_UpdatedAt := now |>
    <| sc_Version := sc_Version complaint +ᵢ 1 |> in
  _ ← modify (put_complaint complaintID complaint);
  mret complaint.

Definition CloseComplaint (call : Call) (complaintID : string) : lop () :=
  _ ← check_ctx (call_ctx call);
  let now := call_now call in
  r ← gets id;
  complaint ← must (complaints r !! complaintID) (Sentinel ErrLightComplaintNotFound);
  _ ← ensure (validComplaintTransition (sc_Status complaint) ComplaintClosed)
        (errorf_after ErrLightInvalidState
           ("close from " +:+ complaint_status_text (sc_Status complaint)));
  let complaint := complaint
    <| sc_Status := ComplaintClosed |> <| sc_UpdatedAt := now |>
    <| sc_Version := sc_Version complaint +ᵢ 1 |> in
  modify (put_complaint complaintID complaint).

(** The filter of [ListComplaints]. *)
Definition query_keeps (query : ComplaintQuery) (complaint : SpillLightComplaint) : bool :=
  if negb (bool_decide (cq_DistrictID query = ""))
     && negb (bool_decide (sc_DistrictID complaint = cq_DistrictID query)) then false
  else if negb (bool_decide (cq_Status query = ComplaintOther ""))
          && negb (bool_decide (sc_Status complaint = cq_Status query)) then false
  else if negb (bool_decide (cq_VenueKind query = ""))
          && negb (bool_decide (normalizeVenueKind (sc_VenueKind complaint) =
                                normalizeVenueKind (cq_VenueKind query))) then false
  else true.

(** [for _, complaint := range r.complaints] visits the map in an order the
    runtime picks anew for every loop: [order] is the sequence of entries of
    this run of the loop. *)
Definition ListComplaints (cerr : option ctx_error) (query : ComplaintQuery)
    (order : list (string * SpillLightComplaint)) : result lerror ComplaintQueryResult :=
  match cerr with
  | Some e => Err (CtxErr e)
  | None =>
      if (cq_Offset query <? 0) || (cq_Limit query <? 0) || (100 <? cq_Limit query) then
        Err (errorf_after ErrLightValidation "pagination")
      else
        let items := List.filter (query_keeps query) (snd <$> order) in
        let n := Z.of_nat (length items) in
        if n <=? cq_Offset query then Ok {| cr_Complaints := []; cr_Total := n |}
        else
          let end_ := if (0 <? cq_Limit query) && (cq_Offset query +ᵢ cq_Limit query <? n)
                      then cq_Offset query +ᵢ cq_Limit query else n in
          Ok {| cr_Complaints :=
                  take (Z.to_nat (end_ - cq_Offset query)) (drop (Z.to_nat (cq_Offset query)) items);
                cr_Total := n |}
  end.
End service.

(** ** The registry as a transition system *)

Inductive light_call : Type :=
| CallAddAssessmentTeam (cerr : option ctx_error) (team : AssessmentTeam)
| CallAddZone (cerr : option ctx_error) (zone : LightingZone)
| CallAddRule (cerr : option ctx_error) (rule : OperatingRule)
| CallAddPanel (cerr : option ctx_error) (panel : AssessorPanel)
| CallSubmitComplaint (call : Call) (complaint : SpillLightComplaint)
| CallReserveAssessment (call : Call) (complaintID teamID : string) (count : Z)
| CallReleaseAssessment (call : Call) (complaintID : string)
| CallAcceptComplaint (call : Call) (complaintID actorID : string)
| CallAssignZone (cerr : option ctx_error) (complaintID zoneID : string) (count : Z)
| CallPublishRectification (call : Call) (rectification : RectificationSubmission)
| CallVerifyRectification (call : Call) (rectificationID reviewerID : string)
| CallApplyRule (cerr : option ctx_error) (wall : Time) (complaintID ruleID : string) (at_ : Time)
| CallEnrollAssessor (cerr : option ctx_error) (panelID assessorID : string)
| CallResubmitComplaint (call : Call) (complaintID : string) (evidence : list string)
| CallCloseComplaint (call : Call) (complaintID : string).

Definition forget {S E A} (m : op S E A) : op S E () := _ ← m; mret ().

Definition exec_light `{UnicodeTables} (c : light_call) : lop () :=
  match c with
  | CallAddAssessmentTeam cerr team => AddAssessmentTeam cerr team
  | CallAddZone cerr zone => AddZone cerr zone
  | CallAddRule cerr rule => AddRule cerr rule
  | CallAddPanel cerr panel => AddPanel cerr panel
  | CallSubmitComplaint call c => forget (SubmitComplaint call c)
  | CallReserveAssessment call c t n => forget (ReserveAssessment call c t n)
  | CallReleaseAssessment call c => ReleaseAssessment call c
  | CallAcceptComplaint call c a => forget (AcceptComplaint call c a)
  | CallAssignZone cerr c z n => AssignZone cerr c z n
  | CallPublishRectification call s => forget (PublishRectification call s)
  | CallVerifyRectification call s v => forget (VerifyRectification call s v)
  | CallApplyRule cerr wall c o t => ApplyRule cerr wall c o t
  | CallEnrollAssessor cerr p a => forget (EnrollAssessor cerr p a)
  | CallResubmitComplaint call c ev => forget (ResubmitComplaint call c ev)
  | CallCloseComplaint call c => CloseComplaint call c
  end.

(** Concurrent calls are serialised by the registry's mutex: an execution is a
    sequence of calls, each of which may fail. *)
Definition light_step `{UnicodeTables} (r : Registry) (c : light_call) (r' : Registry) : Prop :=
  fst (exec_light c r) = r'.
