(* ===== verification/LightSpec.v ===== *)
(** * The light-governance hub: abstract specification and refinement

    [light_effect r c r'] says, without the code's control flow, what a
    successful call [c] does to the registry and under which conditions. The
    refinement theorem says that a call either has its effect, or leaves the
    registry exactly as it was. Every invariant of the hub is proved over the
    specification. *)
From S2P Require Import Prelude GoErrors GoStrings LightModel LightService.

Section spec.
Context `{UnicodeTables}.

(** The complaint as [SubmitComplaint] stores it. *)
Definition submitted (now : Time) (c : SpillLightComplaint) : SpillLightComplaint :=
  c <| sc_ResidentName := TrimSpace (sc_ResidentName c) |>
    <| sc_VenueKind := normalizeVenueKind (sc_VenueKind c) |>
    <| sc_Status := ComplaintPending |>
    <| sc_Attempt := 1 |>
    <| sc_CreatedAt := now |> <| sc_UpdatedAt := now |>.

Definition submit_event (now : Time) (c : SpillLightComplaint) : GovernanceEvent :=
  {| ge_ID := sc_ID c +:+ "-submitted"; ge_DistrictID := sc_DistrictID c;
     ge_EntityID := sc_ID c; ge_Action := "complaint.submitted";
     ge_ActorID := sc_ResidentID c; ge_At := now; ge_Metadata := None |}.

Definition accept_event (now : Time) (id actor : string) : GovernanceEvent :=
  {| ge_ID := id +:+ "-accepted"; ge_DistrictID := ""; ge_EntityID := id;
     ge_Action := "complaint.accepted"; ge_ActorID := actor; ge_At := now;
     ge_Metadata := None |}.

Definition reservation (now : Time) (cid tid : string) (n : Z) : AssessmentReservation :=
  {| ar_ComplaintID := cid; ar_AssessmentTeamID := tid; ar_MeasurementCount := n;
     ar_ReservedAt := now; ar_ReleasedAt := None |}.

Definition reserve_on (n : Z) (t : AssessmentTeam) : AssessmentTeam :=
  t <| at_ReservedMeasurements := at_ReservedMeasurements t +ᵢ n |>
    <| at_Version := at_Version t +ᵢ 1 |>.
Definition release_on (n : Z) (t : AssessmentTeam) : AssessmentTeam :=
  t <| at_ReservedMeasurements := at_ReservedMeasurements t -ᵢ n |>
    <| at_Version := at_Version t +ᵢ 1 |>.

Inductive light_effect (r : Registry) : light_call → Registry → Prop :=
| eff_add_team cerr t :
    at_ID t ≠ "" → 0 < at_MeasurementCapacity t → teams r !! at_ID t = None →
    light_effect r (CallAddAssessmentTeam cerr t) (put_team (at_ID t) t r)
| eff_add_zone cerr z :
    lz_ID z ≠ "" → lz_DistrictID z ≠ "" → lz_VenueKind z ≠ "" →
    0 < lz_FixtureCapacity z → zones r !! lz_ID z = None →
    light_effect r (CallAddZone cerr z) (put_zone (lz_ID z) z r)
| eff_add_rule cerr o :
    or_ID o ≠ "" → or_AuthorityID o ≠ "" → 0 < or_Capacity o →
    or_EffectiveFrom o < or_EffectiveTo o → rules r !! or_ID o = None →
    light_effect r (CallAddRule cerr o) (put_rule (or_ID o) o r)
| eff_add_panel cerr p :
    ap_ID p ≠ "" → 0 < ap_Capacity p → panels r !! ap_ID p = None →
    light_effect r (CallAddPanel cerr p) (put_panel (ap_ID p) p r)
| eff_submit call c :
    validateComplaintInput c = Ok () → complaints r !! sc_ID c = None →
    light_effect r (CallSubmitComplaint call c)
      (append_event (submit_event (call_now call) c)
         (put_complaint (sc_ID c) (submitted (call_now call) c) r))
| eff_reserve call cid tid n c t :
    complaints r !! cid = Some c → teams r !! tid = Some t →
    sc_Status c = ComplaintPending ∨ sc_Status c = ComplaintReturned →
    0 < n → n ≤ at_MeasurementCapacity t -ᵢ at_ReservedMeasurements t →
    active_assessment r cid = None →
    light_effect r (CallReserveAssessment call cid tid n)
      (put_complaint cid
         (c <| sc_UpdatedAt := call_now call |> <| sc_Version := sc_Version c +ᵢ 1 |>)
         (put_assessment cid (reservation (call_now call) cid tid n)
            (put_team tid (reserve_on n t) r)))
| eff_release call cid a t :
    assessments r !! cid = Some a → ar_ReleasedAt a = None →
    teams r !! ar_AssessmentTeamID a = Some t →
    ar_MeasurementCount a ≤ at_ReservedMeasurements t →
    light_effect r (CallReleaseAssessment call cid)
      (put_assessment cid (a <| ar_ReleasedAt := Some (call_now call) |>)
         (put_team (at_ID t) (release_on (ar_MeasurementCount a) t) r))
| eff_accept call cid actor c z :
    complaints r !! cid = Some c → actor ≠ "" → sc_Status c = ComplaintPending →
    is_Some (assessments r !! cid) → sc_LightingZoneID c ≠ "" →
    zones r !! sc_LightingZoneID c = Some z → lz_Active z = true →
    light_effect r (CallAcceptComplaint call cid actor)
      (append_event (accept_event (call_now call) cid actor)
         (put_complaint cid
            (c <| sc_Status := ComplaintAccepted |> <| sc_UpdatedAt := call_now call |>
               <| sc_Version := sc_Version c +ᵢ 1 |>) r))
| eff_assign cerr cid zid n c z :
    complaints r !! cid = Some c → zones r !! zid = Some z → 0 < n →
    lz_DistrictID z = sc_DistrictID c →
    normalizeVenueKind (lz_VenueKind z) = normalizeVenueKind (sc_VenueKind c) →
    lz_Active z = true → n ≤ lz_FixtureCapacity z -ᵢ lz_AllocatedFixtures z →
    light_effect r (CallAssignZone cerr cid zid n)
      (put_complaint cid
         (c <| sc_LightingZoneID := zid |> <| sc_Version := sc_Version c +ᵢ 1 |>)
         (put_zone zid
            (z <| lz_AllocatedFixtures := lz_AllocatedFixtures z +ᵢ n |>
               <| lz_Version := lz_Version z +ᵢ 1 |>) r))
| eff_publish call s c :
    rs_ID s ≠ "" → rs_DistrictID s ≠ "" → TrimSpace (rs_CrewID s) ≠ "" →
    rs_ComplaintID s ≠ "" → (2 ≤ length (rs_Evidence s))%nat →
    rectifications r !! rs_ID s = None →
    complaints r !! rs_ComplaintID s = Some c → sc_DistrictID c = rs_DistrictID s →
    light_effect r (CallPublishRectification call s)
      (put_rectification (rs_ID s)
         (s <| rs_CrewID := TrimSpace (rs_CrewID s) |> <| rs_Status := "submitted" |>
            <| rs_SubmittedAt := call_now call |>) r)
| eff_verify call sid reviewer s :
    reviewer ≠ "" → rectifications r !! sid = Some s →
    rs_Status s = "submitted" → TrimSpace (rs_CrewID s) ≠ "" →
    (2 ≤ length (rs_Evidence s))%nat →
    light_effect r (CallVerifyRectification call sid reviewer)
      (put_rectification sid
         (s <| rs_Status := "accepted" |> <| rs_Version := rs_Version s +ᵢ 1 |>
            <| rs_ReviewedAt := Some (call_now call) |>) r)
| eff_apply cerr wall cid oid at_ c o :
    complaints r !! cid = Some c → rules r !! oid = Some o →
    or_EffectiveFrom o ≤ nowOr wall at_ < or_EffectiveTo o →
    or_Used o < or_Capacity o →
    (∃ k, k ∈ or_VenueKinds o ∧ normalizeVenueKind k = normalizeVenueKind (sc_VenueKind c)) →
    light_effect r (CallApplyRule cerr wall cid oid at_)
      (put_complaint cid
         (c <| sc_OperatingRuleID := oid |> <| sc_Version := sc_Version c +ᵢ 1 |>)
         (put_rule oid
            (o <| or_Used := or_Used o +ᵢ 1 |> <| or_Version := or_Version o +ᵢ 1 |>) r))
| eff_enroll cerr pid aid p :
    TrimSpace aid ≠ "" → panels r !! pid = Some p → aid ∉ ap_AssessorIDs p →
    Z.of_nat (length (ap_AssessorIDs p)) < ap_Capacity p →
    light_effect r (CallEnrollAssessor cerr pid aid)
      (put_panel pid
         (p <| ap_AssessorIDs := ap_AssessorIDs p ++ [aid] |>
            <| ap_Version := ap_Version p +ᵢ 1 |>) r)
| eff_resubmit call cid ev c :
    ev ≠ [] → complaints r !! cid = Some c → sc_Status c = ComplaintReturned →
    light_effect r (CallResubmitComplaint call cid ev)
      (put_complaint cid
         (c <| sc_Status := ComplaintPending |> <| sc_Attempt := sc_Attempt c +ᵢ 1 |>
            <| sc_Evidence := ev |> <| sc_UpdatedAt := call_now call |>
            <| sc_Version := sc_Version c +ᵢ 1 |>) r)
| eff_close call cid c :
    complaints r !! cid = Some c → sc_Status c = ComplaintActive →
    light_effect r (CallCloseComplaint call cid)
      (put_complaint cid
         (c <| sc_Status := ComplaintClosed |> <| sc_UpdatedAt := call_now call |>
            <| sc_Version := sc_Version c +ᵢ 1 |>) r).

(** The successful calls that change nothing: a reservation the complaint
    already holds, the release of a reservation that is not held, an
    assessor who is already on the panel. *)
Inductive light_noop (r : Registry) : light_call → Prop :=
| noop_reserve call cid tid n a :
    active_assessment r cid = Some a → light_noop r (CallReserveAssessment call cid tid n)
| noop_release call cid :
    active_assessment r cid = None → light_noop r (CallReleaseAssessment call cid)
| noop_enroll cerr pid aid p :
    panels r !! pid = Some p → aid ∈ ap_AssessorIDs p →
    light_noop r (CallEnrollAssessor cerr pid aid).

(** ** Refinement *)

Lemma active_assessment_Some r cid a :
  active_assessment r cid = Some a ↔
  assessments r !! cid = Some a ∧ ar_ReleasedAt a = None.
Proof. unfold active_assessment. destruct (assessments r !! cid); [case_bool_decide|]; naive_solver. Qed.

Lemma ruleAvailable_spec o kind t :
  ruleAvailable o kind t = true ↔
  or_EffectiveFrom o ≤ t < or_EffectiveTo o ∧ or_Used o < or_Capacity o ∧
  ∃ k, k ∈ or_VenueKinds o ∧ normalizeVenueKind k = normalizeVenueKind kind.
Proof.
  unfold ruleAvailable, Before.
  assert (existsb (λ k, bool_decide (normalizeVenueKind k = normalizeVenueKind kind))
            (or_VenueKinds o) = true ↔
          ∃ k, k ∈ or_VenueKinds o ∧ normalizeVenueKind k = normalizeVenueKind kind) as <-.
  { rewrite existsb_exists. by setoid_rewrite bool_decide_eq_true; setoid_rewrite list_elem_of_In. }
  destruct (Z.ltb_spec t (or_EffectiveFrom o)), (Z.ltb_spec t (or_EffectiveTo o)),
    (Z.leb_spec (or_Capacity o) (or_Used o)); simpl; naive_solver lia.
Qed.

Lemma accept_from_pending s :
  validComplaintTransition s ComplaintAccepted = true ↔ s = ComplaintPending.
Proof. destruct s; naive_solver. Qed.
Lemma close_from_active s :
  validComplaintTransition s ComplaintClosed = true ↔ s = ComplaintActive.
Proof. destruct s; naive_solver. Qed.
End spec.

Create HintDb light_db.

Section refinement.
Context `{UnicodeTables}.

(** What a call that ended in [r'] with result [res] may have done. *)
Definition light_outcome (r : Registry) (c : light_call) (out : Registry * result lerror ()) : Prop :=
  match out with
  | (r', Ok _) => light_effect r c r' ∨ light_noop r c ∧ r' = r
  | (r', Err _) => r' = r
  end.

(** [refine_call]: runs the call down each of its branches and turns the
    guards it passed into propositions. *)
Ltac refine_call :=
  unfold light_outcome, exec_light, forget, check_ctx, Before;
  op_unfold_goal; repeat (case_match; simplify_eq; cbn beta iota zeta); guards;
  rewrite ?active_assessment_Some, ?ruleAvailable_spec, ?accept_from_pending,
    ?close_from_active in *; destruct_and?; try done.

Lemma refine_AddAssessmentTeam r cerr t :
  light_outcome r (CallAddAssessmentTeam cerr t) (exec_light (CallAddAssessmentTeam cerr t) r).
Proof. unfold exec_light, AddAssessmentTeam. refine_call. left. by apply eff_add_team. Qed.

Lemma refine_AddZone r cerr z :
  light_outcome r (CallAddZone cerr z) (exec_light (CallAddZone cerr z) r).
Proof. unfold exec_light, AddZone. refine_call. left. by apply eff_add_zone. Qed.

Lemma refine_AddRule r cerr o :
  light_outcome r (CallAddRule cerr o) (exec_light (CallAddRule cerr o) r).
Proof. unfold exec_light, AddRule. refine_call. left. by apply eff_add_rule. Qed.

Lemma refine_AddPanel r cerr p :
  light_outcome r (CallAddPanel cerr p) (exec_light (CallAddPanel cerr p) r).
Proof. unfold exec_light, AddPanel. refine_call. left. by apply eff_add_panel. Qed.

Lemma refine_SubmitComplaint r call c :
  light_outcome r (CallSubmitComplaint call c) (exec_light (CallSubmitComplaint call c) r).
Proof.
  unfold exec_light, SubmitComplaint. refine_call.
  left. refine (eff_submit r call c _ _); [by match goal with a : () |- _ => destruct a end|done].
Qed.

Lemma refine_ReserveAssessment r call cid tid n :
  light_outcome r (CallReserveAssessment call cid tid n)
    (exec_light (CallReserveAssessment call cid tid n) r).
Proof.
  unfold exec_light, ReserveAssessment, measurementCapacityAvailable. refine_call.
  - right. split; [|done]. econstructor. by apply active_assessment_Some.
  - left. eapply eff_reserve; eauto.
Qed.

Lemma refine_ReleaseAssessment r call cid :
  light_outcome r (CallReleaseAssessment call cid) (exec_light (CallReleaseAssessment call cid) r).
Proof.
  unfold exec_light, ReleaseAssessment. refine_call.
  - left. match goal with
          | Ha : assessments _ !! _ = Some ?a, Ht : teams _ !! _ = Some ?t |- _ =>
              by refine (eff_release r call cid a t _ _ _ _)
          end.
  - right. by split; [constructor|].
Qed.

Lemma refine_AcceptComplaint r call cid actor :
  light_outcome r (CallAcceptComplaint call cid actor)
    (exec_light (CallAcceptComplaint call cid actor) r).
Proof. unfold exec_light, AcceptComplaint. refine_call. left. by eapply eff_accept. Qed.

Lemma refine_AssignZone r cerr cid zid n :
  light_outcome r (CallAssignZone cerr cid zid n) (exec_light (CallAssignZone cerr cid zid n) r).
Proof. unfold exec_light, AssignZone. refine_call. left. by eapply eff_assign. Qed.

Lemma refine_PublishRectification r call s :
  light_outcome r (CallPublishRectification call s) (exec_light (CallPublishRectification call s) r).
Proof.
  unfold exec_light, PublishRectification. refine_call.
  left. match goal with
        | Hc : complaints _ !! _ = Some ?c |- _ =>
            refine (eff_publish r call s c _ _ _ _ _ _ _ _); try done; lia
        end.
Qed.

Lemma refine_VerifyRectification r call sid reviewer :
  light_outcome r (CallVerifyRectification call sid reviewer)
    (exec_light (CallVerifyRectification call sid reviewer) r).
Proof.
  unfold exec_light, VerifyRectification, rectificationCanApprove. refine_call.
  left. eapply eff_verify; eauto. lia.
Qed.

Lemma refine_ApplyRule r cerr wall cid oid at_ :
  light_outcome r (CallApplyRule cerr wall cid oid at_)
    (exec_light (CallApplyRule cerr wall cid oid at_) r).
Proof. unfold exec_light, ApplyRule. refine_call. left. by eapply eff_apply. Qed.

Lemma refine_EnrollAssessor r cerr pid aid :
  light_outcome r (CallEnrollAssessor cerr pid aid) (exec_light (CallEnrollAssessor cerr pid aid) r).
Proof.
  unfold exec_light, EnrollAssessor. refine_call.
  - right. split; [|done]. by econstructor.
  - left. by eapply eff_enroll.
Qed.

Lemma refine_ResubmitComplaint r call cid ev :
  light_outcome r (CallResubmitComplaint call cid ev) (exec_light (CallResubmitComplaint call cid ev) r).
Proof. unfold exec_light, ResubmitComplaint. refine_call. left. by eapply eff_resubmit. Qed.

Lemma refine_CloseComplaint r call cid :
  light_outcome r (CallCloseComplaint call cid) (exec_light (CallCloseComplaint call cid) r).
Proof. unfold exec_light, CloseComplaint. refine_call. left. by eapply eff_close. Qed.
End refinement.

#[export] Hint Resolve refine_AddAssessmentTeam refine_AddZone refine_AddRule refine_AddPanel
  refine_SubmitComplaint refine_ReserveAssessment refine_ReleaseAssessment
  refine_AcceptComplaint refine_AssignZone refine_PublishRectification
  refine_VerifyRectification refine_ApplyRule refine_EnrollAssessor
  refine_ResubmitComplaint refine_CloseComplaint : light_db.

Section steps.
Context `{UnicodeTables}.

Lemma exec_light_outcome r c : light_outcome r c (exec_light c r).
Proof. destruct c; auto with light_db. Qed.

(** A step has the effect the specification gives it or changes nothing. *)
Lemma light_step_inv r c r' : light_step r c r' → r' = r ∨ light_effect r c r'.
Proof.
  unfold light_step. intros <-. pose proof (exec_light_outcome r c) as Ho.
  destruct (exec_light c r) as [r' [[]|e]]; simpl in *; naive_solver.
Qed.
End steps.

(** ** Completeness *)

(** The poll of the context a call makes. *)
Definition call_poll (c : light_call) : option ctx_error :=
  match c with
  | CallAddAssessmentTeam cerr _ | CallAddZone cerr _ | CallAddRule cerr _
  | CallAddPanel cerr _ | CallAssignZone cerr _ _ _ | CallApplyRule cerr _ _ _ _
  | CallEnrollAssessor cerr _ _ => cerr
  | CallSubmitComplaint call _ | CallReserveAssessment call _ _ _
  | CallReleaseAssessment call _ | CallAcceptComplaint call _ _
  | CallPublishRectification call _ | CallVerifyRectification call _ _
  | CallResubmitComplaint call _ _ | CallCloseComplaint call _ => call_ctx call
  end.

Section completeness.
Context `{UnicodeTables}.

(** [effect_runs]: follows the call; a branch the hypotheses rule out is
    refuted. *)
Ltac effect_runs :=
  unfold forget, check_ctx, Before, measurementCapacityAvailable; op_unfold_goal;
  repeat (case_match; simplify_eq/=; guards; try done; try (by refuted)).

(** The specification is complete: whenever the conditions of an effect
    hold and the context is not cancelled, the call succeeds and has exactly
    that effect. *)
Lemma hub_spec_complete r c r' :
  light_effect r c r' → call_poll c = None → exec_light c r = (r', Ok ()).
Proof.
  intros Heff Hpoll. destruct Heff; simpl in Hpoll; unfold exec_light.
  - unfold AddAssessmentTeam. effect_runs.
  - unfold AddZone. effect_runs.
  - unfold AddRule. effect_runs.
  - unfold AddPanel. effect_runs.
  - unfold SubmitComplaint. effect_runs.
  - unfold ReserveAssessment. effect_runs.
  - assert (active_assessment r cid = Some a) by by apply active_assessment_Some.
    unfold ReleaseAssessment. effect_runs.
  - assert (validComplaintTransition (sc_Status c) ComplaintAccepted = true)
      by by apply accept_from_pending.
    unfold AcceptComplaint. effect_runs.
  - unfold AssignZone. effect_runs.
  - unfold PublishRectification. effect_runs.
  - unfold VerifyRectification, rectificationCanApprove. effect_runs.
  - assert (ruleAvailable o (sc_VenueKind c) (nowOr wall at_) = true)
      by by apply ruleAvailable_spec.
    unfold ApplyRule. effect_runs.
  - unfold EnrollAssessor. effect_runs.
  - unfold ResubmitComplaint. effect_runs.
  - assert (validComplaintTransition (sc_Status c) ComplaintClosed = true)
      by by apply close_from_active.
    unfold CloseComplaint. effect_runs.
Qed.
End completeness.
