(* ===== verification/LightFacts.v ===== *)
(** * The light-governance hub: invariants of every execution

    Proved over the specification of [LightSpec]: growth of the registry,
    the well-formedness invariant, the measurement ledger, the complaint
    status machine, listing. *)
From S2P Require Import Prelude GoErrors GoStrings LightModel LightService LightSpec.

(** ** Growth

    Nothing is ever removed from the registry, the identity of a record never
    changes and the event log is append-only. *)

Definition same_complaint (c c' : SpillLightComplaint) : Prop :=
  sc_ID c' = sc_ID c ∧ sc_DistrictID c' = sc_DistrictID c ∧
  sc_ResidentID c' = sc_ResidentID c ∧ sc_VenueKind c' = sc_VenueKind c ∧
  sc_CreatedAt c' = sc_CreatedAt c ∧
  (sc_Status c' = sc_Status c ∨ validComplaintTransition (sc_Status c) (sc_Status c') = true).
Definition same_zone (z z' : LightingZone) : Prop :=
  lz_ID z' = lz_ID z ∧ lz_DistrictID z' = lz_DistrictID z ∧
  lz_VenueKind z' = lz_VenueKind z ∧ lz_Active z' = lz_Active z ∧
  lz_FixtureCapacity z' = lz_FixtureCapacity z.
Definition same_team (t t' : AssessmentTeam) : Prop :=
  at_ID t' = at_ID t ∧ at_MeasurementCapacity t' = at_MeasurementCapacity t.
Definition same_rule (o o' : OperatingRule) : Prop :=
  or_ID o' = or_ID o ∧ or_Capacity o' = or_Capacity o ∧
  or_EffectiveFrom o' = or_EffectiveFrom o ∧ or_EffectiveTo o' = or_EffectiveTo o.
Definition same_rectification (s s' : RectificationSubmission) : Prop :=
  rs_ID s' = rs_ID s ∧ rs_ComplaintID s' = rs_ComplaintID s ∧ rs_Evidence s' = rs_Evidence s.
Definition same_panel (p p' : AssessorPanel) : Prop :=
  ap_ID p' = ap_ID p ∧ ap_Capacity p' = ap_Capacity p ∧
  ap_AssessorIDs p `prefix_of` ap_AssessorIDs p'.

(** [map_grows R m m']: every entry of [m] is still in [m'], related by [R]. *)
Definition map_grows {V} (R : V → V → Prop) (m m' : gmap string V) : Prop :=
  ∀ k v, m !! k = Some v → ∃ v', m' !! k = Some v' ∧ R v v'.

Record grows (r r' : Registry) : Prop := {
  grows_complaints : map_grows same_complaint (complaints r) (complaints r');
  grows_zones : map_grows same_zone (zones r) (zones r');
  grows_teams : map_grows same_team (teams r) (teams r');
  grows_rules : map_grows same_rule (rules r) (rules r');
  grows_rectifications : map_grows same_rectification (rectifications r) (rectifications r');
  grows_panels : map_grows same_panel (panels r) (panels r');
  grows_assessments : ∀ k, is_Some (assessments r !! k) → is_Some (assessments r' !! k);
  grows_events : events r `prefix_of` events r'
}.

(** ** Well-formedness *)

(** The measurements a team holds for reservations that are not released. *)
Definition held_by (tid : string) (a : AssessmentReservation) : Z :=
  if bool_decide (ar_AssessmentTeamID a = tid ∧ ar_ReleasedAt a = None)
  then ar_MeasurementCount a else 0.
Definition held (r : Registry) (tid : string) : Z := map_sum (held_by tid) (assessments r).

Definition team_ok (r : Registry) (id : string) (t : AssessmentTeam) : Prop :=
  at_ID t = id ∧ is_i64 (at_MeasurementCapacity t) ∧
  at_ReservedMeasurements t = held r id ∧
  0 ≤ at_ReservedMeasurements t ≤ at_MeasurementCapacity t.
Definition assessment_ok (r : Registry) (id : string) (a : AssessmentReservation) : Prop :=
  ar_ComplaintID a = id ∧ 0 < ar_MeasurementCount a ∧
  is_Some (complaints r !! id) ∧ is_Some (teams r !! ar_AssessmentTeamID a).
Definition zone_ok (id : string) (z : LightingZone) : Prop :=
  lz_ID z = id ∧ id ≠ "" ∧ is_i64 (lz_FixtureCapacity z) ∧
  0 ≤ lz_AllocatedFixtures z ≤ lz_FixtureCapacity z.
Definition rule_ok (id : string) (o : OperatingRule) : Prop :=
  or_ID o = id ∧ is_i64 (or_Capacity o) ∧ 0 ≤ or_Used o ≤ or_Capacity o.
Definition panel_ok (id : string) (p : AssessorPanel) : Prop :=
  ap_ID p = id ∧ NoDup (ap_AssessorIDs p) ∧
  Z.of_nat (length (ap_AssessorIDs p)) ≤ ap_Capacity p.

Section defs.
Context `{UnicodeTables}.

(** The lighting zone of a complaint, once it has one, is a zone of its own
    district and for its kind of venue. *)
Definition zone_matches (r : Registry) (c : SpillLightComplaint) : Prop :=
  sc_LightingZoneID c ≠ "" →
  ∃ z, zones r !! sc_LightingZoneID c = Some z ∧
    lz_DistrictID z = sc_DistrictID c ∧
    normalizeVenueKind (lz_VenueKind z) = normalizeVenueKind (sc_VenueKind c).

Definition complaint_ok (r : Registry) (id : string) (c : SpillLightComplaint) : Prop :=
  sc_ID c = id ∧ id ≠ "" ∧ sc_VenueKind c ∈ allowedVenueKinds ∧
  (sc_Status c = ComplaintPending ∨ sc_Status c = ComplaintAccepted) ∧
  zone_matches r c ∧
  (sc_Status c = ComplaintAccepted →
   is_Some (assessments r !! id) ∧ sc_LightingZoneID c ≠ "").

Definition rectification_ok (r : Registry) (id : string) (s : RectificationSubmission) : Prop :=
  rs_ID s = id ∧ (rs_Status s = "submitted" ∨ rs_Status s = "accepted") ∧
  (2 ≤ length (rs_Evidence s))%nat ∧
  ∃ c, complaints r !! rs_ComplaintID s = Some c ∧ sc_DistrictID c = rs_DistrictID s.

Record light_inv (r : Registry) : Prop := {
  inv_complaints : map_Forall (complaint_ok r) (complaints r);
  inv_teams : map_Forall (team_ok r) (teams r);
  inv_assessments : map_Forall (assessment_ok r) (assessments r);
  inv_zones : map_Forall zone_ok (zones r);
  inv_rules : map_Forall rule_ok (rules r);
  inv_panels : map_Forall panel_ok (panels r);
  inv_rectifications : map_Forall (rectification_ok r) (rectifications r)
}.

(** The calls whose arguments are fresh resources: a new team has nothing
    reserved, a new zone, rule or panel is within its capacity, a new
    complaint does not name a zone. The methods themselves do not check
    these fields. *)
Definition fresh_call (c : light_call) : Prop :=
  match c with
  | CallAddAssessmentTeam _ t =>
      at_ReservedMeasurements t = 0 ∧ is_i64 (at_MeasurementCapacity t)
  | CallAddZone _ z =>
      is_i64 (lz_FixtureCapacity z) ∧ 0 ≤ lz_AllocatedFixtures z ≤ lz_FixtureCapacity z
  | CallAddRule _ o => is_i64 (or_Capacity o) ∧ 0 ≤ or_Used o ≤ or_Capacity o
  | CallAddPanel _ p =>
      NoDup (ap_AssessorIDs p) ∧ Z.of_nat (length (ap_AssessorIDs p)) ≤ ap_Capacity p
  | CallSubmitComplaint _ c => sc_LightingZoneID c = ""
  | _ => True
  end.

Definition fresh_step (r : Registry) (c : light_call) (r' : Registry) : Prop :=
  fresh_call c ∧ light_step r c r'.
Definition is_empty_registry (r : Registry) : Prop := r = NewLightGovernanceRegistry.
End defs.

(** ** Growth: proofs *)

#[export] Instance same_complaint_refl : Reflexive same_complaint.
Proof. intros c. unfold same_complaint. naive_solver. Qed.
#[export] Instance same_zone_refl : Reflexive same_zone.
Proof. by intros z. Qed.
#[export] Instance same_team_refl : Reflexive same_team.
Proof. by intros t. Qed.
#[export] Instance same_rule_refl : Reflexive same_rule.
Proof. by intros o. Qed.
#[export] Instance same_rectification_refl : Reflexive same_rectification.
Proof. by intros s. Qed.
#[export] Instance same_panel_refl : Reflexive same_panel.
Proof. by intros p. Qed.

Section map_grows.
Context {V : Type} (R : V → V → Prop) `{!Reflexive R}.
Lemma map_grows_refl m : map_grows R m m.
Proof. intros k v Hk. by exists v. Qed.
Lemma map_grows_insert m k v :
  (∀ v0, m !! k = Some v0 → R v0 v) → map_grows R m (<[k:=v]> m).
Proof.
  intros Hv k' v' Hk'. destruct (decide (k = k')) as [->|].
  - exists v. rewrite lookup_insert_eq. auto.
  - exists v'. by rewrite lookup_insert_ne.
Qed.
Lemma map_grows_new m k v : m !! k = None → map_grows R m (<[k:=v]> m).
Proof. intros Hk. apply map_grows_insert. by rewrite Hk. Qed.
Lemma map_grows_some m k v0 v :
  m !! k = Some v0 → R v0 v → map_grows R m (<[k:=v]> m).
Proof. intros Hk HR. apply map_grows_insert. rewrite Hk. by intros ? [= <-]. Qed.
End map_grows.

Lemma is_Some_insert {V} (m : gmap string V) k v k' :
  is_Some (m !! k') → is_Some (<[k:=v]> m !! k').
Proof. rewrite lookup_insert_is_Some. destruct (decide (k = k')); auto. Qed.

(** [grow] proves that an effect lets one of the maps of the registry grow. *)
Ltac same_record :=
  match goal with
  | Hs : sc_Status ?c = _ |- same_complaint ?c _ =>
      split_and!; try done; simpl; rewrite Hs; (by left) || (by right)
  | |- same_complaint _ _ => split_and!; try done; by left
  | |- _ => split_and!; try done; simpl; by apply prefix_app_r
  end.
Ltac grow :=
  first
  [ apply map_grows_refl; apply _
  | apply map_grows_new; [apply _|assumption]
  | eapply map_grows_some; [apply _|eassumption|by same_record] ].

Section growth.
Context `{UnicodeTables}.

Lemma grows_effect r c r' :
  map_Forall (λ id t, at_ID t = id) (teams r) → light_effect r c r' → grows r r'.
Proof.
  intros Hkey Heff. destruct Heff; split; simpl; try grow;
    try (by auto using is_Some_insert); try (by apply prefix_app_r).
  match goal with
  | Ht : teams _ !! _ = Some ?t |- _ =>
      rewrite (Hkey _ _ Ht); eapply map_grows_some; [apply _|exact Ht|done]
  end.
Qed.
End growth.

(** ** The ledger *)

Lemma held_put r cid a tid :
  held (put_assessment cid a r) tid =
  held_by tid a + held r tid - from_option (held_by tid) 0 (assessments r !! cid).
Proof. apply map_sum_insert. Qed.

Lemma held_inactive `{UnicodeTables} r cid tid :
  active_assessment r cid = None → from_option (held_by tid) 0 (assessments r !! cid) = 0.
Proof.
  unfold active_assessment, held_by. destruct (assessments r !! cid); simpl; [|done].
  repeat case_bool_decide; naive_solver.
Qed.

Lemma held_no_team r tid :
  map_Forall (assessment_ok r) (assessments r) → teams r !! tid = None → held r tid = 0.
Proof.
  intros Hall Ht. apply map_sum_zero. intros k a (_ & _ & _ & Hsome)%Hall.
  unfold held_by. case_bool_decide as Hd; [|done]. destruct Hd as [<- _].
  rewrite Ht in Hsome. by destruct Hsome.
Qed.

Section preservation.
Context `{UnicodeTables}.

Lemma complaint_ok_grows r r' id c : grows r r' → complaint_ok r id c → complaint_ok r' id c.
Proof.
  intros Hg (Hid & Hne & Hk & Hs & Hz & Ha). unfold complaint_ok. split_and!; try done.
  - intros (z & Hlz & Hd & Hv)%Hz.
    destruct (grows_zones _ _ Hg _ _ Hlz) as (z' & Hz' & _ & Hd' & Hv' & _).
    exists z'. by rewrite Hd', Hv'.
  - intros [Hsome ?]%Ha. split; [|done]. by apply (grows_assessments _ _ Hg).
Qed.

Lemma submitted_ok r now c :
  validateComplaintInput c = Ok () → sc_LightingZoneID c = "" →
  complaint_ok r (sc_ID c) (submitted now c).
Proof.
  unfold validateComplaintInput. intros Hv Hz. repeat (case_match; simplify_eq). guards.
  destruct_and?. unfold complaint_ok, zone_matches, submitted; simpl. rewrite Hz.
  split_and!; try done. by left.
Qed.

Lemma assessment_ok_grows r r' id a : grows r r' → assessment_ok r id a → assessment_ok r' id a.
Proof.
  intros Hg (Hid & Hn & [c Hc] & [t Ht]). unfold assessment_ok. split_and!; try done.
  - destruct (grows_complaints _ _ Hg _ _ Hc) as (? & ? & _). eauto.
  - destruct (grows_teams _ _ Hg _ _ Ht) as (? & ? & _). eauto.
Qed.

Lemma rectification_ok_grows r r' id s :
  grows r r' → rectification_ok r id s → rectification_ok r' id s.
Proof.
  intros Hg (Hid & Hs & He & c & Hc & Hd). unfold rectification_ok. split_and!; try done.
  destruct (grows_complaints _ _ Hg _ _ Hc) as (c' & Hc' & _ & Hd' & _).
  exists c'. by rewrite Hd'.
Qed.

Lemma inv_team_keys r : light_inv r → map_Forall (λ id t, at_ID t = id) (teams r).
Proof. intros Hi id t Ht. by apply (inv_teams _ Hi) in Ht as [? _]. Qed.

Lemma team_ok_reserve r cid tid n t :
  light_inv r → teams r !! tid = Some t → 0 < n →
  n ≤ at_MeasurementCapacity t -ᵢ at_ReservedMeasurements t →
  active_assessment r cid = None →
  ∀ now,
  map_Forall (team_ok (put_assessment cid (reservation now cid tid n) r))
    (<[tid := reserve_on n t]> (teams r)).
Proof.
  intros Hi Ht Hn Hle Hact now.
  destruct (inv_teams _ Hi _ _ Ht) as (Hid & Hcap & Hres & Hb).
  assert (is_i64 (at_ReservedMeasurements t)) as Hri
    by (unfold is_i64, min_i64 in *; lia).
  apply i64_sub_pos in Hle; [|done..|lia|done].
  apply map_Forall_lookup_2. intros id t' Hl. unfold team_ok.
  rewrite held_put, (held_inactive _ _ _ Hact). unfold held_by; simpl.
  destruct (decide (tid = id)) as [<-|Hne].
  - rewrite lookup_insert_eq in Hl. injection Hl as <-. simpl.
    rewrite bool_decide_true by done. rewrite i64_id by (unfold is_i64, min_i64 in *; lia).
    split_and!; try done; lia.
  - rewrite lookup_insert_ne in Hl by done. rewrite bool_decide_false by naive_solver.
    destruct (inv_teams _ Hi _ _ Hl) as (? & ? & ? & ?). split_and!; try done; lia.
Qed.

Lemma team_ok_release r cid a t now :
  light_inv r → assessments r !! cid = Some a → ar_ReleasedAt a = None →
  teams r !! ar_AssessmentTeamID a = Some t →
  ar_MeasurementCount a ≤ at_ReservedMeasurements t →
  map_Forall (team_ok (put_assessment cid (a <| ar_ReleasedAt := Some now |>) r))
    (<[at_ID t := release_on (ar_MeasurementCount a) t]> (teams r)).
Proof.
  intros Hi Ha Hrel Ht Hle.
  destruct (inv_teams _ Hi _ _ Ht) as (Hid & Hcap & Hres & Hb). rewrite Hid.
  destruct (inv_assessments _ Hi _ _ Ha) as (_ & Hn & _).
  apply map_Forall_lookup_2. intros id t' Hl. unfold team_ok.
  rewrite held_put, Ha. simpl. unfold held_by; simpl.
  rewrite (bool_decide_false (_ ∧ Some now = None)) by naive_solver.
  destruct (decide (ar_AssessmentTeamID a = id)) as [<-|Hne].
  - rewrite lookup_insert_eq in Hl. injection Hl as <-. simpl.
    rewrite bool_decide_true by done. rewrite i64_id by (unfold is_i64, min_i64 in *; lia).
    split_and!; try done; lia.
  - rewrite lookup_insert_ne in Hl by done. rewrite bool_decide_false by naive_solver.
    destruct (inv_teams _ Hi _ _ Hl) as (? & ? & ? & ?). split_and!; try done; lia.
Qed.
End preservation.

Section invariant.
Context `{UnicodeTables} (r r' : Registry) (c : light_call).
Context (Hinv : light_inv r) (Hfresh : fresh_call c) (Heff : light_effect r c r').

Lemma effect_grows : grows r r'.
Proof using Hinv Heff. eapply grows_effect; [by apply inv_team_keys|done]. Qed.

Lemma inv_complaints_effect : map_Forall (complaint_ok r') (complaints r').
Proof using Hinv Hfresh Heff.
  pose proof effect_grows as Hg.
  assert (∀ P : string → SpillLightComplaint → Prop,
    (∀ id c0, complaint_ok r' id c0 → P id c0) → map_Forall P (complaints r)) as Hold.
  { intros P HP id c0 Hc0. apply HP. eapply complaint_ok_grows; [done|]. by apply Hinv. }
  destruct Heff; simpl in *; try (by apply Hold); apply map_Forall_insert_both;
    try (by apply Hold);
    try (match goal with
         | Hc0 : complaints r !! _ = Some ?c0 |- _ =>
             pose proof (Hold _ (λ id c Hok, Hok) _ _ Hc0) as Hok0
         end; first [ by apply Hok0
                    | by destruct Hok0 as (_ & _ & _ & [?|?] & _); congruence | idtac ]).
  - by apply submitted_ok.
  - destruct Hok0 as (? & ? & ? & _ & ? & _). unfold complaint_ok; simpl.
    split_and!; try done; by right.
  - destruct Hok0 as (? & ? & ? & ? & _ & Hacc). unfold complaint_ok; simpl.
    split_and!; try done.
    + intros _. simpl. rewrite lookup_insert_eq. by eexists.
    + intros [Ha _]%Hacc. split; [done|].
      by match goal with Hz : zones _ !! _ = Some _ |- _ =>
           destruct (inv_zones _ Hinv _ _ Hz) as (_ & ? & _) end.
Qed.

Lemma inv_teams_effect : map_Forall (team_ok r') (teams r').
Proof using Hinv Hfresh Heff.
  destruct Heff; try (by apply (inv_teams _ Hinv)).
  - apply map_Forall_insert_both; [|by apply (inv_teams _ Hinv)].
    destruct Hfresh as [Hz ?]. unfold team_ok. rewrite Hz.
    split_and!; try done; [|lia]. symmetry.
    apply (held_no_team r); [by apply Hinv|done].
  - by refine (team_ok_reserve r cid tid n t _ _ _ _ _ (call_now call)).
  - by refine (team_ok_release r cid a t (call_now call) _ _ _ _ _).
Qed.

Lemma inv_assessments_effect : map_Forall (assessment_ok r') (assessments r').
Proof using Hinv Hfresh Heff.
  pose proof effect_grows as Hg.
  assert (map_Forall (assessment_ok r') (assessments r)) as Hold.
  { intros id a Ha. eapply assessment_ok_grows; [done|]. by apply (inv_assessments _ Hinv). }
  destruct Heff; try done; apply map_Forall_insert_both; try done.
  - unfold assessment_ok; simpl. split_and!; try done; by apply is_Some_insert.
  - by apply (Hold _ a).
Qed.

Lemma inv_zones_effect : map_Forall zone_ok (zones r').
Proof using Hinv Hfresh Heff.
  pose proof (inv_zones _ Hinv) as Hold.
  destruct Heff; try done; apply map_Forall_insert_both; try done.
  match goal with Hz : zones _ !! _ = Some ?z |- _ =>
    destruct (Hold _ _ Hz) as (Hid & Hne & Hcap & Hb) end.
  assert (n ≤ lz_FixtureCapacity z - lz_AllocatedFixtures z).
  { apply i64_sub_pos; try done; unfold is_i64, min_i64 in *; lia. }
  unfold zone_ok; simpl. rewrite i64_id by (unfold is_i64, min_i64 in *; lia).
  split_and!; try done; lia.
Qed.

Lemma inv_rules_effect : map_Forall rule_ok (rules r').
Proof using Hinv Hfresh Heff.
  pose proof (inv_rules _ Hinv) as Hold.
  destruct Heff; try done; apply map_Forall_insert_both; try done.
  match goal with Ho : rules _ !! _ = Some ?o |- _ =>
    destruct (Hold _ _ Ho) as (Hid & Hcap & Hb) end.
  unfold rule_ok; simpl. rewrite i64_id by (unfold is_i64, min_i64 in *; lia).
  split_and!; try done; lia.
Qed.

Lemma inv_panels_effect : map_Forall panel_ok (panels r').
Proof using Hinv Hfresh Heff.
  pose proof (inv_panels _ Hinv) as Hold.
  destruct Heff; try done; apply map_Forall_insert_both; try done.
  match goal with Hp : panels _ !! _ = Some ?p |- _ =>
    destruct (Hold _ _ Hp) as (Hid & Hnd & Hb) end.
  unfold panel_ok; simpl. split_and!; try done; [|rewrite length_app; simpl; lia].
  apply NoDup_app. split_and!; [done| |by apply NoDup_singleton].
  intros x Hx ->%list_elem_of_singleton. done.
Qed.

Lemma inv_rectifications_effect : map_Forall (rectification_ok r') (rectifications r').
Proof using Hinv Hfresh Heff.
  pose proof effect_grows as Hg.
  assert (map_Forall (rectification_ok r') (rectifications r)) as Hold.
  { intros id s Hs. eapply rectification_ok_grows; [done|]. by apply (inv_rectifications _ Hinv). }
  destruct Heff; try done; apply map_Forall_insert_both; try done.
  - unfold rectification_ok; simpl. split_and!; try done; [by left|]. eauto.
  - match goal with Hs : rectifications _ !! _ = Some ?s |- _ =>
      destruct (Hold _ _ Hs) as (Hid & _ & ? & ?) end.
    unfold rectification_ok; simpl. split_and!; try done. by right.
Qed.
End invariant.

#[export] Hint Resolve inv_complaints_effect inv_teams_effect inv_assessments_effect
  inv_zones_effect inv_rules_effect inv_panels_effect inv_rectifications_effect : light_db.

Section executions.
Context `{UnicodeTables}.

Lemma light_inv_empty : light_inv NewLightGovernanceRegistry.
Proof. split; apply map_Forall_empty. Qed.

Lemma light_inv_step r c r' : light_inv r → fresh_step r c r' → light_inv r'.
Proof.
  intros Hinv [Hfresh [->|Heff]%light_step_inv]; [done|]. split; eauto with light_db.
Qed.

Lemma light_inv_reachable r : reachable fresh_step is_empty_registry r → light_inv r.
Proof.
  intros (r0 & cs & -> & Hs). eapply (steps_invariant fresh_step); [|done|].
  - apply light_inv_step.
  - apply light_inv_empty.
Qed.

(** No call ever takes a complaint out of [pending] and [accepted]. *)
Definition open_statuses (r : Registry) : Prop :=
  map_Forall (λ _ c, sc_Status c = ComplaintPending ∨ sc_Status c = ComplaintAccepted)
    (complaints r).

Lemma open_statuses_step r c r' : open_statuses r → light_step r c r' → open_statuses r'.
Proof.
  intros Ho [->|Heff]%light_step_inv; [done|].
  destruct Heff; try done; apply map_Forall_insert_both; try done; simpl; auto;
    match goal with Hc : complaints r !! _ = Some ?c |- _ =>
      destruct (Ho _ _ Hc); simpl in *; first [by auto | congruence] end.
Qed.

Lemma open_statuses_reachable r : reachable light_step is_empty_registry r → open_statuses r.
Proof.
  intros (r0 & cs & -> & Hs). eapply (steps_invariant light_step); [|done|].
  - apply open_statuses_step.
  - apply map_Forall_empty.
Qed.
End executions.
