(* ===== verification/LightClaims.v ===== *)
(** * The light-governance hub: what every execution guarantees

    The properties of the hub, each with a concrete run it applies to, and the
    runs that show where the code does less than it says. *)
From S2P Require Import Prelude GoErrors GoStrings LightModel LightService LightSpec LightFacts.

(** ** Concrete runs *)

Definition run_light `{UnicodeTables} (cs : list light_call) (r : Registry) : Registry :=
  foldl (λ r c, fst (exec_light c r)) r cs.

Definition ex_call (t : Time) : Call :=
  {| call_ctx := None; call_clock := t; call_wall := t |}.
Definition ex_complaint (id zone : string) : SpillLightComplaint := {|
  sc_ID := id; sc_DistrictID := "luohu"; sc_ResidentID := "res-1"; sc_ResidentName := " Li ";
  sc_FacilityName := "Cuihu"; sc_VenueKind := "football_field";
  sc_Status := ComplaintOther ""; sc_Evidence := ["photo"]; sc_RequestedMeasurements := 3;
  sc_LightingZoneID := zone; sc_OperatingRuleID := ""; sc_RuleVersion := 0;
  sc_Attempt := 0; sc_Deadline := 0; sc_CreatedAt := 0; sc_UpdatedAt := 0; sc_Version := 0 |}.
Definition ex_team (id : string) (capacity : Z) : AssessmentTeam := {|
  at_ID := id; at_VenueKind := "FOOTBALL_FIELD"; at_MeasurementCapacity := capacity;
  at_ReservedMeasurements := 0; at_Version := 1 |}.
Definition ex_zone (id district : string) (capacity : Z) : LightingZone := {|
  lz_ID := id; lz_DistrictID := district; lz_VenueKind := "Football_Field";
  lz_FixtureCapacity := capacity; lz_AllocatedFixtures := 0; lz_CutoffGrace := 0;
  lz_Active := true; lz_Version := 1 |}.

(** A team, a zone and a complaint that reserves five of eight measurements,
    is given the zone and is accepted. *)
Definition ex_setup : list light_call :=
  [ CallAddAssessmentTeam None (ex_team "team-1" 8);
    CallAddZone None (ex_zone "zone-1" "luohu" 4);
    CallSubmitComplaint (ex_call 100) (ex_complaint "c-1" "") ].
Definition ex_accepted : list light_call :=
  ex_setup ++
  [ CallReserveAssessment (ex_call 110) "c-1" "team-1" 5;
    CallAssignZone None "c-1" "zone-1" 2;
    CallAcceptComplaint (ex_call 120) "c-1" "reviewer" ].
(** The same, but the reservation is released before the acceptance. *)
Definition ex_released : list light_call :=
  ex_setup ++
  [ CallReserveAssessment (ex_call 110) "c-1" "team-1" 5;
    CallReleaseAssessment (ex_call 115) "c-1";
    CallAssignZone None "c-1" "zone-1" 2 ].

Definition ran `{UnicodeTables} (cs : list light_call) : Registry :=
  run_light cs NewLightGovernanceRegistry.

Section runs.
Context `{UnicodeTables}.

Lemma steps_run (P : light_call → Prop) cs r :
  Forall P cs → steps (λ r c r', P c ∧ light_step r c r') r cs (run_light cs r).
Proof.
  intros Hall. revert r. induction Hall as [|c cs Hc _ IH]; intros r; [constructor|].
  econstructor; [split; [done|reflexivity]|]. apply IH.
Qed.

Lemma ran_fresh cs :
  Forall fresh_call cs → reachable fresh_step is_empty_registry (ran cs).
Proof. intros Hall. eexists _, cs. split; [reflexivity|]. by apply steps_run. Qed.

Lemma ran_any cs : reachable light_step is_empty_registry (ran cs).
Proof.
  eexists _, cs. split; [reflexivity|]. unfold ran.
  generalize NewLightGovernanceRegistry. induction cs as [|c cs IH]; intros r; [constructor|].
  econstructor; [reflexivity|]. apply IH.
Qed.
End runs.

(** ** Refinement *)

Section refinement_claims.
Context `{UnicodeTables}.

(** C1: every call to the hub refines its specification on every branch: a
    call that succeeds has the effect [light_effect] describes, with all of
    the conditions that effect needs, or is one of the documented repeats
    and changes nothing; a call that fails, for whatever reason, leaves the
    whole registry unchanged. Conversely, whenever the conditions of an effect
    hold and the context is not cancelled, the call succeeds and has exactly
    that effect. *)
Theorem hub_refines_spec r c :
  match exec_light c r with
  | (r', Ok _) => light_effect r c r' ∨ light_noop r c ∧ r' = r
  | (r', Err _) => r' = r
  end ∧
  (call_poll c = None → ∀ r', light_effect r c r' → exec_light c r = (r', Ok ())).
Proof.
  split; [apply exec_light_outcome|]. intros Hp r' He. by apply hub_spec_complete.
Qed.
End refinement_claims.

Lemma hub_spec_complete_witness :
  light_effect (H := ascii_tables) NewLightGovernanceRegistry
    (CallAddAssessmentTeam None (ex_team "team-1" 8))
    (put_team "team-1" (ex_team "team-1" 8) NewLightGovernanceRegistry) ∧
  exec_light (H := ascii_tables) (CallAddAssessmentTeam None (ex_team "team-1" 8))
    NewLightGovernanceRegistry =
    (put_team "team-1" (ex_team "team-1" 8) NewLightGovernanceRegistry, Ok ()).
Proof.
  assert (light_effect (H := ascii_tables) NewLightGovernanceRegistry
    (CallAddAssessmentTeam None (ex_team "team-1" 8))
    (put_team "team-1" (ex_team "team-1" 8) NewLightGovernanceRegistry)) as He
    by by apply (eff_add_team (H := ascii_tables)).
  split; [exact He|]. exact (hub_spec_complete (H := ascii_tables) _ _ _ He eq_refl).
Defined.

(** ** Invariants of every execution *)

Section invariant_claims.
Context `{UnicodeTables}.

(** C6: the measurement ledger balances. In every execution that adds teams
    with nothing reserved, whatever calls follow and whichever of them fail,
    the measurements a team has reserved are exactly the sum over the
    reservations held at it and not released, and stay between zero and the
    team's capacity: no reservation is counted twice or leaks, and 64-bit
    arithmetic never wraps. *)
Theorem hub_ledger r id t :
  reachable fresh_step is_empty_registry r → teams r !! id = Some t →
  at_ReservedMeasurements t = map_sum (held_by id) (assessments r) ∧
  0 ≤ at_ReservedMeasurements t ≤ at_MeasurementCapacity t.
Proof.
  intros Hi%light_inv_reachable Ht. by destruct (inv_teams _ Hi _ _ Ht) as (_ & _ & ? & ?).
Qed.

(** No resource is ever over-committed: a zone's allocated fixtures, a
    rule's uses and a panel's assessors stay within capacity, and no
    assessor sits twice on a panel. *)
Theorem hub_capacity r :
  reachable fresh_step is_empty_registry r →
  (∀ id z, zones r !! id = Some z → 0 ≤ lz_AllocatedFixtures z ≤ lz_FixtureCapacity z) ∧
  (∀ id o, rules r !! id = Some o → 0 ≤ or_Used o ≤ or_Capacity o) ∧
  (∀ id p, panels r !! id = Some p →
     NoDup (ap_AssessorIDs p) ∧ Z.of_nat (length (ap_AssessorIDs p)) ≤ ap_Capacity p).
Proof.
  intros Hi%light_inv_reachable. split_and!.
  - intros id z Hz. by destruct (inv_zones _ Hi _ _ Hz) as (_ & _ & _ & ?).
  - intros id o Ho. by destruct (inv_rules _ Hi _ _ Ho) as (_ & _ & ?).
  - intros id p Hp. by destruct (inv_panels _ Hi _ _ Hp) as (_ & ? & ?).
Qed.

(** An accepted complaint has been given a lighting zone that exists, in
    its own district and for its own kind of venue, and has an entry in the
    table of assessments. *)
Theorem hub_accepted_complaint r id c :
  reachable fresh_step is_empty_registry r →
  complaints r !! id = Some c → sc_Status c = ComplaintAccepted →
  (∃ z, zones r !! sc_LightingZoneID c = Some z ∧ lz_DistrictID z = sc_DistrictID c ∧
     normalizeVenueKind (lz_VenueKind z) = normalizeVenueKind (sc_VenueKind c)) ∧
  (∃ a t, assessments r !! id = Some a ∧ ar_ComplaintID a = id ∧
     teams r !! ar_AssessmentTeamID a = Some t).
Proof.
  intros Hi%light_inv_reachable Hc Hs.
  destruct (inv_complaints _ Hi _ _ Hc) as (_ & _ & _ & _ & Hz & Ha).
  destruct (Ha Hs) as [[a Hla] Hne]. split; [by apply Hz|].
  destruct (inv_assessments _ Hi _ _ Hla) as (? & _ & _ & [t ?]). eauto.
Qed.

(** A rectification on record belongs to a complaint of its own district,
    carries at least two items of evidence and is either submitted or
    accepted. *)
Theorem hub_rectification r id s :
  reachable fresh_step is_empty_registry r → rectifications r !! id = Some s →
  (2 ≤ length (rs_Evidence s))%nat ∧
  (rs_Status s = "submitted" ∨ rs_Status s = "accepted") ∧
  ∃ c, complaints r !! rs_ComplaintID s = Some c ∧ sc_DistrictID c = rs_DistrictID s.
Proof.
  intros Hi%light_inv_reachable Hs.
  by destruct (inv_rectifications _ Hi _ _ Hs) as (_ & ? & ? & ?).
Qed.

(** Along every further execution the registry only grows: nothing is
    removed, the identity fields of a record never change, the capacity of a
    resource never changes, an assessor is never dropped from a panel, a
    complaint's status after one call is unchanged or a legal transition,
    and the event log is append-only. *)
Theorem hub_grows r c r' :
  reachable fresh_step is_empty_registry r → fresh_step r c r' → grows r r'.
Proof.
  intros Hi%light_inv_reachable [_ [->|Heff]%light_step_inv].
  - split; try (by apply map_grows_refl; apply _); done.
  - eapply grows_effect; [by apply inv_team_keys|done].
Qed.
End invariant_claims.

(** A run that uses every kind of resource of the hub. *)
Definition ex_rule : OperatingRule := {|
  or_ID := "rule-1"; or_AuthorityID := "auth-1"; or_Kind := "closing_hours"; or_VenueKinds := ["Football_Field"];
  or_Capacity := 2; or_Used := 0; or_EffectiveFrom := 0; or_EffectiveTo := 1000;
  or_Version := 1 |}.
Definition ex_panel : AssessorPanel := {|
  ap_ID := "panel-1"; ap_Name := "Luohu"; ap_Capacity := 2; ap_AssessorIDs := [];
  ap_SupervisorIDs := []; ap_Milestones := None; ap_Version := 1 |}.
Definition ex_rectification : RectificationSubmission := {|
  rs_ID := "rect-1"; rs_DistrictID := "luohu"; rs_CrewID := "crew-1";
  rs_PlanType := "shielding"; rs_Status := ""; rs_Evidence := ["before"; "after"];
  rs_ComplaintID := "c-1"; rs_SubmittedAt := 0; rs_ReviewedAt := None; rs_Version := 1 |}.
Definition ex_full : list light_call :=
  ex_accepted ++
  [ CallAddRule None ex_rule; CallAddPanel None ex_panel;
    CallApplyRule None 130 "c-1" "rule-1" 130;
    CallEnrollAssessor None "panel-1" "assessor-1";
    CallEnrollAssessor None "panel-1" "assessor-1";
    CallPublishRectification (ex_call 140) ex_rectification;
    CallVerifyRectification (ex_call 150) "rect-1" "reviewer" ].

Definition ex_reg : Registry := ran (H := ascii_tables) ex_full.

Lemma ex_reg_reachable :
  reachable (fresh_step (H := ascii_tables)) is_empty_registry ex_reg.
Proof. apply ran_fresh. repeat constructor; simpl; try done; vm_compute; intuition congruence. Qed.

(** The entry of a concrete map under a key, as a value. *)
Definition entry {V} (o : option V) (d : V) : V := default d o.

Definition ex_c1 := entry (complaints ex_reg !! "c-1") (ex_complaint "" "").
Definition ex_t1 := entry (teams ex_reg !! "team-1") (ex_team "" 0).
Definition ex_s1 := entry (rectifications ex_reg !! "rect-1") ex_rectification.

Lemma hub_ledger_witness :
  teams ex_reg !! "team-1" = Some ex_t1 ∧
  at_ReservedMeasurements ex_t1 = 5 ∧
  at_ReservedMeasurements ex_t1 = map_sum (held_by "team-1") (assessments ex_reg) ∧
  0 ≤ at_ReservedMeasurements ex_t1 ≤ at_MeasurementCapacity ex_t1.
Proof.
  assert (teams ex_reg !! "team-1" = Some ex_t1) as Ht by by vm_compute.
  split; [exact Ht|]. split; [by vm_compute|].
  exact (hub_ledger _ "team-1" ex_t1 ex_reg_reachable Ht).
Defined.

Lemma hub_capacity_witness :
  size (zones ex_reg) = 1%nat ∧ size (rules ex_reg) = 1%nat ∧ size (panels ex_reg) = 1%nat ∧
  (∀ id z, zones ex_reg !! id = Some z → 0 ≤ lz_AllocatedFixtures z ≤ lz_FixtureCapacity z) ∧
  (∀ id o, rules ex_reg !! id = Some o → 0 ≤ or_Used o ≤ or_Capacity o) ∧
  (∀ id p, panels ex_reg !! id = Some p →
     NoDup (ap_AssessorIDs p) ∧ Z.of_nat (length (ap_AssessorIDs p)) ≤ ap_Capacity p).
Proof.
  split; [by vm_compute|]. split; [by vm_compute|]. split; [by vm_compute|].
  exact (hub_capacity _ ex_reg_reachable).
Defined.

Lemma hub_accepted_complaint_witness :
  sc_Status ex_c1 = ComplaintAccepted ∧
  (∃ z, zones ex_reg !! sc_LightingZoneID ex_c1 = Some z ∧
     lz_DistrictID z = sc_DistrictID ex_c1 ∧
     normalizeVenueKind (H := ascii_tables) (lz_VenueKind z) =
     normalizeVenueKind (H := ascii_tables) (sc_VenueKind ex_c1)) ∧
  (∃ a t, assessments ex_reg !! "c-1" = Some a ∧ ar_ComplaintID a = "c-1" ∧
     teams ex_reg !! ar_AssessmentTeamID a = Some t).
Proof.
  assert (complaints ex_reg !! "c-1" = Some ex_c1) as Hc by by vm_compute.
  assert (sc_Status ex_c1 = ComplaintAccepted) as Hs by by vm_compute.
  split; [exact Hs|].
  exact (hub_accepted_complaint _ "c-1" ex_c1 ex_reg_reachable Hc Hs).
Defined.

Lemma hub_rectification_witness :
  rs_Status ex_s1 = "accepted" ∧ (2 ≤ length (rs_Evidence ex_s1))%nat ∧
  (rs_Status ex_s1 = "submitted" ∨ rs_Status ex_s1 = "accepted") ∧
  ∃ c, complaints ex_reg !! rs_ComplaintID ex_s1 = Some c ∧
    sc_DistrictID c = rs_DistrictID ex_s1.
Proof.
  assert (rectifications ex_reg !! "rect-1" = Some ex_s1) as Hs by by vm_compute.
  split; [by vm_compute|]. exact (hub_rectification _ "rect-1" ex_s1 ex_reg_reachable Hs).
Defined.

Lemma hub_grows_witness :
  let r' := fst (exec_light (H := ascii_tables) (CallReleaseAssessment (ex_call 160) "c-1") ex_reg) in
  at_ReservedMeasurements <$> (teams r' !! "team-1") = Some 0 ∧ grows ex_reg r'.
Proof.
  split; [by vm_compute|].
  refine (hub_grows (H := ascii_tables) ex_reg (CallReleaseAssessment (ex_call 160) "c-1") _
            ex_reg_reachable _).
  by split.
Defined.

(** ** Reservations *)

Section reservation_claims.
Context `{UnicodeTables}.

Lemma put_team_put_reservation r tid t cid a :
  active_assessment (put_assessment cid a (put_team tid t r)) cid =
  if bool_decide (ar_ReleasedAt a = None) then Some a else None.
Proof. unfold active_assessment; simpl. rewrite lookup_insert_eq. by case_bool_decide. Qed.

(** A reservation that is released leaves no trace in the ledger: after
    a successful reservation, a release with a live context succeeds, gives
    the team back exactly the measurements it had before, and releasing
    again changes nothing. *)
Theorem hub_reserve_release r call cid tid n r1 a t call2 :
  reachable fresh_step is_empty_registry r → active_assessment r cid = None →
  ReserveAssessment call cid tid n r = (r1, Ok a) → teams r !! tid = Some t →
  call_ctx call2 = None →
  ∃ r2 t2, ReleaseAssessment call2 cid r1 = (r2, Ok ()) ∧
    teams r2 !! tid = Some t2 ∧
    at_ReservedMeasurements t2 = at_ReservedMeasurements t ∧
    ReleaseAssessment call2 cid r2 = (r2, Ok ()).
Proof.
  intros Hi%light_inv_reachable Hact Hres Ht Hctx.
  destruct (inv_teams _ Hi _ _ Ht) as (Hid & Hcap & _ & Hb).
  pose proof (exec_light_outcome r (CallReserveAssessment call cid tid n)) as Ho.
  unfold exec_light, forget in Ho. op_unfold Ho. rewrite Hres in Ho.
  destruct Ho as [Heff|[Hno _]]; [|by inversion Hno; congruence].
  inversion Heff; simplify_eq.
  match goal with Hle : n ≤ _ |- _ =>
    apply i64_sub_pos in Hle; [|done|unfold is_i64, min_i64 in *; lia|lia|done] end.
  assert (is_i64 (at_ReservedMeasurements t + n)) as Hfit
    by (unfold is_i64, min_i64 in *; lia).
  unfold ReleaseAssessment, check_ctx. rewrite Hctx. op_unfold_goal.
  unfold active_assessment; simpl. rewrite lookup_insert_eq; simpl.
  rewrite lookup_insert_eq; simpl.
  rewrite !i64_id by (rewrite ?i64_id by done; unfold is_i64, min_i64 in *; lia).
  rewrite (proj2 (Z.ltb_ge _ _)) by lia. simpl.
  eexists _, _. split; [reflexivity|]. simpl. rewrite lookup_insert_eq.
  split; [reflexivity|]. simpl. rewrite lookup_insert_eq.
  split; [rewrite i64_id by (unfold is_i64, min_i64 in *; lia); lia|done].
Qed.

(** Repeating a reservation that is held never reserves twice: the
    registry is unchanged. It returns the reservation only while the team
    could still take the count once more; when the team is fuller than that,
    the repeat is refused with [ErrLightCapacity] although the complaint
    already holds what it asks for. *)
Theorem hub_reserve_repeat r call cid tid n c t a :
  complaints r !! cid = Some c → teams r !! tid = Some t →
  sc_Status c = ComplaintPending → 0 < n → call_ctx call = None →
  active_assessment r cid = Some a →
  ReserveAssessment call cid tid n r =
    (r, if measurementCapacityAvailable t n then Ok a else Err (Sentinel ErrLightCapacity)).
Proof.
  intros Hc Ht Hs Hn Hctx Ha.
  unfold ReserveAssessment, check_ctx. rewrite Hctx. op_unfold_goal.
  rewrite (proj2 (Z.leb_gt n 0)) by done. unfold id. rewrite Hc, Ht, Hs, Ha. simpl.
  by destruct (measurementCapacityAvailable t n).
Qed.

(** Acceptance does not look at whether the reservation is still held: a
    complaint whose reservation was released is accepted just the same. *)
Theorem hub_accept_after_release r call cid actor c z a t :
  complaints r !! cid = Some c → sc_Status c = ComplaintPending →
  assessments r !! cid = Some a → ar_ReleasedAt a = Some t →
  zones r !! sc_LightingZoneID c = Some z → lz_Active z = true →
  sc_LightingZoneID c ≠ "" → actor ≠ "" → call_ctx call = None →
  ∃ r' c', AcceptComplaint call cid actor r = (r', Ok c') ∧
    sc_Status c' = ComplaintAccepted ∧ active_assessment r' cid = None.
Proof.
  intros Hc Hs Ha Hrel Hz Hact Hne Hactor Hctx.
  unfold AcceptComplaint, check_ctx, active_assessment. rewrite Hctx. op_unfold_goal.
  unfold id. rewrite Hc, Hs, Ha, Hz, Hact. 
  rewrite (bool_decide_false (actor = "")), (bool_decide_false (sc_LightingZoneID c = ""))
    by done. simpl.
  eexists _, _. split; [reflexivity|].
  split; [done|]. simpl. by rewrite Ha, Hrel.
Qed.
End reservation_claims.

Definition ex_before : Registry := ran (H := ascii_tables) ex_setup.
Lemma hub_reserve_release_witness :
  let reserved := ReserveAssessment (ex_call 110) "c-1" "team-1" 5 ex_before in
  ∃ r2 t2, ReleaseAssessment (ex_call 115) "c-1" (fst reserved) = (r2, Ok ()) ∧
    teams r2 !! "team-1" = Some t2 ∧
    at_ReservedMeasurements t2 = 0 ∧
    ReleaseAssessment (ex_call 115) "c-1" r2 = (r2, Ok ()).
Proof.
  assert (reachable (fresh_step (H := ascii_tables)) is_empty_registry ex_before) as Hr
    by (apply ran_fresh; repeat constructor; simpl; done).
  assert (active_assessment ex_before "c-1" = None) as Ha by by vm_compute.
  assert (teams ex_before !! "team-1" = Some (ex_team "team-1" 8)) as Ht by by vm_compute.
  exact (hub_reserve_release (H := ascii_tables) ex_before (ex_call 110) "c-1" "team-1" 5
           _ (reservation 110 "c-1" "team-1" 5) (ex_team "team-1" 8) (ex_call 115)
           Hr Ha ltac:(by vm_compute) Ht eq_refl).
Defined.

Lemma hub_reserve_repeat_witness :
  ReserveAssessment (ex_call 170) "c-1" "team-1" 5
    (ran (H := ascii_tables) (ex_setup ++ [CallReserveAssessment (ex_call 110) "c-1" "team-1" 5])) =
  (ran (H := ascii_tables) (ex_setup ++ [CallReserveAssessment (ex_call 110) "c-1" "team-1" 5]),
   Err (Sentinel ErrLightCapacity)).
Proof.
  set (r := ran _).
  exact (hub_reserve_repeat r (ex_call 170) "c-1" "team-1" 5
    (entry (complaints r !! "c-1") (ex_complaint "" ""))
    (entry (teams r !! "team-1") (ex_team "" 0)) (reservation 110 "c-1" "team-1" 5)
    ltac:(by vm_compute) ltac:(by vm_compute) ltac:(by vm_compute) eq_refl eq_refl
    ltac:(by vm_compute)).
Defined.

Lemma hub_accept_after_release_witness :
  let r := ran (H := ascii_tables) ex_released in
  ∃ r' c', AcceptComplaint (ex_call 180) "c-1" "reviewer" r = (r', Ok c') ∧
    sc_Status c' = ComplaintAccepted ∧ active_assessment r' "c-1" = None.
Proof.
  intros r.
  exact (hub_accept_after_release r (ex_call 180) "c-1" "reviewer"
    (entry (complaints r !! "c-1") (ex_complaint "" ""))
    (entry (zones r !! "zone-1") (ex_zone "" "" 0))
    (entry (assessments r !! "c-1") (reservation 0 "" "" 0)) 115
    ltac:(by vm_compute) ltac:(by vm_compute) ltac:(by vm_compute) ltac:(by vm_compute)
    ltac:(by vm_compute) ltac:(by vm_compute) ltac:(by vm_compute) ltac:(done) eq_refl).
Defined.

(** ** The status machine, and zones named at submission *)

Section status_claims.
Context `{UnicodeTables}.

(** The second half of the complaint workflow is dead code. No operation
    makes a complaint active or returned, so in every execution, whatever
    the arguments of the calls, every complaint is pending or accepted, and
    closing or resubmitting one always fails and changes nothing. *)
Theorem hub_close_unreachable r call cid ev :
  reachable light_step is_empty_registry r →
  map_Forall (λ _ c, sc_Status c = ComplaintPending ∨ sc_Status c = ComplaintAccepted)
    (complaints r) ∧
  (∃ e, CloseComplaint call cid r = (r, Err e)) ∧
  (∃ e, ResubmitComplaint call cid ev r = (r, Err e)).
Proof.
  intros Ho%open_statuses_reachable. split; [done|].
  assert (∀ c, complaints r !! cid = Some c →
    sc_Status c = ComplaintPending ∨ sc_Status c = ComplaintAccepted) as Hc.
  { intros c Hc. by apply (Ho cid). }
  clear Ho. split.
  - unfold CloseComplaint, check_ctx. op_unfold_goal. unfold id.
    destruct (call_ctx call); [eauto|]. destruct (complaints r !! _) as [c|]; [|eauto].
    destruct (Hc c eq_refl) as [->| ->]; simpl; eauto.
  - unfold ResubmitComplaint, check_ctx. op_unfold_goal. unfold id.
    destruct (call_ctx call); [eauto|]. destruct (bool_decide (ev = [])); simpl; [eauto|].
    destruct (complaints r !! _) as [c|]; [|eauto].
    destruct (Hc c eq_refl) as [->| ->]; simpl; eauto.
Qed.
End status_claims.

Lemma hub_close_unreachable_witness :
  let r := ran (H := ascii_tables) ex_full in
  map_Forall (λ _ c, sc_Status c = ComplaintPending ∨ sc_Status c = ComplaintAccepted)
    (complaints r) ∧
  (∃ e, CloseComplaint (ex_call 190) "c-1" r = (r, Err e)) ∧
  (∃ e, ResubmitComplaint (ex_call 190) "c-1" ["photo"] r = (r, Err e)).
Proof. intros r. exact (hub_close_unreachable r (ex_call 190) "c-1" ["photo"] (ran_any ex_full)). Defined.

(** A complaint of Luohu that names a zone of Futian when it is submitted. *)
Definition ex_bypass : list light_call :=
  [ CallAddAssessmentTeam None (ex_team "team-1" 8);
    CallAddZone None (ex_zone "zone-9" "futian" 4);
    CallSubmitComplaint (ex_call 100) (ex_complaint "c-9" "zone-9");
    CallReserveAssessment (ex_call 110) "c-9" "team-1" 5;
    CallAcceptComplaint (ex_call 120) "c-9" "reviewer" ].

Section bypass.
(** District isolation of zones can be bypassed: there is an execution
    in which a complaint of one district is accepted in the lighting zone of
    another district, without any of the zone's fixtures being allocated. *)
Theorem hub_zone_isolation_bypassed :
  ∃ r c z, reachable (light_step (H := ascii_tables)) is_empty_registry r ∧
    complaints r !! "c-9" = Some c ∧ sc_Status c = ComplaintAccepted ∧
    zones r !! sc_LightingZoneID c = Some z ∧
    lz_DistrictID z ≠ sc_DistrictID c ∧ lz_AllocatedFixtures z = 0.
Proof.
  set (r := ran (H := ascii_tables) ex_bypass).
  exists r, (entry (complaints r !! "c-9") (ex_complaint "" "")),
    (entry (zones r !! "zone-9") (ex_zone "" "" 0)).
  split; [apply ran_any|]. split_and!; vm_compute; done.
Qed.
End bypass.

(** ** Listing *)

Section listing_claims.
Context `{UnicodeTables}.

Definition kept (query : ComplaintQuery) (order : list (string * SpillLightComplaint)) :=
  List.filter (query_keeps query) (snd <$> order).

(** A page of complaints is sound and has the right size, whatever order
    the runtime visits the map in: the total is the number of complaints of
    the registry that pass the filter, the page holds complaints of the
    registry that pass it, and it has [limit] of them, or as many as are
    left after the offset; an invalid offset or limit is refused. *)
Theorem hub_list_page r query order res :
  order ≡ₚ map_to_list (complaints r) →
  Z.of_nat (length (kept query order)) ≤ max_i64 - 100 →
  ListComplaints None query order = Ok res →
  0 ≤ cq_Offset query ∧ 0 ≤ cq_Limit query ≤ 100 ∧
  cr_Total res = Z.of_nat (length (kept query (map_to_list (complaints r)))) ∧
  (∀ c, c ∈ cr_Complaints res →
     query_keeps query c = true ∧ ∃ id, complaints r !! id = Some c) ∧
  Z.of_nat (length (cr_Complaints res)) =
    let rest := Z.max 0 (cr_Total res - cq_Offset query) in
    if cq_Limit query =? 0 then rest else Z.min (cq_Limit query) rest.
Proof.
  intros Hperm Hlen. unfold ListComplaints.
  assert (length (kept query order) = length (kept query (map_to_list (complaints r))))
    as Hl by by apply Permutation_length, filter_perm, fmap_Permutation.
  rewrite <- Hl. fold (kept query order).
  assert (∀ i j c, c ∈ take i (drop j (kept query order)) →
    query_keeps query c = true ∧ ∃ id, complaints r !! id = Some c) as Hin.
  { intros i j c Hc.
    assert (c ∈ kept query order) as Hk0.
    { rewrite <- (take_drop j (kept query order)), <- (take_drop i (drop j _)).
      set_solver. }
    apply list_elem_of_In, filter_In in Hk0 as [Hk0 Hk]. split; [done|].
    apply list_elem_of_In, list_elem_of_fmap in Hk0 as ([id c'] & -> & Hc').
    exists id. apply elem_of_map_to_list. by rewrite <- Hperm. }
  unfold max_i64 in Hlen. case_match; [done|]. guards. case_match; guards; simplify_eq/=.
  - intros [= <-]. simpl. split_and!; try lia; [set_solver|].
    case_match; guards; lia.
  - intros [= <-]. simpl. split_and!; try lia; [apply Hin|].
    rewrite length_take, length_drop. rewrite i64_id by (unfold is_i64, min_i64, max_i64; lia).
    destruct (Z.ltb_spec 0 (cq_Limit query)), (Z.eqb_spec (cq_Limit query) 0); simpl; try lia.
    destruct (Z.ltb_spec (cq_Offset query + cq_Limit query)
               (Z.of_nat (length (kept query order)))); lia.
Qed.
End listing_claims.

Definition ex_query (offset limit : Z) : ComplaintQuery := {|
  cq_DistrictID := "luohu"; cq_Status := ComplaintOther ""; cq_VenueKind := "";
  cq_Offset := offset; cq_Limit := limit |}.
Definition ex_two : Registry := ran (H := ascii_tables)
  [ CallSubmitComplaint (ex_call 100) (ex_complaint "c-1" "");
    CallSubmitComplaint (ex_call 101) (ex_complaint "c-2" "") ].

Definition ex_order : list (string * SpillLightComplaint) :=
  reverse (map_to_list (complaints ex_two)).
Lemma ex_order_perm : ex_order ≡ₚ map_to_list (complaints ex_two).
Proof. apply reverse_Permutation. Qed.
Lemma ex_order_kept :
  length (kept (H := ascii_tables) (ex_query 1 1) ex_order) = 2%nat.
Proof. by vm_compute. Qed.

Lemma hub_list_page_witness :
  ∃ res, ListComplaints (H := ascii_tables) None (ex_query 1 1) ex_order = Ok res ∧
    0 ≤ cq_Offset (ex_query 1 1) ∧
    Z.of_nat (length (cr_Complaints res)) =
      Z.min 1 (Z.max 0 (cr_Total res - 1)).
Proof.
  assert (Z.of_nat (length (kept (H := ascii_tables) (ex_query 1 1) ex_order))
          ≤ max_i64 - 100) as Hk by by rewrite ex_order_kept.
  destruct (ListComplaints (H := ascii_tables) None (ex_query 1 1) ex_order) as [res|e] eqn:Hl;
    [|by vm_compute in Hl].
  exists res. split; [reflexivity|].
  destruct (hub_list_page ex_two (ex_query 1 1) ex_order res ex_order_perm Hk Hl)
    as (Ho & _ & _ & _ & Hn).
  split; [exact Ho|exact Hn].
Defined.

Section unstable.
(** Pages are not stable: two loops over the same registry may visit it
    in different orders, and then the first and the second page can hold the
    same complaint while another one is on no page. *)
Theorem hub_list_unstable :
  ∃ order1 order2 c c',
    order1 ≡ₚ map_to_list (complaints ex_two) ∧ order2 ≡ₚ map_to_list (complaints ex_two) ∧
    ListComplaints (H := ascii_tables) None (ex_query 0 1) order1 =
      Ok {| cr_Complaints := [c]; cr_Total := 2 |} ∧
    ListComplaints (H := ascii_tables) None (ex_query 1 1) order2 =
      Ok {| cr_Complaints := [c]; cr_Total := 2 |} ∧
    c ≠ c' ∧ complaints ex_two !! sc_ID c' = Some c'.
Proof.
  set (order := map_to_list (complaints ex_two)).
  exists order, (reverse order), (entry (snd <$> head order) (ex_complaint "" "")),
    (entry (snd <$> last order) (ex_complaint "" "")).
  split; [done|]. split; [apply reverse_Permutation|]. split_and!; by vm_compute.
Qed.
End unstable.
