(* ===== verification/GoMemory.v ===== *)
(** * Memory with references: slices, maps and pointers of Go

    A heap of typed cells, the references Go programs hold into it, and the
    operations that allocate or write: [slices.Clone], the copy of a map,
    [append], taking the address of a local variable. How much room the
    runtime gives a new array is a parameter ([Runtime]). Facts: a new cell
    disturbs no reference. *)
From stdpp Require Import fin_map_dom.
From S2P Require Import Prelude GoErrors.

(** ** Cells and references *)

Inductive cell : Type :=
| CStrings (items : list string)
| CMap (entries : gmap string string)
| CTime (t : Time).

Abbreviation loc := positive.
Abbreviation heap := (gmap loc cell).

(** A slice: the array it lies in, where it begins, and how many elements it
    has and could have without a new array. A nil slice is [None]. *)
Record slice : Type := { sl_array : loc; sl_off : nat; sl_len : nat; sl_cap : nat }.
#[export] Instance slice_eq_dec : EqDecision slice.
Proof. solve_decision. Defined.

Definition array (h : heap) (l : loc) : list string :=
  match h !! l with Some (CStrings items) => items | _ => [] end.
Definition slice_items (h : heap) (s : slice) : list string :=
  take (sl_len s) (drop (sl_off s) (array h (sl_array s))).

(** What a reference shows: the elements of a slice, the entries of a map, the
    time a pointer points to. *)
Definition strings (h : heap) (s : option slice) : list string :=
  match s with Some s => slice_items h s | None => [] end.
Definition entries (h : heap) (m : option loc) : option (gmap string string) :=
  match m with
  | Some l => Some (match h !! l with Some (CMap e) => e | _ => ∅ end)
  | None => None
  end.
Definition instant (h : heap) (p : option loc) : option Time :=
  match p with
  | Some l => Some (match h !! l with Some (CTime t) => t | _ => zero_time end)
  | None => None
  end.
(** [len(s)] *)
Definition slice_len (s : option slice) : nat :=
  match s with Some s => sl_len s | None => 0%nat end.

(** Every slice of a Go program lies within its array. *)
Definition slice_fits (h : heap) (s : slice) : Prop :=
  (sl_len s ≤ sl_cap s)%nat ∧ (sl_off s + sl_cap s ≤ length (array h (sl_array s)))%nat.
Definition is_map (h : heap) (l : loc) : Prop := ∃ e, h !! l = Some (CMap e).
Definition is_time (h : heap) (l : loc) : Prop := ∃ t, h !! l = Some (CTime t).

(** A program can assign to the elements of an array, to the entries of a map
    and to a variable; it cannot change what kind of cell they are, nor the
    size of an array. *)
Definition same_shape (c c' : cell) : bool :=
  match c, c' with
  | CStrings l, CStrings l' => bool_decide (length l = length l')
  | CMap _, CMap _ | CTime _, CTime _ => true
  | _, _ => false
  end.

(** ** Allocation *)

Class Runtime : Type := {
  (** The capacity of a new array for [n] elements. *)
  rt_capacity : nat → nat;
  rt_capacity_enough n : (n ≤ rt_capacity n)%nat
}.

Definition new_cell (c : cell) (h : heap) : heap * loc :=
  let l := fresh (dom h) in (<[l := c]> h, l).
Definition new_array `{Runtime} (items : list string) (h : heap) : heap * slice :=
  let n := length items in
  let cap := rt_capacity n in
  let '(h, l) := new_cell (CStrings (items ++ replicate (cap - n) "")) h in
  (h, {| sl_array := l; sl_off := 0; sl_len := n; sl_cap := cap |}).

(** [slices.Clone] *)
Definition Clone `{Runtime} (s : option slice) (h : heap) : heap * option slice :=
  match s with
  | None => (h, None)
  | Some s => let '(h, s) := new_array (slice_items h s) h in (h, Some s)
  end.

(** [append(s, x)]: in the array of [s] if it has room, else in a new one. *)
Definition append_one `{Runtime} (s : option slice) (x : string) (h : heap) : heap * slice :=
  match s with
  | None => new_array [x] h
  | Some s =>
      if (sl_len s <? sl_cap s)%nat then
        (<[sl_array s := CStrings (<[(sl_off s + sl_len s)%nat := x]> (array h (sl_array s)))]> h,
         {| sl_array := sl_array s; sl_off := sl_off s; sl_len := S (sl_len s);
            sl_cap := sl_cap s |})
      else new_array (slice_items h s ++ [x]) h
  end.

(** ** Facts *)

Lemma new_cell_fresh c h : h !! snd (new_cell c h) = None.
Proof. unfold new_cell; simpl. apply not_elem_of_dom, is_fresh. Qed.
Lemma new_cell_grows c h : h ⊆ fst (new_cell c h).
Proof. unfold new_cell; simpl. apply insert_subseteq, (new_cell_fresh c). Qed.

Lemma array_grows h h' l : h ⊆ h' → is_Some (h !! l) → array h' l = array h l.
Proof. intros Hh [c Hc]. unfold array. by rewrite (lookup_weaken _ _ _ _ Hc Hh), Hc. Qed.

Lemma slice_items_length h s : slice_fits h s → length (slice_items h s) = sl_len s.
Proof.
  intros [Hl Hc]. unfold slice_items. rewrite length_take, length_drop. lia.
Qed.
Lemma strings_length h s :
  match s with Some s => slice_fits h s | None => True end →
  length (strings h s) = slice_len s.
Proof. destruct s as [s|]; [apply slice_items_length|done]. Qed.

Section arrays.
Context `{Runtime}.

Lemma new_array_spec items h h' s :
  new_array items h = (h', s) →
  h ⊆ h' ∧ h !! sl_array s = None ∧ slice_fits h' s ∧ slice_items h' s = items ∧
  ∃ padded, h' = <[sl_array s := CStrings padded]> h.
Proof.
  unfold new_array, new_cell. intros [= <- <-]. simpl.
  pose proof (rt_capacity_enough (length items)) as Hcap.
  assert (h !! fresh (dom h) = None) as Hf by apply (new_cell_fresh (CTime 0)).
  unfold slice_fits, slice_items, array; simpl. rewrite lookup_insert_eq. split_and!.
  - by apply insert_subseteq.
  - done.
  - done.
  - rewrite length_app, length_replicate. lia.
  - by rewrite drop_0, take_app_length.
  - eauto.
Qed.

(** In the array of [s] an append writes just behind [s]: what [s] shows is
    not changed. *)
Lemma append_in_place h s x h' s' :
  slice_fits h s → (sl_len s < sl_cap s)%nat → append_one (Some s) x h = (h', s') →
  slice_fits h' s' ∧ sl_array s' = sl_array s ∧
  slice_items h' s' = slice_items h s ++ [x] ∧
  slice_fits h' s ∧ slice_items h' s = slice_items h s ∧
  ∃ items, h' = <[sl_array s := CStrings items]> h.
Proof.
  intros [Hl Hc] Hlt. unfold append_one. apply Nat.ltb_lt in Hlt as Hb. rewrite Hb.
  set (l := array h (sl_array s)) in *. intros [= <- <-].
  set (h' := <[sl_array s := _]> h).
  assert (array h' (sl_array s) = <[(sl_off s + sl_len s)%nat := x]> l) as Ha
    by (unfold array, h'; by rewrite lookup_insert_eq).
  unfold slice_fits, slice_items; simpl. rewrite !Ha, length_insert. fold l.
  rewrite !drop_insert_ge by lia.
  replace (sl_off s + sl_len s - sl_off s)%nat with (sl_len s) by lia.
  rewrite (take_S_r _ _ x), !take_insert_ge;
    [split_and!; eauto; lia|lia|apply list_lookup_insert_eq; rewrite length_drop; lia].
Qed.
End arrays.
