(* ===== verification/LightMemory.v ===== *)
(** * The hub in memory: what its records share with their callers

    LightModel and LightService take the hub's records as values. In Go a
    record holds references: slices, maps and pointers to times, which a caller
    can keep and write through. Here the operations of [internal/hub] are
    written down once more, over a heap, with every clone the code makes, every
    address it takes and the [append] of [EnrollAssessor]; [seen] is what the
    registry shows, and LightMemoryFacts relates the two. *)
From stdpp Require Import fin_map_dom.
From S2P Require Import Prelude GoErrors GoStrings GoMemory LightModel LightService.

(** ** Records (light_models.go), with references *)

Record MComplaint : Type := {
  mc_ID : string;
  mc_DistrictID : string;
  mc_ResidentID : string;
  mc_ResidentName : string;
  mc_FacilityName : string;
  mc_VenueKind : string;
  mc_Status : ComplaintStatus;
  mc_Evidence : option slice;
  mc_RequestedMeasurements : Z;
  mc_LightingZoneID : string;
  mc_OperatingRuleID : string;
  mc_RuleVersion : Z;
  mc_Attempt : Z;
  mc_Deadline : Time;
  mc_CreatedAt : Time;
  mc_UpdatedAt : Time;
  mc_Version : Z
}.
#[export] Instance MComplaint_eta : Eta MComplaint := λ c, {|
  mc_ID := mc_ID c; mc_DistrictID := mc_DistrictID c; mc_ResidentID := mc_ResidentID c;
  mc_ResidentName := mc_ResidentName c; mc_FacilityName := mc_FacilityName c;
  mc_VenueKind := mc_VenueKind c; mc_Status := mc_Status c; mc_Evidence := mc_Evidence c;
  mc_RequestedMeasurements := mc_RequestedMeasurements c;
  mc_LightingZoneID := mc_LightingZoneID c; mc_OperatingRuleID := mc_OperatingRuleID c;
  mc_RuleVersion := mc_RuleVersion c; mc_Attempt := mc_Attempt c;
  mc_Deadline := mc_Deadline c; mc_CreatedAt := mc_CreatedAt c;
  mc_UpdatedAt := mc_UpdatedAt c; mc_Version := mc_Version c |}.

Record MReservation : Type := {
  ma_ComplaintID : string;
  ma_AssessmentTeamID : string;
  ma_MeasurementCount : Z;
  ma_ReservedAt : Time;
  ma_ReleasedAt : option loc
}.
#[export] Instance MReservation_eta : Eta MReservation := λ a, {|
  ma_ComplaintID := ma_ComplaintID a; ma_AssessmentTeamID := ma_AssessmentTeamID a;
  ma_MeasurementCount := ma_MeasurementCount a; ma_ReservedAt := ma_ReservedAt a;
  ma_ReleasedAt := ma_ReleasedAt a |}.

Record MRule : Type := {
  mo_ID : string;
  mo_AuthorityID : string;
  mo_Kind : string;
  mo_VenueKinds : option slice;
  mo_Capacity : Z;
  mo_Used : Z;
  mo_EffectiveFrom : Time;
  mo_EffectiveTo : Time;
  mo_Version : Z
}.
#[export] Instance MRule_eta : Eta MRule := λ r, {|
  mo_ID := mo_ID r; mo_AuthorityID := mo_AuthorityID r; mo_Kind := mo_Kind r;
  mo_VenueKinds := mo_VenueKinds r; mo_Capacity := mo_Capacity r; mo_Used := mo_Used r;
  mo_EffectiveFrom := mo_EffectiveFrom r; mo_EffectiveTo := mo_EffectiveTo r;
  mo_Version := mo_Version r |}.

Record MRectification : Type := {
  ms_ID : string;
  ms_DistrictID : string;
  ms_CrewID : string;
  ms_PlanType : string;
  ms_Status : string;
  ms_Evidence : option slice;
  ms_ComplaintID : string;
  ms_SubmittedAt : Time;
  ms_ReviewedAt : option loc;
  ms_Version : Z
}.
#[export] Instance MRectification_eta : Eta MRectification := λ r, {|
  ms_ID := ms_ID r; ms_DistrictID := ms_DistrictID r; ms_CrewID := ms_CrewID r;
  ms_PlanType := ms_PlanType r; ms_Status := ms_Status r; ms_Evidence := ms_Evidence r;
  ms_ComplaintID := ms_ComplaintID r; ms_SubmittedAt := ms_SubmittedAt r;
  ms_ReviewedAt := ms_ReviewedAt r; ms_Version := ms_Version r |}.

Record MPanel : Type := {
  mp_ID : string;
  mp_Name : string;
  mp_Capacity : Z;
  mp_AssessorIDs : option slice;
  mp_SupervisorIDs : option slice;
  mp_Milestones : option loc;
  mp_Version : Z
}.
#[export] Instance MPanel_eta : Eta MPanel := λ p, {|
  mp_ID := mp_ID p; mp_Name := mp_Name p; mp_Capacity := mp_Capacity p;
  mp_AssessorIDs := mp_AssessorIDs p; mp_SupervisorIDs := mp_SupervisorIDs p;
  mp_Milestones := mp_Milestones p; mp_Version := mp_Version p |}.

Record MEvent : Type := {
  me_ID : string;
  me_DistrictID : string;
  me_EntityID : string;
  me_Action : string;
  me_ActorID : string;
  me_At : Time;
  me_Metadata : option loc
}.
#[export] Instance MEvent_eta : Eta MEvent := λ e, {|
  me_ID := me_ID e; me_DistrictID := me_DistrictID e; me_EntityID := me_EntityID e;
  me_Action := me_Action e; me_ActorID := me_ActorID e; me_At := me_At e;
  me_Metadata := me_Metadata e |}.

(** ** The registry (light_registry.go) *)

Record MRegistry : Type := {
  m_complaints : gmap string MComplaint;
  m_teams : gmap string AssessmentTeam;
  m_assessments : gmap string MReservation;
  m_zones : gmap string LightingZone;
  m_rules : gmap string MRule;
  m_rectifications : gmap string MRectification;
  m_panels : gmap string MPanel;
  m_events : list MEvent;
  m_idempotency : gmap string string
}.
#[export] Instance MRegistry_eta : Eta MRegistry := λ r, {|
  m_complaints := m_complaints r; m_teams := m_teams r; m_assessments := m_assessments r;
  m_zones := m_zones r; m_rules := m_rules r; m_rectifications := m_rectifications r;
  m_panels := m_panels r; m_events := m_events r; m_idempotency := m_idempotency r |}.

Record Mem : Type := { mem_heap : heap; mem_reg : MRegistry }.
#[export] Instance Mem_eta : Eta Mem := λ m, {| mem_heap := mem_heap m; mem_reg := mem_reg m |}.

(** A new registry, made in a process that already has memory. *)
Definition m_empty : MRegistry := {|
  m_complaints := ∅; m_teams := ∅; m_assessments := ∅; m_zones := ∅; m_rules := ∅;
  m_rectifications := ∅; m_panels := ∅; m_events := []; m_idempotency := ∅ |}.
Definition NewRegistryIn (h : heap) : Mem := {| mem_heap := h; mem_reg := m_empty |}.

Abbreviation mop := (op Mem lerror).

Definition on_heap {A} (f : heap → heap * A) : mop A := λ m,
  let '(h, a) := f (mem_heap m) in (m <| mem_heap := h |>, Ok a).
Definition reg {A} (f : MRegistry → A) : mop A := gets (λ m, f (mem_reg m)).
Definition on_reg (f : MRegistry → MRegistry) : mop () :=
  modify (λ m, m <| mem_reg := f (mem_reg m) |>).

Definition m_put_complaint (id : string) (c : MComplaint) (r : MRegistry) : MRegistry :=
  r <| m_complaints := <[id := c]> (m_complaints r) |>.
Definition m_put_team (id : string) (t : AssessmentTeam) (r : MRegistry) : MRegistry :=
  r <| m_teams := <[id := t]> (m_teams r) |>.
Definition m_put_assessment (id : string) (a : MReservation) (r : MRegistry) : MRegistry :=
  r <| m_assessments := <[id := a]> (m_assessments r) |>.
Definition m_put_zone (id : string) (z : LightingZone) (r : MRegistry) : MRegistry :=
  r <| m_zones := <[id := z]> (m_zones r) |>.
Definition m_put_rule (id : string) (o : MRule) (r : MRegistry) : MRegistry :=
  r <| m_rules := <[id := o]> (m_rules r) |>.
Definition m_put_rectification (id : string) (s : MRectification) (r : MRegistry) : MRegistry :=
  r <| m_rectifications := <[id := s]> (m_rectifications r) |>.
Definition m_put_panel (id : string) (p : MPanel) (r : MRegistry) : MRegistry :=
  r <| m_panels := <[id := p]> (m_panels r) |>.
Definition m_append_event (e : MEvent) (r : MRegistry) : MRegistry :=
  r <| m_events := m_events r ++ [e] |>.

(** ** What a record shows *)

Definition seen_complaint (h : heap) (c : MComplaint) : SpillLightComplaint := {|
  sc_ID := mc_ID c; sc_DistrictID := mc_DistrictID c; sc_ResidentID := mc_ResidentID c;
  sc_ResidentName := mc_ResidentName c; sc_FacilityName := mc_FacilityName c;
  sc_VenueKind := mc_VenueKind c; sc_Status := mc_Status c;
  sc_Evidence := strings h (mc_Evidence c);
  sc_RequestedMeasurements := mc_RequestedMeasurements c;
  sc_LightingZoneID := mc_LightingZoneID c; sc_OperatingRuleID := mc_OperatingRuleID c;
  sc_RuleVersion := mc_RuleVersion c; sc_Attempt := mc_Attempt c;
  sc_Deadline := mc_Deadline c; sc_CreatedAt := mc_CreatedAt c;
  sc_UpdatedAt := mc_UpdatedAt c; sc_Version := mc_Version c |}.
Definition seen_reservation (h : heap) (a : MReservation) : AssessmentReservation := {|
  ar_ComplaintID := ma_ComplaintID a; ar_AssessmentTeamID := ma_AssessmentTeamID a;
  ar_MeasurementCount := ma_MeasurementCount a; ar_ReservedAt := ma_ReservedAt a;
  ar_ReleasedAt := instant h (ma_ReleasedAt a) |}.
Definition seen_rule (h : heap) (o : MRule) : OperatingRule := {|
  or_ID := mo_ID o; or_AuthorityID := mo_AuthorityID o; or_Kind := mo_Kind o;
  or_VenueKinds := strings h (mo_VenueKinds o); or_Capacity := mo_Capacity o;
  or_Used := mo_Used o; or_EffectiveFrom := mo_EffectiveFrom o;
  or_EffectiveTo := mo_EffectiveTo o; or_Version := mo_Version o |}.
Definition seen_rectification (h : heap) (s : MRectification) : RectificationSubmission := {|
  rs_ID := ms_ID s; rs_DistrictID := ms_DistrictID s; rs_CrewID := ms_CrewID s;
  rs_PlanType := ms_PlanType s; rs_Status := ms_Status s;
  rs_Evidence := strings h (ms_Evidence s); rs_ComplaintID := ms_ComplaintID s;
  rs_SubmittedAt := ms_SubmittedAt s; rs_ReviewedAt := instant h (ms_ReviewedAt s);
  rs_Version := ms_Version s |}.
Definition seen_panel (h : heap) (p : MPanel) : AssessorPanel := {|
  ap_ID := mp_ID p; ap_Name := mp_Name p; ap_Capacity := mp_Capacity p;
  ap_AssessorIDs := strings h (mp_AssessorIDs p);
  ap_SupervisorIDs := strings h (mp_SupervisorIDs p);
  ap_Milestones := entries h (mp_Milestones p); ap_Version := mp_Version p |}.
Definition seen_event (h : heap) (e : MEvent) : GovernanceEvent := {|
  ge_ID := me_ID e; ge_DistrictID := me_DistrictID e; ge_EntityID := me_EntityID e;
  ge_Action := me_Action e; ge_ActorID := me_ActorID e; ge_At := me_At e;
  ge_Metadata := entries h (me_Metadata e) |}.
Definition seen_registry (h : heap) (r : MRegistry) : Registry := {|
  complaints := seen_complaint h <$> m_complaints r;
  teams := m_teams r;
  assessments := seen_reservation h <$> m_assessments r;
  zones := m_zones r;
  rules := seen_rule h <$> m_rules r;
  rectifications := seen_rectification h <$> m_rectifications r;
  panels := seen_panel h <$> m_panels r;
  events := seen_event h <$> m_events r;
  idempotency := m_idempotency r |}.
Definition seen (m : Mem) : Registry := seen_registry (mem_heap m) (mem_reg m).

(** ** Clones *)

(** [for key, value := range input { output[key] = value }], into a new map. *)
Definition cloneStringMap (input : option loc) (h : heap) : heap * option loc :=
  match entries h input with
  | None => (h, None)
  | Some e =>
      let '(h, output) := new_cell (CMap (map_fold (λ key value m, <[key := value]> m) ∅ e)) h in
      (h, Some output)
  end.

Section operations.
Context `{UnicodeTables, Runtime}.

Definition cloneComplaint (complaint : MComplaint) : mop MComplaint :=
  evidence ← on_heap (Clone (mc_Evidence complaint));
  mret (complaint <| mc_Evidence := evidence |>).
Definition cloneRectification (rectification : MRectification) : mop MRectification :=
  evidence ← on_heap (Clone (ms_Evidence rectification));
  mret (rectification <| ms_Evidence := evidence |>).
Definition clonePanel (panel : MPanel) : mop MPanel :=
  assessors ← on_heap (Clone (mp_AssessorIDs panel));
  let panel := panel <| mp_AssessorIDs := assessors |> in
  supervisors ← on_heap (Clone (mp_SupervisorIDs panel));
  let panel := panel <| mp_SupervisorIDs := supervisors |> in
  milestones ← on_heap (cloneStringMap (mp_Milestones panel));
  mret (panel <| mp_Milestones := milestones |>).

(** ** Policy (light_policy.go), where it reads through a reference *)

Definition validateComplaintInput (complaint : MComplaint) : result lerror () :=
  if bool_decide (mc_ID complaint = "") || bool_decide (mc_DistrictID complaint = "")
     || bool_decide (mc_ResidentID complaint = "")
     || bool_decide (TrimSpace (mc_ResidentName complaint) = "") then
    Err (errorf_after ErrLightValidation "identity")
  else if negb (bool_decide (normalizeVenueKind (mc_VenueKind complaint) ∈ allowedVenueKinds)) then
    Err (errorf_after ErrLightValidation "venue kind")
  else if (mc_RequestedMeasurements complaint <=? 0)
          || (5000 <? mc_RequestedMeasurements complaint) then
    Err (errorf_after ErrLightValidation "requested measurements")
  else if (slice_len (mc_Evidence complaint) =? 0)%nat then
    Err (errorf_after ErrLightValidation "evidence")
  else Ok ().

Definition ruleAvailable (h : heap) (rule : MRule) (venueKind : string) (at_ : Time) : bool :=
  if Before at_ (mo_EffectiveFrom rule) || negb (Before at_ (mo_EffectiveTo rule)) then false
  else if mo_Capacity rule <=? mo_Used rule then false
  else existsb (λ candidate,
         bool_decide (normalizeVenueKind candidate = normalizeVenueKind venueKind))
         (strings h (mo_VenueKinds rule)).

Definition rectificationCanApprove (rectification : MRectification) : result lerror () :=
  if negb (bool_decide (ms_Status rectification = "submitted")) then
    Err (errorf_after ErrLightInvalidState
           ("rectification status " +:+ ms_Status rectification))
  else if bool_decide (TrimSpace (ms_CrewID rectification) = "")
          || (Z.of_nat (slice_len (ms_Evidence rectification)) <? 2) then
    Err (errorf_after ErrLightValidation "rectification evidence")
  else Ok ().

(** ** The registry's methods (light_registry.go) *)

Definition AddAssessmentTeam (cerr : option ctx_error) (team : AssessmentTeam) : mop () :=
  _ ← check_ctx cerr;
  _ ← ensure (negb (bool_decide (at_ID team = "") || (at_MeasurementCapacity team <=? 0)))
        (errorf_after ErrLightValidation "team");
  exists_ ← reg (λ r, bool_decide (is_Some (m_teams r !! at_ID team)));
  _ ← ensure (negb exists_) (errorf_after ErrLightConflict "team exists");
  on_reg (m_put_team (at_ID team) team).

Definition AddZone (cerr : option ctx_error) (zone : LightingZone) : mop () :=
  _ ← check_ctx cerr;
  _ ← ensure (negb (bool_decide (lz_ID zone = "") || bool_decide (lz_DistrictID zone = "")
                    || bool_decide (lz_VenueKind zone = "") || (lz_FixtureCapacity zone <=? 0)))
        (errorf_after ErrLightValidation "zone");
  exists_ ← reg (λ r, bool_decide (is_Some (m_zones r !! lz_ID zone)));
  _ ← ensure (negb exists_) (errorf_after ErrLightConflict "zone exists");
  on_reg (m_put_zone (lz_ID zone) zone).

Definition AddRule (cerr : option ctx_error) (rule : MRule) : mop () :=
  _ ← check_ctx cerr;
  _ ← ensure (negb (bool_decide (mo_ID rule = "") || bool_decide (mo_AuthorityID rule = "")
                    || (mo_Capacity rule <=? 0)
                    || negb (Before (mo_EffectiveFrom rule) (mo_EffectiveTo rule))))
        (errorf_after ErrLightValidation "rule");
  exists_ ← reg (λ r, bool_decide (is_Some (m_rules r !! mo_ID rule)));
  _ ← ensure (negb exists_) (errorf_after ErrLightConflict "rule exists");
  kinds ← on_heap (Clone (mo_VenueKinds rule));
  let rule := rule <| mo_VenueKinds := kinds |> in
  on_reg (m_put_rule (mo_ID rule) rule).

Definition AddPanel (cerr : option ctx_error) (panel : MPanel) : mop () :=
  _ ← check_ctx cerr;
  _ ← ensure (negb (bool_decide (mp_ID panel = "") || (mp_Capacity panel <=? 0)))
        (errorf_after ErrLightValidation "panel");
  exists_ ← reg (λ r, bool_decide (is_Some (m_panels r !! mp_ID panel)));
  _ ← ensure (negb exists_) (errorf_after ErrLightConflict "panel exists");
  panel ← clonePanel panel;
  on_reg (m_put_panel (mp_ID panel) panel).

(** [Complaint], [Rectification] and [Panel] clone what they return;
    [Assessment] returns the record with the registry's own pointer. *)
Definition Complaint (id : string) : mop (option MComplaint) :=
  complaint ← reg (λ r, m_complaints r !! id);
  match complaint with
  | None => mret None
  | Some complaint =>
      complaint ← cloneComplaint complaint;
      mret (Some complaint)
  end.
Definition Assessment (complaintID : string) : mop (option MReservation) :=
  reg (λ r, m_assessments r !! complaintID).
Definition AssessmentTeam_ (id : string) : mop (option AssessmentTeam) :=
  reg (λ r, m_teams r !! id).
Definition Rectification (id : string) : mop (option MRectification) :=
  rectification ← reg (λ r, m_rectifications r !! id);
  match rectification with
  | None => mret None
  | Some rectification =>
      rectification ← cloneRectification rectification;
      mret (Some rectification)
  end.
Definition Panel (id : string) : mop (option MPanel) :=
  panel ← reg (λ r, m_panels r !! id);
  match panel with
  | None => mret None
  | Some panel => panel ← clonePanel panel; mret (Some panel)
  end.

(** [for i, event := range r.events { output[i] = event; ... }] *)
Fixpoint map_each {A B} (f : A → mop B) (l : list A) : mop (list B) :=
  match l with
  | [] => mret []
  | x :: l => y ← f x; ys ← map_each f l; mret (y :: ys)
  end.
Definition Events : mop (list MEvent) :=
  events ← reg m_events;
  map_each (λ event,
    metadata ← on_heap (cloneStringMap (me_Metadata event));
    mret (event <| me_Metadata := metadata |>)) events.

(** ** The service (light_service.go) *)

Definition SubmitComplaint (call : Call) (complaint : MComplaint) : mop MComplaint :=
  _ ← check_ctx (call_ctx call);
  _ ← lift (validateComplaintInput complaint);
  let now := call_now call in
  let complaint := complaint
    <| mc_ResidentName := TrimSpace (mc_ResidentName complaint) |>
    <| mc_VenueKind := normalizeVenueKind (mc_VenueKind complaint) |>
    <| mc_Status := ComplaintPending |>
    <| mc_Attempt := 1 |>
    <| mc_CreatedAt := now |> <| mc_UpdatedAt := now |> in
  evidence ← on_heap (Clone (mc_Evidence complaint));
  let complaint := complaint <| mc_Evidence := evidence |> in
  exists_ ← reg (λ r, bool_decide (is_Some (m_complaints r !! mc_ID complaint)));
  _ ← ensure (negb exists_) (errorf_after ErrLightConflict "complaint exists");
  _ ← on_reg (λ r, m_append_event
    {| me_ID := mc_ID complaint +:+ "-submitted"; me_DistrictID := mc_DistrictID complaint;
       me_EntityID := mc_ID complaint; me_Action := "complaint.submitted";
       me_ActorID := mc_ResidentID complaint; me_At := now; me_Metadata := None |}
    (m_put_complaint (mc_ID complaint) complaint r));
  cloneComplaint complaint.

(** [existing, exists := assessments[id]; exists && existing.ReleasedAt == nil] *)
Definition m_active_assessment (r : MRegistry) (complaintID : string) : option MReservation :=
  match m_assessments r !! complaintID with
  | Some a => if bool_decide (ma_ReleasedAt a = None) then Some a else None
  | None => None
  end.

Definition ReserveAssessment (call : Call) (complaintID teamID : string)
    (measurementCount : Z) : mop MReservation :=
  _ ← check_ctx (call_ctx call);
  _ ← ensure (negb (measurementCount <=? 0))
        (errorf_after ErrLightValidation "measurement count");
  let now := call_now call in
  r ← reg id;
  complaint ← must (m_complaints r !! complaintID) (Sentinel ErrLightComplaintNotFound);
  team ← must (m_teams r !! teamID) (Sentinel ErrLightAssessmentTeamNotFound);
  _ ← ensure (bool_decide (mc_Status complaint = ComplaintPending)
              || bool_decide (mc_Status complaint = ComplaintReturned))
        (errorf_after ErrLightInvalidState "assessment requires pending complaint");
  _ ← ensure (measurementCapacityAvailable team measurementCount)
        (Sentinel ErrLightCapacity);
  match m_active_assessment r complaintID with
  | Some existing => mret existing
  | None =>
      let team := team
        <| at_ReservedMeasurements := at_ReservedMeasurements team +ᵢ measurementCount |>
        <| at_Version := at_Version team +ᵢ 1 |> in
      let assessment := {| ma_ComplaintID := complaintID; ma_AssessmentTeamID := teamID;
        ma_MeasurementCount := measurementCount; ma_ReservedAt := now;
        ma_ReleasedAt := None |} in
      let complaint := complaint
        <| mc_UpdatedAt := now |> <| mc_Version := mc_Version complaint +ᵢ 1 |> in
      _ ← on_reg (λ r, m_put_complaint complaintID complaint
            (m_put_assessment complaintID assessment (m_put_team teamID team r)));
      mret assessment
  end.

(** [assessment.ReleasedAt = &now] puts the local variable on the heap. *)
Definition ReleaseAssessment (call : Call) (complaintID : string) : mop () :=
  _ ← check_ctx (call_ctx call);
  let now := call_now call in
  r ← reg id;
  match m_active_assessment r complaintID with
  | None => mret ()
  | Some assessment =>
      team ← must (m_teams r !! ma_AssessmentTeamID assessment)
               (Sentinel ErrLightAssessmentTeamNotFound);
      _ ← ensure (negb (at_ReservedMeasurements team <? ma_MeasurementCount assessment))
            (errorf_after ErrLightConflict "allocated measurements underflow");
      let team := team
        <| at_ReservedMeasurements :=
             at_ReservedMeasurements team -ᵢ ma_MeasurementCount assessment |>
        <| at_Version := at_Version team +ᵢ 1 |> in
      now ← on_heap (new_cell (CTime now));
      let assessment := assessment <| ma_ReleasedAt := Some now |> in
      on_reg (λ r, m_put_assessment complaintID assessment (m_put_team (at_ID team) team r))
  end.

Definition AcceptComplaint (call : Call) (complaintID actorID : string) : mop MComplaint :=
  _ ← check_ctx (call_ctx call);
  let now := call_now call in
  r ← reg id;
  complaint ← must (m_complaints r !! complaintID) (Sentinel ErrLightComplaintNotFound);
  _ ← ensure (negb (bool_decide (actorID = ""))) (Sentinel ErrLightAuthorization);
  _ ← ensure (validComplaintTransition (mc_Status complaint) ComplaintAccepted)
        (errorf_after ErrLightInvalidState
           ("approve from " +:+ complaint_status_text (mc_Status complaint)));
  _ ← ensure (bool_decide (is_Some (m_assessments r !! complaintID)))
        (errorf_after ErrLightCapacity "assessment is not reserved");
  _ ← ensure (negb (bool_decide (mc_LightingZoneID complaint = "")))
        (errorf_after ErrLightZoneNotFound "lighting zone is required");
  _ ← ensure (match m_zones r !! mc_LightingZoneID complaint with
              | Some zone => lz_Active zone
              | None => false
              end)
        (errorf_after ErrLightZoneNotFound "zone unavailable");
  let complaint := complaint
    <| mc_Status := ComplaintAccepted |> <| mc_UpdatedAt := now |>
    <| mc_Version := mc_Version complaint +ᵢ 1 |> in
  _ ← on_reg (λ r, m_append_event
    {| me_ID := complaintID +:+ "-accepted"; me_DistrictID := "";
       me_EntityID := complaintID; me_Action := "complaint.accepted";
       me_ActorID := actorID; me_At := now; me_Metadata := None |}
    (m_put_complaint complaintID complaint r));
  cloneComplaint complaint.

Definition AssignZone (cerr : option ctx_error) (complaintID zoneID : string)
    (fixtureCount : Z) : mop () :=
  _ ← check_ctx cerr;
  _ ← ensure (negb (fixtureCount <=? 0)) (errorf_after ErrLightValidation "zone capacity");
  r ← reg id;
  complaint ← must (m_complaints r !! complaintID) (Sentinel ErrLightComplaintNotFound);
  zone ← must (m_zones r !! zoneID) (Sentinel ErrLightZoneNotFound);
  _ ← ensure (negb (negb (bool_decide (lz_DistrictID zone = mc_DistrictID complaint))
                    || negb (bool_decide (normalizeVenueKind (lz_VenueKind zone) =
                                          normalizeVenueKind (mc_VenueKind complaint)))))
        (errorf_after ErrLightAuthorization "zone district or venueKind");
  _ ← ensure (negb (negb (lz_Active zone)
                    || (lz_FixtureCapacity zone -ᵢ lz_AllocatedFixtures zone <? fixtureCount)))
        (Sentinel ErrLightCapacity);
  let zone := zone
    <| lz_AllocatedFixtures := lz_AllocatedFixtures zone +ᵢ fixtureCount |>
    <| lz_Version := lz_Version zone +ᵢ 1 |> in
  let complaint := complaint
    <| mc_LightingZoneID := zoneID |> <| mc_Version := mc_Version complaint +ᵢ 1 |> in
  on_reg (λ r, m_put_complaint complaintID complaint (m_put_zone zoneID zone r)).

(** The record keeps the caller's [ReviewedAt]. *)
Definition PublishRectification (call : Call) (rectification : MRectification) :
    mop MRectification :=
  _ ← check_ctx (call_ctx call);
  _ ← ensure (negb (bool_decide (ms_ID rectification = "")
                    || bool_decide (ms_DistrictID rectification = "")
                    || bool_decide (TrimSpace (ms_CrewID rectification) = "")
                    || bool_decide (ms_ComplaintID rectification = "")))
        (errorf_after ErrLightValidation "rectification identity");
  _ ← ensure (negb (Z.of_nat (slice_len (ms_Evidence rectification)) <? 2))
        (errorf_after ErrLightValidation "at least two evidence items");
  let now := call_now call in
  let rectification := rectification
    <| ms_CrewID := TrimSpace (ms_CrewID rectification) |>
    <| ms_Status := "submitted" |> <| ms_SubmittedAt := now |> in
  evidence ← on_heap (Clone (ms_Evidence rectification));
  let rectification := rectification <| ms_Evidence := evidence |> in
  r ← reg id;
  _ ← ensure (negb (bool_decide (is_Some (m_rectifications r !! ms_ID rectification))))
        (errorf_after ErrLightConflict "rectification exists");
  _ ← ensure (match m_complaints r !! ms_ComplaintID rectification with
              | Some complaint =>
                  bool_decide (mc_DistrictID complaint = ms_DistrictID rectification)
              | None => false
              end)
        (Sentinel ErrLightComplaintNotFound);
  _ ← on_reg (m_put_rectification (ms_ID rectification) rectification);
  cloneRectification rectification.

Definition VerifyRectification (call : Call) (rectificationID reviewerID : string) :
    mop MRectification :=
  _ ← check_ctx (call_ctx call);
  _ ← ensure (negb (bool_decide (reviewerID = ""))) (Sentinel ErrLightAuthorization);
  let now := call_now call in
  r ← reg id;
  rectification ← must (m_rectifications r !! rectificationID)
                    (Sentinel ErrLightRectificationNotFound);
  _ ← lift (rectificationCanApprove rectification);
  now ← on_heap (new_cell (CTime now));
  let rectification := rectification
    <| ms_Status := "accepted" |> <| ms_Version := ms_Version rectification +ᵢ 1 |>
    <| ms_ReviewedAt := Some now |> in
  _ ← on_reg (m_put_rectification rectificationID rectification);
  cloneRectification rectification.

Definition ApplyRule (cerr : option ctx_error) (wall : Time) (complaintID ruleID : string)
    (at_ : Time) : mop () :=
  _ ← check_ctx cerr;
  m ← gets id;
  let r := mem_reg m in
  complaint ← must (m_complaints r !! complaintID) (Sentinel ErrLightComplaintNotFound);
  rule ← must (m_rules r !! ruleID) (Sentinel ErrLightRuleNotFound);
  _ ← ensure (ruleAvailable (mem_heap m) rule (mc_VenueKind complaint) (nowOr wall at_))
        (Sentinel ErrLightCapacity);
  let rule := rule <| mo_Used := mo_Used rule +ᵢ 1 |>
                   <| mo_Version := mo_Version rule +ᵢ 1 |> in
  let complaint := complaint
    <| mc_OperatingRuleID := ruleID |> <| mc_Version := mc_Version complaint +ᵢ 1 |> in
  on_reg (λ r, m_put_complaint complaintID complaint (m_put_rule ruleID rule r)).

Definition EnrollAssessor (cerr : option ctx_error) (panelID assessorID : string) :
    mop MPanel :=
  _ ← check_ctx cerr;
  _ ← ensure (negb (bool_decide (TrimSpace assessorID = "")))
        (errorf_after ErrLightValidation "assessor");
  m ← gets id;
  panel ← must (m_panels (mem_reg m) !! panelID) (Sentinel ErrLightAssessorPanelNotFound);
  if bool_decide (assessorID ∈ strings (mem_heap m) (mp_AssessorIDs panel)) then
    clonePanel panel
  else
    _ ← ensure (negb (mp_Capacity panel <=? Z.of_nat (slice_len (mp_AssessorIDs panel))))
          (Sentinel ErrLightCapacity);
    assessors ← on_heap (append_one (mp_AssessorIDs panel) assessorID);
    let panel := panel
      <| mp_AssessorIDs := Some assessors |>
      <| mp_Version := mp_Version panel +ᵢ 1 |> in
    _ ← on_reg (m_put_panel panelID panel);
    clonePanel panel.

Definition ResubmitComplaint (call : Call) (complaintID : string) (evidence : option slice) :
    mop MComplaint :=
  _ ← check_ctx (call_ctx call);
  _ ← ensure (negb (slice_len evidence =? 0)%nat)
        (errorf_after ErrLightValidation "resubmission evidence");
  let now := call_now call in
  r ← reg id;
  complaint ← must (m_complaints r !! complaintID) (Sentinel ErrLightComplaintNotFound);
  _ ← ensure (bool_decide (mc_Status complaint = ComplaintReturned))
        (errorf_after ErrLightInvalidState
           ("resubmit from " +:+ complaint_status_text (mc_Status complaint)));
  evidence ← on_heap (Clone evidence);
  let complaint := complaint
    <| mc_Status := ComplaintPending |> <| mc_Attempt := mc_Attempt complaint +ᵢ 1 |>
    <| mc_Evidence := evidence |> <| mc_UpdatedAt := now |>
    <| mc_Version := mc_Version complaint +ᵢ 1 |> in
  _ ← on_reg (m_put_complaint complaintID complaint);
  cloneComplaint complaint.

Definition CloseComplaint (call : Call) (complaintID : string) : mop () :=
  _ ← check_ctx (call_ctx call);
  let now := call_now call in
  r ← reg id;
  complaint ← must (m_complaints r !! complaintID) (Sentinel ErrLightComplaintNotFound);
  _ ← ensure (validComplaintTransition (mc_Status complaint) ComplaintClosed)
        (errorf_after ErrLightInvalidState
           ("close from " +:+ complaint_status_text (mc_Status complaint)));
  let complaint := complaint
    <| mc_Status := ComplaintClosed |> <| mc_UpdatedAt := now |>
    <| mc_Version := mc_Version complaint +ᵢ 1 |> in
  on_reg (m_put_complaint complaintID complaint).

Definition m_query_keeps (query : ComplaintQuery) (complaint : MComplaint) : bool :=
  if negb (bool_decide (cq_DistrictID query = ""))
     && negb (bool_decide (mc_DistrictID complaint = cq_DistrictID query)) then false
  else if negb (bool_decide (cq_Status query = ComplaintOther ""))
          && negb (bool_decide (mc_Status complaint = cq_Status query)) then false
  else if negb (bool_decide (cq_VenueKind query = ""))
          && negb (bool_decide (normalizeVenueKind (mc_VenueKind complaint) =
                                normalizeVenueKind (cq_VenueKind query))) then false
  else true.

(** As in LightService, [order] is the sequence in which the loop visits the
    map. The result and its total. *)
Definition ListComplaints (cerr : option ctx_error) (query : ComplaintQuery)
    (order : list (string * MComplaint)) : mop (list MComplaint * Z) :=
  _ ← check_ctx cerr;
  _ ← ensure (negb ((cq_Offset query <? 0) || (cq_Limit query <? 0) || (100 <? cq_Limit query)))
        (errorf_after ErrLightValidation "pagination");
  items ← map_each cloneComplaint (List.filter (m_query_keeps query) (snd <$> order));
  let n := Z.of_nat (length items) in
  if n <=? cq_Offset query then mret ([], n)
  else
    let end_ := if (0 <? cq_Limit query) && (cq_Offset query +ᵢ cq_Limit query <? n)
                then cq_Offset query +ᵢ cq_Limit query else n in
    mret (take (Z.to_nat (end_ - cq_Offset query)) (drop (Z.to_nat (cq_Offset query)) items), n).
End operations.

(** ** The registry and its callers

    Callers hold references into the same memory: those they made themselves
    and those the registry handed out. Between two calls they may write
    through any of them. *)

Inductive mem_call : Type :=
| MAddAssessmentTeam (cerr : option ctx_error) (team : AssessmentTeam)
| MAddZone (cerr : option ctx_error) (zone : LightingZone)
| MAddRule (cerr : option ctx_error) (rule : MRule)
| MAddPanel (cerr : option ctx_error) (panel : MPanel)
| MSubmitComplaint (call : Call) (complaint : MComplaint)
| MReserveAssessment (call : Call) (complaintID teamID : string) (count : Z)
| MReleaseAssessment (call : Call) (complaintID : string)
| MAcceptComplaint (call : Call) (complaintID actorID : string)
| MAssignZone (cerr : option ctx_error) (complaintID zoneID : string) (count : Z)
| MPublishRectification (call : Call) (rectification : MRectification)
| MVerifyRectification (call : Call) (rectificationID reviewerID : string)
| MApplyRule (cerr : option ctx_error) (wall : Time) (complaintID ruleID : string) (at_ : Time)
| MEnrollAssessor (cerr : option ctx_error) (panelID assessorID : string)
| MResubmitComplaint (call : Call) (complaintID : string) (evidence : option slice)
| MCloseComplaint (call : Call) (complaintID : string)
| MComplaintOf (id : string)
| MAssessmentOf (complaintID : string)
| MTeamOf (id : string)
| MRectificationOf (id : string)
| MPanelOf (id : string)
| MEventsOf
| MListComplaints (cerr : option ctx_error) (query : ComplaintQuery) (order : list (string * MComplaint)).

(** What a call returns, with records in memory or with values. *)
Inductive reply (C A S P E : Type) : Type :=
| RNothing
| RComplaint (complaint : option C)
| RReservation (reservation : option A)
| RTeam (team : option AssessmentTeam)
| RRectification (rectification : option S)
| RPanel (panel : option P)
| REvents (events : list E)
| RComplaints (complaints : list C) (total : Z).
Arguments RNothing {C A S P E}.
Arguments RComplaint {C A S P E} complaint.
Arguments RReservation {C A S P E} reservation.
Arguments RTeam {C A S P E} team.
Arguments RRectification {C A S P E} rectification.
Arguments RPanel {C A S P E} panel.
Arguments REvents {C A S P E} events.
Arguments RComplaints {C A S P E} complaints total.
Abbreviation mem_reply := (reply MComplaint MReservation MRectification MPanel MEvent).
Abbreviation light_reply :=
  (reply SpillLightComplaint AssessmentReservation RectificationSubmission AssessorPanel GovernanceEvent).

Definition seen_reply (h : heap) (a : mem_reply) : light_reply :=
  match a with
  | RNothing => RNothing
  | RComplaint c => RComplaint (seen_complaint h <$> c)
  | RReservation a => RReservation (seen_reservation h <$> a)
  | RTeam t => RTeam t
  | RRectification s => RRectification (seen_rectification h <$> s)
  | RPanel p => RPanel (seen_panel h <$> p)
  | REvents es => REvents (seen_event h <$> es)
  | RComplaints cs n => RComplaints (seen_complaint h <$> cs) n
  end.
Definition seen_result (h : heap) (a : result lerror mem_reply) : result lerror light_reply :=
  match a with Ok a => Ok (seen_reply h a) | Err e => Err e end.

Definition giving {St A B} (f : A → B) (m : op St lerror A) : op St lerror B :=
  a ← m; mret (f a).

Section machine.
Context `{UnicodeTables, Runtime}.

Definition exec_mem (c : mem_call) : mop mem_reply :=
  match c with
  | MAddAssessmentTeam cerr team => giving (λ _, RNothing) (AddAssessmentTeam cerr team)
  | MAddZone cerr zone => giving (λ _, RNothing) (AddZone cerr zone)
  | MAddRule cerr rule => giving (λ _, RNothing) (AddRule cerr rule)
  | MAddPanel cerr panel => giving (λ _, RNothing) (AddPanel cerr panel)
  | MSubmitComplaint call c => giving (λ c, RComplaint (Some c)) (SubmitComplaint call c)
  | MReserveAssessment call c t n =>
      giving (λ a, RReservation (Some a)) (ReserveAssessment call c t n)
  | MReleaseAssessment call c => giving (λ _, RNothing) (ReleaseAssessment call c)
  | MAcceptComplaint call c a => giving (λ c, RComplaint (Some c)) (AcceptComplaint call c a)
  | MAssignZone cerr c z n => giving (λ _, RNothing) (AssignZone cerr c z n)
  | MPublishRectification call s =>
      giving (λ s, RRectification (Some s)) (PublishRectification call s)
  | MVerifyRectification call s v =>
      giving (λ s, RRectification (Some s)) (VerifyRectification call s v)
  | MApplyRule cerr wall c o t => giving (λ _, RNothing) (ApplyRule cerr wall c o t)
  | MEnrollAssessor cerr p a => giving (λ p, RPanel (Some p)) (EnrollAssessor cerr p a)
  | MResubmitComplaint call c ev =>
      giving (λ c, RComplaint (Some c)) (ResubmitComplaint call c ev)
  | MCloseComplaint call c => giving (λ _, RNothing) (CloseComplaint call c)
  | MComplaintOf id => giving RComplaint (Complaint id)
  | MAssessmentOf id => giving RReservation (Assessment id)
  | MTeamOf id => giving RTeam (AssessmentTeam_ id)
  | MRectificationOf id => giving RRectification (Rectification id)
  | MPanelOf id => giving RPanel (Panel id)
  | MEventsOf => giving REvents Events
  | MListComplaints cerr query order =>
      giving (λ '(cs, n), RComplaints cs n) (ListComplaints cerr query order)
  end.

(** The same call on values: its arguments as they are seen when it is made. *)
Definition exec_values (h : heap) (c : mem_call) : lop light_reply :=
  match c with
  | MAddAssessmentTeam cerr team => giving (λ _, RNothing) (LightModel.AddAssessmentTeam cerr team)
  | MAddZone cerr zone => giving (λ _, RNothing) (LightModel.AddZone cerr zone)
  | MAddRule cerr rule => giving (λ _, RNothing) (LightModel.AddRule cerr (seen_rule h rule))
  | MAddPanel cerr panel => giving (λ _, RNothing) (LightModel.AddPanel cerr (seen_panel h panel))
  | MSubmitComplaint call c =>
      giving (λ c, RComplaint (Some c)) (LightService.SubmitComplaint call (seen_complaint h c))
  | MReserveAssessment call c t n =>
      giving (λ a, RReservation (Some a)) (LightService.ReserveAssessment call c t n)
  | MReleaseAssessment call c => giving (λ _, RNothing) (LightService.ReleaseAssessment call c)
  | MAcceptComplaint call c a =>
      giving (λ c, RComplaint (Some c)) (LightService.AcceptComplaint call c a)
  | MAssignZone cerr c z n => giving (λ _, RNothing) (LightService.AssignZone cerr c z n)
  | MPublishRectification call s =>
      giving (λ s, RRectification (Some s))
        (LightService.PublishRectification call (seen_rectification h s))
  | MVerifyRectification call s v =>
      giving (λ s, RRectification (Some s)) (LightService.VerifyRectification call s v)
  | MApplyRule cerr wall c o t => giving (λ _, RNothing) (LightService.ApplyRule cerr wall c o t)
  | MEnrollAssessor cerr p a =>
      giving (λ p, RPanel (Some p)) (LightService.EnrollAssessor cerr p a)
  | MResubmitComplaint call c ev =>
      giving (λ c, RComplaint (Some c)) (LightService.ResubmitComplaint call c (strings h ev))
  | MCloseComplaint call c => giving (λ _, RNothing) (LightService.CloseComplaint call c)
  | MComplaintOf id => gets (λ r, RComplaint (LightModel.Complaint r id))
  | MAssessmentOf id => gets (λ r, RReservation (LightModel.Assessment r id))
  | MTeamOf id => gets (λ r, RTeam (LightModel.AssessmentTeam_ r id))
  | MRectificationOf id => gets (λ r, RRectification (LightModel.Rectification r id))
  | MPanelOf id => gets (λ r, RPanel (LightModel.Panel r id))
  | MEventsOf => gets (λ r, REvents (LightModel.Events r))
  | MListComplaints cerr query order =>
      giving (λ q, RComplaints (cr_Complaints q) (cr_Total q))
        (lift (LightService.ListComplaints cerr query (prod_map id (seen_complaint h) <$> order)))
  end.
End machine.

(** ** What a caller may do *)

Section callers.
Context `{UnicodeTables, Runtime}.

(** A caller passes only references it has, and within Go's types. *)
Definition known_slice (K : gset loc) (h : heap) (s : option slice) : Prop :=
  match s with Some s => sl_array s ∈ K ∧ slice_fits h s | None => True end.
Definition known_map (K : gset loc) (h : heap) (p : option loc) : Prop :=
  match p with Some l => l ∈ K ∧ is_map h l | None => True end.
Definition known_time (K : gset loc) (h : heap) (p : option loc) : Prop :=
  match p with Some l => l ∈ K ∧ is_time h l | None => True end.
Definition legal (K : gset loc) (m : Mem) (c : mem_call) : Prop :=
  let h := mem_heap m in
  match c with
  | MAddRule _ rule => known_slice K h (mo_VenueKinds rule)
  | MAddPanel _ panel =>
      known_slice K h (mp_AssessorIDs panel) ∧ known_slice K h (mp_SupervisorIDs panel) ∧
      known_map K h (mp_Milestones panel)
  | MSubmitComplaint _ c => known_slice K h (mc_Evidence c)
  | MPublishRectification _ s => known_slice K h (ms_Evidence s) ∧ known_time K h (ms_ReviewedAt s)
  | MResubmitComplaint _ _ ev => known_slice K h ev
  | MListComplaints _ _ order => order ≡ₚ map_to_list (m_complaints (mem_reg m))
  | _ => True
  end.

(** The references in an answer. *)
Definition slice_ref (s : option slice) : gset loc :=
  match s with Some s => {[ sl_array s ]} | None => ∅ end.
Definition ref (p : option loc) : gset loc := match p with Some l => {[ l ]} | None => ∅ end.
Definition panel_refs (p : MPanel) : gset loc :=
  slice_ref (mp_AssessorIDs p) ∪ slice_ref (mp_SupervisorIDs p) ∪ ref (mp_Milestones p).
Definition reply_refs (a : mem_reply) : gset loc :=
  match a with
  | RNothing | RTeam _ => ∅
  | RComplaint c => from_option (λ c, slice_ref (mc_Evidence c)) ∅ c
  | RReservation a => from_option (λ a, ref (ma_ReleasedAt a)) ∅ a
  | RRectification s =>
      from_option (λ s, slice_ref (ms_Evidence s) ∪ ref (ms_ReviewedAt s)) ∅ s
  | RPanel p => from_option panel_refs ∅ p
  | REvents es => ⋃ ((λ e, ref (me_Metadata e)) <$> es)
  | RComplaints cs _ => ⋃ ((λ c, slice_ref (mc_Evidence c)) <$> cs)
  end.
Definition result_refs (a : result lerror mem_reply) : gset loc :=
  match a with Ok a => reply_refs a | Err _ => ∅ end.

(** The memory of the process, and the cells the callers can reach. *)
Record world : Type := { w_mem : Mem; w_known : gset loc }.

Inductive move : Type :=
| MoveNew (c : cell)
| MoveWrite (l : loc) (c : cell)
| MoveCall (c : mem_call).

Inductive world_step (w : world) : move → world → Prop :=
| ws_new c h' l :
    new_cell c (mem_heap (w_mem w)) = (h', l) →
    world_step w (MoveNew c)
      {| w_mem := (w_mem w) <| mem_heap := h' |>; w_known := {[ l ]} ∪ w_known w |}
| ws_write l c c' :
    l ∈ w_known w → mem_heap (w_mem w) !! l = Some c → same_shape c c' = true →
    world_step w (MoveWrite l c')
      {| w_mem := (w_mem w) <| mem_heap := <[l := c']> (mem_heap (w_mem w)) |>;
         w_known := w_known w |}
| ws_call c m' a :
    legal (w_known w) (w_mem w) c → exec_mem c (w_mem w) = (m', a) →
    world_step w (MoveCall c) {| w_mem := m'; w_known := w_known w ∪ result_refs a |}.

(** A new registry, in memory that the callers know all of. *)
Definition new_world (w : world) : Prop :=
  mem_reg (w_mem w) = m_empty ∧ w_known w = dom (mem_heap (w_mem w)).
End callers.
