(* ===== verification/LightMemoryFacts.v ===== *)
(** * The hub in memory: its operations do what the operations on values do

    [ok own client m] is the ownership of every cell: the arrays and maps the
    registry refers to belong to one field of one record each, the cells the
    callers know (the memory [client]) to nobody, and neither do the times
    that pointers of the registry point to. A relational Hoare logic ([sim])
    runs an operation in memory beside the operation on values. *)
From stdpp Require Import fin_map_dom.
From S2P Require Import Prelude GoErrors GoStrings GoMemory LightModel LightService LightMemory.

(** ** Ownership *)

Inductive owner : Type :=
| Open
| EvidenceOf (complaint : string)
| ReportOf (rectification : string)
| KindsOf (rule : string)
| AssessorsOf (panel : string)
| SupervisorsOf (panel : string)
| MilestonesOf (panel : string).
#[export] Instance owner_eq_dec : EqDecision owner.
Proof. solve_decision. Defined.

Abbreviation ownership := (gmap loc owner).

Definition holds_slice (own : ownership) (h : heap) (o : owner) (s : option slice) : Prop :=
  match s with
  | Some s => own !! sl_array s = Some o ∧ slice_fits h s
  | None => True
  end.
Definition holds_map (own : ownership) (h : heap) (o : owner) (p : option loc) : Prop :=
  match p with Some l => own !! l = Some o ∧ is_map h l | None => True end.
Definition holds_time (own : ownership) (h : heap) (p : option loc) : Prop :=
  match p with Some l => own !! l = Some Open ∧ is_time h l | None => True end.

(** What a record must own: as the record of a key of the registry, or, with
    [Open] for every field, as a record in the hands of a caller. *)
Definition owns_complaint own h o (c : MComplaint) : Prop := holds_slice own h o (mc_Evidence c).
Definition owns_rule own h o (r : MRule) : Prop := holds_slice own h o (mo_VenueKinds r).
Definition owns_reservation own h (a : MReservation) : Prop := holds_time own h (ma_ReleasedAt a).
Definition owns_rectification own h o (s : MRectification) : Prop :=
  holds_slice own h o (ms_Evidence s) ∧ holds_time own h (ms_ReviewedAt s).
Definition owns_panel own h o1 o2 o3 (p : MPanel) : Prop :=
  holds_slice own h o1 (mp_AssessorIDs p) ∧ holds_slice own h o2 (mp_SupervisorIDs p) ∧
  holds_map own h o3 (mp_Milestones p).

Record ok_registry (own : ownership) (h : heap) (r : MRegistry) : Prop := {
  ok_complaints : map_Forall (λ id, owns_complaint own h (EvidenceOf id)) (m_complaints r);
  ok_assessments : map_Forall (λ _, owns_reservation own h) (m_assessments r);
  ok_rules : map_Forall (λ id, owns_rule own h (KindsOf id)) (m_rules r);
  ok_rectifications :
    map_Forall (λ id, owns_rectification own h (ReportOf id)) (m_rectifications r);
  ok_panels : map_Forall (λ id,
    owns_panel own h (AssessorsOf id) (SupervisorsOf id) (MilestonesOf id)) (m_panels r);
  ok_events : Forall (λ e, me_Metadata e = None) (m_events r)
}.

Record ok (own : ownership) (client : heap) (m : Mem) : Prop := {
  ok_dom l : is_Some (own !! l) ↔ is_Some (mem_heap m !! l);
  ok_client : client ⊆ mem_heap m;
  ok_open l : is_Some (client !! l) → own !! l = Some Open;
  ok_reg : ok_registry own (mem_heap m) (mem_reg m)
}.

(** ** What is kept when cells are written that nobody reads *)

(** [agree own h own' h' P]: everything owned is still owned, and the cells
    whose owner satisfies [P] are as they were. *)
Definition agree (P : owner → Prop) (own : ownership) (h : heap) (own' : ownership) (h' : heap) : Prop :=
  own ⊆ own' ∧ ∀ l o, own !! l = Some o → P o → h' !! l = h !! l.

Section agree.
Context (P : owner → Prop) (own own' : ownership) (h h' : heap) (Ha : agree P own h own' h').

Lemma array_agree l o : own !! l = Some o → P o → array h' l = array h l.
Proof. intros Ho HP. unfold array. by rewrite (proj2 Ha _ _ Ho HP). Qed.
Lemma holds_slice_agree o s : P o → holds_slice own h o s → holds_slice own' h' o s.
Proof.
  destruct s as [s|]; [|done]. intros HP [Ho Hf]. split; [by eapply lookup_weaken, Ha|].
  unfold slice_fits in *. by rewrite (array_agree _ _ Ho HP).
Qed.
Lemma strings_agree o s : P o → holds_slice own h o s → strings h' s = strings h s.
Proof.
  destruct s as [s|]; [|done]. intros HP [Ho _]. simpl. unfold slice_items.
  by rewrite (array_agree _ _ Ho HP).
Qed.
Lemma holds_map_agree o p : P o → holds_map own h o p → holds_map own' h' o p.
Proof.
  destruct p as [l|]; [|done]. intros HP [Ho Hm]. split; [by eapply lookup_weaken, Ha|].
  unfold is_map in *. by rewrite (proj2 Ha _ _ Ho HP).
Qed.
Lemma entries_agree o p : P o → holds_map own h o p → entries h' p = entries h p.
Proof.
  destruct p as [l|]; [|done]. intros HP [Ho _]. simpl. by rewrite (proj2 Ha _ _ Ho HP).
Qed.
Lemma holds_time_agree p : P Open → holds_time own h p → holds_time own' h' p.
Proof.
  destruct p as [l|]; [|done]. intros HP [Ho Hm]. split; [by eapply lookup_weaken, Ha|].
  unfold is_time in *. by rewrite (proj2 Ha _ _ Ho HP).
Qed.
Lemma instant_agree p : P Open → holds_time own h p → instant h' p = instant h p.
Proof.
  destruct p as [l|]; [|done]. intros HP [Ho _]. simpl. by rewrite (proj2 Ha _ _ Ho HP).
Qed.

(** Records, and with them the registry. *)
Lemma complaint_agree o c : P o → owns_complaint own h o c →
  owns_complaint own' h' o c ∧ seen_complaint h' c = seen_complaint h c.
Proof.
  intros HP Hc. split; [by apply holds_slice_agree|].
  unfold seen_complaint. by rewrite (strings_agree o).
Qed.
Lemma rule_agree o r : P o → owns_rule own h o r →
  owns_rule own' h' o r ∧ seen_rule h' r = seen_rule h r.
Proof.
  intros HP Hc. split; [by apply holds_slice_agree|].
  unfold seen_rule. by rewrite (strings_agree o).
Qed.
Lemma reservation_agree a : P Open → owns_reservation own h a →
  owns_reservation own' h' a ∧ seen_reservation h' a = seen_reservation h a.
Proof.
  intros HP Hc. split; [by apply holds_time_agree|].
  unfold seen_reservation. by rewrite instant_agree.
Qed.
Lemma rectification_agree o s : P o → P Open → owns_rectification own h o s →
  owns_rectification own' h' o s ∧ seen_rectification h' s = seen_rectification h s.
Proof.
  intros HP HO [Hs Ht]. split; [by split; [apply holds_slice_agree|apply holds_time_agree]|].
  unfold seen_rectification. by rewrite (strings_agree o), instant_agree.
Qed.
Lemma panel_agree o1 o2 o3 p :
  P o2 → P o3 → owns_panel own h o1 o2 o3 p →
  holds_slice own' h' o1 (mp_AssessorIDs p) ∧
  strings h' (mp_AssessorIDs p) = strings h (mp_AssessorIDs p) →
  owns_panel own' h' o1 o2 o3 p ∧ seen_panel h' p = seen_panel h p.
Proof.
  intros H2 H3 (_ & Hs & Hm) [Hf He].
  split; [split_and!; [done|by apply holds_slice_agree|by apply holds_map_agree]|].
  unfold seen_panel. by rewrite He, (strings_agree o2), (entries_agree o3).
Qed.

Lemma map_agree {V V'} (ownsP ownsP' : string → V → Prop) (f g : V → V') (m : gmap string V) :
  (∀ id v, ownsP id v → m !! id = Some v → ownsP' id v ∧ g v = f v) → map_Forall ownsP m →
  map_Forall ownsP' m ∧ g <$> m = f <$> m.
Proof.
  intros Hv Hm. split.
  - intros id v Hid. by apply (Hv id v (Hm id v Hid)).
  - apply map_fmap_ext. intros id v Hid. by apply (Hv id v (Hm id v Hid)).
Qed.

Lemma registry_agree r :
  (∀ o, (∀ id, o ≠ AssessorsOf id) → P o) →
  (∀ id p, m_panels r !! id = Some p →
     holds_slice own' h' (AssessorsOf id) (mp_AssessorIDs p) ∧
     strings h' (mp_AssessorIDs p) = strings h (mp_AssessorIDs p)) →
  ok_registry own h r → ok_registry own' h' r ∧ seen_registry h' r = seen_registry h r.
Proof.
  intros HP Hpanels [Hc Hres Ho Hs Hp He].
  destruct (map_agree (λ id, owns_complaint own h (EvidenceOf id)) (λ id, owns_complaint own' h' (EvidenceOf id))
    (seen_complaint h) (seen_complaint h') (m_complaints r)
    ltac:(intros; apply complaint_agree; auto) Hc) as [Hc' Ec].
  destruct (map_agree (λ _, owns_reservation own h) (λ _, owns_reservation own' h')
    (seen_reservation h) (seen_reservation h') (m_assessments r)
    ltac:(intros; apply reservation_agree; auto) Hres) as [Hres' Ea].
  destruct (map_agree (λ id, owns_rule own h (KindsOf id)) (λ id, owns_rule own' h' (KindsOf id))
    (seen_rule h) (seen_rule h') (m_rules r)
    ltac:(intros; apply rule_agree; auto) Ho) as [Ho' Eo].
  destruct (map_agree (λ id, owns_rectification own h (ReportOf id)) (λ id, owns_rectification own' h' (ReportOf id))
    (seen_rectification h) (seen_rectification h') (m_rectifications r)
    ltac:(intros; apply rectification_agree; auto) Hs) as [Hs' Es].
  destruct (map_agree
    (λ id, owns_panel own h (AssessorsOf id) (SupervisorsOf id) (MilestonesOf id))
    (λ id, owns_panel own' h' (AssessorsOf id) (SupervisorsOf id) (MilestonesOf id))
    (seen_panel h) (seen_panel h') (m_panels r)
    ltac:(intros; apply panel_agree; auto) Hp) as [Hp' Ep].
  split; [by constructor|]. unfold seen_registry. rewrite Ec, Ea, Eo, Es, Ep. f_equal.
  apply list_fmap_ext. intros i e Hi. unfold seen_event.
  rewrite Forall_lookup in He. by rewrite (He _ _ Hi).
Qed.
End agree.

(** The special case in which no cell that belongs to anybody is written. *)
Definition anyone (o : owner) : Prop := True.
Abbreviation extends := (agree anyone).

Lemma extends_registry own h own' h' r :
  extends own h own' h' → ok_registry own h r →
  ok_registry own' h' r ∧ seen_registry h' r = seen_registry h r.
Proof.
  intros Ha Hr. apply (registry_agree anyone own); [done|done| |done].
  intros id p Hp. destruct (ok_panels _ _ _ Hr id p Hp) as [Hs _]. split.
  - by eapply holds_slice_agree.
  - by eapply strings_agree.
Qed.

Lemma extends_new own client h r l o c :
  ok own client {| mem_heap := h; mem_reg := r |} → h !! l = None →
  extends own h (<[l := o]> own) (<[l := c]> h) ∧
  ok (<[l := o]> own) client {| mem_heap := <[l := c]> h; mem_reg := r |} ∧
  seen {| mem_heap := <[l := c]> h; mem_reg := r |} = seen {| mem_heap := h; mem_reg := r |}.
Proof.
  intros [Hd Hc Ho Hr] Hl. simpl in *.
  assert (own !! l = None) as Hn by (apply eq_None_not_Some; rewrite Hd, Hl; by intros []).
  assert (extends own h (<[l := o]> own) (<[l := c]> h)) as Ha.
  { split; [by apply insert_subseteq|]. intros l' o' Hl' _.
    apply lookup_insert_ne. by intros ->; simplify_eq. }
  destruct (extends_registry _ _ _ _ r Ha Hr) as [Hr' Hs].
  split_and!; [done| |done]. constructor; simpl; [|etrans; [done|by apply insert_subseteq]| |done].
  - intros l'. rewrite !lookup_insert_is_Some, Hd. done.
  - intros l' Hl'. rewrite lookup_insert_ne; [auto|]. intros ->.
    destruct Hl' as [c' Hc']. by rewrite (lookup_weaken _ _ _ _ Hc' Hc) in Hl.
Qed.

(** ** The registry's maps *)

Create HintDb mem_db.

Section puts.
Context (own : ownership) (h : heap) (r : MRegistry) (Hok : ok_registry own h r).

Ltac put := destruct Hok; constructor; simpl; auto using map_Forall_insert_both.

Lemma ok_put_complaint id c :
  owns_complaint own h (EvidenceOf id) c → ok_registry own h (m_put_complaint id c r).
Proof using Hok. intros. put. Qed.
Lemma ok_put_team id t : ok_registry own h (m_put_team id t r).
Proof using Hok. put. Qed.
Lemma ok_put_assessment id a :
  owns_reservation own h a → ok_registry own h (m_put_assessment id a r).
Proof using Hok. intros. put. Qed.
Lemma ok_put_zone id z : ok_registry own h (m_put_zone id z r).
Proof using Hok. put. Qed.
Lemma ok_put_rule id o :
  owns_rule own h (KindsOf id) o → ok_registry own h (m_put_rule id o r).
Proof using Hok. intros. put. Qed.
Lemma ok_put_rectification id s :
  owns_rectification own h (ReportOf id) s → ok_registry own h (m_put_rectification id s r).
Proof using Hok. intros. put. Qed.
Lemma ok_put_panel id p :
  owns_panel own h (AssessorsOf id) (SupervisorsOf id) (MilestonesOf id) p →
  ok_registry own h (m_put_panel id p r).
Proof using Hok. intros. put. Qed.
Lemma ok_append_event e : me_Metadata e = None → ok_registry own h (m_append_event e r).
Proof using Hok. intros. put. by apply Forall_app_2; [|constructor]. Qed.
End puts.
#[export] Hint Resolve ok_put_complaint ok_put_team ok_put_assessment ok_put_zone ok_put_rule
  ok_put_rectification ok_put_panel ok_append_event : mem_db.

Section views.
Context (h : heap) (r : MRegistry).

Ltac view := unfold seen_registry, upd; simpl; by rewrite ?fmap_insert, ?fmap_app.

Lemma seen_put_complaint id c :
  seen_registry h (m_put_complaint id c r) =
  put_complaint id (seen_complaint h c) (seen_registry h r).
Proof. unfold m_put_complaint, put_complaint. view. Qed.
Lemma seen_put_team id t :
  seen_registry h (m_put_team id t r) = put_team id t (seen_registry h r).
Proof. done. Qed.
Lemma seen_put_assessment id a :
  seen_registry h (m_put_assessment id a r) =
  put_assessment id (seen_reservation h a) (seen_registry h r).
Proof. unfold m_put_assessment, put_assessment. view. Qed.
Lemma seen_put_zone id z :
  seen_registry h (m_put_zone id z r) = put_zone id z (seen_registry h r).
Proof. done. Qed.
Lemma seen_put_rule id o :
  seen_registry h (m_put_rule id o r) = put_rule id (seen_rule h o) (seen_registry h r).
Proof. unfold m_put_rule, put_rule. view. Qed.
Lemma seen_put_rectification id s :
  seen_registry h (m_put_rectification id s r) =
  put_rectification id (seen_rectification h s) (seen_registry h r).
Proof. unfold m_put_rectification, put_rectification. view. Qed.
Lemma seen_put_panel id p :
  seen_registry h (m_put_panel id p r) = put_panel id (seen_panel h p) (seen_registry h r).
Proof. unfold m_put_panel, put_panel. view. Qed.
Lemma seen_append_event e :
  seen_registry h (m_append_event e r) =
  append_event (seen_event h e) (seen_registry h r).
Proof. unfold m_append_event, append_event. view. Qed.
End views.
Create Rewrite HintDb seen_db.
#[export] Hint Rewrite seen_put_complaint seen_put_team seen_put_assessment seen_put_zone
  seen_put_rule seen_put_rectification seen_put_panel seen_append_event : seen_db.

(** ** Two operations side by side

    [sim client own m hm vm Q]: the operation [hm] in memory and the operation
    [vm] on what the registry shows end alike, with the same error or with
    results related by [Q]; the registry then shows what [vm] leaves, and no
    cell of the callers was written. *)

Section sim.
Context `{UnicodeTables, Runtime} (client : heap).

Definition sim {A B} (own : ownership) (m : Mem) (hm : mop A) (vm : lop B)
    (Q : ownership → heap → A → B → Prop) : Prop :=
  let '(m', ra) := hm m in
  let '(r', rb) := vm (seen m) in
  ∃ own', own ⊆ own' ∧ ok own' client m' ∧ r' = seen m' ∧
    match ra, rb with
    | Ok a, Ok b => Q own' (mem_heap m') a b
    | Err e, Err e' => e = e'
    | _, _ => False
    end.

Abbreviation at_ h r := {| mem_heap := h; mem_reg := r |}.

Section rules.
Context {A B : Type} (own : ownership) (h : heap) (r : MRegistry) (Hok : ok own client (at_ h r)).
Context (Q : ownership → heap → A → B → Prop).

Lemma sim_ret a b : Q own h a b → sim own (at_ h r) (mret a) (mret b) Q.
Proof using Hok. intros HQ. by exists own. Qed.
Lemma sim_raise e : sim own (at_ h r) (raise e) (raise e) Q.
Proof using Hok. by exists own. Qed.

Lemma sim_check cerr (k : () → mop A) (k' : () → lop B) :
  sim own (at_ h r) (k ()) (k' ()) Q →
  sim own (at_ h r) (check_ctx cerr ≫= k) (check_ctx cerr ≫= k') Q.
Proof using Hok. destruct cerr; [|done]. intros _. by exists own. Qed.
Lemma sim_lift {X} (x : result lerror X) k k' :
  (∀ a, x = Ok a → sim own (at_ h r) (k a) (k' a) Q) →
  sim own (at_ h r) (lift x ≫= k) (lift x ≫= k') Q.
Proof using Hok.
  destruct x as [a|]; [intros Hk; exact (Hk a eq_refl)|]. intros _. by exists own.
Qed.
Lemma sim_ensure b b' e (k : () → mop A) (k' : () → lop B) :
  b' = b → (b = true → sim own (at_ h r) (k ()) (k' ()) Q) →
  sim own (at_ h r) (ensure b e ≫= k) (ensure b' e ≫= k') Q.
Proof using Hok.
  intros ->. destruct b; [intros Hk; exact (Hk eq_refl)|]. intros _. by exists own.
Qed.
Lemma sim_must {X Y} (f : X → Y) (x : option X) y e k k' :
  y = f <$> x → (∀ a, x = Some a → sim own (at_ h r) (k a) (k' (f a)) Q) →
  sim own (at_ h r) (must x e ≫= k) (must y e ≫= k') Q.
Proof using Hok.
  intros ->. destruct x as [a|]; [intros Hk; exact (Hk a eq_refl)|]. intros _. by exists own.
Qed.
Lemma sim_gets {X Y} (f : Mem → X) (g : Registry → Y) k k' :
  sim own (at_ h r) (k (f (at_ h r))) (k' (g (seen (at_ h r)))) Q →
  sim own (at_ h r) (gets f ≫= k) (gets g ≫= k') Q.
Proof. done. Qed.
(** A write to the registry, beside the same write to the values. *)
Lemma sim_write F G (k : () → mop A) (k' : () → lop B) :
  ok_registry own h (F r) → seen_registry h (F r) = G (seen_registry h r) →
  (ok own client (at_ h (F r)) → sim own (at_ h (F r)) (k ()) (k' ()) Q) →
  sim own (at_ h r) (on_reg F ≫= k) (modify G ≫= k') Q.
Proof using Hok.
  intros HF HG Hk. unfold sim, on_reg. op_unfold_goal.
  replace (G (seen (at_ h r))) with (seen (at_ h (F r))) by exact HG. apply Hk.
  destruct Hok. by constructor.
Qed.
Lemma sim_write_end F G :
  ok_registry own h (F r) → seen_registry h (F r) = G (seen_registry h r) →
  sim own (at_ h r) (on_reg F) (modify G) (λ _ _ _ _, True).
Proof using Hok.
  intros HF HG. exists own. destruct Hok. by split_and!; [done|constructor| |].
Qed.

(** Steps on the heap, which have no counterpart on the values. *)
Lemma sim_heap {X} (f : heap → heap * X) k (vm : lop B) own' h' x :
  f h = (h', x) → own ⊆ own' → seen_registry h' r = seen_registry h r →
  sim own' (at_ h' r) (k x) vm Q → sim own (at_ h r) (on_heap f ≫= k) vm Q.
Proof.
  intros Hf Hown Hs. unfold sim, on_heap. op_unfold_goal. simpl. rewrite Hf.
  unfold seen; simpl. rewrite Hs. change ((at_ h r) <| mem_heap := h' |>) with (at_ h' r).
  destruct (k x (at_ h' r)) as [m' ra], (vm (seen_registry h r)) as [r' rb].
  intros (own'' & ? & ?). exists own''. split; [by etrans|done].
Qed.

Lemma sim_new c o k (vm : lop B) :
  (∀ own' h' l, extends own h own' h' → ok own' client (at_ h' r) →
     seen_registry h' r = seen_registry h r → own' !! l = Some o → h' !! l = Some c →
     sim own' (at_ h' r) (k l) vm Q) →
  sim own (at_ h r) (on_heap (new_cell c) ≫= k) vm Q.
Proof using Hok.
  intros Hk. destruct (new_cell c h) as [h' l] eqn:E.
  assert (h !! l = None) as Hl by (pose proof (new_cell_fresh c h) as Hf; by rewrite E in Hf).
  destruct (extends_new own client h r l o c Hok Hl) as (Ha & Hok' & Hs).
  assert (h' = <[l := c]> h) as -> by (unfold new_cell in E; by simplify_eq).
  eapply (sim_heap _ _ _ (<[l := o]> own)); [done|apply Ha|done|].
  by apply Hk; [..|apply lookup_insert_eq|apply lookup_insert_eq].
Qed.

Lemma sim_array {X} (f : heap → heap * X) (wrap : slice → X) items o k (vm : lop B) :
  (f h = let '(h, s) := new_array items h in (h, wrap s)) →
  (∀ own' h' s', extends own h own' h' → ok own' client (at_ h' r) →
     seen_registry h' r = seen_registry h r → slice_items h' s' = items →
     holds_slice own' h' o (Some s') → sim own' (at_ h' r) (k (wrap s')) vm Q) →
  sim own (at_ h r) (on_heap f ≫= k) vm Q.
Proof using Hok.
  intros Hf Hk. destruct (new_array items h) as [h' s'] eqn:E.
  destruct (new_array_spec _ _ _ _ E) as (_ & Hl & Hfit & Hi & padded & Hh).
  destruct (extends_new own client h r _ o (CStrings padded) Hok Hl) as (Ha & Hok' & Hs).
  rewrite <- Hh in *. eapply (sim_heap _ _ _ (<[sl_array s' := o]> own)); [done|apply Ha|done|].
  apply Hk; [done..|]. split; [apply lookup_insert_eq|done].
Qed.

Lemma sim_Clone s o k (vm : lop B) :
  (∀ own' h' s', extends own h own' h' → ok own' client (at_ h' r) →
     seen_registry h' r = seen_registry h r → strings h' s' = strings h s →
     holds_slice own' h' o s' → sim own' (at_ h' r) (k s') vm Q) →
  sim own (at_ h r) (on_heap (Clone s) ≫= k) vm Q.
Proof using Hok.
  intros Hk. destruct s as [s|].
  - apply (sim_array _ Some (slice_items h s) o); [done|]. intros. by apply Hk.
  - eapply (sim_heap _ _ _ own h None); [done..|]. by apply Hk.
Qed.

(** [append] to the assessors of a panel: into the array the panel has, if
    there is room, where nothing else is. *)
Lemma sim_append id p x k (vm : lop B) :
  m_panels r !! id = Some p →
  (∀ own' h' s', agree (λ o, o ≠ AssessorsOf id) own h own' h' → ok own' client (at_ h' r) →
     seen_registry h' r = seen_registry h r →
     slice_items h' s' = strings h (mp_AssessorIDs p) ++ [x] →
     holds_slice own' h' (AssessorsOf id) (Some s') → sim own' (at_ h' r) (k s') vm Q) →
  sim own (at_ h r) (on_heap (append_one (mp_AssessorIDs p) x) ≫= k) vm Q.
Proof using Hok.
  intros Hp Hk.
  assert (∀ own' h', extends own h own' h' → agree (λ o, o ≠ AssessorsOf id) own h own' h') as Hw
    by (intros own' h' [? Hc]; split; [done|]; intros; by eapply Hc).
  destruct (mp_AssessorIDs p) as [s|] eqn:Es.
  2: { apply (sim_array _ (λ s, s) [x] (AssessorsOf id)); [unfold append_one; by destruct (new_array _ _)|]. auto. }
  destruct (decide (sl_len s < sl_cap s)%nat) as [Hroom|Hfull].
  2: { apply (sim_array _ (λ s, s) (slice_items h s ++ [x]) (AssessorsOf id)); [|by auto].
       unfold append_one. rewrite (proj2 (Nat.ltb_ge _ _)) by lia. by destruct (new_array _ _). }
  destruct (append_one (Some s) x h) as [h' s'] eqn:E.
  pose proof Hok as [Hd Hc Ho Hr]. simpl in *.
  destruct (ok_panels _ _ _ Hr id p Hp) as [Hs _]. rewrite Es in Hs. destruct Hs as [Hown Hfit].
  destruct (append_in_place _ _ _ _ _ Hfit Hroom E) as (Hfit' & Harr & Hi & Hfits & His & items & Hh).
  assert (agree (λ o, o ≠ AssessorsOf id) own h own h') as Ha.
  { split; [done|]. intros l o Hl Hne. rewrite Hh. apply lookup_insert_ne. by intros <-; simplify_eq. }
  destruct (registry_agree _ _ _ _ _ Ha r) as [Hr' Hseen]; [naive_solver| |done|].
  { intros id' p' Hp'. destruct (decide (id' = id)) as [->|Hne].
    - simplify_eq. rewrite Es. done.
    - destruct (ok_panels _ _ _ Hr id' p' Hp') as [Hs' _].
      split; [eapply holds_slice_agree|eapply strings_agree]; try done; congruence. }
  eapply (sim_heap _ _ _ own); [done..|]. apply Hk; [done| |done|done|by rewrite <- Harr in Hown].
  constructor; simpl; [| |done|done].
  - intros l. rewrite Hh, lookup_insert_is_Some', Hd. split; [by right|].
    intros [<-|?]; [|done]. by rewrite <- Hd, Hown.
  - rewrite Hh. apply map_subseteq_spec. intros l c Hl.
    rewrite lookup_insert_ne; [by eapply lookup_weaken|]. intros <-.
    by rewrite Ho in Hown by eauto.
Qed.

Lemma sim_cloneStringMap p o k (vm : lop B) :
  (∀ own' h' p', extends own h own' h' → ok own' client (at_ h' r) →
     seen_registry h' r = seen_registry h r → entries h' p' = entries h p →
     holds_map own' h' o p' → sim own' (at_ h' r) (k p') vm Q) →
  sim own (at_ h r) (on_heap (cloneStringMap p) ≫= k) vm Q.
Proof using Hok.
  intros Hk. destruct (cloneStringMap p h) as [h' p'] eqn:E. pose proof E as Hf.
  unfold cloneStringMap in E. destruct (entries h p) as [e|] eqn:Ee.
  - assert (map_fold (λ key value m, <[key := value]> m) ∅ e = e) as Hid.
    { apply (map_fold_weak_ind (λ m e, m = e)); [done|]. by intros ???? _ ->. }
    rewrite Hid in E. unfold new_cell in E. injection E as <- <-. set (l := fresh (dom h)) in *.
    destruct (extends_new own client h r l o (CMap e) Hok (new_cell_fresh (CMap e) h))
      as (Ha & Hok' & Hs).
    eapply (sim_heap _ _ _ (<[l := o]> own)); [done|apply Ha|done|].
    apply Hk; [done..| |].
    + simpl. by rewrite lookup_insert_eq.
    + split; [apply lookup_insert_eq|]. eexists. apply lookup_insert_eq.
  - injection E as <- <-. eapply (sim_heap _ _ _ own); [done..|]. by apply Hk.
Qed.

Lemma sim_assoc {X Y} (m : mop X) (f : X → mop Y) (k : Y → mop A) (vm : lop B) :
  sim own (at_ h r) (m ≫= λ x, f x ≫= k) vm Q → sim own (at_ h r) ((m ≫= f) ≫= k) vm Q.
Proof. unfold sim. op_unfold_goal. by destruct (m (at_ h r)) as [m' [x|e]]. Qed.
Lemma sim_end (hm : mop A) (vm : lop B) :
  sim own (at_ h r) (hm ≫= mret) vm Q → sim own (at_ h r) hm vm Q.
Proof. unfold sim. op_unfold_goal. by destruct (hm (at_ h r)) as [m' [x|e]]. Qed.
End rules.

Lemma extends_trans own h own1 h1 own2 h2 :
  extends own h own1 h1 → extends own1 h1 own2 h2 → extends own h own2 h2.
Proof.
  intros [H1 E1] [H2 E2]. split; [by etrans|]. intros l o Hl Ho.
  rewrite (E2 l o), (E1 l o); auto. by eapply lookup_weaken.
Qed.

(** ** The clones *)

Section clones.
Context {A B : Type} (own : ownership) (h : heap) (r : MRegistry) (Hok : ok own client (at_ h r)).
Context (Q : ownership → heap → A → B → Prop).

Lemma sim_cloneComplaint o c k (vm : lop B) :
  (∀ own' h' c', extends own h own' h' → ok own' client (at_ h' r) →
     seen_registry h' r = seen_registry h r → seen_complaint h' c' = seen_complaint h c →
     owns_complaint own' h' o c' → sim own' (at_ h' r) (k c') vm Q) →
  sim own (at_ h r) (cloneComplaint c ≫= k) vm Q.
Proof using Hok.
  intros Hk. apply sim_assoc, (sim_Clone _ _ _ Hok _ _ o). intros own' h' s' Ha Hok' Hs He Hh.
  apply (Hk own' h'); [done..| |done]. unfold seen_complaint; simpl. by rewrite He.
Qed.

Lemma sim_cloneRectification o s k (vm : lop B) :
  holds_time own h (ms_ReviewedAt s) →
  (∀ own' h' s', extends own h own' h' → ok own' client (at_ h' r) →
     seen_registry h' r = seen_registry h r → seen_rectification h' s' = seen_rectification h s →
     owns_rectification own' h' o s' → sim own' (at_ h' r) (k s') vm Q) →
  sim own (at_ h r) (cloneRectification s ≫= k) vm Q.
Proof using Hok.
  intros Ht Hk. apply sim_assoc, (sim_Clone _ _ _ Hok _ _ o).
  intros own' h' s' Ha Hok' Hs He Hh. apply (Hk own' h'); [done..| |].
  - unfold seen_rectification; simpl. by rewrite He, (instant_agree _ _ _ _ _ Ha).
  - split; [done|]. by eapply holds_time_agree.
Qed.

Lemma sim_clonePanel o1 o2 o3 o1' o2' o3' p k (vm : lop B) :
  owns_panel own h o1 o2 o3 p →
  (∀ own' h' p', extends own h own' h' → ok own' client (at_ h' r) →
     seen_registry h' r = seen_registry h r → seen_panel h' p' = seen_panel h p →
     owns_panel own' h' o1' o2' o3' p' → sim own' (at_ h' r) (k p') vm Q) →
  sim own (at_ h r) (clonePanel p ≫= k) vm Q.
Proof using Hok.
  intros (_ & Hs2 & Hm3) Hk.
  apply sim_assoc, (sim_Clone _ _ _ Hok _ _ o1'). intros own1 h1 s1 Ha1 Hok1 E1 He1 Hh1.
  apply sim_assoc, (sim_Clone _ _ _ Hok1 _ _ o2'). intros own2 h2 s2 Ha2 Hok2 E2 He2 Hh2.
  apply sim_assoc, (sim_cloneStringMap _ _ _ Hok2 _ _ o3'). intros own3 h3 m3 Ha3 Hok3 E3 He3 Hh3.
  pose proof (extends_trans _ _ _ _ _ _ Ha1 Ha2) as Ha12.
  pose proof (extends_trans _ _ _ _ _ _ Ha2 Ha3) as Ha23.
  apply (Hk own3 h3); [by eapply extends_trans|done|by rewrite E3, E2| |].
  - unfold seen_panel; simpl. rewrite He3, (strings_agree _ _ _ _ _ Ha3 _ _ I Hh2), He2.
    rewrite (strings_agree _ _ _ _ _ Ha23 _ _ I Hh1), He1. simpl.
    by rewrite (strings_agree _ _ _ _ _ Ha1 _ _ I Hs2), (entries_agree _ _ _ _ _ Ha12 _ _ I Hm3).
  - split_and!; simpl; [| |done];
      [by apply (holds_slice_agree _ _ _ _ _ Ha23)|by apply (holds_slice_agree _ _ _ _ _ Ha3)].
Qed.
End clones.
End sim.

(** ** The operations *)

(** A result in memory and the value it shows; it is the caller's from now
    on. *)
Definition shows_complaint own h (a : MComplaint) b : Prop :=
  b = seen_complaint h a ∧ owns_complaint own h Open a.
Definition shows_reservation own h (a : MReservation) b : Prop :=
  b = seen_reservation h a ∧ owns_reservation own h a.
Definition shows_rectification own h (a : MRectification) b : Prop :=
  b = seen_rectification h a ∧ owns_rectification own h Open a.
Definition shows_panel own h (a : MPanel) b : Prop :=
  b = seen_panel h a ∧ owns_panel own h Open Open Open a.
Definition shows_nothing (own : ownership) (h : heap) (a b : ()) : Prop := True.

Section operations.
Context `{UnicodeTables, Runtime} (client : heap).

Lemma validate_seen own h o c : owns_complaint own h o c →
  LightModel.validateComplaintInput (seen_complaint h c) = validateComplaintInput c.
Proof.
  intros Hc. unfold LightModel.validateComplaintInput, validateComplaintInput; simpl.
  repeat (case_match; [done|]).
  assert (length (strings h (mc_Evidence c)) = slice_len (mc_Evidence c)) as Hl.
  { apply strings_length. unfold owns_complaint, holds_slice in Hc. case_match; naive_solver. }
  destruct (strings h (mc_Evidence c)), (slice_len (mc_Evidence c)); done.
Qed.
Lemma approve_seen own h o s : owns_rectification own h o s →
  LightModel.rectificationCanApprove (seen_rectification h s) = rectificationCanApprove s.
Proof.
  intros [Hs _]. unfold LightModel.rectificationCanApprove, rectificationCanApprove; simpl.
  rewrite strings_length; [done|]. unfold holds_slice in Hs. case_match; naive_solver.
Qed.

Section calls.
Context (own : ownership) (h : heap) (r : MRegistry) (Hok : ok own client {| mem_heap := h; mem_reg := r |}).

Abbreviation simulates hm vm Q := (sim client own {| mem_heap := h; mem_reg := r |} hm vm Q).

(** [reads]: the conditions both programs test. *)
Ltac reads :=
  simpl; rewrite ?lookup_fmap;
  repeat match goal with |- context [_ <$> ?m !! ?k] => destruct (m !! k) eqn:? end;
  try done; try (by apply bool_decide_ext; rewrite ?fmap_is_Some).
Ltac steps :=
  repeat first
    [ apply sim_check; [done|]
    | apply sim_ensure; [done|reads|intros _]
    | apply sim_gets ]; simpl.
(** [look x E]: both look up a record. *)
Tactic Notation "look" ident(x) ident(E) :=
  eapply sim_must; [done|by reads|intros x E]; simpl in E |- *.

Ltac writes := autorewrite with seen_db; done.

Let Hreg : ok_registry own h r := ok_reg _ _ _ Hok.

Lemma sim_AddAssessmentTeam cerr t :
  simulates (AddAssessmentTeam cerr t) (LightModel.AddAssessmentTeam cerr t) shows_nothing.
Proof using Hok.
  unfold AddAssessmentTeam, LightModel.AddAssessmentTeam. steps.
  apply sim_write_end; auto with mem_db.
Qed.

Lemma sim_AddZone cerr z :
  simulates (AddZone cerr z) (LightModel.AddZone cerr z) shows_nothing.
Proof using Hok.
  unfold AddZone, LightModel.AddZone. steps. apply sim_write_end; auto with mem_db.
Qed.

Lemma sim_AddRule cerr o :
  owns_rule own h Open o →
  simulates (AddRule cerr o) (LightModel.AddRule cerr (seen_rule h o)) shows_nothing.
Proof using Hok.
  intros Ho. unfold AddRule, LightModel.AddRule. steps.
  apply (sim_Clone _ _ _ _ Hok _ _ (KindsOf (mo_ID o))). intros own' h' s' Ha Hok' Hs He Hh.
  apply sim_write_end; [done|by apply ok_put_rule; [apply Hok'|]|].
  autorewrite with seen_db. unfold seen_rule; simpl. by rewrite He.
Qed.

Lemma sim_AddPanel cerr p :
  owns_panel own h Open Open Open p →
  simulates (AddPanel cerr p) (LightModel.AddPanel cerr (seen_panel h p)) shows_nothing.
Proof using Hok.
  intros Hp. unfold AddPanel, LightModel.AddPanel. steps.
  apply (sim_clonePanel _ _ _ _ Hok _ _ _ _ (AssessorsOf (mp_ID p)) (SupervisorsOf (mp_ID p))
    (MilestonesOf (mp_ID p)) _ _ _ Hp). intros own' h' p' Ha Hok' Hs He Hh.
  assert (mp_ID p' = mp_ID p) as Hid by exact (f_equal ap_ID He).
  apply sim_write_end; [done|apply ok_put_panel; [apply Hok'|by rewrite Hid]|].
  autorewrite with seen_db. by rewrite Hid, He.
Qed.

(** What an operation returns last is a clone. *)
Lemma returns_complaint own' h' r' c b :
  ok own' client {| mem_heap := h'; mem_reg := r' |} → b = seen_complaint h' c →
  sim client own' {| mem_heap := h'; mem_reg := r' |} (cloneComplaint c) (mret b) shows_complaint.
Proof.
  intros Hok' ->. apply sim_end, (sim_cloneComplaint _ _ _ _ Hok' _ Open).
  intros own2 h2 c' Ha Hok2 Hs He Hc. by apply sim_ret.
Qed.
Lemma returns_rectification own' h' r' s b :
  ok own' client {| mem_heap := h'; mem_reg := r' |} → b = seen_rectification h' s →
  holds_time own' h' (ms_ReviewedAt s) →
  sim client own' {| mem_heap := h'; mem_reg := r' |} (cloneRectification s) (mret b)
    shows_rectification.
Proof.
  intros Hok' -> Ht. apply sim_end, (sim_cloneRectification _ _ _ _ Hok' _ Open); [done|].
  intros own2 h2 s' Ha Hok2 Hs He Hc. by apply sim_ret.
Qed.
Lemma returns_panel own' h' r' o1 o2 o3 p b :
  ok own' client {| mem_heap := h'; mem_reg := r' |} → b = seen_panel h' p →
  owns_panel own' h' o1 o2 o3 p →
  sim client own' {| mem_heap := h'; mem_reg := r' |} (clonePanel p) (mret b) shows_panel.
Proof.
  intros Hok' -> Hp. apply sim_end, (sim_clonePanel _ _ _ _ Hok' _ _ _ _ Open Open Open _ _ _ Hp).
  intros own2 h2 s' Ha Hok2 Hs He Hc. by apply sim_ret.
Qed.

Lemma sim_SubmitComplaint call c :
  owns_complaint own h Open c →
  simulates (SubmitComplaint call c) (LightService.SubmitComplaint call (seen_complaint h c))
    shows_complaint.
Proof using Hok.
  intros Hc. unfold SubmitComplaint, LightService.SubmitComplaint. steps.
  rewrite (validate_seen own h Open) by done. apply sim_lift; [done|]. intros _ _.
  apply (sim_Clone _ _ _ _ Hok _ _ (EvidenceOf (mc_ID c))). intros own' h' s' Ha Hok' Hs He Hh.
  apply sim_gets, sim_ensure; [done| |intros _].
  { simpl. rewrite lookup_fmap. f_equal. by apply bool_decide_ext; rewrite fmap_is_Some. }
  apply sim_write; [done| | |intros Hok2; apply returns_complaint; [done|]].
  - apply ok_append_event; [|done]. by apply ok_put_complaint; [apply Hok'|].
  - autorewrite with seen_db. unfold seen_complaint; simpl. by rewrite He.
  - unfold seen_complaint; simpl. by rewrite He.
Qed.

Lemma active_seen cid :
  active_assessment (seen {| mem_heap := h; mem_reg := r |}) cid =
  seen_reservation h <$> m_active_assessment r cid.
Proof.
  unfold active_assessment, m_active_assessment; simpl. rewrite lookup_fmap.
  destruct (m_assessments r !! cid) as [a|]; [|done]. simpl.
  by destruct (ma_ReleasedAt a).
Qed.
Lemma active_reservation cid a :
  m_active_assessment r cid = Some a → owns_reservation own h a.
Proof using Hok.
  unfold m_active_assessment. intros Ha. repeat case_match; simplify_eq.
  by eapply (ok_assessments _ _ _ Hreg).
Qed.

Lemma sim_ReserveAssessment call cid tid n :
  simulates (ReserveAssessment call cid tid n) (LightService.ReserveAssessment call cid tid n)
    shows_reservation.
Proof using Hok.
  unfold ReserveAssessment, LightService.ReserveAssessment. steps. look c Hc. look t Ht. steps. rewrite active_seen.
  destruct (m_active_assessment r cid) as [ex|] eqn:Ex; simpl.
  { apply sim_ret; [done|]. split; [done|by eapply active_reservation]. }
  apply sim_write; [done| | |intros Hok2; by apply sim_ret].
  - apply ok_put_complaint; [|by eapply (ok_complaints _ _ _ Hreg cid c)].
    by apply ok_put_assessment; [apply ok_put_team|].
  - by autorewrite with seen_db.
Qed.

Lemma sim_ReleaseAssessment call cid :
  simulates (ReleaseAssessment call cid) (LightService.ReleaseAssessment call cid) shows_nothing.
Proof using Hok.
  unfold ReleaseAssessment, LightService.ReleaseAssessment. steps. rewrite active_seen.
  destruct (m_active_assessment r cid) as [ex|] eqn:Ex; simpl; [|by apply sim_ret].
  eapply (sim_must _ _ _ _ Hok _ id); [by rewrite option_fmap_id|]. intros t Ht. steps.
  apply (sim_new _ _ _ _ Hok _ _ Open). intros own' h' l Ha Hok' Hs Ho Hc.
  apply sim_write_end; [done| |].
  - apply ok_put_assessment; [by apply ok_put_team, Hok'|]. split; [done|by eexists].
  - autorewrite with seen_db. unfold seen_reservation; simpl. by rewrite Hc.
Qed.

Lemma sim_AcceptComplaint call cid actor :
  simulates (AcceptComplaint call cid actor) (LightService.AcceptComplaint call cid actor)
    shows_complaint.
Proof using Hok.
  unfold AcceptComplaint, LightService.AcceptComplaint. steps. look c Hc. steps.
  apply sim_write; [done| | |intros Hok2; by apply returns_complaint].
  - apply ok_append_event; [|done]. apply ok_put_complaint; [done|].
    by eapply (ok_complaints _ _ _ Hreg cid c).
  - by autorewrite with seen_db.
Qed.

Lemma sim_AssignZone cerr cid zid n :
  simulates (AssignZone cerr cid zid n) (LightService.AssignZone cerr cid zid n) shows_nothing.
Proof using Hok.
  unfold AssignZone, LightService.AssignZone. steps. look c Hc. look z Hz. steps. apply sim_write_end; [done| |].
  - apply ok_put_complaint; [by auto with mem_db|]. by eapply (ok_complaints _ _ _ Hreg cid c).
  - by autorewrite with seen_db.
Qed.

Lemma sim_CloseComplaint call cid :
  simulates (CloseComplaint call cid) (LightService.CloseComplaint call cid) shows_nothing.
Proof using Hok.
  unfold CloseComplaint, LightService.CloseComplaint. steps. look c Hc. steps. apply sim_write_end; [done| |].
  - apply ok_put_complaint; [done|]. by eapply (ok_complaints _ _ _ Hreg cid c).
  - by autorewrite with seen_db.
Qed.

Lemma ruleAvailable_seen o kind t :
  LightModel.ruleAvailable (seen_rule h o) kind t = ruleAvailable h o kind t.
Proof. done. Qed.

Lemma sim_ApplyRule cerr wall cid rid t :
  simulates (ApplyRule cerr wall cid rid t) (LightService.ApplyRule cerr wall cid rid t)
    shows_nothing.
Proof using Hok.
  unfold ApplyRule, LightService.ApplyRule. steps. look c Hc. look o Ho. steps. apply sim_write_end; [done| |].
  - apply ok_put_complaint; [apply ok_put_rule; [done|]|].
    + by eapply (ok_rules _ _ _ Hreg rid o).
    + by eapply (ok_complaints _ _ _ Hreg cid c).
  - by autorewrite with seen_db.
Qed.

Lemma sim_ResubmitComplaint call cid ev :
  holds_slice own h Open ev →
  simulates (ResubmitComplaint call cid ev)
    (LightService.ResubmitComplaint call cid (strings h ev)) shows_complaint.
Proof using Hok.
  intros Hev. unfold ResubmitComplaint, LightService.ResubmitComplaint.
  assert (length (strings h ev) = slice_len ev) as Hl.
  { apply strings_length. unfold holds_slice in Hev. case_match; naive_solver. }
  apply sim_check; [done|]. apply sim_ensure; [done| |intros _].
  { by destruct (strings h ev), (slice_len ev). }
  steps. look c Hc. steps. apply (sim_Clone _ _ _ _ Hok _ _ (EvidenceOf cid)). intros own' h' s' Ha Hok' Hs He Hh.
  apply sim_write; [done| | |intros Hok2; apply returns_complaint; [done|]].
  - by apply ok_put_complaint; [apply Hok'|].
  - autorewrite with seen_db. unfold seen_complaint; simpl. by rewrite He.
  - unfold seen_complaint; simpl. by rewrite He.
Qed.

Lemma sim_PublishRectification call s :
  owns_rectification own h Open s →
  simulates (PublishRectification call s)
    (LightService.PublishRectification call (seen_rectification h s)) shows_rectification.
Proof using Hok.
  intros [Hev Ht]. unfold PublishRectification, LightService.PublishRectification.
  assert (length (strings h (ms_Evidence s)) = slice_len (ms_Evidence s)) as Hl.
  { apply strings_length. unfold holds_slice in Hev. case_match; naive_solver. }
  apply sim_check; [done|]. apply sim_ensure; [done|done|intros _].
  apply sim_ensure; [done|simpl; by rewrite Hl|intros _].
  apply (sim_Clone _ _ _ _ Hok _ _ (ReportOf (ms_ID s))). intros own' h' s' Ha Hok' Hs He Hh.
  assert (owns_rectification own' h' (ReportOf (ms_ID s)) (s <| ms_CrewID := TrimSpace (ms_CrewID s) |>
    <| ms_Status := "submitted" |> <| ms_SubmittedAt := call_now call |> <| ms_Evidence := s' |>)) as Hown
    by (split; [done|by eapply holds_time_agree]).
  apply sim_gets, sim_ensure; [done| |intros _].
  { simpl. rewrite lookup_fmap. f_equal. by apply bool_decide_ext; rewrite fmap_is_Some. }
  apply sim_ensure; [done| |intros _].
  { simpl. rewrite lookup_fmap. by destruct (m_complaints r !! ms_ComplaintID s). }
  assert (instant h' (ms_ReviewedAt s) = instant h (ms_ReviewedAt s)) as Hi by by eapply instant_agree.
  apply sim_write; [done| | |intros Hok2; apply returns_rectification; [done| |apply Hown]].
  - by apply ok_put_rectification; [apply Hok'|].
  - autorewrite with seen_db. unfold seen_rectification; simpl. by rewrite He, Hi.
  - unfold seen_rectification; simpl. by rewrite He, Hi.
Qed.

Lemma sim_VerifyRectification call sid v :
  simulates (VerifyRectification call sid v) (LightService.VerifyRectification call sid v)
    shows_rectification.
Proof using Hok.
  unfold VerifyRectification, LightService.VerifyRectification. steps. look s Hsid.
  pose proof (ok_rectifications _ _ _ Hreg sid s Hsid) as Ha.
  rewrite (approve_seen own h (ReportOf sid)) by done. apply sim_lift; [done|]. intros _ _.
  apply (sim_new _ _ _ _ Hok _ _ Open). intros own' h' l Hx Hok' Hs Ho Hc.
  destruct Ha as [Hev _].
  pose proof (strings_agree _ _ _ _ _ Hx _ _ I Hev) as He.
  assert (holds_time own' h' (Some l)) as Hl by (split; [done|by eexists]).
  apply sim_write; [done| | |intros Hok2; apply returns_rectification; [done| |done]].
  - apply ok_put_rectification; [apply Hok'|]. split; [|done]. by eapply holds_slice_agree.
  - autorewrite with seen_db. unfold seen_rectification; simpl. by rewrite He, Hc.
  - unfold seen_rectification; simpl. by rewrite He, Hc.
Qed.

Lemma sim_EnrollAssessor cerr pid aid :
  simulates (EnrollAssessor cerr pid aid) (LightService.EnrollAssessor cerr pid aid) shows_panel.
Proof using Hok.
  unfold EnrollAssessor, LightService.EnrollAssessor. steps. look p Hpid.
  pose proof (ok_panels _ _ _ Hreg pid p Hpid) as Ha.
  destruct (bool_decide _); [exact (returns_panel _ _ _ _ _ _ _ _ Hok eq_refl Ha)|].
  destruct Ha as (Has & Hsup & Hmil).
  assert (length (strings h (mp_AssessorIDs p)) = slice_len (mp_AssessorIDs p)) as Hl.
  { apply strings_length. unfold holds_slice in Has. case_match; naive_solver. }
  apply sim_ensure; [done|simpl; by rewrite Hl|intros _].
  apply (sim_append _ _ _ _ Hok _ pid); [done|]. intros own' h' s' Hx Hok' Hs Hi Hh.
  assert (seen_panel h' (p <| mp_AssessorIDs := Some s' |> <| mp_Version := mp_Version p +ᵢ 1 |>) =
    (seen_panel h p) <| ap_AssessorIDs := strings h (mp_AssessorIDs p) ++ [aid] |>
      <| ap_Version := mp_Version p +ᵢ 1 |>) as Hview.
  { unfold seen_panel, upd; simpl. rewrite Hi.
    by rewrite (strings_agree _ _ _ _ _ Hx (SupervisorsOf pid)),
      (entries_agree _ _ _ _ _ Hx (MilestonesOf pid)). }
  assert (owns_panel own' h' (AssessorsOf pid) (SupervisorsOf pid) (MilestonesOf pid)
    (p <| mp_AssessorIDs := Some s' |> <| mp_Version := mp_Version p +ᵢ 1 |>)) as Hown.
  { split_and!; [done|by eapply holds_slice_agree|by eapply holds_map_agree]. }
  apply sim_write; [done| | |intros Hok2; by eapply returns_panel].
  - by apply ok_put_panel; [apply Hok'|].
  - autorewrite with seen_db. by rewrite Hview.
Qed.

(** Reading. *)
Definition opens (own : ownership) (K : gset loc) : Prop := ∀ l, l ∈ K → own !! l = Some Open.
Definition shows own (h : heap) (a : mem_reply) (b : light_reply) : Prop :=
  b = seen_reply h a ∧ opens own (reply_refs a).

Lemma sim_giving {A A' B B'} (f : A → A') (g : B → B') own' h' r' hm vm Q Q' :
  sim client own' {| mem_heap := h'; mem_reg := r' |} hm vm Q →
  (∀ own' h' a b, Q own' h' a b → Q' own' h' (f a) (g b)) →
  sim client own' {| mem_heap := h'; mem_reg := r' |} (giving f hm) (giving g vm) Q'.
Proof.
  unfold sim, giving. intros Hs HQ. op_unfold_goal.
  destruct (hm _) as [m1 [a|e]], (vm _) as [r1 [b|e']];
    destruct Hs as (own1 & ? & ? & ? & ?); try done; exists own1; auto.
Qed.

Lemma sim_map_clone {A B} cs (k : list MComplaint → mop A) (vm : lop B) Q : ∀ own' h',
  ok own' client {| mem_heap := h'; mem_reg := r |} →
  Forall (λ c, ∃ o, owns_complaint own' h' o c) cs →
  (∀ own2 h2 cs', extends own' h' own2 h2 → ok own2 client {| mem_heap := h2; mem_reg := r |} →
     seen_registry h2 r = seen_registry h' r →
     seen_complaint h2 <$> cs' = seen_complaint h' <$> cs →
     Forall (owns_complaint own2 h2 Open) cs' →
     sim client own2 {| mem_heap := h2; mem_reg := r |} (k cs') vm Q) →
  sim client own' {| mem_heap := h'; mem_reg := r |} (map_each cloneComplaint cs ≫= k) vm Q.
Proof.
  revert k. induction cs as [|c cs IH]; intros k own' h' Hok' Hcs Hk; [by apply (Hk own' h')|].
  inversion Hcs as [|? ? [o Hc] Hcs']; subst. simpl.
  apply sim_assoc, (sim_cloneComplaint _ _ _ _ Hok' _ Open). intros own1 h1 c1 Ha1 Hok1 E1 He1 Hc1.
  assert (Forall (λ c, (∃ o, owns_complaint own1 h1 o c) ∧ seen_complaint h1 c = seen_complaint h' c) cs)
    as Hcs1.
  { eapply Forall_impl; [exact Hcs'|]. intros c2 [o2 Hc2].
    destruct (complaint_agree _ _ _ _ _ Ha1 o2 c2 I Hc2). eauto. }
  apply sim_assoc, IH; [done|by eapply Forall_impl; [exact Hcs1|]; intros ? []|].
  intros own2 h2 cs2 Ha2 Hok2 E2 He2 Hc2.
  destruct (complaint_agree _ _ _ _ _ Ha2 Open c1 I Hc1) as [Hc1' He1'].
  apply (Hk own2 h2); [by eapply extends_trans|done|by rewrite E2|..|by constructor].
  rewrite !fmap_cons, He1', He1, He2. f_equal. apply list_fmap_ext. intros j c2 Hj.
  rewrite Forall_lookup in Hcs1. by apply (Hcs1 _ _ Hj).
Qed.

Lemma keeps_seen query (order : list (string * MComplaint)) :
  List.filter (query_keeps query) (snd <$> (prod_map id (seen_complaint h) <$> order)) =
  seen_complaint h <$> List.filter (m_query_keeps query) (snd <$> order).
Proof.
  induction order as [|[k c] order IH]; [done|]. rewrite !fmap_cons. cbn [List.filter prod_map fst snd].
  change (query_keeps query (seen_complaint h c)) with (m_query_keeps query c). rewrite IH.
  by destruct (m_query_keeps query c).
Qed.
Lemma opens_slice own' h' s : holds_slice own' h' Open s → opens own' (slice_ref s).
Proof. unfold opens. destruct s; simpl; [intros [? _]|]; set_solver. Qed.
Lemma opens_map own' h' p : holds_map own' h' Open p → opens own' (ref p).
Proof. unfold opens. destruct p; simpl; [intros [? _]|]; set_solver. Qed.
Lemma opens_time own' h' p : holds_time own' h' p → opens own' (ref p).
Proof. unfold opens. destruct p; simpl; [intros [? _]|]; set_solver. Qed.
Lemma opens_empty own' : opens own' ∅.
Proof. by intros l ?%elem_of_empty. Qed.
Lemma opens_union own' K K' : opens own' K → opens own' K' → opens own' (K ∪ K').
Proof. intros H1 H2 l [?|?]%elem_of_union; auto. Qed.
Lemma opens_panel own' h' p : owns_panel own' h' Open Open Open p → opens own' (panel_refs p).
Proof.
  intros (H1 & H2 & H3). unfold panel_refs.
  apply opens_union; [apply opens_union; by eapply opens_slice|by eapply opens_map].
Qed.
Lemma opens_complaints own' h' cs :
  Forall (owns_complaint own' h' Open) cs →
  opens own' (⋃ ((λ c, slice_ref (mc_Evidence c)) <$> cs)).
Proof.
  induction 1; simpl; [by intros l ?%elem_of_empty|].
  apply opens_union; [|done]. by eapply opens_slice.
Qed.

Lemma sim_eq {A B} (hm hm' : mop A) (vm vm' : lop B) Q :
  hm {| mem_heap := h; mem_reg := r |} = hm' {| mem_heap := h; mem_reg := r |} →
  vm (seen_registry h r) = vm' (seen_registry h r) →
  simulates hm' vm' Q → simulates hm vm Q.
Proof. intros E1 E2. unfold sim, seen. simpl. by rewrite E1, E2. Qed.

(** [evaluates E]: both sides, once it is known what the lookup finds. *)
Ltac evaluates E :=
  simpl; unfold giving, Complaint, Assessment, AssessmentTeam_, Rectification, Panel, reg,
    LightModel.Complaint, LightModel.Assessment, LightModel.AssessmentTeam_,
    LightModel.Rectification, LightModel.Panel;
  op_unfold_goal; simpl; rewrite ?lookup_fmap, ?E; simpl;
  try match goal with
      | |- context [cloneComplaint ?c ?m] => destruct (cloneComplaint c m) as [? []]
      | |- context [cloneRectification ?s ?m] => destruct (cloneRectification s m) as [? []]
      | |- context [clonePanel ?p ?m] => destruct (clonePanel p m) as [? []]
      end; done.

Lemma sim_answers {A B} (hm : mop A) (vm : lop B) a b (Q : ownership → heap → A → B → Prop) :
  hm {| mem_heap := h; mem_reg := r |} = ({| mem_heap := h; mem_reg := r |}, Ok a) →
  vm (seen_registry h r) = (seen_registry h r, Ok b) → Q own h a b → simulates hm vm Q.
Proof using Hok.
  intros E1 E2 HQ. unfold sim, seen. simpl. rewrite E1, E2. by exists own.
Qed.

Lemma sim_Complaint id :
  simulates (exec_mem (MComplaintOf id)) (exec_values h (MComplaintOf id)) shows.
Proof using Hok.
  destruct (m_complaints r !! id) as [c|] eqn:Ec.
  2: { apply (sim_answers _ _ (RComplaint None) (RComplaint None)); [evaluates Ec..|by split; [|apply opens_empty]]. }
  apply (sim_eq _ (cloneComplaint c ≫= λ c, mret (RComplaint (Some c)))
    _ (mret (RComplaint (Some (seen_complaint h c))))); [evaluates Ec..|].
  apply (sim_cloneComplaint _ _ _ _ Hok _ Open). intros own' h' c' Ha Hok' Hs He Hc.
  apply sim_ret; [done|]. split; [by simpl; rewrite He|by eapply opens_slice].
Qed.

Lemma sim_Rectification id :
  simulates (exec_mem (MRectificationOf id)) (exec_values h (MRectificationOf id)) shows.
Proof using Hok.
  destruct (m_rectifications r !! id) as [s|] eqn:Es.
  2: { apply (sim_answers _ _ (RRectification None) (RRectification None)); [evaluates Es..|by split; [|apply opens_empty]]. }
  apply (sim_eq _ (cloneRectification s ≫= λ s, mret (RRectification (Some s)))
    _ (mret (RRectification (Some (seen_rectification h s))))); [evaluates Es..|].
  apply (sim_cloneRectification _ _ _ _ Hok _ Open); [by apply (ok_rectifications _ _ _ Hreg id s)|].
  intros own' h' s' Ha Hok' Hs He [Hev Ht].
  apply sim_ret; [done|]. split; [by simpl; rewrite He|].
  apply opens_union; [by eapply opens_slice|by eapply opens_time].
Qed.

Lemma sim_Panel id :
  simulates (exec_mem (MPanelOf id)) (exec_values h (MPanelOf id)) shows.
Proof using Hok.
  destruct (m_panels r !! id) as [p|] eqn:Ep.
  2: { apply (sim_answers _ _ (RPanel None) (RPanel None)); [evaluates Ep..|by split; [|apply opens_empty]]. }
  apply (sim_eq _ (clonePanel p ≫= λ p, mret (RPanel (Some p)))
    _ (mret (RPanel (Some (seen_panel h p))))); [evaluates Ep..|].
  apply (sim_clonePanel _ _ _ _ Hok _ _ _ _ Open Open Open _ _ _ (ok_panels _ _ _ Hreg id p Ep)).
  intros own' h' p' Ha Hok' Hs He Hp.
  apply sim_ret; [done|]. split; [by simpl; rewrite He|by eapply opens_panel].
Qed.

Lemma sim_Assessment id :
  simulates (exec_mem (MAssessmentOf id)) (exec_values h (MAssessmentOf id)) shows.
Proof using Hok.
  apply (sim_answers _ _ (RReservation (m_assessments r !! id))
    (RReservation (seen_reservation h <$> m_assessments r !! id))).
  - done.
  - simpl. unfold LightModel.Assessment. op_unfold_goal. simpl. by rewrite lookup_fmap.
  - split; [done|]. destruct (m_assessments r !! id) as [a|] eqn:Ea; simpl; [|apply opens_empty].
    eapply opens_time. by apply (ok_assessments _ _ _ Hreg id a).
Qed.

Lemma map_each_same {A} (f : A → mop A) m l :
  Forall (λ x, f x m = (m, Ok x)) l → map_each f l m = (m, Ok l).
Proof.
  induction 1 as [|x l Hx Hl IH]; [done|]. simpl. unfold mbind, op_bind. by rewrite Hx, IH.
Qed.

Lemma sim_Events : simulates (exec_mem MEventsOf) (exec_values h MEventsOf) shows.
Proof using Hok.
  pose proof (ok_events _ _ _ Hreg) as He.
  apply (sim_answers _ _ (REvents (m_events r)) (REvents (seen_event h <$> m_events r))).
  - simpl. unfold giving, Events. unfold reg, gets, mbind at 1 2, op_bind at 1 2. simpl.
    rewrite map_each_same; [done|]. eapply Forall_impl; [exact He|]. intros e Hm. simpl in Hm.
    unfold on_heap, cloneStringMap, mbind, op_bind. rewrite Hm. simpl. destruct e; simpl in *. by subst.
  - done.
  - split; [done|]. simpl. induction He as [|e es Hm He' IH]; simpl; [apply opens_empty|].
    rewrite Hm. by apply opens_union; [apply opens_empty|].
Qed.

Lemma sim_ListComplaints cerr query order :
  order ≡ₚ map_to_list (m_complaints r) →
  simulates (exec_mem (MListComplaints cerr query order))
    (exec_values h (MListComplaints cerr query order)) shows.
Proof using Hok.
  intros Hperm. simpl. unfold giving, ListComplaints, LightService.ListComplaints.
  destruct cerr as [e|]; [by exists own|].
  destruct (_ || _ || _) eqn:Eb.
  { eapply (sim_eq _ (raise _) _ (raise _)); [..|by apply sim_raise];
      unfold check_ctx; op_unfold_goal; rewrite ?Eb; reflexivity. }
  rewrite keeps_seen. set (cs := List.filter (m_query_keeps query) (snd <$> order)).
  assert (Forall (λ c, ∃ o, owns_complaint own h o c) cs) as Hcs.
  { apply Forall_forall. intros c [Hc _]%elem_of_filter_bool.
    apply list_elem_of_fmap in Hc as ([k c'] & -> & Hk). rewrite Hperm in Hk.
    apply elem_of_map_to_list in Hk. eexists. by apply (ok_complaints _ _ _ Hreg k c'). }
  pose (page := λ {X} (items : list X), let n := Z.of_nat (length items) in
    if n <=? cq_Offset query then []
    else take (Z.to_nat ((if (0 <? cq_Limit query) && (cq_Offset query +ᵢ cq_Limit query <? n)
                          then cq_Offset query +ᵢ cq_Limit query else n) - cq_Offset query))
           (drop (Z.to_nat (cq_Offset query)) items)).
  apply (sim_eq _ (map_each cloneComplaint cs ≫=
      λ items, mret (RComplaints (page _ items) (Z.of_nat (length items))))
    _ (mret (RComplaints (page _ (seen_complaint h <$> cs))
        (Z.of_nat (length (seen_complaint h <$> cs)))))).
  { unfold check_ctx, page. op_unfold_goal. destruct (map_each _ _ _) as [? [items|]]; [|done].
    by destruct (_ <=? _). }
  { unfold page. op_unfold_goal. by destruct (_ <=? _). }
  apply sim_map_clone; [done|done|]. intros own' h' cs' Ha Hok' Hs He Hc. rewrite <- He.
  apply sim_ret; [done|]. split; simpl.
  - f_equal; [|by rewrite length_fmap]. unfold page. rewrite length_fmap. case_match; [done|].
    by rewrite fmap_take, fmap_drop.
  - apply (opens_complaints _ h'). unfold page. case_match; [constructor|].
    by apply Forall_take, Forall_drop.
Qed.

(** Every call. *)
Context (K : gset loc) (HK : opens own K).

Lemma knows_slice s : known_slice K h s → holds_slice own h Open s.
Proof using HK. destruct s; [|done]. intros [? ?]. split; auto. Qed.
Lemma knows_map p : known_map K h p → holds_map own h Open p.
Proof using HK. destruct p; [|done]. intros [? ?]. split; auto. Qed.
Lemma knows_time p : known_time K h p → holds_time own h p.
Proof using HK. destruct p; [|done]. intros [? ?]. split; auto. Qed.

Lemma sim_exec c :
  legal K {| mem_heap := h; mem_reg := r |} c → simulates (exec_mem c) (exec_values h c) shows.
Proof using Hok HK.
  assert (∀ own' h' (a b : ()), shows_nothing own' h' a b → shows own' h' RNothing RNothing) as Hn
    by (intros; split; [done|apply opens_empty]).
  assert (∀ own' h' a b, shows_complaint own' h' a b →
    shows own' h' (RComplaint (Some a)) (RComplaint (Some b))) as Hc
    by (intros own' h' a b [-> Ha]; split; [done|by eapply opens_slice]).
  assert (∀ own' h' a b, shows_rectification own' h' a b →
    shows own' h' (RRectification (Some a)) (RRectification (Some b))) as Hs
    by (intros own' h' a b [-> [Ha Ht]]; split; [done|];
        apply opens_union; [by eapply opens_slice|by eapply opens_time]).
  assert (∀ own' h' a b, shows_reservation own' h' a b →
    shows own' h' (RReservation (Some a)) (RReservation (Some b))) as Ha
    by (intros own' h' a b [-> Ha]; split; [done|by eapply opens_time]).
  assert (∀ own' h' a b, shows_panel own' h' a b →
    shows own' h' (RPanel (Some a)) (RPanel (Some b))) as Hp
    by (intros own' h' a b [-> Hp]; split; [done|by eapply opens_panel]).
  destruct c; simpl; intros Hl.
  - eapply sim_giving, Hn. apply sim_AddAssessmentTeam.
  - eapply sim_giving, Hn. apply sim_AddZone.
  - eapply sim_giving, Hn. by apply sim_AddRule, knows_slice.
  - eapply sim_giving, Hn. apply sim_AddPanel. destruct Hl as (? & ? & ?).
    split_and!; auto using knows_slice, knows_map.
  - eapply sim_giving, Hc. by apply sim_SubmitComplaint, knows_slice.
  - eapply sim_giving, Ha. apply sim_ReserveAssessment.
  - eapply sim_giving, Hn. apply sim_ReleaseAssessment.
  - eapply sim_giving, Hc. apply sim_AcceptComplaint.
  - eapply sim_giving, Hn. apply sim_AssignZone.
  - eapply sim_giving, Hs. apply sim_PublishRectification. destruct Hl.
    split; auto using knows_slice, knows_time.
  - eapply sim_giving, Hs. apply sim_VerifyRectification.
  - eapply sim_giving, Hn. apply sim_ApplyRule.
  - eapply sim_giving, Hp. apply sim_EnrollAssessor.
  - eapply sim_giving, Hc. by apply sim_ResubmitComplaint, knows_slice.
  - eapply sim_giving, Hn. apply sim_CloseComplaint.
  - apply sim_Complaint.
  - apply sim_Assessment.
  - by apply (sim_answers _ _ (RTeam (m_teams r !! id)) (RTeam (m_teams r !! id)));
      [..|split; [|apply opens_empty]].
  - apply sim_Rectification.
  - apply sim_Panel.
  - apply sim_Events.
  - by apply sim_ListComplaints.
Qed.
End calls.
End operations.
