(* ===== verification/LightMemoryClaims.v ===== *)
(** * The hub in memory: what callers can and cannot do to it

    Callers that write through every reference they have change nothing of the
    registry but the times of release and review, whose pointers the registry
    shares with them; so the operations on values say what the program does,
    and the invariants of the registry hold. *)
From stdpp Require Import fin_map_dom.
From S2P Require Import Prelude GoErrors GoStrings GoMemory LightModel LightService LightSpec LightFacts.
From S2P Require Import LightMemory LightMemoryFacts.

(** ** Registries that differ in times of release and review only *)

Definition same_reservation (a a' : AssessmentReservation) : Prop :=
  a' = a <| ar_ReleasedAt := ar_ReleasedAt a' |> ∧
  (is_Some (ar_ReleasedAt a') ↔ is_Some (ar_ReleasedAt a)).
Definition same_submission (s s' : RectificationSubmission) : Prop :=
  s' = s <| rs_ReviewedAt := rs_ReviewedAt s' |> ∧
  (is_Some (rs_ReviewedAt s') ↔ is_Some (rs_ReviewedAt s)).
Definition retimed (r r' : Registry) : Prop :=
  r' = r <| assessments := assessments r' |> <| rectifications := rectifications r' |> ∧
  (∀ id, option_Forall2 same_reservation (assessments r !! id) (assessments r' !! id)) ∧
  (∀ id, option_Forall2 same_submission (rectifications r !! id) (rectifications r' !! id)).

Section retimed.
Context `{UnicodeTables} (r r' : Registry) (Hr : retimed r r').

Lemma retimed_reservation id a' :
  assessments r' !! id = Some a' →
  ∃ a, assessments r !! id = Some a ∧ same_reservation a a'.
Proof using Hr.
  intros Ha. destruct Hr as (_ & Hres & _). specialize (Hres id). rewrite Ha in Hres.
  inversion Hres; subst; eauto.
Qed.
Lemma retimed_known id : is_Some (assessments r !! id) → is_Some (assessments r' !! id).
Proof using Hr.
  intros [a Ha]. destruct Hr as (_ & Hres & _). specialize (Hres id). rewrite Ha in Hres.
  inversion Hres; subst; eauto.
Qed.
Lemma retimed_submission id s' :
  rectifications r' !! id = Some s' →
  ∃ s, rectifications r !! id = Some s ∧ same_submission s s'.
Proof using Hr.
  intros Hs. destruct Hr as (_ & _ & Hsub). specialize (Hsub id). rewrite Hs in Hsub.
  inversion Hsub; subst; eauto.
Qed.

Lemma held_same id a a' : same_reservation a a' → held_by id a' = held_by id a.
Proof.
  intros [E Hi]. unfold held_by. rewrite E; simpl.
  assert (ar_ReleasedAt a' = None ↔ ar_ReleasedAt a = None) as Hn
    by (rewrite !eq_None_not_Some; naive_solver).
  erewrite (bool_decide_ext (_ ∧ ar_ReleasedAt a' = None)); [done|]. by rewrite Hn.
Qed.
Lemma held_retimed id : held r' id = held r id.
Proof using Hr.
  assert (∀ m : gmap string _, map_sum (held_by id) m = map_fold (λ _ z acc, z + acc) 0 (held_by id <$> m)) as Hm
    by (intros m; by rewrite map_fold_fmap).
  unfold held. rewrite !Hm.
  f_equal. apply map_eq. intros k. rewrite !lookup_fmap. destruct Hr as (_ & Hres & _).
  specialize (Hres k). inversion Hres as [a a' Hs|]; simpl; [|done].
  f_equal. by apply held_same.
Qed.

(** Nothing the registry relies on is such a time. *)
Lemma light_inv_retimed : light_inv r → light_inv r'.
Proof using Hr.
  intros [Hc Ht Ha Hz Ho Hp Hs]. destruct Hr as (E & _ & _).
  assert (complaints r' = complaints r ∧ teams r' = teams r ∧ zones r' = zones r ∧
    rules r' = rules r ∧ panels r' = panels r) as (Ec & Et & Ez & Eo & Ep)
    by (rewrite E; by split_and!).
  constructor; rewrite ?Ec, ?Et, ?Ez, ?Eo, ?Ep; try done.
  - intros id c Hid. destruct (Hc id c Hid) as (? & ? & ? & ? & Hzone & Hacc).
    split_and!; try done.
    + unfold zone_matches. by rewrite Ez.
    + intros Hst. destruct (Hacc Hst). by split; [apply retimed_known|].
  - intros id t Hid. destruct (Ht id t Hid) as (? & ? & ? & ?). split_and!; try lia; try done.
    by rewrite held_retimed.
  - intros id a' Hid. destruct (retimed_reservation id a' Hid) as (a & Hida & Hsame & _).
    destruct (Ha id a Hida) as (? & ? & ? & ?). unfold assessment_ok.
    rewrite Hsame, Ec, Et. simpl. by split_and!.
  - intros id s' Hid. destruct (retimed_submission id s' Hid) as (s & Hids & Hsame & _).
    destruct (Hs id s Hids) as (? & ? & ? & ?). unfold rectification_ok.
    rewrite Hsame, Ec. simpl. by split_and!.
Qed.
End retimed.

(** ** The process *)

Section process.
Context `{UnicodeTables, Runtime}.

(** The cells the callers know. *)
Definition client (w : world) : heap :=
  filter (λ cell, fst cell ∈ w_known w) (mem_heap (w_mem w)).
Definition owned (own : ownership) (w : world) : Prop :=
  ok own (client w) (w_mem w) ∧ opens own (w_known w).

Lemma owned_intro own cl m K : ok own cl m → opens own K → owned own {| w_mem := m; w_known := K |}.
Proof.
  intros [Hd Hc Ho Hr] HK. split; [|done]. constructor; [done| | |done].
  - apply map_filter_subseteq.
  - intros l [c [_ Hl]%map_lookup_filter_Some]. by apply HK.
Qed.

(** A call on the memory is the call on the values. *)
Lemma call_simulated own w c m' a :
  owned own w → legal (w_known w) (w_mem w) c → exec_mem c (w_mem w) = (m', a) →
  exec_values (mem_heap (w_mem w)) c (seen (w_mem w)) = (seen m', seen_result (mem_heap m') a) ∧
  (∀ l, l ∈ w_known w → mem_heap m' !! l = mem_heap (w_mem w) !! l) ∧
  ∃ own', owned own' {| w_mem := m'; w_known := w_known w ∪ result_refs a |}.
Proof.
  intros [Hok HK] Hl E. destruct w as [[h r] K]; simpl in *.
  pose proof (sim_exec (client {| w_mem := {| mem_heap := h; mem_reg := r |}; w_known := K |})
    own h r Hok K HK c Hl) as Hs.
  unfold sim in Hs. rewrite E in Hs.
  destruct (exec_values h c (seen _)) as [r' b] eqn:Ev.
  destruct Hs as (own' & Hsub & Hok' & -> & Hab).
  split_and!.
  - destruct a as [a|e], b as [b|e']; simpl in *; [|done..|by rewrite Hab]. by destruct Hab as [-> _].
  - intros l Hin. pose proof (HK l Hin) as Ho.
    assert (is_Some (h !! l)) as [c0 Hc0] by (apply (ok_dom _ _ _ Hok); eauto).
    rewrite Hc0. eapply lookup_weaken; [|exact (ok_client _ _ _ Hok')].
    by apply map_lookup_filter_Some.
  - exists own'. eapply owned_intro; [done|]. intros l [Hin|Hin]%elem_of_union.
    + by eapply lookup_weaken; [apply HK|].
    + destruct a as [a|e], b as [b|e']; simpl in *; try set_solver. by apply (proj2 Hab).
Qed.

Lemma new_kept own w c h' l :
  owned own w → new_cell c (mem_heap (w_mem w)) = (h', l) →
  seen ((w_mem w) <| mem_heap := h' |>) = seen (w_mem w) ∧
  ∃ own', owned own' {| w_mem := (w_mem w) <| mem_heap := h' |>; w_known := {[ l ]} ∪ w_known w |}.
Proof.
  intros [Hok HK] E. destruct w as [[h r] K]; simpl in *.
  pose proof (new_cell_fresh c h) as Hf. rewrite E in Hf. simpl in Hf.
  destruct (extends_new own _ h r l Open c Hok Hf) as ([Hsub _] & Hok' & Hs).
  assert (h' = <[l := c]> h) as -> by (unfold new_cell in E; by simplify_eq).
  split; [done|]. exists (<[l := Open]> own). eapply owned_intro; [done|].
  intros l' [->%elem_of_singleton|Hin]%elem_of_union; [apply lookup_insert_eq|].
  by eapply lookup_weaken; [apply HK|].
Qed.

Section write.
Context (own : ownership) (cl h : heap) (r : MRegistry) (l : loc) (c c' : cell).
Context (Hok : ok own cl {| mem_heap := h; mem_reg := r |}) (Hl : own !! l = Some Open).
Context (Hc : h !! l = Some c) (Hshape : same_shape c c' = true).
Let h' := <[l := c']> h.

Lemma write_agree : agree (λ o, o ≠ Open) own h own h'.
Proof using Hl.
  split; [done|]. intros l' o Ho Hne. apply lookup_insert_ne. by intros <-; simplify_eq.
Qed.
Lemma write_time p : holds_time own h p → holds_time own h' p.
Proof using Hc Hshape.
  destruct p as [p|]; [|done]. intros [Ho [t Ht]]. split; [done|]. unfold is_time, h'.
  destruct (decide (p = l)) as [->|]; [|rewrite lookup_insert_ne by done; eauto].
  rewrite lookup_insert_eq. simplify_eq. destruct c'; naive_solver.
Qed.
Lemma write_registry :
  ok_registry own h' r ∧ retimed (seen_registry h r) (seen_registry h' r).
Proof using Hok Hl Hc Hshape.
  pose proof write_agree as Ha. pose proof (ok_reg _ _ _ Hok) as [Hco Has Hru Hre Hpa Hev].
  simpl in *.
  destruct (map_agree (λ id, owns_complaint own h (EvidenceOf id))
    (λ id, owns_complaint own h' (EvidenceOf id)) (seen_complaint h) (seen_complaint h')
    (m_complaints r) ltac:(intros; by eapply complaint_agree) Hco) as [Hco' Ec].
  destruct (map_agree (λ id, owns_rule own h (KindsOf id))
    (λ id, owns_rule own h' (KindsOf id)) (seen_rule h) (seen_rule h')
    (m_rules r) ltac:(intros; by eapply rule_agree) Hru) as [Hru' Eo].
  destruct (map_agree
    (λ id, owns_panel own h (AssessorsOf id) (SupervisorsOf id) (MilestonesOf id))
    (λ id, owns_panel own h' (AssessorsOf id) (SupervisorsOf id) (MilestonesOf id))
    (seen_panel h) (seen_panel h') (m_panels r)) as [Hpa' Ep]; [|done|].
  { intros id p Hp _. apply (panel_agree _ _ _ _ _ Ha); [done..|]. destruct Hp as [Hs _].
    split; [by apply (holds_slice_agree _ _ _ _ _ Ha)|].
    by apply (strings_agree _ _ _ _ _ Ha (AssessorsOf id)). }
  split; [constructor; [done| |done| |done|done]|].
  - intros id a Hid. by apply write_time, (Has id).
  - intros id s Hid. destruct (Hre id s Hid) as [He Ht].
    by split; [eapply holds_slice_agree|apply write_time].
  - split_and!.
    + unfold seen_registry, upd; simpl. rewrite Ec, Eo, Ep. f_equal.
      apply list_fmap_ext. intros i e Hi. unfold seen_event.
      rewrite Forall_lookup in Hev. by rewrite (Hev _ _ Hi).
    + intros id. simpl. rewrite !lookup_fmap.
      destruct (m_assessments r !! id) as [a|]; simpl; constructor.
      split; [done|]. simpl. destruct (ma_ReleasedAt a); simpl; by split.
    + intros id. simpl. rewrite !lookup_fmap.
      destruct (m_rectifications r !! id) as [s|] eqn:Es; simpl; constructor.
      destruct (Hre id s Es) as [He Ht].
      split; [|simpl; destruct (ms_ReviewedAt s); simpl; by split].
      unfold seen_rectification, upd; simpl.
      by rewrite (strings_agree _ _ _ _ _ Ha (ReportOf id)).
Qed.
End write.

Lemma write_kept own w l c c' :
  owned own w → l ∈ w_known w → mem_heap (w_mem w) !! l = Some c → same_shape c c' = true →
  let m' := (w_mem w) <| mem_heap := <[l := c']> (mem_heap (w_mem w)) |> in
  retimed (seen (w_mem w)) (seen m') ∧ owned own {| w_mem := m'; w_known := w_known w |}.
Proof.
  intros [Hok HK] Hl Hc Hs. destruct w as [[h r] K]; simpl in *.
  destruct (write_registry own _ h r l c c' Hok (HK _ Hl) Hc Hs) as [Hr' Ht].
  split; [done|]. apply (owned_intro own ∅); [|done]. constructor; simpl; [| |by intros ? []|done].
  - intros l'. rewrite lookup_insert_is_Some', (ok_dom _ _ _ Hok). simpl. naive_solver.
  - apply map_empty_subseteq.
Qed.
End process.

(** ** Executions *)

Section executions.
Context `{UnicodeTables, Runtime}.

Lemma owned_new w : new_world w → ∃ own, owned own w.
Proof.
  intros [Hr HK]. destruct w as [[h r] K]; simpl in *; subst.
  assert (∀ l, is_Some (gset_to_gmap Open (dom h) !! l) ↔ is_Some (h !! l)) as Hd.
  { intros l. by rewrite <- !elem_of_dom, dom_gset_to_gmap. }
  exists (gset_to_gmap Open (dom h)). apply (owned_intro _ ∅).
  - constructor; [done|apply map_empty_subseteq|by intros l []|].
    by constructor; first [apply map_Forall_empty|constructor].
  - intros l Hl. by apply lookup_gset_to_gmap_Some.
Qed.
Lemma owned_step own w mv w' : owned own w → world_step w mv w' → ∃ own', owned own' w'.
Proof.
  intros Hw Hs. destruct Hs as [c h' l E|l c c' Hl Hc Hs|c m' a Hl E].
  - by destruct (new_kept own w c h' l Hw E).
  - exists own. by apply (write_kept own w l c c' Hw).
  - by destruct (call_simulated own w c m' a Hw Hl E) as (_ & _ & ?).
Qed.
Lemma owned_reachable w : reachable world_step new_world w → ∃ own, owned own w.
Proof.
  intros (w0 & ls & Hnew & Hs). pose proof (owned_new _ Hnew) as Hown. clear Hnew.
  induction Hs as [|? mv ? ? ? Hstep ? IH]; [done|]. destruct Hown as [own Hown].
  by eapply IH, owned_step.
Qed.

(** The calls among the moves that write to the registry, on values. *)
Definition light_call_of (h : heap) (c : mem_call) : option light_call :=
  match c with
  | MAddAssessmentTeam cerr team => Some (CallAddAssessmentTeam cerr team)
  | MAddZone cerr zone => Some (CallAddZone cerr zone)
  | MAddRule cerr rule => Some (CallAddRule cerr (seen_rule h rule))
  | MAddPanel cerr panel => Some (CallAddPanel cerr (seen_panel h panel))
  | MSubmitComplaint call c => Some (CallSubmitComplaint call (seen_complaint h c))
  | MReserveAssessment call c t n => Some (CallReserveAssessment call c t n)
  | MReleaseAssessment call c => Some (CallReleaseAssessment call c)
  | MAcceptComplaint call c a => Some (CallAcceptComplaint call c a)
  | MAssignZone cerr c z n => Some (CallAssignZone cerr c z n)
  | MPublishRectification call s => Some (CallPublishRectification call (seen_rectification h s))
  | MVerifyRectification call s v => Some (CallVerifyRectification call s v)
  | MApplyRule cerr wall c o t => Some (CallApplyRule cerr wall c o t)
  | MEnrollAssessor cerr p a => Some (CallEnrollAssessor cerr p a)
  | MResubmitComplaint call c ev => Some (CallResubmitComplaint call c (strings h ev))
  | MCloseComplaint call c => Some (CallCloseComplaint call c)
  | MComplaintOf _ | MAssessmentOf _ | MTeamOf _ | MRectificationOf _ | MPanelOf _
  | MEventsOf | MListComplaints _ _ _ => None
  end.

Lemma giving_state {St A B} (f : A → B) (m : op St lerror A) s :
  fst (giving f m s) = fst (forget m s).
Proof. unfold giving, forget. op_unfold_goal. by destruct (m s) as [? []]. Qed.
Lemma giving_state_unit {St B} (f : () → B) (m : op St lerror ()) s :
  fst (giving f m s) = fst (m s).
Proof. unfold giving. op_unfold_goal. by destruct (m s) as [? []]. Qed.

Lemma exec_values_state h c r :
  match light_call_of h c with
  | Some lc => light_step r lc (fst (exec_values h c r))
  | None => fst (exec_values h c r) = r
  end.
Proof.
  unfold light_step. destruct c; simpl; try reflexivity;
    first [symmetry; apply giving_state | symmetry; apply giving_state_unit | idtac].
  unfold giving, lift. op_unfold_goal. by destruct (LightService.ListComplaints _ _ _).
Qed.

(** Callers that hand in fresh resources. *)
Definition fresh_move (w : world) (mv : move) : Prop :=
  match mv with
  | MoveCall c => from_option fresh_call True (light_call_of (mem_heap (w_mem w)) c)
  | MoveNew _ | MoveWrite _ _ => True
  end.
Definition fresh_world_step (w : world) (mv : move) (w' : world) : Prop :=
  fresh_move w mv ∧ world_step w mv w'.

Lemma world_inv w : reachable fresh_world_step new_world w → light_inv (seen (w_mem w)).
Proof.
  intros (w0 & ls & Hnew & Hs). pose proof (owned_new _ Hnew) as Hown.
  assert (light_inv (seen (w_mem w0))) as Hinv.
  { destruct Hnew as [Hr _]. unfold seen. rewrite Hr. unfold seen_registry; simpl.
    rewrite !fmap_empty. apply light_inv_empty. }
  clear Hnew. induction Hs as [|w1 mv w2 ? ? [Hf Hstep] ? IH]; [done|]. destruct Hown as [own Hown].
  apply IH; [by eapply owned_step|]. clear IH.
  destruct Hstep as [c h' l E|l c c' Hl Hc Hs'|c m' a Hl E]; simpl in *.
  - by destruct (new_kept own w1 c h' l Hown E) as [-> _].
  - eapply light_inv_retimed; [|done]. by apply (write_kept own w1 l c c' Hown).
  - destruct (call_simulated own w1 c m' a Hown Hl E) as [Ev _].
    pose proof (exec_values_state (mem_heap (w_mem w1)) c (seen (w_mem w1))) as Hc.
    rewrite Ev in Hc. simpl in Hc. destruct (light_call_of _ c) as [lc|]; [|by rewrite Hc].
    by eapply light_inv_step; [|split].
Qed.

(** C39: in every execution in which callers keep references and write through
    them between the calls, the hub behaves as on values. A call leaves the
    registry as the operation on values leaves what the registry shows, with
    the same error or a result that reads the same, and writes to no memory a
    caller knows; a write by a caller changes nothing but times of release and
    review; and as long as fresh resources are added, the invariant of the
    registry holds. *)
Theorem hub_memory_refines w :
  reachable world_step new_world w →
  (∀ c m' a, legal (w_known w) (w_mem w) c → exec_mem c (w_mem w) = (m', a) →
     exec_values (mem_heap (w_mem w)) c (seen (w_mem w)) = (seen m', seen_result (mem_heap m') a) ∧
     ∀ l, l ∈ w_known w → mem_heap m' !! l = mem_heap (w_mem w) !! l) ∧
  (∀ l c w', world_step w (MoveWrite l c) w' → retimed (seen (w_mem w)) (seen (w_mem w'))) ∧
  (reachable fresh_world_step new_world w → light_inv (seen (w_mem w))).
Proof.
  intros Hw. destruct (owned_reachable w Hw) as [own Hown]. split_and!.
  - intros c m' a Hl E. by destruct (call_simulated own w c m' a Hown Hl E) as (? & ? & _).
  - intros l c w' Hs. inversion Hs as [|? c0 ? Hl Hc Hshape|]; subst.
    by apply (write_kept own w l c0 c Hown).
  - apply world_inv.
Qed.
End executions.

(** ** A concrete execution *)

(** Arrays with room for one more element. *)
Definition one_more : Runtime :=
  {| rt_capacity n := S n; rt_capacity_enough n := Nat.le_succ_diag_r n |}.
#[local] Existing Instances ascii_tables one_more.

Definition do_move (w : world) (mv : move) : world :=
  match mv with
  | MoveNew c =>
      let '(h, l) := new_cell c (mem_heap (w_mem w)) in
      {| w_mem := (w_mem w) <| mem_heap := h |>; w_known := {[ l ]} ∪ w_known w |}
  | MoveWrite l c =>
      {| w_mem := (w_mem w) <| mem_heap := <[l := c]> (mem_heap (w_mem w)) |>;
         w_known := w_known w |}
  | MoveCall c =>
      let '(m, a) := exec_mem c (w_mem w) in
      {| w_mem := m; w_known := w_known w ∪ result_refs a |}
  end.
(** A check of a move, sufficient for the execution below. *)
Definition sound_slice (K : gset loc) (h : heap) (s : option slice) : bool :=
  match s with
  | Some s => bool_decide (sl_array s ∈ K) && (sl_len s <=? sl_cap s)%nat
              && (sl_off s + sl_cap s <=? length (array h (sl_array s)))%nat
  | None => true
  end.
Definition permitted (w : world) (mv : move) : bool :=
  match mv with
  | MoveNew _ => true
  | MoveWrite l c' =>
      bool_decide (l ∈ w_known w) &&
      match mem_heap (w_mem w) !! l with Some c => same_shape c c' | None => false end
  | MoveCall c =>
      match c with
      | MAddAssessmentTeam _ t =>
          (at_ReservedMeasurements t =? 0) && bool_decide (is_i64 (at_MeasurementCapacity t))
      | MSubmitComplaint _ c =>
          sound_slice (w_known w) (mem_heap (w_mem w)) (mc_Evidence c)
          && bool_decide (mc_LightingZoneID c = "")
      | MAddZone _ _ | MAddRule _ _ | MAddPanel _ _ | MPublishRectification _ _
      | MResubmitComplaint _ _ _ | MListComplaints _ _ _ => false
      | _ => true
      end
  end.
Lemma sound_slice_known K h s : sound_slice K h s = true → known_slice K h s.
Proof.
  destruct s as [s|]; [|done]. simpl. intros Hs. guards.
  by split; [|split; apply Nat.leb_le].
Qed.
Lemma do_move_step w mv : permitted w mv = true → fresh_world_step w mv (do_move w mv).
Proof.
  destruct mv as [c|l c'|c]; simpl; intros Hp.
  - split; [done|]. destruct (new_cell c (mem_heap (w_mem w))) as [h l] eqn:E. by constructor.
  - split; [done|]. destruct (mem_heap (w_mem w) !! l) eqn:E; guards; [by econstructor|done].
  - split.
    + destruct c; simpl in *; try done; by guards.
    + destruct (exec_mem c (w_mem w)) as [m a] eqn:E. constructor; [|done].
      destruct c; simpl in *; try done. guards. by apply sound_slice_known.
Qed.
Fixpoint all_permitted (w : world) (mvs : list move) : bool :=
  match mvs with
  | [] => true
  | mv :: mvs => permitted w mv && all_permitted (do_move w mv) mvs
  end.
Lemma do_moves_steps mvs w :
  all_permitted w mvs = true → steps fresh_world_step w mvs (foldl do_move w mvs).
Proof.
  revert w. induction mvs as [|mv mvs IH]; simpl; intros w Hp; [constructor|]. guards.
  eapply steps_cons; [by apply do_move_step|by apply IH].
Qed.

Definition ex_call_at (t : Time) : Call :=
  {| call_ctx := None; call_clock := t; call_wall := t |}.
Definition ex_photo (l : loc) : slice :=
  {| sl_array := l; sl_off := 0; sl_len := 1; sl_cap := 1 |}.
Definition ex_mem_complaint (l : loc) : MComplaint := {|
  mc_ID := "c-1"; mc_DistrictID := "luohu"; mc_ResidentID := "res-1"; mc_ResidentName := "Li";
  mc_FacilityName := "Cuihu"; mc_VenueKind := "football_field";
  mc_Status := ComplaintOther ""; mc_Evidence := Some (ex_photo l); mc_RequestedMeasurements := 3;
  mc_LightingZoneID := ""; mc_OperatingRuleID := ""; mc_RuleVersion := 0;
  mc_Attempt := 0; mc_Deadline := 0; mc_CreatedAt := 0; mc_UpdatedAt := 0; mc_Version := 0 |}.
Definition ex_crew : AssessmentTeam := {|
  at_ID := "team-1"; at_VenueKind := "FOOTBALL_FIELD"; at_MeasurementCapacity := 8;
  at_ReservedMeasurements := 0; at_Version := 1 |}.

(** A caller files a complaint with one photo and then overwrites the photo;
    the measurements are reserved and released, and it asks for the
    reservation. *)
Definition ex_moves : list move :=
  [ MoveNew (CStrings ["photo"]);
    MoveCall (MAddAssessmentTeam None ex_crew);
    MoveCall (MSubmitComplaint (ex_call_at 100) (ex_mem_complaint 1));
    MoveWrite 1 (CStrings ["forged"]);
    MoveCall (MReserveAssessment (ex_call_at 110) "c-1" "team-1" 5);
    MoveCall (MReleaseAssessment (ex_call_at 120) "c-1");
    MoveCall (MAssessmentOf "c-1") ].
Definition ex_nothing : world := {| w_mem := NewRegistryIn ∅; w_known := ∅ |}.
Definition ex_world : world := Eval vm_compute in foldl do_move ex_nothing ex_moves.
Lemma ex_world_reachable : reachable fresh_world_step new_world ex_world.
Proof.
  exists ex_nothing, ex_moves. split; [split; vm_compute; reflexivity|].
  replace ex_world with (foldl do_move ex_nothing ex_moves) by (vm_compute; reflexivity).
  apply do_moves_steps. vm_compute. reflexivity.
Qed.

Lemma fresh_reachable w : reachable fresh_world_step new_world w → reachable world_step new_world w.
Proof.
  intros (w0 & ls & Hn & Hs). exists w0, ls. split; [done|]. clear Hn.
  induction Hs as [|w1 mv w2 ls w3 [_ Hstep] _ IH]; [constructor|]. by econstructor.
Qed.

(** The photo in the registry is not the caller's; the time of the release is:
    the caller of [Assessment] sets it to whatever it likes. *)
Theorem release_time_shared :
  let w' := do_move ex_world (MoveWrite 4 (CTime 0)) in
  reachable fresh_world_step new_world ex_world ∧
  world_step ex_world (MoveWrite 4 (CTime 0)) w' ∧
  (ar_ReleasedAt <$> assessments (seen (w_mem ex_world)) !! "c-1") = Some (Some 120) ∧
  (ar_ReleasedAt <$> assessments (seen (w_mem w')) !! "c-1") = Some (Some 0) ∧
  (sc_Evidence <$> complaints (seen (w_mem w')) !! "c-1") = Some ["photo"].
Proof.
  split_and!; [apply ex_world_reachable| |by vm_compute..].
  apply do_move_step. by vm_compute.
Qed.

Lemma hub_memory_refines_witness :
  light_inv (seen (w_mem ex_world)) ∧
  retimed (seen (w_mem ex_world)) (seen (w_mem (do_move ex_world (MoveWrite 4 (CTime 0))))) ∧
  let '(m', a) := exec_mem (MReleaseAssessment (ex_call_at 130) "c-1") (w_mem ex_world) in
  exec_values (mem_heap (w_mem ex_world)) (MReleaseAssessment (ex_call_at 130) "c-1")
    (seen (w_mem ex_world)) = (seen m', seen_result (mem_heap m') a).
Proof.
  destruct (hub_memory_refines ex_world (fresh_reachable _ ex_world_reachable))
    as (Hcall & Hwrite & Hinv).
  split; [exact (Hinv ex_world_reachable)|]. split.
  - apply (Hwrite 4%positive (CTime 0)). apply do_move_step. vm_compute. reflexivity.
  - destruct (exec_mem (MReleaseAssessment (ex_call_at 130) "c-1") (w_mem ex_world)) as [m' a] eqn:E.
    exact (proj1 (Hcall (MReleaseAssessment (ex_call_at 130) "c-1") m' a I E)).
Defined.
