(* ===== verification/LightOps.v ===== *)
(** * The light-operations service: the in-memory store and its operations

    [internal/lightops]: [models.go], [store.go], [service.go] and
    [worker.go]. Every operation holds the store's mutex from before its first
    read to its return, so it is one atomic step on the [Store] record; a
    retry is two such steps, and other goroutines may run in between. Records
    are cloned on the way in and on the way out, so they are plain values. A
    float reading is its bit pattern: no operation looks at it. *)
From S2P Require Import Prelude GoErrors.

(** ** Data (models.go) *)

Inductive ops_error : Type :=
| ErrNotFound | ErrConflict | ErrForbidden | ErrInvalidState | ErrCapacity
| ErrStorage | ErrPermanentWork.
#[export] Instance ops_error_eq_dec : EqDecision ops_error.
Proof. solve_decision. Defined.

Abbreviation oerror := (error ops_error).

Record Complaint : Type := {
  co_ID : string;
  co_DistrictID : string;
  co_ResidentID : string;
  co_Facility : string;
  co_Status : string;
  co_Evidence : list string;
  co_ZoneID : string;
  co_AssessmentID : string;
  co_PlanID : string;
  co_Version : Z
}.
#[export] Instance Complaint_eta : Eta Complaint := λ c, {|
  co_ID := co_ID c; co_DistrictID := co_DistrictID c; co_ResidentID := co_ResidentID c;
  co_Facility := co_Facility c; co_Status := co_Status c; co_Evidence := co_Evidence c;
  co_ZoneID := co_ZoneID c; co_AssessmentID := co_AssessmentID c;
  co_PlanID := co_PlanID c; co_Version := co_Version c |}.

(** The zero value, which a lookup of an absent key yields. *)
Definition zero_complaint : Complaint := {|
  co_ID := ""; co_DistrictID := ""; co_ResidentID := ""; co_Facility := "";
  co_Status := ""; co_Evidence := []; co_ZoneID := ""; co_AssessmentID := "";
  co_PlanID := ""; co_Version := 0 |}.

Record RectificationPlan : Type := {
  rp_ID : string;
  rp_DistrictID : string;
  rp_ComplaintID : string;
  rp_CrewID : string;
  rp_Status : string;
  rp_Steps : list string;
  rp_Version : Z
}.
#[export] Instance RectificationPlan_eta : Eta RectificationPlan := λ p, {|
  rp_ID := rp_ID p; rp_DistrictID := rp_DistrictID p; rp_ComplaintID := rp_ComplaintID p;
  rp_CrewID := rp_CrewID p; rp_Status := rp_Status p; rp_Steps := rp_Steps p;
  rp_Version := rp_Version p |}.
Definition zero_plan : RectificationPlan := {|
  rp_ID := ""; rp_DistrictID := ""; rp_ComplaintID := ""; rp_CrewID := "";
  rp_Status := ""; rp_Steps := []; rp_Version := 0 |}.

Record Schedule : Type := {
  sd_ID : string;
  sd_DistrictID : string;
  sd_Rows : option (gmap string bool);
  sd_Cutoff : Time;
  sd_Version : Z
}.
#[export] Instance Schedule_eta : Eta Schedule := λ s, {|
  sd_ID := sd_ID s; sd_DistrictID := sd_DistrictID s; sd_Rows := sd_Rows s;
  sd_Cutoff := sd_Cutoff s; sd_Version := sd_Version s |}.

Record Assessment : Type := {
  am_ID : string;
  am_DistrictID : string;
  am_ComplaintID : string;
  am_TeamID : string;
  am_Readings : list Z;
  am_Released : bool;
  am_Version : Z
}.
#[export] Instance Assessment_eta : Eta Assessment := λ a, {|
  am_ID := am_ID a; am_DistrictID := am_DistrictID a; am_ComplaintID := am_ComplaintID a;
  am_TeamID := am_TeamID a; am_Readings := am_Readings a; am_Released := am_Released a;
  am_Version := am_Version a |}.

Record Event : Type := {
  ev_ID : string;
  ev_DistrictID : string;
  ev_EntityID : string;
  ev_Action : string;
  ev_Metadata : option (gmap string string)
}.
#[export] Instance Event_eta : Eta Event := λ e, {|
  ev_ID := ev_ID e; ev_DistrictID := ev_DistrictID e; ev_EntityID := ev_EntityID e;
  ev_Action := ev_Action e; ev_Metadata := ev_Metadata e |}.

Record OperationResult : Type := { res_EntityID : string; res_Version : Z }.

(** ** The store (store.go) *)

Record Store : Type := {
  complaints : gmap string Complaint;
  plans : gmap string RectificationPlan;
  schedules : gmap string Schedule;
  assessments : gmap string Assessment;
  events : list Event;
  idempotency : gmap string OperationResult;
  failEvent : bool;
  failPlan : bool
}.
#[export] Instance Store_eta : Eta Store := λ s, {|
  complaints := complaints s; plans := plans s; schedules := schedules s;
  assessments := assessments s; events := events s; idempotency := idempotency s;
  failEvent := failEvent s; failPlan := failPlan s |}.

Definition NewStore : Store := {|
  complaints := ∅; plans := ∅; schedules := ∅; assessments := ∅; events := [];
  idempotency := ∅; failEvent := false; failPlan := false |}.

Abbreviation oop := (op Store oerror).

Definition put_complaint (k : string) (c : Complaint) (s : Store) : Store :=
  s <| complaints := <[k := c]> (complaints s) |>.
Definition put_plan (k : string) (p : RectificationPlan) (s : Store) : Store :=
  s <| plans := <[k := p]> (plans s) |>.
Definition put_schedule (k : string) (d : Schedule) (s : Store) : Store :=
  s <| schedules := <[k := d]> (schedules s) |>.
Definition put_assessment (k : string) (a : Assessment) (s : Store) : Store :=
  s <| assessments := <[k := a]> (assessments s) |>.
Definition put_result (k : string) (o : OperationResult) (s : Store) : Store :=
  s <| idempotency := <[k := o]> (idempotency s) |>.

(** [cloneEvent] replaces the metadata by a new map and then copies the new
    map into itself: [for key, item := range value.Metadata] reads the field
    that was just assigned. *)
Definition cloneEvent (value : Event) : Event :=
  match ev_Metadata value with
  | None => value
  | Some _ =>
      let value := value <| ev_Metadata := Some ∅ |> in
      value <| ev_Metadata :=
        Some (map_fold (λ key item m, <[key := item]> m) ∅ (default ∅ (ev_Metadata value))) |>
  end.

Definition appendEventLocked (event : Event) : oop () := λ s,
  if failEvent s then
    (s <| failEvent := false |>, Err (errorf_after ErrStorage "append audit event"))
  else (s <| events := events s ++ [cloneEvent event] |>, Ok ()).

Definition savePlanLocked (plan : RectificationPlan) : oop () := λ s,
  if failPlan s then
    (s <| failPlan := false |>, Err (errorf_after ErrStorage "save rectification plan"))
  else (put_plan (rp_ID plan) plan s, Ok ()).

Definition FailNextEvent (s : Store) : Store := s <| failEvent := true |>.
Definition FailNextPlan (s : Store) : Store := s <| failPlan := true |>.

(** The read methods. *)
Definition read {A} (cerr : option ctx_error) (m : Store → gmap string A) (id : string) :
    oop A :=
  _ ← check_ctx cerr;
  s ← gets (λ s, s);
  must (m s !! id) (Sentinel ErrNotFound).
Definition Store_Complaint (cerr : option ctx_error) (id : string) : oop Complaint :=
  read cerr complaints id.
Definition Store_Plan (cerr : option ctx_error) (id : string) : oop RectificationPlan :=
  read cerr plans id.
Definition Store_Schedule (cerr : option ctx_error) (id : string) : oop Schedule :=
  read cerr schedules id.
Definition Store_Assessment (cerr : option ctx_error) (id : string) : oop Assessment :=
  read cerr assessments id.
Definition Store_Events (cerr : option ctx_error) (district : string) : oop (list Event) :=
  _ ← check_ctx cerr;
  s ← gets (λ s, s);
  mret (cloneEvent <$>
    List.filter (λ e, bool_decide (ev_DistrictID e = district)) (events s)).

(** ** The service (service.go) *)

Definition complaintKey (district key : string) : string :=
  district +:+ ":complaint:" +:+ key.
Definition actionKey (district action key : string) : string :=
  district +:+ ":" +:+ action +:+ ":" +:+ key.

Definition SubmitComplaint (cerr : option ctx_error) (complaint : Complaint) (key : string) :
    oop Complaint :=
  _ ← check_ctx cerr;
  _ ← ensure (negb (bool_decide (co_ID complaint = "")
                    || bool_decide (co_DistrictID complaint = "")
                    || bool_decide (co_Evidence complaint = [])))
        (Sentinel ErrConflict);
  s ← gets (λ s, s);
  match idempotency s !! complaintKey (co_DistrictID complaint) key with
  | Some prior => mret (default zero_complaint (complaints s !! res_EntityID prior))
  | None =>
      _ ← ensure (negb (bool_decide (is_Some (complaints s !! co_ID complaint))))
            (Sentinel ErrConflict);
      let complaint := complaint <| co_Status := "pending" |> <| co_Version := 1 |> in
      _ ← modify (put_complaint (co_ID complaint) complaint);
      ((λ s,
        match appendEventLocked
                {| ev_ID := co_ID complaint +:+ "-submitted";
                   ev_DistrictID := co_DistrictID complaint;
                   ev_EntityID := co_ID complaint; ev_Action := "complaint.submitted";
                   ev_Metadata := Some {[ "resident" := co_ResidentID complaint ]} |} s with
        | (s, Err e) =>
            (s <| complaints := delete (co_ID complaint) (complaints s) |>, Err e)
        | (s, Ok _) =>
            (put_result (complaintKey (co_DistrictID complaint) key)
               {| res_EntityID := co_ID complaint; res_Version := co_Version complaint |} s,
             Ok complaint)
        end) : oop Complaint)
  end.

(** [order] is the order in which the loop over the map visits its entries. *)
Definition ListComplaints (cerr : option ctx_error) (district : string)
    (order : list (string * Complaint)) : result oerror (list Complaint) :=
  match cerr with
  | Some e => Err (CtxErr e)
  | None => Ok (List.filter (λ c, bool_decide (co_DistrictID c = district)) (snd <$> order))
  end.

Definition PublishPlan (cerr : option ctx_error) (plan : RectificationPlan) (key : string) :
    oop RectificationPlan :=
  _ ← check_ctx cerr;
  s ← gets (λ s, s);
  complaint ← must (complaints s !! rp_ComplaintID plan) (Sentinel ErrNotFound);
  _ ← ensure (bool_decide (co_DistrictID complaint = rp_DistrictID plan))
        (Sentinel ErrForbidden);
  match idempotency s !! actionKey (rp_DistrictID plan) "plan" key with
  | Some prior => mret (default zero_plan (plans s !! res_EntityID prior))
  | None =>
      let plan := plan <| rp_Status := "submitted" |> <| rp_Version := 1 |> in
      _ ← savePlanLocked plan;
      _ ← modify (put_result (actionKey (rp_DistrictID plan) "plan" key)
            {| res_EntityID := rp_ID plan; res_Version := rp_Version plan |});
      mret plan
  end.

Definition RegisterSchedule (cerr : option ctx_error) (schedule : Schedule) : oop Schedule :=
  _ ← check_ctx cerr;
  let schedule := schedule <| sd_Version := 1 |> in
  _ ← modify (put_schedule (sd_ID schedule) schedule);
  mret schedule.

Definition SaveAssessment (cerr : option ctx_error) (assessment : Assessment) :
    oop Assessment :=
  _ ← check_ctx cerr;
  s ← gets (λ s, s);
  complaint ← must (complaints s !! am_ComplaintID assessment) (Sentinel ErrNotFound);
  _ ← ensure (bool_decide (co_DistrictID complaint = am_DistrictID assessment))
        (Sentinel ErrForbidden);
  let assessment := assessment <| am_Version := 1 |> in
  let complaint := complaint <| co_AssessmentID := am_ID assessment |>
                             <| co_Version := co_Version complaint +ᵢ 1 |> in
  _ ← modify (λ s, put_complaint (co_ID complaint) complaint
                     (put_assessment (am_ID assessment) assessment s));
  mret assessment.

Definition AssignZone (cerr : option ctx_error) (district complaintID zoneID : string) :
    oop () :=
  _ ← check_ctx cerr;
  s ← gets (λ s, s);
  complaint ← must (complaints s !! complaintID) (Sentinel ErrNotFound);
  _ ← ensure (bool_decide (co_DistrictID complaint = district)) (Sentinel ErrForbidden);
  let complaint := complaint <| co_ZoneID := zoneID |>
                             <| co_Version := co_Version complaint +ᵢ 1 |> in
  modify (put_complaint (co_ID complaint) complaint).

Definition AcceptComplaint (cerr : option ctx_error) (district complaintID : string)
    (expectedVersion : Z) : oop Complaint :=
  _ ← check_ctx cerr;
  s ← gets (λ s, s);
  complaint ← must (complaints s !! complaintID) (Sentinel ErrNotFound);
  _ ← ensure (bool_decide (co_DistrictID complaint = district)) (Sentinel ErrForbidden);
  _ ← ensure (bool_decide (co_Version complaint = expectedVersion)) (Sentinel ErrConflict);
  _ ← ensure (negb (negb (bool_decide (co_Status complaint = "pending"))
                    || bool_decide (co_AssessmentID complaint = "")
                    || bool_decide (co_ZoneID complaint = "")))
        (Sentinel ErrInvalidState);
  let complaint := complaint <| co_Status := "accepted" |>
                             <| co_Version := co_Version complaint +ᵢ 1 |> in
  _ ← modify (put_complaint (co_ID complaint) complaint);
  mret complaint.

Definition VerifyPlan (cerr : option ctx_error) (district planID : string)
    (expectedVersion : Z) : oop RectificationPlan :=
  _ ← check_ctx cerr;
  s ← gets (λ s, s);
  plan ← must (plans s !! planID) (Sentinel ErrNotFound);
  _ ← ensure (bool_decide (rp_DistrictID plan = district)) (Sentinel ErrForbidden);
  _ ← ensure (bool_decide (rp_Version plan = expectedVersion)) (Sentinel ErrConflict);
  _ ← ensure (bool_decide (rp_Status plan = "submitted")) (Sentinel ErrInvalidState);
  let plan := plan <| rp_Status := "verified" |> <| rp_Version := rp_Version plan +ᵢ 1 |> in
  let complaint := default zero_complaint (complaints s !! rp_ComplaintID plan) in
  let complaint := complaint <| co_PlanID := rp_ID plan |>
                             <| co_Version := co_Version complaint +ᵢ 1 |> in
  _ ← modify (λ s, put_complaint (co_ID complaint) complaint (put_plan (rp_ID plan) plan s));
  mret plan.

Definition CloseComplaint (cerr : option ctx_error) (district complaintID : string) : oop () :=
  _ ← check_ctx cerr;
  s ← gets (λ s, s);
  complaint ← must (complaints s !! complaintID) (Sentinel ErrNotFound);
  _ ← ensure (bool_decide (co_DistrictID complaint = district)) (Sentinel ErrForbidden);
  _ ← ensure (negb (negb (bool_decide (co_Status complaint = "accepted"))
                    || match plans s !! co_PlanID complaint with
                       | None => true
                       | Some plan => negb (bool_decide (rp_Status plan = "verified"))
                       end))
        (Sentinel ErrInvalidState);
  let complaint := complaint <| co_Status := "closed" |>
                             <| co_Version := co_Version complaint +ᵢ 1 |> in
  modify (put_complaint (co_ID complaint) complaint).

Definition ReleaseAssessment (cerr : option ctx_error) (district assessmentID : string) :
    oop () :=
  _ ← check_ctx cerr;
  s ← gets (λ s, s);
  assessment ← must (assessments s !! assessmentID)
                 (errorf_before ("release assessment " +:+ assessmentID) (Sentinel ErrNotFound));
  _ ← ensure (bool_decide (am_DistrictID assessment = district)) (Sentinel ErrForbidden);
  _ ← ensure (negb (am_Released assessment)) (Sentinel ErrConflict);
  let assessment := assessment <| am_Released := true |>
                               <| am_Version := am_Version assessment +ᵢ 1 |> in
  modify (put_assessment (am_ID assessment) assessment).

(** The retry polls the context once per attempt; [between] is what other
    goroutines do to the store between the two attempts. *)
Definition RetryPlanPublication (cerr1 cerr2 : option ctx_error) (between : Store → Store)
    (plan : RectificationPlan) (key : string) : oop RectificationPlan := λ s,
  match PublishPlan cerr1 plan key s with
  | (s, Ok p) => (s, Ok p)
  | (s, Err e) =>
      if negb (errors_is e ErrStorage) then (s, Err e)
      else PublishPlan cerr2 plan key (between s)
  end.

(** ** The worker (worker.go) *)

Definition ProcessPlan (cerr0 cerr1 cerr2 : option ctx_error) (between : Store → Store)
    (plan : RectificationPlan) (key : string) : oop () := λ s,
  match cerr0 with
  | Some e => (s, Err (CtxErr e))
  | None =>
      match RetryPlanPublication cerr1 cerr2 between plan key s with
      | (s, Ok _) => (s, Ok ())
      | (s, Err e) =>
          if errors_is e ErrConflict then (s, Err (errorf_after ErrPermanentWork "plan conflict"))
          else (s, Err (errorf_before "process rectification plan" e))
      end
  end.

(** ** The store as a transition system *)

Inductive ops_call : Type :=
| OpSubmit (cerr : option ctx_error) (c : Complaint) (key : string)
| OpPublish (cerr : option ctx_error) (p : RectificationPlan) (key : string)
| OpSchedule (cerr : option ctx_error) (d : Schedule)
| OpAssessment (cerr : option ctx_error) (a : Assessment)
| OpAssign (cerr : option ctx_error) (district complaintID zoneID : string)
| OpAccept (cerr : option ctx_error) (district complaintID : string) (expected : Z)
| OpVerify (cerr : option ctx_error) (district planID : string) (expected : Z)
| OpClose (cerr : option ctx_error) (district complaintID : string)
| OpRelease (cerr : option ctx_error) (district assessmentID : string)
| OpFailEvent
| OpFailPlan.

Definition forget {A} (m : oop A) : oop () := _ ← m; mret ().

Definition exec_ops (c : ops_call) : oop () :=
  match c with
  | OpSubmit cerr c key => forget (SubmitComplaint cerr c key)
  | OpPublish cerr p key => forget (PublishPlan cerr p key)
  | OpSchedule cerr d => forget (RegisterSchedule cerr d)
  | OpAssessment cerr a => forget (SaveAssessment cerr a)
  | OpAssign cerr d c z => AssignZone cerr d c z
  | OpAccept cerr d c v => forget (AcceptComplaint cerr d c v)
  | OpVerify cerr d p v => forget (VerifyPlan cerr d p v)
  | OpClose cerr d c => CloseComplaint cerr d c
  | OpRelease cerr d a => ReleaseAssessment cerr d a
  | OpFailEvent => modify FailNextEvent
  | OpFailPlan => modify FailNextPlan
  end.

Definition ops_step (s : Store) (c : ops_call) (s' : Store) : Prop :=
  fst (exec_ops c s) = s'.
