(* ===== verification/LightOpsSpec.v ===== *)
(** * The light-operations service: specification and refinement

    [ops_effect s c s'] says what a call does to the store when it does
    anything, and under which conditions; the refinement lemma says that every
    call has its effect or leaves the store exactly as it was. The invariants
    are proved over the specification. *)
From S2P Require Import Prelude GoErrors LightOps.

(** ** Specification *)

Definition ops_submitted (c : Complaint) : Complaint :=
  c <| co_Status := "pending" |> <| co_Version := 1 |>.
Definition ops_event (c : Complaint) : Event :=
  {| ev_ID := co_ID c +:+ "-submitted"; ev_DistrictID := co_DistrictID c;
     ev_EntityID := co_ID c; ev_Action := "complaint.submitted"; ev_Metadata := Some ∅ |}.
Definition ops_published (p : RectificationPlan) : RectificationPlan :=
  p <| rp_Status := "submitted" |> <| rp_Version := 1 |>.
(** A new version of a complaint. *)
Definition bump (c : Complaint) : Complaint := c <| co_Version := co_Version c +ᵢ 1 |>.

(** What a submission has to satisfy to be a new one. *)
Definition submit_new (s : Store) (c : Complaint) (key : string) : Prop :=
  co_ID c ≠ "" ∧ co_DistrictID c ≠ "" ∧ co_Evidence c ≠ [] ∧
  idempotency s !! complaintKey (co_DistrictID c) key = None ∧
  complaints s !! co_ID c = None.
Definition publish_new (s : Store) (p : RectificationPlan) (key : string) : Prop :=
  (∃ c, complaints s !! rp_ComplaintID p = Some c ∧ co_DistrictID c = rp_DistrictID p) ∧
  idempotency s !! actionKey (rp_DistrictID p) "plan" key = None.

Inductive ops_effect (s : Store) : ops_call → Store → Prop :=
| oe_submit cerr c key :
    submit_new s c key → failEvent s = false →
    ops_effect s (OpSubmit cerr c key)
      (put_result (complaintKey (co_DistrictID c) key)
         {| res_EntityID := co_ID c; res_Version := 1 |}
         (put_complaint (co_ID c) (ops_submitted c)
            (s <| events := events s ++ [ops_event c] |>)))
| oe_publish cerr p key :
    publish_new s p key → failPlan s = false →
    ops_effect s (OpPublish cerr p key)
      (put_result (actionKey (rp_DistrictID p) "plan" key)
         {| res_EntityID := rp_ID p; res_Version := 1 |}
         (put_plan (rp_ID p) (ops_published p) s))
| oe_schedule cerr d :
    ops_effect s (OpSchedule cerr d) (put_schedule (sd_ID d) (d <| sd_Version := 1 |>) s)
| oe_assessment cerr a c :
    complaints s !! am_ComplaintID a = Some c → co_DistrictID c = am_DistrictID a →
    ops_effect s (OpAssessment cerr a)
      (put_complaint (co_ID c) (bump (c <| co_AssessmentID := am_ID a |>))
         (put_assessment (am_ID a) (a <| am_Version := 1 |>) s))
| oe_assign cerr d cid z c :
    complaints s !! cid = Some c → co_DistrictID c = d →
    ops_effect s (OpAssign cerr d cid z)
      (put_complaint (co_ID c) (bump (c <| co_ZoneID := z |>)) s)
| oe_accept cerr d cid c :
    complaints s !! cid = Some c → co_DistrictID c = d →
    co_Status c = "pending" → co_AssessmentID c ≠ "" → co_ZoneID c ≠ "" →
    ops_effect s (OpAccept cerr d cid (co_Version c))
      (put_complaint (co_ID c) (bump (c <| co_Status := "accepted" |>)) s)
| oe_verify cerr d pid p :
    plans s !! pid = Some p → rp_DistrictID p = d → rp_Status p = "submitted" →
    let c := default zero_complaint (complaints s !! rp_ComplaintID p) in
    ops_effect s (OpVerify cerr d pid (rp_Version p))
      (put_complaint (co_ID c) (bump (c <| co_PlanID := rp_ID p |>))
         (put_plan (rp_ID p)
            (p <| rp_Status := "verified" |> <| rp_Version := rp_Version p +ᵢ 1 |>) s))
| oe_close cerr d cid c p :
    complaints s !! cid = Some c → co_DistrictID c = d → co_Status c = "accepted" →
    plans s !! co_PlanID c = Some p → rp_Status p = "verified" →
    ops_effect s (OpClose cerr d cid)
      (put_complaint (co_ID c) (bump (c <| co_Status := "closed" |>)) s)
| oe_release cerr d aid a :
    assessments s !! aid = Some a → am_DistrictID a = d → am_Released a = false →
    ops_effect s (OpRelease cerr d aid)
      (put_assessment (am_ID a)
         (a <| am_Released := true |> <| am_Version := am_Version a +ᵢ 1 |>) s)
| oe_arm_event : ops_effect s OpFailEvent (s <| failEvent := true |>)
| oe_arm_plan : ops_effect s OpFailPlan (s <| failPlan := true |>).

(** A storage fault: it was armed, the call fails with [ErrStorage], and all
    that is left of the call is that the fault is no longer armed. *)
Inductive ops_fault (s : Store) : ops_call → Store → Prop :=
| of_submit cerr c key :
    submit_new s c key → failEvent s = true →
    ops_fault s (OpSubmit cerr c key) (s <| failEvent := false |>)
| of_publish cerr p key :
    publish_new s p key → failPlan s = true →
    ops_fault s (OpPublish cerr p key) (s <| failPlan := false |>).

(** How the context polls of a call come out. *)
Definition ops_poll (c : ops_call) : option ctx_error :=
  match c with
  | OpSubmit cerr _ _ | OpPublish cerr _ _ | OpSchedule cerr _ | OpAssessment cerr _
  | OpAssign cerr _ _ _ | OpAccept cerr _ _ _ | OpVerify cerr _ _ _ | OpClose cerr _ _
  | OpRelease cerr _ _ => cerr
  | OpFailEvent | OpFailPlan => None
  end.

(** A call repeated under its idempotency key. *)
Inductive ops_replay (s : Store) : ops_call → Prop :=
| or_submit cerr c key :
    is_Some (idempotency s !! complaintKey (co_DistrictID c) key) →
    ops_replay s (OpSubmit cerr c key)
| or_publish cerr p key :
    is_Some (idempotency s !! actionKey (rp_DistrictID p) "plan" key) →
    ops_replay s (OpPublish cerr p key).

Definition ops_outcome (s : Store) (c : ops_call) (out : Store * result oerror ()) : Prop :=
  match out with
  | (s', Ok _) => ops_effect s c s' ∨ ops_replay s c ∧ s' = s
  | (s', Err e) => s' = s ∨ errors_is e ErrStorage = true ∧ ops_fault s c s'
  end.

(** ** Refinement *)

Lemma cloneEvent_metadata e :
  cloneEvent e = e <| ev_Metadata := match ev_Metadata e with None => None | Some _ => Some ∅ end |>.
Proof.
  unfold cloneEvent. destruct e as [? ? ? ? [m|]]; [|done]. simpl.
  unfold upd; simpl. by rewrite map_fold_empty.
Qed.

(** Undoing an insertion under a fresh key. *)
Lemma rollback_complaint s id c :
  complaints s !! id = None → ∀ b,
  (put_complaint id c s) <| failEvent := b |>
    <| complaints := delete id (complaints ((put_complaint id c s) <| failEvent := b |>)) |> =
  s <| failEvent := b |>.
Proof.
  intros Hid b. destruct s; unfold put_complaint, upd; simpl in *. f_equal.
  by rewrite delete_insert_id.
Qed.

Create HintDb ops_db.

Section refinement.
Context (s : Store).

Ltac refine_ops :=
  unfold exec_ops, forget, check_ctx, ops_outcome; op_unfold_goal;
  repeat (case_match; simplify_eq; cbn beta iota zeta; guards; try (by left)).

Lemma refine_ops_submit cerr c key :
  ops_outcome s (OpSubmit cerr c key) (exec_ops (OpSubmit cerr c key) s).
Proof.
  unfold exec_ops, SubmitComplaint, appendEventLocked. refine_ops.
  - right. split; [|done]. constructor. eauto.
  - left. rewrite cloneEvent_metadata. refine (oe_submit s None c key _ _); [|done].
    by unfold submit_new.
  - right. split; [done|]. rewrite rollback_complaint by done.
    constructor; [|done]. by unfold submit_new.
Qed.

Lemma refine_ops_publish cerr p key :
  ops_outcome s (OpPublish cerr p key) (exec_ops (OpPublish cerr p key) s).
Proof.
  unfold exec_ops, PublishPlan, savePlanLocked. refine_ops.
  - right. split; [|done]. constructor. eauto.
  - left. refine (oe_publish s None p key _ _); [|done]. split; eauto.
  - right. split; [done|]. constructor; [|done]. split; eauto.
Qed.

Lemma refine_ops_schedule cerr d :
  ops_outcome s (OpSchedule cerr d) (exec_ops (OpSchedule cerr d) s).
Proof. unfold exec_ops, RegisterSchedule. refine_ops. left. exact (oe_schedule s None d). Qed.

Lemma refine_ops_assessment cerr a :
  ops_outcome s (OpAssessment cerr a) (exec_ops (OpAssessment cerr a) s).
Proof.
  unfold exec_ops, SaveAssessment. refine_ops. left.
  match goal with H : complaints _ !! _ = Some ?c |- _ =>
    by refine (oe_assessment _ None a c _ _) end.
Qed.

Lemma refine_ops_assign cerr d cid z :
  ops_outcome s (OpAssign cerr d cid z) (exec_ops (OpAssign cerr d cid z) s).
Proof.
  unfold exec_ops, AssignZone. refine_ops. left.
  match goal with H : complaints _ !! _ = Some ?c |- _ =>
    by refine (oe_assign _ None _ cid z c _ _) end.
Qed.

Lemma refine_ops_accept cerr d cid v :
  ops_outcome s (OpAccept cerr d cid v) (exec_ops (OpAccept cerr d cid v) s).
Proof.
  unfold exec_ops, AcceptComplaint. refine_ops. left.
  match goal with H : complaints _ !! _ = Some ?c |- _ =>
    by refine (oe_accept _ None _ cid c _ _ _ _ _) end.
Qed.

Lemma refine_ops_verify cerr d pid v :
  ops_outcome s (OpVerify cerr d pid v) (exec_ops (OpVerify cerr d pid v) s).
Proof.
  unfold exec_ops, VerifyPlan. refine_ops. left.
  match goal with H : plans _ !! _ = Some ?p |- _ =>
    by refine (oe_verify _ None _ pid p _ _ _) end.
Qed.

Lemma refine_ops_close cerr d cid :
  ops_outcome s (OpClose cerr d cid) (exec_ops (OpClose cerr d cid) s).
Proof.
  unfold exec_ops, CloseComplaint. refine_ops. left.
  match goal with H : complaints _ !! _ = Some ?c, Hp : plans _ !! _ = Some ?p |- _ =>
    by refine (oe_close _ None _ cid c p _ _ _ _ _) end.
Qed.

Lemma refine_ops_release cerr d aid :
  ops_outcome s (OpRelease cerr d aid) (exec_ops (OpRelease cerr d aid) s).
Proof.
  unfold exec_ops, ReleaseAssessment. refine_ops. left.
  match goal with H : assessments _ !! _ = Some ?a |- _ =>
    by refine (oe_release _ None _ aid a _ _ _) end.
Qed.

Lemma refine_ops_arm_event : ops_outcome s OpFailEvent (exec_ops OpFailEvent s).
Proof. left. constructor. Qed.
Lemma refine_ops_arm_plan : ops_outcome s OpFailPlan (exec_ops OpFailPlan s).
Proof. left. constructor. Qed.
End refinement.

#[export] Hint Resolve refine_ops_submit refine_ops_publish refine_ops_schedule
  refine_ops_assessment refine_ops_assign refine_ops_accept refine_ops_verify
  refine_ops_close refine_ops_release refine_ops_arm_event refine_ops_arm_plan : ops_db.

Lemma exec_ops_outcome s c : ops_outcome s c (exec_ops c s).
Proof. destruct c; auto with ops_db. Qed.

(** [ops_runs]: follows the call; a branch the hypotheses rule out is refuted. *)
Ltac ops_runs :=
  unfold forget, check_ctx; op_unfold_goal;
  repeat (case_match; simplify_eq/=; guards; try done; try (by refuted)); try done.

(** And conversely: a call whose conditions hold has its effect. *)
Lemma exec_ops_effect s c s' :
  ops_effect s c s' → ops_poll c = None → exec_ops c s = (s', Ok ()).
Proof.
  intros Heff Hpoll. destruct Heff; simpl in Hpoll; subst; unfold exec_ops.
  - destruct H as (Hid & Hd & Hev & Hkey & Hnew).
    unfold SubmitComplaint, appendEventLocked. ops_runs.
  - destruct H as ((co & Hco & Hd) & Hkey). unfold PublishPlan, savePlanLocked. ops_runs.
  - unfold RegisterSchedule. ops_runs.
  - unfold SaveAssessment. ops_runs.
  - unfold AssignZone. ops_runs.
  - unfold AcceptComplaint. ops_runs.
  - unfold VerifyPlan. ops_runs.
  - unfold CloseComplaint. ops_runs.
    destruct_or!; [done|guards; congruence].
  - unfold ReleaseAssessment. ops_runs.
  - done.
  - done.
Qed.

Lemma ops_step_inv s c s' :
  ops_step s c s' → s' = s ∨ ops_fault s c s' ∨ ops_effect s c s'.
Proof.
  unfold ops_step. intros <-. pose proof (exec_ops_outcome s c) as Ho.
  destruct (exec_ops c s) as [s' [[]|e]]; simpl in *; naive_solver.
Qed.
