(* ===== verification/LightOpsFacts.v ===== *)
(** * The light-operations service: invariants

    The well-formedness invariant of the store, how one call moves a
    complaint, and what persists along an execution. *)
From S2P Require Import Prelude GoErrors LightOps LightOpsSpec.

(** ** Definitions *)

Definition ops_statuses : list string := ["pending"; "accepted"; "closed"].

Definition co_ok (id : string) (c : Complaint) : Prop :=
  co_ID c = id ∧ id ≠ "" ∧ co_DistrictID c ≠ "" ∧ co_Status c ∈ ops_statuses ∧
  is_i64 (co_Version c).
(** The complaint a record belongs to exists and is of the record's district. *)
Definition owned (s : Store) (complaintID district : string) : Prop :=
  ∃ c, complaints s !! complaintID = Some c ∧ co_DistrictID c = district.
Definition rp_ok (s : Store) (id : string) (p : RectificationPlan) : Prop :=
  rp_ID p = id ∧ (rp_Status p = "submitted" ∨ rp_Status p = "verified") ∧
  owned s (rp_ComplaintID p) (rp_DistrictID p).
Definition am_ok (s : Store) (id : string) (a : Assessment) : Prop :=
  am_ID a = id ∧ owned s (am_ComplaintID a) (am_DistrictID a).
Definition ev_ok (s : Store) (e : Event) : Prop :=
  ev_Action e = "complaint.submitted" ∧ ev_Metadata e = Some ∅ ∧
  owned s (ev_EntityID e) (ev_DistrictID e).

Record ops_inv (s : Store) : Prop := {
  oi_complaints : map_Forall co_ok (complaints s);
  oi_plans : map_Forall (rp_ok s) (plans s);
  oi_assessments : map_Forall (am_ok s) (assessments s);
  oi_events : Forall (ev_ok s) (events s);
  oi_trail : NoDup (ev_EntityID <$> events s);
  oi_complete : ∀ id, is_Some (complaints s !! id) → id ∈ ev_EntityID <$> events s
}.

(** What one call may do to a complaint: nothing, or make a new version of it
    with the same identity and a status it may have next. *)
Definition status_move (a b : string) : Prop :=
  b = a ∨ a = "pending" ∧ b = "accepted" ∨ a = "accepted" ∧ b = "closed".
Definition same_identity (c c' : Complaint) : Prop :=
  co_ID c' = co_ID c ∧ co_DistrictID c' = co_DistrictID c ∧
  co_ResidentID c' = co_ResidentID c ∧ co_Facility c' = co_Facility c ∧
  co_Evidence c' = co_Evidence c.
Definition complaint_moves (c c' : Complaint) : Prop :=
  c' = c ∨
  co_Version c' = co_Version c +ᵢ 1 ∧ same_identity c c' ∧
  status_move (co_Status c) (co_Status c').

(** The district a call is made for. *)
Definition call_district (c : ops_call) : option string :=
  match c with
  | OpSubmit _ c _ => Some (co_DistrictID c)
  | OpPublish _ p _ => Some (rp_DistrictID p)
  | OpSchedule _ d => Some (sd_DistrictID d)
  | OpAssessment _ a => Some (am_DistrictID a)
  | OpAssign _ d _ _ | OpAccept _ d _ _ | OpVerify _ d _ _ | OpClose _ d _
  | OpRelease _ d _ => Some d
  | OpFailEvent | OpFailPlan => None
  end.

Definition is_new_store (s : Store) : Prop := s = NewStore.

(** ** One call *)

Section one_call.
Context (s s' : Store) (call : ops_call).
Context (Hinv : ops_inv s).

Lemma key_of k c : complaints s !! k = Some c → co_ID c = k.
Proof using Hinv. intros Hk. by destruct (oi_complaints _ Hinv _ _ Hk) as [? _]. Qed.

Lemma plan_complaint pid p :
  plans s !! pid = Some p →
  rp_ID p = pid ∧ ∃ c, complaints s !! rp_ComplaintID p = Some c ∧
    co_DistrictID c = rp_DistrictID p.
Proof using Hinv.
  intros Hp. by destruct (oi_plans _ Hinv _ _ Hp) as (Hid & _ & Ho).
Qed.

(** The complaint that a call writes is stored under its own ID. *)
Lemma moves_bump c0 c1 k id c :
  complaints s !! k = Some c0 → complaints s !! id = Some c →
  complaint_moves c0 c1 →
  ∃ c', <[co_ID c0 := c1]> (complaints s) !! id = Some c' ∧ complaint_moves c c' ∧
    (co_DistrictID c ≠ co_DistrictID c0 → c' = c).
Proof using Hinv.
  intros Hk Hid Hm. pose proof (key_of _ _ Hk) as <-.
  destruct (decide (co_ID c0 = id)) as [Heq|].
  - exists c1. rewrite Heq, lookup_insert_eq in *. simplify_eq. done.
  - exists c. rewrite lookup_insert_ne by done. split_and!; try done. by left.
Qed.

(** [bumped c0]: the call writes a new version of [c0]. *)
Ltac bumped c0 :=
  match goal with
  | Hc0 : complaints s !! ?k = Some c0, Hc : complaints s !! ?id = Some ?c
    |- ∃ _, <[co_ID c0 := ?c1]> _ !! ?id = _ ∧ _ =>
      destruct (moves_bump c0 c1 k id c Hc0 Hc) as (c' & ? & ? & Hframe);
      [ right; split_and!; try done; unfold status_move; simpl; auto
      | exists c'; split; [done|]; split; [done|]; intros Hd; apply Hframe; congruence ]
  end.

Lemma ops_effect_moves id c :
  ops_effect s call s' → complaints s !! id = Some c →
  ∃ c', complaints s' !! id = Some c' ∧ complaint_moves c c' ∧
    (call_district call ≠ Some (co_DistrictID c) → c' = c).
Proof using Hinv.
  intros Heff Hc. destruct Heff; simpl; try (exists c; by repeat (split; [by auto || by left|])).
  - exists c. destruct H as (_ & _ & _ & _ & Hnew).
    rewrite lookup_insert_ne by congruence. by repeat (split; [by auto || by left|]).
  - bumped c0.
  - bumped c0.
  - bumped c0.
  - destruct (plan_complaint _ _ H) as (_ & c1 & Hc1 & Hdist).
    assert (c0 = c1) as Heq by (unfold c0; by rewrite Hc1). clearbody c0. subst c0.
    bumped c1.
  - bumped c0.
Qed.
End one_call.

(** ** The invariant *)

Section invariant.
Context (s s' : Store) (call : ops_call).
Context (Hinv : ops_inv s) (Heff : ops_effect s call s').

Lemma owned_effect cid d : owned s cid d → owned s' cid d.
Proof using Hinv Heff.
  intros (c & Hc & Hd). destruct (ops_effect_moves _ _ _ Hinv _ _ Heff Hc) as (c' & Hc' & Hm & _).
  exists c'. split; [done|]. destruct Hm as [->|(_ & (_ & -> & _) & _)]; done.
Qed.

Lemma oi_complaints_effect : map_Forall co_ok (complaints s').
Proof using Hinv Heff.
  intros id c' Hc'.
  destruct (complaints s !! id) as [c|] eqn:Hc.
  - destruct (ops_effect_moves _ _ _ Hinv _ _ Heff Hc) as (c1 & Hc1 & Hm & _). simplify_eq.
    destruct (oi_complaints _ Hinv _ _ Hc) as (Hid & Hne & Hd & Hs & Hi).
    destruct Hm as [->|(Hv & (Hid' & Hd' & _) & Hmove)]; [done|].
    unfold co_ok. rewrite Hid', Hd', Hv. split_and!; try done.
    destruct Hmove as [->|[[_ ->]|[_ ->]]]; [done|unfold ops_statuses; set_solver..].
  - destruct Heff; simpl in *; try congruence;
      try (apply lookup_insert_Some in Hc' as [[<- <-]|[_ Hc']]; [|congruence]);
      try (by rewrite (key_of _ Hinv _ _ ltac:(eassumption)) in Hc; congruence).
    + destruct H as (? & ? & ? & _). split_and!; try done. by left.
    + destruct (plan_complaint _ Hinv _ _ H) as (_ & c1 & Hc1 & _).
      assert (c = c1) as -> by (unfold c; by rewrite Hc1).
      rewrite (key_of _ Hinv _ _ Hc1) in Hc. congruence.
Qed.

Lemma oi_plans_effect : map_Forall (rp_ok s') (plans s').
Proof using Hinv Heff.
  assert (map_Forall (rp_ok s') (plans s)) as Hold.
  { intros id p Hp. destruct (oi_plans _ Hinv _ _ Hp) as (? & ? & Ho).
    split_and!; try done. by apply owned_effect. }
  pose proof owned_effect as Hown.
  destruct Heff; try done; apply map_Forall_insert_both; try done.
  - destruct H as [Ho _]. split; [done|]. split; [by left|by apply Hown].
  - destruct (Hold _ _ H) as (Hid & _ & Ho). split; [done|]. split; [by right|done].
Qed.

Lemma oi_assessments_effect : map_Forall (am_ok s') (assessments s').
Proof using Hinv Heff.
  assert (map_Forall (am_ok s') (assessments s)) as Hold.
  { intros id a Ha. destruct (oi_assessments _ Hinv _ _ Ha) as (? & Ho).
    split; [done|]. by apply owned_effect. }
  pose proof owned_effect as Hown.
  destruct Heff; try done; apply map_Forall_insert_both; try done.
  - split; [done|]. apply Hown. by exists c.
  - by destruct (Hold _ _ H) as (Hid & Ho).
Qed.

Lemma oi_events_effect : Forall (ev_ok s') (events s').
Proof using Hinv Heff.
  assert (Forall (ev_ok s') (events s)) as Hold.
  { eapply Forall_impl; [by apply Hinv|]. intros e (? & ? & Ho).
    split_and!; try done. by apply owned_effect. }
  destruct Heff; try done. apply Forall_app. split; [done|]. apply Forall_singleton.
  split_and!; try done. eexists. simpl. by rewrite lookup_insert_eq.
Qed.

Lemma oi_trail_effect : NoDup (ev_EntityID <$> events s').
Proof using Hinv Heff.
  pose proof (oi_trail _ Hinv) as Hold. destruct Heff; try done. simpl.
  rewrite fmap_app. apply NoDup_app. split_and!; [done| |by apply NoDup_singleton].
  intros id (e & -> & He)%list_elem_of_fmap Hin%list_elem_of_singleton. simpl in Hin.
  pose proof (oi_events _ Hinv) as Hev. rewrite Forall_forall in Hev.
  destruct (Hev _ He) as (_ & _ & c' & Hc' & _).
  destruct H as (_ & _ & _ & _ & Hnew). congruence.
Qed.

(** A complaint under a key that was free is one that was just submitted. *)
Lemma new_complaint id :
  complaints s !! id = None → is_Some (complaints s' !! id) →
  ∃ cerr c key, call = OpSubmit cerr c key ∧ co_ID c = id.
Proof using Hinv Heff.
  intros Hc Hc'. destruct Heff; simpl in *;
    try (by rewrite Hc in Hc'; destruct Hc');
    try (apply lookup_insert_is_Some in Hc' as [<-|[_ Hc']];
         [|by rewrite Hc in Hc'; destruct Hc']);
    try (by rewrite (key_of _ Hinv _ _ ltac:(eassumption)) in Hc; congruence).
  - eauto.
  - destruct (plan_complaint _ Hinv _ _ H) as (_ & c1 & Hc1 & _).
    assert (c = c1) as -> by (unfold c; by rewrite Hc1).
    rewrite (key_of _ Hinv _ _ Hc1) in Hc. congruence.
Qed.

Lemma events_grow : events s `prefix_of` events s'.
Proof using Heff. destruct Heff; try done. by apply prefix_app_r. Qed.

Lemma oi_complete_effect id :
  is_Some (complaints s' !! id) → id ∈ ev_EntityID <$> events s'.
Proof using Hinv Heff.
  intros Hc'. destruct (complaints s !! id) as [c|] eqn:Hc.
  - destruct events_grow as [k ->]. rewrite fmap_app. apply elem_of_app. left.
    apply (oi_complete _ Hinv). by rewrite Hc.
  - destruct (new_complaint id Hc Hc') as (cerr & c & key & -> & <-).
    inversion Heff; simplify_eq. simpl. rewrite fmap_app. set_solver.
Qed.

(** Entries of the idempotency table are never overwritten. *)
Lemma idempotency_effect k o : idempotency s !! k = Some o → idempotency s' !! k = Some o.
Proof using Heff.
  intros Hk. destruct Heff; try done; simpl.
  - destruct H as (_ & _ & _ & Hnone & _). rewrite lookup_insert_ne; congruence.
  - destruct H as (_ & Hnone). rewrite lookup_insert_ne; congruence.
Qed.
End invariant.

#[export] Hint Resolve oi_complaints_effect oi_plans_effect oi_assessments_effect
  oi_events_effect oi_trail_effect oi_complete_effect : ops_db.

(** ** Executions *)

Lemma ops_inv_new : ops_inv NewStore.
Proof.
  split; try apply map_Forall_empty; simpl; [done|apply NoDup_nil_2|].
  intros id [c Hc]. by rewrite lookup_empty in Hc.
Qed.

(** A fault leaves every record as it was. *)
Lemma ops_fault_records s c s' :
  ops_fault s c s' →
  complaints s' = complaints s ∧ plans s' = plans s ∧ assessments s' = assessments s ∧
  schedules s' = schedules s ∧ events s' = events s ∧ idempotency s' = idempotency s.
Proof. by destruct 1. Qed.

Lemma ops_inv_fault s c s' : ops_inv s → ops_fault s c s' → ops_inv s'.
Proof. intros [] Hf. by destruct Hf; split. Qed.

Lemma ops_inv_step s c s' : ops_inv s → ops_step s c s' → ops_inv s'.
Proof.
  intros Hinv [->|[Hf|Heff]]%ops_step_inv; [done|by eapply ops_inv_fault|].
  split; eauto with ops_db.
Qed.

Lemma ops_inv_reachable s : reachable ops_step is_new_store s → ops_inv s.
Proof.
  intros (s0 & cs & -> & Hs). eapply (steps_invariant ops_step); [|done|].
  - apply ops_inv_step.
  - apply ops_inv_new.
Qed.

Lemma ops_step_moves s call s' id c :
  ops_inv s → ops_step s call s' → complaints s !! id = Some c →
  ∃ c', complaints s' !! id = Some c' ∧ complaint_moves c c' ∧
    (call_district call ≠ Some (co_DistrictID c) → c' = c).
Proof.
  intros Hinv [->|[Hf|Heff]]%ops_step_inv Hc.
  - exists c. by split_and!; try left.
  - destruct (ops_fault_records _ _ _ Hf) as (-> & _). exists c. by split_and!; try left.
  - by eapply ops_effect_moves.
Qed.

Lemma idempotency_steps s cs s' k o :
  steps ops_step s cs s' → idempotency s !! k = Some o → idempotency s' !! k = Some o.
Proof.
  intros Hs Hk. revert Hk. induction Hs as [|s1 c s2 cs s3 Hstep _ IH]; [done|]. intros Hk.
  apply IH. apply ops_step_inv in Hstep as [->|[Hf|Heff]]; [done| |by eapply idempotency_effect].
  by destruct (ops_fault_records _ _ _ Hf) as (_ & _ & _ & _ & _ & ->).
Qed.

(** Along an execution a complaint keeps its identity, and its version counts
    the calls that changed it. *)
Lemma ops_steps_version s cs s' id c :
  ops_inv s → steps ops_step s cs s' → complaints s !! id = Some c →
  ∃ c' n, complaints s' !! id = Some c' ∧ (n ≤ length cs)%nat ∧ same_identity c c' ∧
    (n = 0%nat → c' = c) ∧
    (n ≠ 0%nat → co_Version c' = co_Version c +ᵢ Z.of_nat n).
Proof.
  intros Hinv Hs. revert c Hinv. induction Hs as [s|s1 call s2 cs s3 Hstep _ IH]; intros c Hinv Hc.
  - exists c, 0%nat. by split_and!.
  - destruct (ops_step_moves _ _ _ _ _ Hinv Hstep Hc) as (c2 & Hc2 & Hm & _).
    destruct (IH c2 (ops_inv_step _ _ _ Hinv Hstep) Hc2) as (c3 & n & Hc3 & Hn & Hid & H0 & Hv).
    destruct Hm as [->|(Hv2 & Hid2 & _)].
    + exists c3, n. split_and!; simpl; auto with lia.
    + exists c3, (S n). split_and!; simpl; try done; [lia|..].
      * unfold same_identity in *. naive_solver congruence.
      * intros _. destruct (decide (n = 0%nat)) as [->|Hne].
        -- rewrite (H0 eq_refl). done.
        -- rewrite (Hv Hne), Hv2, i64_add_l. f_equal. lia.
Qed.
