(* ===== verification/LightOpsClaims.v ===== *)
(** * The light-operations service: what every execution guarantees

    Atomicity, idempotent replay, optimistic locking, district isolation, the
    audit trail, retried publication, the idempotency keys, and the runs that
    show where identifiers and keys are not protected. *)
From Stdlib Require Import Ascii.
From S2P Require Import Prelude GoErrors LightOps LightOpsSpec LightOpsFacts.

(** ** Concrete runs *)

Definition run_ops (cs : list ops_call) (s : Store) : Store :=
  foldl (λ s c, fst (exec_ops c s)) s cs.

Definition ex_co (id district : string) : Complaint := {|
  co_ID := id; co_DistrictID := district; co_ResidentID := "res-1"; co_Facility := "Cuihu";
  co_Status := ""; co_Evidence := ["photo"]; co_ZoneID := ""; co_AssessmentID := "";
  co_PlanID := ""; co_Version := 0 |}.
Definition ex_plan (id district complaint : string) : RectificationPlan := {|
  rp_ID := id; rp_DistrictID := district; rp_ComplaintID := complaint; rp_CrewID := "crew-1";
  rp_Status := ""; rp_Steps := ["shield"]; rp_Version := 0 |}.
Definition ex_assessment : Assessment := {|
  am_ID := "a-1"; am_DistrictID := "luohu"; am_ComplaintID := "c-1"; am_TeamID := "team-1";
  am_Readings := [4611686018427387904]; am_Released := false; am_Version := 0 |}.

(** A complaint with an assessment and a zone, and its plan, verified. *)
Definition ops_ready : list ops_call :=
  [ OpSubmit None (ex_co "c-1" "luohu") "k-1";
    OpAssessment None ex_assessment;
    OpAssign None "luohu" "c-1" "zone-1" ].
Definition ops_closable : list ops_call :=
  ops_ready ++
  [ OpAccept None "luohu" "c-1" 3;
    OpPublish None (ex_plan "p-1" "luohu" "c-1") "k-2";
    OpVerify None "luohu" "p-1" 1 ].
Definition ex_ready : Store := run_ops ops_ready NewStore.
Definition ex_closable : Store := run_ops ops_closable NewStore.

Lemma run_ops_steps cs s : steps ops_step s cs (run_ops cs s).
Proof.
  revert s. induction cs as [|c cs IH]; intros s; [constructor|].
  econstructor; [reflexivity|]. apply IH.
Qed.
Lemma run_ops_reachable cs : reachable ops_step is_new_store (run_ops cs NewStore).
Proof. exists NewStore, cs. split; [done|]. apply run_ops_steps. Qed.

Definition value {V} (o : option V) (d : V) : V := default d o.

(** ** Atomicity *)

Section atomicity.
(** C4: every call to the light-operations service is atomic on every
    branch. A call that succeeds has the effect the specification gives it,
    under the conditions it names, or repeats an idempotency key and changes
    nothing. A call that fails leaves the store exactly as it was, unless a
    storage fault was armed: then the error is [ErrStorage], the partial
    insertion has been rolled back, and only the fault itself is gone.
    Conversely, as long as the context is not cancelled, a call whose
    conditions hold succeeds and has its effect. *)
Theorem ops_refines_spec s c :
  match exec_ops c s with
  | (s', Ok _) => ops_effect s c s' ∨ ops_replay s c ∧ s' = s
  | (s', Err e) => s' = s ∨ errors_is e ErrStorage = true ∧ ops_fault s c s'
  end ∧
  (ops_poll c = None → ∀ s', ops_effect s c s' → exec_ops c s = (s', Ok ())).
Proof.
  split; [apply exec_ops_outcome|]. intros Hp s' He. by apply exec_ops_effect.
Qed.
End atomicity.

(** ** Idempotent replay *)

Section replay.
(** C30: a submission happens once per key. After a new complaint has been
    submitted under a key, and whatever calls follow, submitting anything
    valid for that district under that key again succeeds, changes nothing,
    and returns the current version of the first complaint. *)
Theorem ops_submit_once s c key s1 c1 cs s2 c' :
  reachable ops_step is_new_store s →
  idempotency s !! complaintKey (co_DistrictID c) key = None →
  SubmitComplaint None c key s = (s1, Ok c1) →
  steps ops_step s1 cs s2 →
  co_ID c' ≠ "" → co_Evidence c' ≠ [] → co_DistrictID c' = co_DistrictID c →
  ∃ c2, SubmitComplaint None c' key s2 = (s2, Ok c2) ∧
    complaints s2 !! co_ID c = Some c2 ∧ same_identity c c2.
Proof.
  intros Hr%ops_inv_reachable Hnew Hsub Hs Hid Hev Hd.
  pose proof (exec_ops_outcome s (OpSubmit None c key)) as Ho.
  assert (ops_step s (OpSubmit None c key) s1) as Hstep.
  { unfold ops_step, exec_ops, forget. op_unfold_goal. by rewrite Hsub. }
  unfold exec_ops, forget in Ho. op_unfold Ho. rewrite Hsub in Ho.
  destruct Ho as [Heff|[Hrep _]]; [|inversion Hrep; simplify_eq; by rewrite Hnew in *; destruct H0].
  pose proof (ops_inv_step _ _ _ Hr Hstep) as Hr1.
  inversion Heff as [? ? ? Hn _| | | | | | | | | |]; subst.
  destruct (ops_steps_version _ _ _ (co_ID c) (ops_submitted c) Hr1 Hs)
    as (c2 & n & Hc2 & _ & Hsame & _); [by simpl; rewrite lookup_insert_eq|].
  exists c2. split_and!; [|done|done].
  assert (idempotency s2 !! complaintKey (co_DistrictID c) key =
          Some {| res_EntityID := co_ID c; res_Version := 1 |}) as Hi.
  { eapply idempotency_steps; [done|]. simpl. by rewrite lookup_insert_eq. }
  unfold SubmitComplaint, check_ctx. op_unfold_goal. rewrite Hd, Hi.
  destruct Hn as (_ & Hdne & _).
  rewrite (bool_decide_false (co_ID c' = "")), (bool_decide_false (co_DistrictID c = "")),
    (bool_decide_false (co_Evidence c' = [])) by done. simpl. by rewrite Hc2.
Qed.
End replay.

Definition ex_once1 : Store := fst (SubmitComplaint None (ex_co "c-1" "luohu") "k-1" NewStore).
Definition ex_once2 : Store := run_ops (tail ops_closable) ex_once1.
Lemma ops_submit_once_witness :
  ∃ c2, SubmitComplaint None (ex_co "other" "luohu") "k-1" ex_once2 = (ex_once2, Ok c2) ∧
    complaints ex_once2 !! "c-1" = Some c2 ∧ same_identity (ex_co "c-1" "luohu") c2.
Proof.
  assert (SubmitComplaint None (ex_co "c-1" "luohu") "k-1" NewStore =
          (ex_once1, Ok (ops_submitted (ex_co "c-1" "luohu")))) as H1 by by vm_compute.
  exact (ops_submit_once NewStore (ex_co "c-1" "luohu") "k-1" ex_once1
    (ops_submitted (ex_co "c-1" "luohu")) (tail ops_closable) ex_once2 (ex_co "other" "luohu")
    (run_ops_reachable []) eq_refl H1 (run_ops_steps (tail ops_closable) ex_once1)
    ltac:(discriminate) ltac:(discriminate) eq_refl).
Defined.

(** ** Optimistic locking, isolation, status *)

Section concurrency.
(** Optimistic locking loses no update: a client that read a complaint
    and accepts it with the version it read succeeds only if no call changed
    the complaint in between, however many calls (fewer than 2^64) of other
    clients ran: what it accepts is exactly what it read. *)
Theorem ops_version_lock s id c cs s' district s'' c' :
  reachable ops_step is_new_store s → complaints s !! id = Some c →
  steps ops_step s cs s' → Z.of_nat (length cs) < 2 ^ 64 →
  AcceptComplaint None district id (co_Version c) s' = (s'', Ok c') →
  complaints s' !! id = Some c ∧ c' = bump (c <| co_Status := "accepted" |>).
Proof.
  intros Hr%ops_inv_reachable Hc Hs Hlen Hacc.
  destruct (oi_complaints _ Hr _ _ Hc) as (_ & _ & _ & _ & Hi).
  destruct (ops_steps_version _ _ _ _ _ Hr Hs Hc) as (c2 & n & Hc2 & Hn & _ & H0 & Hv).
  unfold AcceptComplaint, check_ctx in Hacc. op_unfold Hacc. rewrite Hc2 in Hacc.
  op_cases Hacc. guards.
  destruct (decide (n = 0%nat)) as [->|Hne]; [by rewrite <- (H0 eq_refl)|].
  exfalso. eapply (i64_add_ne (co_Version c) (Z.of_nat n)); [lia|].
  rewrite <- (Hv Hne), (i64_id (co_Version c)) by done. done.
Qed.

(** Districts are isolated in the table of complaints: in every
    reachable store a call made for one district leaves every complaint of
    every other district exactly as it was. *)
Theorem ops_isolation s call s' id c :
  reachable ops_step is_new_store s → ops_step s call s' →
  complaints s !! id = Some c → call_district call ≠ Some (co_DistrictID c) →
  complaints s' !! id = Some c.
Proof.
  intros Hr%ops_inv_reachable Hstep Hc Hd.
  destruct (ops_step_moves _ _ _ _ _ Hr Hstep Hc) as (c' & Hc' & _ & Hframe).
  by rewrite <- (Hframe Hd).
Qed.

(** One call moves a complaint along [pending], [accepted], [closed] by
    at most one step and never changes its identity; every change makes a
    new version; a complaint is never removed. *)
Theorem ops_complaint_step s call s' id c :
  reachable ops_step is_new_store s → ops_step s call s' → complaints s !! id = Some c →
  ∃ c', complaints s' !! id = Some c' ∧
    (c' = c ∨ co_Version c' = co_Version c +ᵢ 1 ∧ same_identity c c' ∧
              status_move (co_Status c) (co_Status c')).
Proof.
  intros Hr%ops_inv_reachable Hstep Hc.
  destruct (ops_step_moves _ _ _ _ _ Hr Hstep Hc) as (c' & Hc' & Hm & _). eauto.
Qed.

(** The audit trail is complete and has no duplicates: in every
    reachable store the submission events are for exactly the complaints on
    record, one each, with the complaint's district. Their metadata, which
    should name the resident, is always empty: cloning an event loses it. *)
Theorem ops_audit_trail s :
  reachable ops_step is_new_store s →
  NoDup (ev_EntityID <$> events s) ∧
  (∀ id, is_Some (complaints s !! id) ↔ id ∈ ev_EntityID <$> events s) ∧
  Forall (λ e, ev_Metadata e = Some ∅ ∧
               ∃ c, complaints s !! ev_EntityID e = Some c ∧
                    co_DistrictID c = ev_DistrictID e) (events s).
Proof.
  intros Hr%ops_inv_reachable. split_and!; [apply Hr| |].
  - intros id. split; [apply (oi_complete _ Hr)|].
    intros (e & -> & He)%list_elem_of_fmap. pose proof (oi_events _ Hr) as Hev.
    rewrite Forall_forall in Hev. destruct (Hev _ He) as (_ & _ & c & Hc & _). eauto.
  - eapply Forall_impl; [apply Hr|]. by intros e (_ & ? & ?).
Qed.
End concurrency.

Definition ex_ready_c1 : Complaint := value (complaints ex_ready !! "c-1") zero_complaint.
Lemma ops_version_lock_witness :
  ∃ s'' c', AcceptComplaint None "luohu" "c-1" (co_Version ex_ready_c1) ex_ready = (s'', Ok c') ∧
    complaints ex_ready !! "c-1" = Some ex_ready_c1 ∧
    c' = bump (ex_ready_c1 <| co_Status := "accepted" |>).
Proof.
  assert (complaints ex_ready !! "c-1" = Some ex_ready_c1) as Hc by by vm_compute.
  destruct (AcceptComplaint None "luohu" "c-1" (co_Version ex_ready_c1) ex_ready)
    as [s'' [c'|e]] eqn:Ha; [|by vm_compute in Ha].
  exists s'', c'. split; [reflexivity|].
  exact (ops_version_lock ex_ready "c-1" ex_ready_c1 [] ex_ready "luohu" s'' c'
    (run_ops_reachable ops_ready) Hc (steps_nil _ _) ltac:(done) Ha).
Defined.

(** Two districts, and a call for one of them. *)
Definition ex_districts : list ops_call :=
  [ OpSubmit None (ex_co "c-1" "luohu") "k-1"; OpSubmit None (ex_co "c-2" "futian") "k-1" ].
Definition ex_two_districts : Store := run_ops ex_districts NewStore.
Definition ex_assigned : Store :=
  fst (exec_ops (OpAssign None "futian" "c-2" "zone-2") ex_two_districts).
Lemma ops_isolation_witness :
  co_ZoneID <$> complaints ex_assigned !! "c-2" = Some "zone-2" ∧
  complaints ex_assigned !! "c-1" = Some (ops_submitted (ex_co "c-1" "luohu")).
Proof.
  split; [by vm_compute|].
  assert (complaints ex_two_districts !! "c-1" = Some (ops_submitted (ex_co "c-1" "luohu")))
    as Hc by by vm_compute.
  exact (ops_isolation ex_two_districts (OpAssign None "futian" "c-2" "zone-2") ex_assigned
    "c-1" _ (run_ops_reachable ex_districts) eq_refl Hc ltac:(discriminate)).
Defined.

Lemma ops_complaint_step_witness :
  ∃ c', complaints ex_assigned !! "c-2" = Some c' ∧
    (c' = ops_submitted (ex_co "c-2" "futian") ∨
     co_Version c' = 2 ∧ same_identity (ops_submitted (ex_co "c-2" "futian")) c' ∧
     status_move "pending" (co_Status c')).
Proof.
  assert (complaints ex_two_districts !! "c-2" = Some (ops_submitted (ex_co "c-2" "futian")))
    as Hc by by vm_compute.
  exact (ops_complaint_step ex_two_districts (OpAssign None "futian" "c-2" "zone-2") ex_assigned
    "c-2" _ (run_ops_reachable ex_districts) eq_refl Hc).
Defined.

Lemma ops_audit_trail_witness :
  length (events ex_two_districts) = 2%nat ∧
  NoDup (ev_EntityID <$> events ex_two_districts) ∧
  (∀ id, is_Some (complaints ex_two_districts !! id) ↔
         id ∈ ev_EntityID <$> events ex_two_districts) ∧
  Forall (λ e, ev_Metadata e = Some ∅ ∧
               ∃ c, complaints ex_two_districts !! ev_EntityID e = Some c ∧
                    co_DistrictID c = ev_DistrictID e) (events ex_two_districts).
Proof.
  split; [by vm_compute|].
  exact (ops_audit_trail ex_two_districts (run_ops_reachable ex_districts)).
Defined.

(** ** Publication with a retry *)

Section retry.
Definition disarm (s : Store) : Store := s <| failPlan := false |>.

Lemma disarm_plan s : failPlan s = false → disarm s = s.
Proof. destruct s; unfold disarm, upd; simpl. by intros ->. Qed.

Lemma PublishPlan_disarmed plan key s s' e :
  PublishPlan None plan key (disarm s) = (s', Err e) →
  errors_is e ErrStorage = false ∧ errors_is e ErrConflict = false.
Proof.
  unfold PublishPlan, check_ctx, savePlanLocked. intros Hp. op_cases Hp; try done.
Qed.

(** The retry masks a transient storage fault: publishing with a retry
    returns exactly what publishing to a store without the fault returns,
    and leaves the same store, the fault flag apart; so the plan is stored
    and recorded under its key exactly once. *)
Theorem ops_retry_masks_fault plan key s :
  let retried := RetryPlanPublication None None (λ s, s) plan key s in
  let plain := PublishPlan None plan key (disarm s) in
  snd retried = snd plain ∧ disarm (fst retried) = disarm (fst plain).
Proof.
  unfold RetryPlanPublication. simpl.
  destruct (failPlan s) eqn:Hf; [|rewrite (disarm_plan s Hf)].
  - unfold PublishPlan, check_ctx, savePlanLocked. op_unfold_goal.
    change (complaints (disarm s)) with (complaints s).
    change (idempotency (disarm s)) with (idempotency s).
    destruct (complaints s !! _) as [c|] eqn:Hc; simpl; [|done].
    destruct (bool_decide (co_DistrictID c = rp_DistrictID plan)) eqn:Hd; simpl; [|done].
    destruct (idempotency s !! _) as [o|] eqn:Hi; simpl; [done|].
    rewrite Hf. simpl. rewrite Hc. simpl. rewrite Hd. simpl. by rewrite Hi.
  - pose proof (PublishPlan_disarmed plan key s) as Hno. rewrite (disarm_plan s Hf) in Hno.
    destruct (PublishPlan None plan key s) as [s1 [p|e]] eqn:Hp; [done|].
    destruct (Hno _ _ eq_refl) as [-> _]. done.
Qed.

(** The worker never reports a permanent failure: publication has no
    branch that returns [ErrConflict], so the classification of conflicts as
    permanent is dead; every error it reports wraps the publication's own
    error, whatever other goroutines do between the attempts. *)
Theorem ops_worker_never_permanent c0 c1 c2 between plan key s s' e :
  ProcessPlan c0 c1 c2 between plan key s = (s', Err e) →
  errors_is e ErrPermanentWork = false ∧ errors_is e ErrConflict = false.
Proof.
  assert (∀ cerr s s' e, PublishPlan cerr plan key s = (s', Err e) →
    errors_is e ErrPermanentWork = false ∧ errors_is e ErrConflict = false) as Hpub.
  { unfold PublishPlan, check_ctx, savePlanLocked. intros cerr s0 s1 e0 Hp.
    op_cases Hp; done. }
  unfold ProcessPlan, RetryPlanPublication. intros Hp.
  repeat (case_match; simplify_eq/=); rewrite ?errors_is_before; try done;
    repeat match goal with
    | H : PublishPlan _ _ _ _ = (_, Err _) |- _ => apply Hpub in H as [? ?]
    end; try done; congruence.
Qed.
End retry.

Lemma ops_worker_never_permanent_witness :
  let out := ProcessPlan None None None (λ s, s) (ex_plan "p-1" "luohu" "c-9") "k" ex_ready in
  ∃ e, snd out = Err e ∧ errors_is e ErrNotFound = true ∧
    errors_is e ErrPermanentWork = false ∧ errors_is e ErrConflict = false.
Proof.
  intros out. destruct out as [s' [[]|e]] eqn:Ho; [by vm_compute in Ho|].
  exists e. split; [reflexivity|]. split.
  - vm_compute in Ho. injection Ho as _ <-. reflexivity.
  - exact (ops_worker_never_permanent None None None (λ s, s) (ex_plan "p-1" "luohu" "c-9") "k"
             ex_ready s' e Ho).
Defined.

(** ** Closing *)

Section closing.
(** A complaint is closed exactly when it is accepted, belongs to the
    district of the call and its plan exists and is verified; otherwise the
    call fails with the error of the first condition that does not hold and
    changes nothing. *)
Theorem ops_close_spec district id s :
  CloseComplaint None district id s =
  match complaints s !! id with
  | None => (s, Err (Sentinel ErrNotFound))
  | Some c =>
      if negb (bool_decide (co_DistrictID c = district)) then (s, Err (Sentinel ErrForbidden))
      else if bool_decide (co_Status c = "accepted" ∧
                           (rp_Status <$> plans s !! co_PlanID c) = Some "verified")
      then (put_complaint (co_ID c) (bump (c <| co_Status := "closed" |>)) s, Ok ())
      else (s, Err (Sentinel ErrInvalidState))
  end.
Proof.
  unfold CloseComplaint, check_ctx. op_unfold_goal.
  destruct (complaints s !! id) as [c|]; [|done].
  destruct (bool_decide (co_DistrictID c = district)); simpl; [|done].
  destruct (plans s !! co_PlanID c) as [p|]; simpl;
    repeat case_bool_decide; simpl; try done; exfalso; destruct_and?; simplify_eq; try congruence.
  match goal with H : ¬ (_ ∧ _) |- _ => apply H; split; congruence end.
Qed.

(** A plan that is published is not protected. Publishing another plan
    with the same ID, under another key and even for another district,
    replaces it: there is an execution in which a closed complaint of one
    district ends up with a plan that is not verified and belongs to another
    district. *)
Theorem ops_plan_overwritten :
  ∃ s c p, reachable ops_step is_new_store s ∧
    complaints s !! "c-1" = Some c ∧ co_Status c = "closed" ∧
    plans s !! co_PlanID c = Some p ∧ rp_Status p = "submitted" ∧
    rp_DistrictID p ≠ co_DistrictID c.
Proof.
  set (cs := ops_closable ++
    [ OpClose None "luohu" "c-1"; OpSubmit None (ex_co "c-2" "futian") "k-3";
      OpPublish None (ex_plan "p-1" "futian" "c-2") "k-4" ]).
  set (s := run_ops cs NewStore).
  exists s, (value (complaints s !! "c-1") zero_complaint),
    (value (plans s !! "p-1") zero_plan).
  split; [apply run_ops_reachable|]. split_and!; vm_compute; done.
Qed.
End closing.

(** ** Idempotency keys *)

Fixpoint no_colon (s : string) : bool :=
  match s with
  | EmptyString => true
  | String a s => negb (bool_decide (a = ":"%char)) && no_colon s
  end.

Lemma split_at_colon d d' x x' :
  no_colon d = true → no_colon d' = true →
  d +:+ String ":" x = d' +:+ String ":" x' → d = d' ∧ x = x'.
Proof.
  revert d'. induction d as [|a d IH]; intros [|a' d'] Hd Hd' Heq; simpl in *.
  - by simplify_eq.
  - by simplify_eq.
  - by simplify_eq.
  - guards. simplify_eq. destruct (IH d') as [-> ->]; done.
Qed.

Section keys.
(** As long as no district name contains a colon, idempotency keys are
    kept apart: equal keys come from the same district, the same kind of
    call and the same client key. *)
Theorem ops_keys_separate d k d' k' :
  no_colon d = true → no_colon d' = true →
  (complaintKey d k = complaintKey d' k' → d = d' ∧ k = k') ∧
  (actionKey d "plan" k = actionKey d' "plan" k' → d = d' ∧ k = k') ∧
  complaintKey d k ≠ actionKey d' "plan" k'.
Proof.
  intros Hd Hd'. unfold complaintKey, actionKey.
  split_and!; intros Heq; apply split_at_colon in Heq as [? Heq]; try done; by simplify_eq.
Qed.

(** With a colon in a district name the keys collide: there is an
    execution in which a submission in Luohu reports success, but stores
    nothing and returns an empty complaint, because a plan of another
    district took its idempotency key. *)
Theorem ops_keys_collide :
  ∃ s, reachable ops_step is_new_store s ∧
    SubmitComplaint None (ex_co "c-5" "luohu") "x:plan:k" s = (s, Ok zero_complaint) ∧
    complaints s !! "c-5" = None.
Proof.
  set (cs := [ OpSubmit None (ex_co "c-4" "luohu:complaint:x") "k-1";
               OpPublish None (ex_plan "p-4" "luohu:complaint:x" "c-4") "k" ]).
  exists (run_ops cs NewStore). split; [apply run_ops_reachable|]. split; by vm_compute.
Qed.
End keys.

Lemma ops_keys_separate_witness :
  (complaintKey "luohu" "a" = complaintKey "luohu" "a" → "luohu" = "luohu" ∧ "a" = "a") ∧
  complaintKey "luohu" "a" ≠ actionKey "luohu" "plan" "a".
Proof.
  destruct (ops_keys_separate "luohu" "a" "luohu" "a" eq_refl eq_refl) as (H1 & _ & H2).
  split; [exact H1|exact H2].
Defined.
