(* ===== verification/World.v ===== *)
(** * The state behind the compliance services, and its environment

    [World] is what the process keeps: the committed contents of the SQLite
    index and the shard files. Everything the code asks of its surroundings
    (a clock reading, a fresh UUID, whether a statement or a system call went
    through, whether the context is still alive, what other goroutines
    committed meanwhile, in which order the database visits rows or a map is
    iterated, how much of a failing write reached the disk) is answered
    by an [Env], one answer per question, so that theorems quantify over all
    the ways an execution can go. *)
From S2P Require Import Prelude GoErrors GoNumbers GoTime Domain.

(** ** Tables (internal/index, migrations)

    A row is the record it was written from; the columns that hold times and
    slices hold the text of the record's value. *)

Record ManifestEntry : Type := {
  me_ShardID : string;
  me_EntityType : string;
  me_ShardPath : string;
  me_Checksum : string;
  me_RecordCount : Z;
  me_MinKey : string;
  me_MaxKey : string;
  me_DateKey : string;
  me_Status : string;
  me_CreatedAt : string;
  me_UpdatedAt : string
}.

Record DB : Type := {
  db_items : list ComplianceCase;
  db_rules : list Rule;
  db_assignments : list Referral;
  db_escalations : list Escalation;
  db_audit : list AuditEntry;
  db_failures : list PermanentFailure;
  db_batches : list ImportBatch;
  db_manifest : list ManifestEntry;
  (** the versions in [schema_version] *)
  db_schema : list Z
}.
#[export] Instance DB_eta : Eta DB := λ d, {|
  db_items := db_items d; db_rules := db_rules d; db_assignments := db_assignments d;
  db_escalations := db_escalations d; db_audit := db_audit d; db_failures := db_failures d;
  db_batches := db_batches d; db_manifest := db_manifest d;
  db_schema := db_schema d |}.
(** A new index, after its migrations. *)
Definition empty_db : DB := {|
  db_items := []; db_rules := []; db_assignments := []; db_escalations := [];
  db_audit := []; db_failures := []; db_batches := []; db_manifest := [];
  db_schema := [1; 2] |}.

(** ** Shard files (internal/shard): the bytes of every file *)

Abbreviation FS := (gmap string bytes).

(** ** The environment *)

(** How a statement or a system call can fail from the outside: the driver,
    the disk, or the context of the call. *)
Inductive fault : Type := FaultText (text : string) | FaultCtx (c : ctx_error).
Definition fault_error (f : fault) : derror :=
  match f with FaultText t => External t | FaultCtx c => CtxErr c end.

Class Env : Type := {
  (** the zone of the process, in which its clock is read *)
  env_zone :: Zone;
  env_now : nat → Time;
  env_uuid : nat → string;
  env_fault : nat → option fault;
  env_ctx : nat → option ctx_error;
  env_others : nat → DB → DB;
  env_scan : ∀ {A : Type}, nat → list A → list A;
  (** how many bytes a failing write has written *)
  env_short : nat → nat;
  (** whether the empty slice of a field is nil, when a record is marshalled *)
  env_nil : nat → string → bool
}.

(** What the code relies on: UUIDs are fresh, a query visits every row once. *)
Class EnvLaws `(Env) : Prop := {
  env_uuid_inj : Inj (=) (=) env_uuid;
  env_scan_perm : ∀ A n (l : list A), env_scan n l ≡ₚ l
}.

(** No other goroutine writes. *)
Class Sequential `(Env) : Prop := others_id : ∀ n d, env_others n d = d.
(** Nothing fails from the outside. *)
Class Faultless `(Env) : Prop := {
  no_fault : ∀ n, env_fault n = None;
  no_cancel : ∀ n, env_ctx n = None
}.

Record World : Type := { w_db : DB; w_fs : FS; w_tick : nat }.
#[export] Instance World_eta : Eta World := λ w, {|
  w_db := w_db w; w_fs := w_fs w; w_tick := w_tick w |}.

Abbreviation dop := (op World derror).

(** [v, err := m; ...]: the caller looks at the outcome itself. *)
Definition on_result {S E E' A B} (m : op S E A) (h : result E A → op S E' B) : op S E' B := λ s,
  let '(s, r) := m s in h r s.

Definition set_db (f : DB → DB) (w : World) : World := w <| w_db := f (w_db w) |>.

Section questions.
Context `{Env}.

Definition ask {A} (answer : nat → A) : dop A := λ w,
  (w <| w_tick := S (w_tick w) |>, Ok (answer (w_tick w))).
(** [clock.Now()], [uuid.NewString()] *)
Definition clock_now : dop Time := ask env_now.
Definition new_uuid : dop string := ask env_uuid.
(** [ctx.Err()] *)
Definition poll_ctx : dop () :=
  c ← ask env_ctx;
  match c with None => mret () | Some c => raise (CtxErr c) end.
(** A statement or system call; [wrap] is how the caller wraps its error. *)
Definition attempt (wrap : derror → derror) : dop () :=
  f ← ask env_fault;
  match f with None => mret () | Some f => raise (wrap (fault_error f)) end.
(** Outside a transaction other goroutines may commit before the next access:
    the database has one connection. *)
Definition interleave : dop () := λ w,
  (w <| w_db := env_others (w_tick w) (w_db w) |> <| w_tick := S (w_tick w) |>, Ok ()).
(** The order in which a query visits rows. *)
Definition scan_rows {A} (rows : list A) : dop (list A) :=
  perm ← ask (λ n, env_scan n rows); mret perm.

(** [if err := m; err != nil { return wrap(err) }] *)
Definition wrapping {S A} (wrap : derror → derror) (m : op S derror A) : op S derror A := λ s,
  match m s with
  | (s, Ok a) => (s, Ok a)
  | (s, Err e) => (s, Err (wrap e))
  end.
Definition errorf (what : string) : derror → derror := errorf_before what.
End questions.

(** ** Operations that leave the database alone *)

Definition keeps_db {A} (m : dop A) : Prop := ∀ w, w_db (fst (m w)) = w_db w.

Create HintDb world_db.

Section keeps.
Context `{Env}.
Lemma keeps_ret {A} (a : A) : keeps_db (mret a).
Proof. done. Qed.
Lemma keeps_raise {A} e : keeps_db (raise e : dop A).
Proof. done. Qed.
Lemma keeps_ensure b e : keeps_db (ensure b e).
Proof. done. Qed.
Lemma keeps_must {A} (o : option A) e : keeps_db (must o e).
Proof. done. Qed.
Lemma keeps_lift {A} (r : result derror A) : keeps_db (lift r).
Proof. done. Qed.
Lemma keeps_gets {A} (f : World → A) : keeps_db (gets f).
Proof. done. Qed.
Lemma keeps_ask {A} (f : nat → A) : keeps_db (ask f).
Proof. done. Qed.
Lemma keeps_bind {A B} (m : dop A) (f : A → dop B) :
  keeps_db m → (∀ a, keeps_db (f a)) → keeps_db (m ≫= f).
Proof.
  intros Hm Hf w. unfold mbind, op_bind. specialize (Hm w).
  destruct (m w) as [w' [a|e]]; simpl in *; [by rewrite Hf|done].
Qed.
Lemma keeps_wrapping {A} wrap (m : dop A) : keeps_db m → keeps_db (wrapping wrap m).
Proof. intros Hm w. unfold wrapping. specialize (Hm w). by destruct (m w) as [w' [a|e]]. Qed.
Lemma keeps_poll : keeps_db poll_ctx.
Proof. apply keeps_bind; [apply keeps_ask|]. by intros [c|]. Qed.
Lemma keeps_attempt wrap : keeps_db (attempt wrap).
Proof. apply keeps_bind; [apply keeps_ask|]. by intros [f|]. Qed.
Lemma keeps_clock : keeps_db clock_now.
Proof. done. Qed.
Lemma keeps_uuid : keeps_db new_uuid.
Proof. done. Qed.
Lemma keeps_scan {A} (rows : list A) : keeps_db (scan_rows rows).
Proof. by apply keeps_bind. Qed.
Lemma keeps_interleave `{!Sequential H} : keeps_db interleave.
Proof. intros w. simpl. apply others_id. Qed.
End keeps.

#[export] Hint Resolve keeps_ret keeps_raise keeps_ensure keeps_must keeps_lift keeps_gets
  keeps_ask keeps_clock keeps_uuid keeps_wrapping keeps_poll keeps_attempt keeps_scan keeps_interleave : world_db.
#[export] Hint Resolve keeps_bind | 2 : world_db.

(** ** Concrete environments *)

(** Numbered UUIDs, rows in the order of the table, nothing fails. *)
Definition quiet (zone : Zone) (clock : nat → Time) (others : nat → DB → DB) : Env := {|
  env_zone := zone;
  env_now := clock;
  env_uuid n := "u" +:+ pretty (N.of_nat n);
  env_fault _ := None;
  env_ctx _ := None;
  env_others := others;
  env_scan A _ l := l;
  env_short _ := 0%nat;
  env_nil _ _ := true |}.
#[export] Instance quiet_laws zone clock others : EnvLaws (quiet zone clock others).
Proof.
  split; [|done]. intros n m Heq. simpl in Heq. apply (inj (String.append "u")) in Heq.
  apply (inj pretty) in Heq. lia.
Qed.
#[export] Instance quiet_faultless zone clock others : Faultless (quiet zone clock others).
Proof. done. Qed.

Definition ex_epoch : Time := 63835596800 * Second.
(** In Shenzhen; the clock ticks in seconds. *)
Definition calm_with (others : nat → DB → DB) : Env :=
  quiet shenzhen (λ n, ex_epoch + Z.of_nat n * Second) others.
Definition calm : Env := calm_with (λ _ d, d).
#[export] Instance calm_sequential : Sequential calm.
Proof. done. Qed.
#[export] Instance calm_laws others : EnvLaws (calm_with others).
Proof. apply quiet_laws. Qed.
#[export] Instance calm_faultless others : Faultless (calm_with others).
Proof. done. Qed.
(** Where no zone is set; the clock stands still. *)
Definition frozen : Env := quiet utc (λ _, ex_epoch) (λ _ d, d).
#[export] Instance frozen_sequential : Sequential frozen.
Proof. done. Qed.
#[export] Instance frozen_laws : EnvLaws frozen.
Proof. apply quiet_laws. Qed.
#[export] Instance frozen_faultless : Faultless frozen.
Proof. done. Qed.
