(* ===== verification/Shard.v ===== *)
(** * Shard files: the append-only log beside the index

    [internal/shard]: where a record is appended, rotation of full files, the
    scanner. [root] is the data directory; paths are joined as
    [filepath.Join] joins clean elements. A file that [os.Stat] does not find
    is absent from the map; a write that fails may have written a part of the
    line. *)
From Stdlib Require Import Ascii.
From S2P Require Import Prelude GoErrors GoStrings GoNumbers GoTime Domain World.

(** ** The writer (writer.go) *)

Record Writer : Type := {
  rootDir : string;
  maxShardSize : Z;
  syncOnWrite : bool
}.
Record Location : Type := { loc_Path : string; loc_Offset : Z; loc_Size : Z }.

(** The dates are those of the zone of the clock: what is appended carries a
    time of the clock. *)
Definition zoned `{Zone} (t : Time) : Time := t + zone_minutes * Minute.
Definition shardPath `{Zone} (w : Writer) (entityType : string) (t : Time) : string :=
  rootDir w +:+ "/shards/" +:+ entityType +:+ "/" +:+ year_month_text (zoned t) +:+ "/" +:+
  date_text (zoned t) +:+ ".jsonl".

Section writer.
Context `{Env}.

(** [info.Size()] *)
Definition file_size (content : bytes) : Z := Z.of_nat (length content).

(** The loop over [basePath_001], [basePath_002], ... *)
Definition candidate (basePath : string) (i : Z) : string := basePath +:+ "_" +:+ pad 3 i.
Fixpoint rotate_loop (fuel : nat) (maxSize : Z) (fs : FS) (basePath : string) (i : Z) :
    option string :=
  match fuel with
  | O => None
  | S fuel =>
      match fs !! candidate basePath i with
      | None => Some (candidate basePath i)
      | Some l =>
          if file_size l <? maxSize then Some (candidate basePath i)
          else rotate_loop fuel maxSize fs basePath (i + 1)
      end
  end.
(** A loop of more rounds than there are files finds a free name. *)
Definition rotateIfNeeded (w : Writer) (fs : FS) (basePath : string) : string :=
  match fs !! basePath with
  | None => basePath
  | Some l =>
      if file_size l <? maxShardSize w then basePath
      else default basePath (rotate_loop (S (size fs)) (maxShardSize w) fs basePath 1)
  end.

Definition newline : ascii := "010".
Definition put_file (path : string) (content : bytes) (w : World) : World :=
  w <| w_fs := <[path := content]> (w_fs w) |>.
(** [f.Write(line)] on a file opened for appending *)
Definition write_file (path : string) (before line : bytes) (wrap : derror → derror) : dop () :=
  short ← ask env_short;
  f ← ask env_fault;
  match f with
  | None => modify (put_file path (before ++ line))
  | Some f =>
      _ ← modify (put_file path (before ++ take short line));
      raise (wrap (fault_error f))
  end.

Definition Append (w : Writer) (entityType : string) (t : Time) (data : bytes) :
    dop Location :=
  _ ← poll_ctx;
  let basePath := shardPath w entityType t in
  _ ← attempt (errorf ("create shard dir " +:+ rootDir w +:+ "/shards/" +:+ entityType
                       +:+ "/" +:+ year_month_text (zoned t)));
  fs ← gets w_fs;
  let targetPath := if 0 <? maxShardSize w then rotateIfNeeded w fs basePath else basePath in
  _ ← attempt (errorf ("open shard " +:+ targetPath));
  let before := default [] (fs !! targetPath) in
  _ ← modify (put_file targetPath before);
  _ ← attempt (errorf ("seek shard " +:+ targetPath));
  let line := data ++ [newline] in
  _ ← write_file targetPath before line (errorf ("write shard " +:+ targetPath));
  _ ← (if syncOnWrite w then attempt (errorf ("sync shard " +:+ targetPath)) else mret ());
  mret {| loc_Path := targetPath; loc_Offset := file_size before; loc_Size := file_size line |}.
End writer.

(** ** The scanner (scanner.go) *)

Definition shard_types : list string :=
  ["items"; "rules"; "assignments"; "escalations"; "audit"; "batches"; "failures"].

Definition has_prefix (p s : string) : bool :=
  has_prefix_bytes (String.list_ascii_of_string p) (String.list_ascii_of_string s).

(** The files [WalkDir] yields for one entity type: below its directory, with
    the suffix of shards, in lexical order. *)
Definition path_le (a b : string) : Prop := String.leb a b = true.
#[export] Instance path_le_dec a b : Decision (path_le a b).
Proof. unfold path_le. apply _. Defined.
Definition shard_files (root : string) (fs : FS) (entityType : string) : list string :=
  merge_sort path_le
    (List.filter (λ path, has_prefix (root +:+ "/shards/" +:+ entityType +:+ "/") path
                          && HasSuffix path ".jsonl") ((map_to_list fs).*1)).
(** The context is polled at every entry of the walk; [polls] are the
    outcomes. *)
Definition ScanEntityType (polls : list (option ctx_error)) (root : string) (fs : FS)
    (entityType : string) : result derror (list string) :=
  match head (omap id polls) with
  | Some c => Err (CtxErr c)
  | None => Ok (shard_files root fs entityType)
  end.
Fixpoint scan_types (polls : string → list (option ctx_error)) (root : string) (fs : FS)
    (types : list string) : result derror (list (string * string)) :=
  match types with
  | [] => Ok []
  | t :: types =>
      files ← ScanEntityType (polls t) root fs t;
      all ← scan_types polls root fs types;
      mret (((λ path, (path, t)) <$> files) ++ all)
  end.
Definition ScanAll (polls : string → list (option ctx_error)) (root : string) (fs : FS) :
    result derror (list (string * string)) :=
  scan_types polls root fs shard_types.

(** ** Facts *)

Section facts.
Context `{Env}.

Lemma keeps_put_file path content : keeps_db (modify (put_file path content)).
Proof. done. Qed.
Lemma keeps_write_file path before line wrap : keeps_db (write_file path before line wrap).
Proof.
  unfold write_file. repeat (apply keeps_bind; [auto with world_db|intros]).
  case_match; [apply keeps_bind|]; auto using keeps_put_file with world_db.
Qed.
Lemma keeps_Append w ty t data : keeps_db (Append w ty t data).
Proof.
  unfold Append.
  repeat (apply keeps_bind; [solve [auto using keeps_put_file, keeps_write_file with world_db]|intros]).
  destruct (syncOnWrite w); apply keeps_bind; auto with world_db.
Qed.
End facts.

#[export] Hint Resolve keeps_Append : world_db.
