(* ===== verification/ShardFacts.v ===== *)
(** * Shard files: rotation always finds a file, and their order is that of time

    The names a full shard rotates through are all different, so one of them
    is free or has room before the model's bound on the rounds. The files of
    one kind are named after dates, so their lexical order, in which the
    scanner and the rebuild read them, is the order of time. *)
From Stdlib Require Import Ascii.
From S2P Require Import Prelude GoErrors GoStrings GoNumbers GoTime Json JsonFacts Rfc3339 Domain World Shard.
(** ** Padded numbers *)

Lemma digit_nonzero x : (0 < x < 10)%N → pretty_N_char x ≠ "0"%char.
Proof.
  intros Hx. assert (x = 1 ∨ x = 2 ∨ x = 3 ∨ x = 4 ∨ x = 5 ∨ x = 6 ∨ x = 7 ∨ x = 8 ∨ x = 9)%N as Hc
    by lia.
  by destruct_or! Hc; subst.
Qed.
(** No leading zeros. *)
Lemma pretty_N_go_head x s :
  (0 < x)%N → ∃ c t, pretty_N_go x s = String c t ∧ c ≠ "0"%char.
Proof.
  revert s. induction (N.lt_wf_0 x) as [x _ IH]. intros s Hx. rewrite pretty_N_go_step by done.
  destruct (decide (x < 10)%N) as [Hlt|Hge].
  - rewrite N.div_small, N.mod_small by done. rewrite pretty_N_go_0. eexists _, _. split; [done|].
    apply digit_nonzero. lia.
  - apply IH; [apply N.div_lt; lia|]. apply N.div_str_pos. lia.
Qed.
Lemma pretty_pos_head i : 0 < i → ∃ c t, pretty i = String c t ∧ c ≠ "0"%char.
Proof.
  intros Hi. destruct i as [|p|p]; try lia. apply (pretty_N_go_head (Npos p) ""). lia.
Qed.

Lemma zeros_app_inj n m s t :
  (∀ u, s ≠ String "0"%char u) → (∀ u, t ≠ String "0"%char u) →
  zeros n +:+ s = zeros m +:+ t → s = t.
Proof.
  intros Hs Ht. revert m. induction n as [|n IH]; intros [|m]; simpl; intros Heq; try done.
  - by destruct (Hs (zeros m +:+ t)).
  - by destruct (Ht (zeros n +:+ s)).
  - injection Heq as Heq. by apply (IH m).
Qed.
Lemma pad_inj w i j : 0 < i → 0 < j → pad w i = pad w j → i = j.
Proof.
  intros Hi Hj Heq. unfold pad in Heq. apply zeros_app_inj in Heq; [by apply (inj pretty) in Heq|..].
  - destruct (pretty_pos_head i Hi) as (c & t & -> & Hc). by intros u [= ->].
  - destruct (pretty_pos_head j Hj) as (c & t & -> & Hc). by intros u [= ->].
Qed.

(** ** Rotation *)

Section rotation.
Context `{Env}.

Lemma candidate_inj base i j : 0 < i → 0 < j → candidate base i = candidate base j → i = j.
Proof.
  unfold candidate. intros Hi Hj Heq. apply (inj (String.append base)) in Heq.
  injection Heq as Heq. by apply pad_inj in Heq.
Qed.

(** A round that goes on has met a file that was not met before. *)
Lemma rotate_loop_none fuel maxSize (fs : FS) base i :
  0 < i → rotate_loop fuel maxSize fs base i = None →
  ∃ seen : gset string, size seen = fuel ∧ seen ⊆ dom fs ∧
    ∀ name, name ∈ seen → ∃ j, i ≤ j ∧ name = candidate base j.
Proof.
  revert i. induction fuel as [|fuel IH]; intros i Hi Hr; simpl in Hr.
  { exists ∅. split_and!; [apply size_empty|set_solver|set_solver]. }
  destruct (fs !! candidate base i) as [l|] eqn:Hf; [|done].
  destruct (file_size l <? maxSize); [done|].
  destruct (IH (i + 1)) as (seen & Hsize & Hsub & Hname); [lia|done|].
  exists ({[candidate base i]} ∪ seen). split_and!.
  - rewrite size_union, size_singleton, Hsize; [done|].
    intros name ->%elem_of_singleton Hin. apply Hname in Hin as (j & Hj & Heq).
    apply candidate_inj in Heq; lia.
  - apply union_subseteq. split; [|done]. apply singleton_subseteq_l. by apply elem_of_dom.
  - intros name [->%elem_of_singleton|Hin]%elem_of_union; [by exists i|].
    apply Hname in Hin as (j & ? & ?). exists j. split; [lia|done].
Qed.

(** [rotateIfNeeded] always returns a file that has room or is new. *)
Lemma rotate_total maxSize (fs : FS) base :
  ∃ path, rotate_loop (S (size fs)) maxSize fs base 1 = Some path ∧
    (fs !! path = None ∨ ∃ l, fs !! path = Some l ∧ file_size l < maxSize).
Proof.
  destruct (rotate_loop (S (size fs)) maxSize fs base 1) as [path|] eqn:Hr.
  - exists path. split; [done|]. revert Hr. generalize (S (size fs)) as fuel, 1 as i.
    intros fuel. induction fuel as [|fuel IH]; intros i Hr; simpl in Hr; [done|].
    destruct (fs !! candidate base i) as [l|] eqn:Hf; [|injection Hr as <-; by left].
    destruct (Z.ltb_spec (file_size l) maxSize); [injection Hr as <-; right; eauto|].
    by apply (IH (i + 1)).
  - exfalso. apply rotate_loop_none in Hr as (seen & Hsize & Hsub & _); [|lia].
    apply subseteq_size in Hsub. rewrite Hsize, size_dom in Hsub. lia.
Qed.
End rotation.

(** ** Rotated files and the scanner *)

Lemma ascii_list_app s t :
  String.list_ascii_of_string (s +:+ t) =
  (String.list_ascii_of_string s ++ String.list_ascii_of_string t)%list.
Proof. induction s as [|c s IH]; [done|]. simpl. f_equal. apply IH. Qed.
Lemma str_app_assoc s t u : s +:+ (t +:+ u) = (s +:+ t) +:+ u.
Proof.
  induction s as [|c s IH]; [done|].
  change (String c (s +:+ (t +:+ u)) = String c ((s +:+ t) +:+ u)). by rewrite IH.
Qed.
Lemma pretty_N_go_app x s : ∃ p, pretty_N_go x s = p +:+ s.
Proof.
  revert s. induction (N.lt_wf_0 x) as [x _ IH]. intros s.
  destruct (decide (0 < x)%N) as [Hx|Hx].
  - rewrite pretty_N_go_step by done.
    destruct (IH (x / 10)%N (N.div_lt x 10 Hx ltac:(lia)) (String (pretty_N_char (x mod 10)) s)) as [p ->].
    exists (p +:+ String (pretty_N_char (x mod 10)) ""). by rewrite <- str_app_assoc.
  - assert (x = 0)%N as -> by lia. by exists "".
Qed.
(** The name of a rotated file ends in a digit. *)
Lemma candidate_end base i :
  0 < i → ∃ p d, candidate base i = p +:+ String (pretty_N_char d) "" ∧ (d < 10)%N.
Proof.
  intros Hi. destruct i as [|n|n]; try lia. unfold candidate, pad.
  assert (pretty (Z.pos n) = pretty_N_go (Npos n) "") as -> by done.
  rewrite pretty_N_go_step by lia.
  destruct (pretty_N_go_app (Npos n / 10) (String (pretty_N_char (Npos n mod 10)) "")) as [p ->].
  eexists _, _. split; [|apply N.mod_lt; lia]. by rewrite !str_app_assoc.
Qed.
Lemma digit_char d : (d < 10)%N → Ascii.eqb "l"%char (pretty_N_char d) = false.
Proof.
  intros Hd. assert (d = 0 ∨ d = 1 ∨ d = 2 ∨ d = 3 ∨ d = 4 ∨ d = 5 ∨ d = 6 ∨ d = 7 ∨ d = 8 ∨ d = 9)%N
    as Hc by lia. by destruct_or! Hc; subst.
Qed.

(** C40: a full shard rotates to a file that exists with room or is new, after
    at most as many rounds as there are files; but no name it rotates to is
    ever found again by the scanner, which looks for the suffix [.jsonl] that
    the counter follows: a rebuild of the index does not see the records of
    rotated files. *)
Theorem rotation_total_but_unscanned `{Env} maxSize (fs : FS) base root entityType :
  (∃ path, rotate_loop (S (size fs)) maxSize fs base 1 = Some path ∧
    (fs !! path = None ∨ ∃ l, fs !! path = Some l ∧ file_size l < maxSize)) ∧
  (∀ i polls files, 0 < i → ScanEntityType polls root fs entityType = Ok files →
     candidate base i ∉ files).
Proof.
  split; [apply rotate_total|]. intros i polls files Hi Hs Hin. unfold ScanEntityType in Hs.
  destruct (head _); [done|]. injection Hs as <-. unfold shard_files in Hin. rewrite merge_sort_Permutation in Hin. apply list_elem_of_In, filter_In in Hin as [_ Hin].
  apply andb_true_iff in Hin as [_ Hin]. destruct (candidate_end base i Hi) as (p & d & Heq & Hd).
  revert Hin. rewrite Heq. unfold HasSuffix. rewrite ascii_list_app, rev_app_distr.
  pose proof (digit_char d Hd) as Hc. revert Hc. generalize (pretty_N_char d) as c. intros c Hc.
  cbn [String.list_ascii_of_string rev app has_prefix_bytes]. by rewrite Hc.
Qed.

(** ** Lexical comparison *)

Lemma compare_cons c d s t :
  String.compare (String c s) (String d t) =
  match N.compare (N_of_ascii c) (N_of_ascii d) with Eq => String.compare s t | r => r end.
Proof. done. Qed.
Lemma compare_app p a b : String.compare (p +:+ a) (p +:+ b) = String.compare a b.
Proof. induction p as [|c p IH]; [done|]. simpl. unfold Ascii.compare. by rewrite N.compare_refl. Qed.

(** Numbers of the same width compare as their texts. *)
Lemma compare_decimal l1 l2 n1 n2 a b :
  decimal l1 n1 → decimal l2 n2 → length l1 = length l2 → n1 < n2 →
  String.compare (of_bytes l1 +:+ a) (of_bytes l2 +:+ b) = Lt.
Proof.
  revert l2 n1 n2. induction l1 as [|c1 l1 IH]; intros [|c2 l2] n1 n2 H1 H2 Hlen Hlt; try done.
  { pose proof (decimal_unique _ _ _ H1 H2). lia. }
  apply decimal_inv in H1 as [Hc1 (m1 & H1 & ->)]. apply decimal_inv in H2 as [Hc2 (m2 & H2 & ->)].
  injection Hlen as Hlen. pose proof H1 as (_ & Hm1 & _). pose proof H2 as (_ & Hm2 & _).
  rewrite Hlen in *. set (p := 10 ^ Z.of_nat (length l2)) in *.
  change (of_bytes (c1 :: l1) +:+ a) with (String c1 (of_bytes l1 +:+ a)).
  change (of_bytes (c2 :: l2) +:+ b) with (String c2 (of_bytes l2 +:+ b)).
  rewrite compare_cons. unfold digit, byte_val in *.
  destruct (N.compare_spec (N_of_ascii c1) (N_of_ascii c2)) as [Heq|Hl|Hg]; [|done|].
  - apply (IH l2 m1 m2); [done..|]. rewrite Heq in Hlt. lia.
  - exfalso. assert (Z.of_N (N_of_ascii c2) + 1 ≤ Z.of_N (N_of_ascii c1)) by lia. nia.
Qed.
Lemma compare_pad w n1 n2 a b :
  (0 < w)%nat → 0 ≤ n1 → n1 < n2 → n2 < 10 ^ Z.of_nat w →
  String.compare (pad w n1 +:+ a) (pad w n2 +:+ b) = Lt.
Proof.
  intros Hw H1 H12 H2.
  destruct (pad_decimal w n1) as [D1 L1]; [done|lia|]. destruct (pad_decimal w n2) as [D2 L2]; [done|lia|].
  rewrite <- (of_to_bytes (pad w n1)), <- (of_to_bytes (pad w n2)).
  eapply compare_decimal; [done..|congruence|done].
Qed.

(** ** Dates *)

(** A later day has a later date. *)
Lemma year_start_mono y z : y ≤ z → year_start y ≤ year_start z.
Proof.
  intros Hyz. replace z with (y + Z.of_nat (Z.to_nat (z - y))) by lia.
  generalize (Z.to_nat (z - y)) as k. intros k. induction k as [|k IH]; [rewrite Z.add_0_r; lia|].
  replace (y + Z.of_nat (S k)) with (y + Z.of_nat k + 1) by lia. rewrite year_start_succ.
  unfold year_len. case_match; lia.
Qed.
Lemma month_start_mono y (j k : nat) : (j ≤ k)%nat → month_start y j ≤ month_start y k.
Proof.
  induction 1 as [|k _ IH]; [done|]. cbn [month_start].
  pose proof (month_len_pos y (Z.of_nat (S k))). lia.
Qed.
Definition date_lt (a b : Z * Z * Z) : Prop :=
  let '(y, m, d) := a in let '(y', m', d') := b in
  y < y' ∨ y = y' ∧ (m < m' ∨ m = m' ∧ d < d').
Lemma civil_mono n n' : n ≤ n' → civil n = civil n' ∨ date_lt (civil n) (civil n').
Proof.
  intros Hn. destruct (civil_spec n) as (y & m & d & E & Hm & Hd & Hs & Hy).
  destruct (civil_spec n') as (y' & m' & d' & E' & Hm' & Hd' & Hs' & Hy'). rewrite E, E'.
  unfold date_lt. destruct (Z.lt_trichotomy y y') as [?|[<-|Hlt]]; [by right; left| |].
  - destruct (Z.lt_trichotomy m m') as [?|[<-|Hlt]]; [right; right; split; [done|by left]| |].
    + destruct (decide (d = d')) as [->|]; [by left|]. right. right. split; [done|]. right. lia.
    + exfalso. pose proof (month_start_mono y (S (Z.to_nat (m' - 1))) (Z.to_nat (m - 1)) ltac:(lia)) as Hmono.
      cbn [month_start] in Hmono. replace (Z.of_nat (S (Z.to_nat (m' - 1)))) with m' in Hmono by lia. lia.
  - exfalso. pose proof (year_start_mono (y' + 1) y ltac:(lia)). lia.
Qed.

Lemma zoned_range `{Zone} t : formattable t → min_time ≤ zoned t ≤ max_time.
Proof.
  unfold formattable, zoned, reading, local. simpl. pose proof zone_bound as Hz. guards. unfold IsZero.
  destruct (Z.eqb_spec t 0) as [->|]; [|done]. intros _. unfold min_time, max_time, Day, Hour, Minute, Second in *. lia.
Qed.
(** The names of the files of a kind are in the order of time. *)
Lemma shardPath_mono `{Zone} w ty t u :
  formattable t → formattable u → t ≤ u → path_le (shardPath w ty t) (shardPath w ty u).
Proof.
  intros Ht%zoned_range Hu%zoned_range Htu. unfold shardPath.
  assert (zoned t ≤ zoned u) as Hz by (unfold zoned; lia). clear Htu.
  revert Ht Hu Hz. generalize (zoned t) as t', (zoned u) as u'. clear t u H. intros t u Ht Hu Htu.
  assert (t / Day ≤ u / Day) as Hday by (apply Z.div_le_mono; done).
  unfold path_le, String.leb, year_month_text, date_text.
  destruct (civil_spec (t / Day)) as (y & m & d & E & Hm & Hd & _ & Hy).
  destruct (civil_spec (u / Day)) as (y' & m' & d' & E' & Hm' & Hd' & _ & Hy').
  pose proof (year_range t y Ht Hy). pose proof (year_range u y' Hu Hy').
  pose proof (month_len_pos y m). pose proof (month_len_pos y' m').
  apply civil_mono in Hday. rewrite E, E' in *. rewrite !compare_app.
  destruct Hday as [[= -> -> ->]|Hlt].
  { match goal with |- context [String.compare ?s ?s] => pose proof (String.compare_antisym s s) as Ha;
      by destruct (String.compare s s) end. }
  unfold date_lt in Hlt. destruct Hlt as [Hlt|[<- Hlt]].
  - rewrite <- !str_app_assoc. by rewrite compare_pad by (simpl; lia).
  - rewrite <- !str_app_assoc, !compare_app. destruct Hlt as [Hlt|[<- Hlt]].
    + by rewrite compare_pad by (simpl; lia).
    + rewrite !compare_app. by rewrite compare_pad by (simpl; lia).
Qed.
