(* ===== verification/Reader.v ===== *)
(** * Reading shard files

    [internal/shard/reader.go]: the lines of a shard, a record at an offset,
    the number of records and the checksum of a file. [bufio.Scanner] yields
    lines without their end and fails on a line that does not fit its buffer. *)
From Stdlib Require Import Ascii.
From S2P Require Import Prelude GoErrors GoStrings GoNumbers GoTime Json Sha256 Domain World Shard.

(** ** Lines *)

Fixpoint split_lines (s : bytes) : list bytes :=
  match s with
  | [] => []
  | c :: r =>
      if Ascii.eqb c newline then [] :: split_lines r
      else match split_lines r with
           | [] => [[c]]
           | l :: ls => (c :: l) :: ls
           end
  end.
(** [bufio.ScanLines] drops one carriage return before the end of a line. *)
Definition drop_cr (line : bytes) : bytes :=
  match rev line with
  | c :: r => if is_byte 13 c then rev r else line
  | [] => line
  end.
(** The buffer given to [scanner.Buffer]; a line must fit with its end. *)
Definition maxTokenSize : Z := 16 * 1024 * 1024.
Definition fits (line : bytes) : bool := Z.of_nat (length line) + 1 <=? maxTokenSize.
(** The tokens of [scanner.Scan], and what [scanner.Err] says after the last. *)
Definition scan_lines (content : bytes) : result derror (list bytes) :=
  let lines := split_lines content in
  if forallb fits lines then Ok (drop_cr <$> lines)
  else Err (External "bufio.Scanner: token too long").
Definition nonempty (line : bytes) : bool := negb (bool_decide (line = [])).

Section reader.
Context `{Env}.

(** [os.Open] of a path, and its content. *)
Definition open_file (what path : string) : dop bytes :=
  _ ← attempt (errorf (what +:+ " " +:+ path));
  fs ← gets w_fs;
  must (fs !! path)
    (errorf (what +:+ " " +:+ path) (External ("open " +:+ path +:+ ": no such file or directory"))).

Definition ReadAll (path : string) : dop (list bytes) :=
  content ← open_file "open shard" path;
  _ ← attempt (errorf ("scan shard " +:+ path));
  lines ← wrapping (errorf ("scan shard " +:+ path)) (lift (scan_lines content));
  mret (List.filter nonempty lines).

(** A negative [size] panics ([make]), a negative offset is an error of
    [f.ReadAt]; at the end of the file fewer bytes come back. *)
Definition ReadAt (path : string) (offset size : Z) : dop bytes :=
  content ← open_file "open shard" path;
  _ ← ensure (0 <=? size) (External "panic: runtime error: makeslice: len out of range");
  let wrap := errorf ("read at offset " +:+ pretty offset) in
  _ ← ensure (0 <=? offset) (wrap (External "negative offset"));
  _ ← attempt wrap;
  mret (take (Z.to_nat size) (drop (Z.to_nat offset) content)).

Definition Checksum (path : string) : dop string :=
  content ← open_file "open for checksum" path;
  _ ← attempt (errorf ("compute checksum " +:+ path));
  mret (sha256_hex content).

Definition RecordCount (path : string) : dop Z :=
  content ← open_file "open for count" path;
  _ ← attempt (errorf ("scan for count " +:+ path));
  lines ← wrapping (errorf ("scan for count " +:+ path)) (lift (scan_lines content));
  mret (Z.of_nat (length (List.filter nonempty lines))).
End reader.

(** ** What the reader returns of a file of records *)

(** A record fits a line of its own. *)
Definition line_ok (r : bytes) : Prop :=
  r ≠ [] ∧ Forall (λ c, (32 <=? byte_val c) = true) r ∧ fits r = true.
(** The content of a file the records were appended to. *)
Definition file_of (records : list bytes) : bytes := records ≫= λ r, r ++ [newline].

Lemma split_line r s :
  Forall (λ c, (32 <=? byte_val c) = true) r →
  split_lines (r ++ newline :: s) = r :: split_lines s.
Proof.
  induction 1 as [|c r Hc Hr IH]; [done|]. cbn [app split_lines].
  assert (Ascii.eqb c newline = false) as ->; [|by rewrite IH].
  apply Ascii.eqb_neq. intros ->. done.
Qed.
Lemma split_file records s :
  Forall (Forall (λ c, (32 <=? byte_val c) = true)) records →
  split_lines (file_of records ++ s) = records ++ split_lines s.
Proof.
  induction 1 as [|r records Hr _ IH]; [done|]. unfold file_of in *.
  rewrite bind_cons, <- !app_assoc. change ([newline] ++ ?x) with (newline :: x).
  rewrite split_line by done. by rewrite IH.
Qed.
Lemma drop_cr_plain r : Forall (λ c, (32 <=? byte_val c) = true) r → drop_cr r = r.
Proof.
  intros Hr. unfold drop_cr. destruct (rev r) as [|c t] eqn:E; [done|].
  assert (In c r) as Hc by (apply in_rev; rewrite E; by left).
  rewrite Forall_forall in Hr. apply list_elem_of_In, Hr in Hc. unfold is_byte.
  rewrite (proj2 (Z.eqb_neq _ _)); [done|]. apply Z.leb_le in Hc. lia.
Qed.

(** Reading a file back gives the records it was written with. *)
Lemma scan_file records :
  Forall line_ok records → scan_lines (file_of records) = Ok records.
Proof.
  intros Hr. unfold scan_lines. rewrite <- (app_nil_r (file_of records)), split_file
    by (eapply Forall_impl; [exact Hr|]; by intros r (_ & ? & _)).
  cbn [split_lines]. rewrite app_nil_r.
  assert (forallb fits records = true) as ->.
  { apply forallb_forall. intros r Hin%list_elem_of_In. rewrite Forall_forall in Hr. by apply Hr. }
  f_equal. induction Hr as [|r records (_ & Hr & _) _ IH]; [done|].
  rewrite fmap_cons, IH. f_equal. by apply drop_cr_plain.
Qed.
(** A file that can be read has no line that is too long. *)
Lemma scan_fits records lines :
  Forall (Forall (λ c, (32 <=? byte_val c) = true)) records →
  scan_lines (file_of records) = Ok lines → Forall (λ r, fits r = true) records.
Proof.
  intros Hr. unfold scan_lines. rewrite <- (app_nil_r (file_of records)), split_file by done.
  destruct (forallb fits (records ++ split_lines [])) eqn:Hf; [|done]. intros _.
  apply Forall_forall. intros r Hin. rewrite forallb_forall in Hf. apply Hf, list_elem_of_In.
  apply elem_of_app. by left.
Qed.
Lemma filter_nonempty records : Forall line_ok records → List.filter nonempty records = records.
Proof.
  induction 1 as [|r records (Hne & _) _ IH]; [done|]. simpl. unfold nonempty at 1.
  rewrite bool_decide_false by done. simpl. by rewrite IH.
Qed.
Lemma file_of_app r1 r2 : file_of (r1 ++ r2) = file_of r1 ++ file_of r2.
Proof. unfold file_of. by rewrite bind_app. Qed.

Section reading.
Context `{Env}.
Lemma keeps_open_file what path : keeps_db (open_file what path).
Proof. unfold open_file. auto with world_db. Qed.
#[local] Hint Resolve keeps_open_file : world_db.
Lemma keeps_ReadAll path : keeps_db (ReadAll path).
Proof. unfold ReadAll. auto 10 with world_db. Qed.
Lemma keeps_Checksum path : keeps_db (Checksum path).
Proof. unfold Checksum. auto with world_db. Qed.
End reading.
#[export] Hint Resolve keeps_ReadAll keeps_Checksum : world_db.

Example scan_lines_ex :
  scan_lines (to_bytes "a" ++ [newline; newline] ++ to_bytes "b" ++ [byte 13; newline] ++ to_bytes "c")
  = Ok [to_bytes "a"; []; to_bytes "b"; to_bytes "c"].
Proof. vm_compute. reflexivity. Qed.
