(* ===== verification/Index.v ===== *)
(** * The SQLite index: statements and queries

    [internal/index]: [writes.go], [queries.go] and the column codecs of
    [schema.go]. Each definition is one method: the statement may fail from
    the outside ([attempt]); its effect and its constraints (the primary keys
    and the uniqueness of [external_ref] of the schema) are written out. A
    query visits the matching rows in the order the database picks and sorts
    them by the key of its ORDER BY, so rows with equal keys come in any
    order. Texts of times are compared as texts. *)
From S2P Require Import Prelude GoErrors GoStrings GoTime Domain World.

(** ** Columns (schema.go) *)

(** [decodeSlice(encodeSlice(s))]: JSON turns invalid UTF-8 into U+FFFD. *)
Definition slice_column (s : list string) : list string := utf8_clean <$> s.

(** [parseTime(formatTime(t))] *)
Definition time_column `{Zone} (t : Time) : result derror Time :=
  if IsZero t then Ok zero_time
  else if bool_decide (formattable t) then Ok t
  else Err (External "parsing time").
(** [scanNullableTime(formatNullableTime(t))] *)
Definition nullable_time_column `{Zone} (t : option Time) : result derror (option Time) :=
  match t with
  | None => Ok None
  | Some t =>
      if IsZero t then Ok None
      else match time_column t with
           | Ok t => Ok (Some t)
           | Err e => Err (errorf "parse nullable time" e)
           end
  end.

(** ** Scanning rows (queries.go) *)

Definition scanItem `{Zone} (row : ComplianceCase) : result derror ComplianceCase :=
  regAt ← time_column (ic_RegisteredAt row);
  deadline ← time_column (ic_Deadline row);
  createdAt ← time_column (ic_CreatedAt row);
  updatedAt ← time_column (ic_UpdatedAt row);
  completedAt ← nullable_time_column (ic_CompletedAt row);
  cancelledAt ← nullable_time_column (ic_CancelledAt row);
  mret (row <| ic_Materials := slice_column (ic_Materials row) |>
            <| ic_Keywords := slice_column (ic_Keywords row) |>
            <| ic_CoDepartments := slice_column (ic_CoDepartments row) |>
            <| ic_RegisteredAt := regAt |> <| ic_Deadline := deadline |>
            <| ic_CreatedAt := createdAt |> <| ic_UpdatedAt := updatedAt |>
            <| ic_CompletedAt := completedAt |> <| ic_CancelledAt := cancelledAt |>).

Definition scanRule `{Zone} (row : Rule) : result derror Rule :=
  effFrom ← time_column (ru_EffectiveFrom row);
  effTo ← time_column (ru_EffectiveTo row);
  createdAt ← time_column (ru_CreatedAt row);
  mret (row <| ru_MatchKeywords := slice_column (ru_MatchKeywords row) |>
            <| ru_CoDepartments := slice_column (ru_CoDepartments row) |>
            <| ru_EffectiveFrom := effFrom |> <| ru_EffectiveTo := effTo |>
            <| ru_CreatedAt := createdAt |>).

Definition scanAssignment `{Zone} (row : Referral) : result derror Referral :=
  adjAt ← time_column (rf_AdjudicatedAt row);
  mret (row <| rf_CoDepartments := slice_column (rf_CoDepartments row) |>
            <| rf_AdjudicatedAt := adjAt |>).

Definition scanEscalation `{Zone} (row : Escalation) : result derror Escalation :=
  escAt ← time_column (es_EscalatedAt row);
  newDL ← time_column (es_NewDeadline row);
  mret (row <| es_EscalatedAt := escAt |> <| es_NewDeadline := newDL |>).

Definition scanAudit `{Zone} (row : AuditEntry) : result derror AuditEntry :=
  ts ← time_column (au_Timestamp row);
  mret (row <| au_Timestamp := ts |>).

Definition scanFailure `{Zone} (row : PermanentFailure) : result derror PermanentFailure :=
  firstAt ← time_column (pf_FirstFailedAt row);
  lastAt ← time_column (pf_LastFailedAt row);
  resolvedAt ← nullable_time_column (pf_ResolvedAt row);
  nextRetry ← nullable_time_column (pf_NextRetryAt row);
  mret (row <| pf_FirstFailedAt := firstAt |> <| pf_LastFailedAt := lastAt |>
            <| pf_ResolvedAt := resolvedAt |> <| pf_NextRetryAt := nextRetry |>).

Definition scanBatch `{Zone} (row : ImportBatch) : result derror ImportBatch :=
  bd ← time_column (ib_BatchDate row);
  impAt ← time_column (ib_ImportedAt row);
  mret (row <| ib_BatchDate := bd |> <| ib_ImportedAt := impAt |>).

(** [for rows.Next() { x, err := scan(rows); if err != nil { return nil, err } }] *)
Fixpoint scan_all {A} (scan : A → result derror A) (rows : list A) : result derror (list A) :=
  match rows with
  | [] => Ok []
  | row :: rows =>
      x ← scan row;
      xs ← scan_all scan rows;
      mret (x :: xs)
  end.

(** ** Writes (writes.go) *)

(** The error of a statement that violates a constraint. *)
Definition unique_violation (what column : string) : derror :=
  errorf what (External ("constraint failed: UNIQUE constraint failed: " +:+ column)).

(** [UPDATE ... WHERE p]: the rows that match are updated. *)
Definition update_where {A} (p : A → bool) (f : A → A) (rows : list A) : list A :=
  (λ row, if p row then f row else row) <$> rows.

Section writes.
Context `{Env}.

Definition InsertItem (item : ComplianceCase) : dop () :=
  _ ← attempt (errorf "insert item");
  rows ← gets (λ w, db_items (w_db w));
  _ ← ensure (negb (bool_decide (ic_ID item ∈ ic_ID <$> rows)))
        (unique_violation "insert item" "items.id");
  _ ← ensure (negb (bool_decide (ic_ExternalRef item ∈ ic_ExternalRef <$> rows)))
        (unique_violation "insert item" "items.external_ref");
  modify (set_db (λ d, d <| db_items := db_items d ++ [item] |>)).

(** The columns the UPDATE statement sets; the others keep their value. *)
Definition item_update (item row : ComplianceCase) : ComplianceCase :=
  row <| ic_Title := ic_Title item |> <| ic_Description := ic_Description item |>
      <| ic_OperatorName := ic_OperatorName item |>
      <| ic_OperatorContact := ic_OperatorContact item |>
      <| ic_Materials := ic_Materials item |> <| ic_Category := ic_Category item |>
      <| ic_Keywords := ic_Keywords item |> <| ic_Status := ic_Status item |>
      <| ic_LeadDepartment := ic_LeadDepartment item |>
      <| ic_CoDepartments := ic_CoDepartments item |>
      <| ic_RuleVersion := ic_RuleVersion item |> <| ic_Deadline := ic_Deadline item |>
      <| ic_EscalationLevel := ic_EscalationLevel item |> <| ic_StoreID := ic_StoreID item |>
      <| ic_CompletedAt := ic_CompletedAt item |> <| ic_CancelledAt := ic_CancelledAt item |>
      <| ic_CancelReason := ic_CancelReason item |> <| ic_DataVersion := ic_DataVersion item |>
      <| ic_UpdatedAt := ic_UpdatedAt item |>.

Definition UpdateItem (item : ComplianceCase) : dop () :=
  _ ← attempt (errorf "update item");
  rows ← gets (λ w, db_items (w_db w));
  _ ← modify (set_db (λ d, d <| db_items :=
        update_where (λ row, bool_decide (ic_ID row = ic_ID item)) (item_update item)
          (db_items d) |>));
  ensure (bool_decide (ic_ID item ∈ ic_ID <$> rows)) (Sentinel ErrNotFound).

Definition InsertAssignment (a : Referral) : dop () :=
  _ ← attempt (errorf "insert referral");
  rows ← gets (λ w, db_assignments (w_db w));
  _ ← ensure (negb (bool_decide (rf_ID a ∈ rf_ID <$> rows)))
        (unique_violation "insert referral" "assignments.id");
  modify (set_db (λ d, d <| db_assignments := db_assignments d ++ [a] |>)).

Definition MarkAssignmentSuperseded (itemID : string) : dop () :=
  _ ← attempt (errorf "mark referral superseded");
  modify (set_db (λ d, d <| db_assignments :=
    update_where (λ row, bool_decide (rf_ItemID row = itemID) && rf_IsCurrent row)
      (λ row, row <| rf_IsCurrent := false |>) (db_assignments d) |>)).

Definition InsertEscalation (e : Escalation) : dop () :=
  _ ← attempt (errorf "insert escalation");
  rows ← gets (λ w, db_escalations (w_db w));
  _ ← ensure (negb (bool_decide (es_ID e ∈ es_ID <$> rows)))
        (unique_violation "insert escalation" "escalations.id");
  modify (set_db (λ d, d <| db_escalations := db_escalations d ++ [e] |>)).

Definition UpdateItemForEscalation (itemID newLead : string) (newLevel : Z)
    (newDeadline : Time) (newStatus : ItemStatus) : dop () :=
  wall ← clock_now;
  _ ← attempt (errorf "update item for escalation");
  rows ← gets (λ w, db_items (w_db w));
  _ ← modify (set_db (λ d, d <| db_items :=
        update_where (λ row, bool_decide (ic_ID row = itemID))
          (λ row, row <| ic_LeadDepartment := newLead |> <| ic_EscalationLevel := newLevel |>
                      <| ic_Deadline := newDeadline |> <| ic_Status := newStatus |>
                      <| ic_UpdatedAt := wall |>) (db_items d) |>));
  ensure (bool_decide (itemID ∈ ic_ID <$> rows)) (Sentinel ErrNotFound).

Definition InsertAudit (a : AuditEntry) : dop () :=
  _ ← attempt (errorf "insert audit");
  rows ← gets (λ w, db_audit (w_db w));
  _ ← ensure (negb (bool_decide (au_ID a ∈ au_ID <$> rows)))
        (unique_violation "insert audit" "audit_entries.id");
  modify (set_db (λ d, d <| db_audit := db_audit d ++ [a] |>)).

Definition InsertFailure (f : PermanentFailure) : dop () :=
  _ ← attempt (errorf "insert failure");
  rows ← gets (λ w, db_failures (w_db w));
  _ ← ensure (negb (bool_decide (pf_ID f ∈ pf_ID <$> rows)))
        (unique_violation "insert failure" "permanent_failures.id");
  modify (set_db (λ d, d <| db_failures := db_failures d ++ [f] |>)).

Definition failure_update (f row : PermanentFailure) : PermanentFailure :=
  row <| pf_LastError := pf_LastError f |> <| pf_Attempts := pf_Attempts f |>
      <| pf_LastFailedAt := pf_LastFailedAt f |> <| pf_Status := pf_Status f |>
      <| pf_NextRetryAt := pf_NextRetryAt f |> <| pf_BackoffState := pf_BackoffState f |>
      <| pf_ResolvedAt := pf_ResolvedAt f |>.

Definition UpdateFailure (f : PermanentFailure) : dop () :=
  _ ← attempt (errorf "update failure");
  rows ← gets (λ w, db_failures (w_db w));
  _ ← modify (set_db (λ d, d <| db_failures :=
        update_where (λ row, bool_decide (pf_ID row = pf_ID f)) (failure_update f)
          (db_failures d) |>));
  ensure (bool_decide (pf_ID f ∈ pf_ID <$> rows)) (Sentinel ErrNotFound).

Definition MarkFailureResolved (id : string) (at_ : Time) : dop () :=
  _ ← attempt (errorf "mark failure resolved");
  rows ← gets (λ w, db_failures (w_db w));
  _ ← modify (set_db (λ d, d <| db_failures :=
        update_where (λ row, bool_decide (pf_ID row = id))
          (λ row, row <| pf_Status := FailureStatusResolved |> <| pf_ResolvedAt := Some at_ |>)
          (db_failures d) |>));
  ensure (bool_decide (id ∈ pf_ID <$> rows)) (Sentinel ErrNotFound).

Definition InsertBatch (b : ImportBatch) : dop () :=
  _ ← attempt (errorf "insert batch");
  rows ← gets (λ w, db_batches (w_db w));
  _ ← ensure (negb (bool_decide (ib_ID b ∈ ib_ID <$> rows)))
        (unique_violation "insert batch" "import_batches.id");
  modify (set_db (λ d, d <| db_batches := db_batches d ++ [b] |>)).

Definition InsertRule (r : Rule) : dop () :=
  _ ← attempt (errorf "insert rule");
  rows ← gets (λ w, db_rules (w_db w));
  _ ← ensure (negb (bool_decide (ru_Version r ∈ ru_Version <$> rows)))
        (unique_violation "insert rule" "rules.version");
  modify (set_db (λ d, d <| db_rules := db_rules d ++ [r] |>)).

Definition SupersedeRule (version : Z) : dop () :=
  wall ← clock_now;
  _ ← attempt (errorf "supersede rule");
  modify (set_db (λ d, d <| db_rules :=
    update_where (λ row, bool_decide (ru_Version row = version))
      (λ row, row <| ru_Status := RuleStatusSuperseded |> <| ru_EffectiveTo := wall |>)
      (db_rules d) |>)).

(** [INSERT ... ON CONFLICT(shard_id) DO UPDATE SET ...]: a row of that shard
    keeps the columns the update does not set. *)
Definition manifest_update (entry row : ManifestEntry) : ManifestEntry := {|
  me_ShardID := me_ShardID row; me_EntityType := me_EntityType row;
  me_ShardPath := me_ShardPath row; me_Checksum := me_Checksum entry;
  me_RecordCount := me_RecordCount entry; me_MinKey := me_MinKey entry;
  me_MaxKey := me_MaxKey entry; me_DateKey := me_DateKey row; me_Status := me_Status entry;
  me_CreatedAt := me_CreatedAt row; me_UpdatedAt := me_UpdatedAt entry |}.
Definition UpsertManifest (entry : ManifestEntry) : dop () :=
  _ ← attempt (errorf "upsert manifest");
  modify (set_db (λ d, d <| db_manifest :=
    if bool_decide (me_ShardID entry ∈ me_ShardID <$> db_manifest d)
    then update_where (λ row, bool_decide (me_ShardID row = me_ShardID entry))
           (manifest_update entry) (db_manifest d)
    else db_manifest d ++ [entry] |>)).

(** Every table but [rules]. *)
Definition DeleteAllData : dop () :=
  _ ← attempt (errorf "delete from items");
  _ ← modify (set_db (λ d, d <| db_items := [] |>));
  _ ← attempt (errorf "delete from assignments");
  _ ← modify (set_db (λ d, d <| db_assignments := [] |>));
  _ ← attempt (errorf "delete from escalations");
  _ ← modify (set_db (λ d, d <| db_escalations := [] |>));
  _ ← attempt (errorf "delete from audit_entries");
  _ ← modify (set_db (λ d, d <| db_audit := [] |>));
  _ ← attempt (errorf "delete from permanent_failures");
  _ ← modify (set_db (λ d, d <| db_failures := [] |>));
  _ ← attempt (errorf "delete from import_batches");
  _ ← modify (set_db (λ d, d <| db_batches := [] |>));
  _ ← attempt (errorf "delete from shard_manifest");
  modify (set_db (λ d, d <| db_manifest := [] |>)).
End writes.

(** ** Queries (queries.go) *)

(** ORDER BY a time column. *)
Definition asc_by `{Zone} {A} (key : A → Time) (a b : A) : Prop := text_leb (key a) (key b) = true.
Definition desc_by `{Zone} {A} (key : A → Time) (a b : A) : Prop := text_leb (key b) (key a) = true.
#[export] Instance asc_by_dec `{Zone} {A} (key : A → Time) a b : Decision (asc_by key a b).
Proof. unfold asc_by. apply _. Defined.
#[export] Instance desc_by_dec `{Zone} {A} (key : A → Time) a b : Decision (desc_by key a b).
Proof. unfold desc_by. apply _. Defined.
(** ORDER BY version DESC, and ORDER BY priority DESC, version DESC. *)
Definition newest_first (a b : Rule) : Prop := (ru_Version b <=? ru_Version a) = true.
#[export] Instance newest_first_dec a b : Decision (newest_first a b).
Proof. unfold newest_first. apply _. Defined.
Definition by_priority (a b : Rule) : Prop :=
  ((ru_Priority b <? ru_Priority a)
   || (ru_Priority b =? ru_Priority a) && (ru_Version b <=? ru_Version a)) = true.
#[export] Instance by_priority_dec a b : Decision (by_priority a b).
Proof. unfold by_priority. apply _. Defined.

(** ORDER BY entity_type, date_key *)
Definition manifest_order (a b : ManifestEntry) : Prop :=
  (String.ltb (me_EntityType a) (me_EntityType b)
   || String.eqb (me_EntityType a) (me_EntityType b)
      && String.leb (me_DateKey a) (me_DateKey b)) = true.
#[export] Instance manifest_order_dec a b : Decision (manifest_order a b).
Proof. unfold manifest_order. apply _. Defined.

(** LIMIT and OFFSET *)
Definition page {A} (limit offset : Z) (l : list A) : list A :=
  take (Z.to_nat limit) (drop (Z.to_nat offset) l).

(** [registered_at >= from AND registered_at <= to], each if given; the bounds
    are compared as they are written, with their own offsets. *)
Definition in_period `{Zone} (from to : Stamp) (t : Time) : bool :=
  (IsZero (sp_time from) || stamp_leb from (local t)) && (IsZero (sp_time to) || stamp_leb (local t) to).

(** So a bound in UTC is off by the offset of the process's zone: a case that
    was registered at four is found from five on. *)
Example period_offsets : let midnight := 719162 * 24 * Hour in
  @in_period shenzhen {| sp_time := midnight + 5 * Hour; sp_minutes := 0 |} zero_stamp (midnight + 4 * Hour) = true.
Proof. vm_compute. reflexivity. Qed.

Definition item_where `{Zone} (filter : ItemFilter) (wall : Time) (row : ComplianceCase) : bool :=
  (bool_decide (if_Status filter = StatusOther "") || bool_decide (ic_Status row = if_Status filter))
  && (bool_decide (if_LeadDepartment filter = "")
      || bool_decide (ic_LeadDepartment row = if_LeadDepartment filter))
  && (bool_decide (if_StoreID filter = "") || bool_decide (ic_StoreID row = if_StoreID filter))
  && (bool_decide (if_RegisteredBy filter = "")
      || bool_decide (ic_RegisteredBy row = if_RegisteredBy filter))
  && in_period (if_From filter) (if_To filter) (ic_RegisteredAt row)
  && (negb (if_OverdueOnly filter)
      || negb (IsTerminal (ic_Status row)) && text_ltb (ic_Deadline row) wall).

Definition item_page_size (filter : ItemFilter) : Z :=
  let pageSize := if if_PageSize filter <=? 0 then 20 else if_PageSize filter in
  if 200 <? pageSize then 200 else pageSize.
Definition page_offset (offset : Z) : Z := if offset <? 0 then 0 else offset.
(** The page size of the audit and batch listings, which have no upper
    bound. *)
Definition open_page_size (size : Z) : Z := if size <=? 0 then 50 else size.

Definition overdue_where `{Zone} (now : Time) (maxLevel : Z) (row : ComplianceCase) : bool :=
  negb (IsTerminal (ic_Status row)) && text_ltb (ic_Deadline row) now
  && (ic_EscalationLevel row <? maxLevel).

Definition active_rule_where `{Zone} (at_ : Time) (row : Rule) : bool :=
  bool_decide (ru_Status row = RuleStatusActive) && text_leb (ru_EffectiveFrom row) at_
  && (IsZero (ru_EffectiveTo row) || text_ltb at_ (ru_EffectiveTo row)).

Definition audit_where `{Zone} (filter : AuditFilter) (row : AuditEntry) : bool :=
  (bool_decide (af_EntityID filter = "") || bool_decide (au_EntityID row = af_EntityID filter))
  && (bool_decide (af_EntityType filter = "")
      || bool_decide (au_EntityType row = af_EntityType filter))
  && (bool_decide (af_Actor filter = "") || bool_decide (au_Actor row = af_Actor filter))
  && in_period (af_From filter) (af_To filter) (au_Timestamp row).

Definition batch_where `{Zone} (filter : BatchFilter) (row : ImportBatch) : bool :=
  (bool_decide (bf_StoreID filter = "") || bool_decide (ib_StoreID row = bf_StoreID filter))
  && in_period (bf_From filter) (bf_To filter) (ib_BatchDate row).

Section queries.
Context `{Env}.

(** A query of its own: the rows of a table that satisfy a condition, in the
    order the database visits them. *)
Definition select {A} (wrap : derror → derror) (table : DB → list A) (where_ : A → bool) :
    dop (list A) :=
  _ ← interleave;
  _ ← attempt wrap;
  rows ← gets (λ w, List.filter where_ (table (w_db w)));
  scan_rows rows.

(** [QueryRow(...)] and the scan of its first row; [sql.ErrNoRows] becomes
    [ErrNotFound]. *)
Definition query_row {A} (table : DB → list A) (where_ : A → bool)
    (scan : A → result derror A) : dop A :=
  rows ← select (λ e, e) table where_;
  match rows with
  | [] => raise (Sentinel ErrNotFound)
  | row :: _ => lift (scan row)
  end.

Definition GetItemByID (id : string) : dop ComplianceCase :=
  query_row db_items (λ row, bool_decide (ic_ID row = id)) scanItem.
Definition GetItemByExternalRef (ref : string) : dop ComplianceCase :=
  query_row db_items (λ row, bool_decide (ic_ExternalRef row = ref)) scanItem.

Definition ListItems (filter : ItemFilter) : dop (list ComplianceCase * Z) :=
  wall ← (if if_OverdueOnly filter then clock_now else mret zero_time);
  counted ← select (errorf "count items") db_items (item_where filter wall);
  let total := Z.of_nat (length counted) in
  rows ← select (errorf "query items") db_items (item_where filter wall);
  items ← lift (scan_all scanItem
    (page (item_page_size filter) (page_offset (if_PageOffset filter))
       (merge_sort (desc_by ic_RegisteredAt) rows)));
  mret (items, total).

Definition FindOverdueItems (now : Time) (maxLevel : Z) : dop (list ComplianceCase) :=
  rows ← select (λ e, e) db_items (overdue_where now maxLevel);
  lift (scan_all scanItem (merge_sort (asc_by ic_Deadline) rows)).

(** SELECT status, COUNT( * ) ... GROUP BY status *)
Definition CountByStatus : dop (gmap string Z) :=
  rows ← select (λ e, e) db_items (λ _, true);
  mret (foldr (λ row counts,
    let key := status_text (ic_Status row) in
    <[key := default 0 (counts !! key) + 1]> counts) ∅ rows).

(** This query alone hands [sql.ErrNoRows] to its caller. *)
Definition GetRuleByVersion (version : Z) : dop Rule :=
  rows ← select (λ e, e) db_rules (λ row, bool_decide (ru_Version row = version));
  match rows with
  | [] => raise (Sentinel ErrNoRows)
  | row :: _ => lift (scanRule row)
  end.

Definition GetActiveRules (at_ : Time) : dop (list Rule) :=
  rows ← select (λ e, e) db_rules (active_rule_where at_);
  lift (scan_all scanRule (merge_sort by_priority rows)).

(** SELECT COALESCE(MAX(version), 0) FROM rules *)
Definition GetCurrentRuleVersion : dop Z :=
  rows ← select (λ e, e) db_rules (λ _, true);
  mret match ru_Version <$> rows with
       | [] => 0
       | v :: vs => foldr Z.max v vs
       end.

Definition ListRules : dop (list Rule) :=
  rows ← select (λ e, e) db_rules (λ _, true);
  lift (scan_all scanRule (merge_sort newest_first rows)).

Definition GetAssignmentsByItemID (itemID : string) : dop (list Referral) :=
  rows ← select (λ e, e) db_assignments (λ row, bool_decide (rf_ItemID row = itemID));
  lift (scan_all scanAssignment (merge_sort (asc_by rf_AdjudicatedAt) rows)).
Definition GetCurrentAssignment (itemID : string) : dop Referral :=
  query_row db_assignments
    (λ row, bool_decide (rf_ItemID row = itemID) && rf_IsCurrent row) scanAssignment.

Definition GetEscalationsByItemID (itemID : string) : dop (list Escalation) :=
  rows ← select (λ e, e) db_escalations (λ row, bool_decide (es_ItemID row = itemID));
  lift (scan_all scanEscalation (merge_sort (asc_by es_EscalatedAt) rows)).

Definition ListAudit (filter : AuditFilter) : dop (list AuditEntry * Z) :=
  counted ← select (λ e, e) db_audit (audit_where filter);
  let total := Z.of_nat (length counted) in
  rows ← select (λ e, e) db_audit (audit_where filter);
  list ← lift (scan_all scanAudit
    (page (open_page_size (af_PageSize filter)) (page_offset (af_PageOffset filter))
       (merge_sort (desc_by au_Timestamp) rows)));
  mret (list, total).

Definition ListFailures : dop (list PermanentFailure) :=
  rows ← select (λ e, e) db_failures (λ row, bool_decide (pf_Status row = FailureStatusActive));
  lift (scan_all scanFailure (merge_sort (asc_by pf_LastFailedAt) rows)).
Definition GetFailureByID (id : string) : dop PermanentFailure :=
  query_row db_failures (λ row, bool_decide (pf_ID row = id)) scanFailure.

Definition ListBatches (filter : BatchFilter) : dop (list ImportBatch * Z) :=
  counted ← select (λ e, e) db_batches (batch_where filter);
  let total := Z.of_nat (length counted) in
  rows ← select (λ e, e) db_batches (batch_where filter);
  list ← lift (scan_all scanBatch
    (page (open_page_size (bf_PageSize filter)) (page_offset (bf_PageOffset filter))
       (merge_sort (desc_by ib_BatchDate) rows)));
  mret (list, total).

Definition ListManifest : dop (list ManifestEntry) :=
  rows ← select (λ e, e) db_manifest (λ _, true);
  mret (merge_sort manifest_order rows).
Definition SchemaVersion : dop Z :=
  _ ← interleave;
  _ ← attempt (λ e, e);
  versions ← gets (λ w, db_schema (w_db w));
  mret match versions with [] => 0 | v :: vs => foldr Z.max v vs end.
End queries.
