(* ===== verification/Repo.v ===== *)
(** * The store: index transactions over append-only shards

    [internal/repo/store.go] behind the interface of
    [internal/store/interfaces.go]. A write appends the record's JSON to a
    shard file first and then changes the index inside the transaction. A
    method that sets fields of its argument returns the changed record. *)
From S2P Require Import Prelude GoErrors GoNumbers GoTime Domain Records World Shard Index.

Section repo.
Context `{Env} (writer : Writer).

(** ** Transactions *)

(** The body of a transaction: the index is committed when [fn] succeeds and
    rolled back when it or the commit fails; what [fn] appended to shard files
    stays there. *)
Definition in_tx {A} (fn : dop A) : dop A := λ w,
  let rollback (w' : World) := w' <| w_db := w_db w |> in
  match fn w with
  | (w', Err e) => (rollback w', Err e)
  | (w', Ok a) =>
      match attempt (errorf "commit tx") w' with
      | (w'', Err e) => (rollback w'', Err e)
      | (w'', Ok _) => (w'', Ok a)
      end
  end.
Definition WithTx {A} (fn : dop A) : dop A :=
  _ ← interleave;
  _ ← attempt (λ e, errorf "begin index tx" (errorf "begin tx" e));
  in_tx fn.

(** ** Writes of a transaction *)

(** [data, err := json.Marshal(r); if err != nil { return fmt.Errorf("<what>: %w", err) }] *)
Definition marshal {R} `{JsonRecord R} (what : string) (r : R) : dop bytes :=
  nil ← ask env_nil;
  match Marshal nil r with
  | Ok data => mret data
  | Err text => raise (errorf what (External text))
  end.
Lemma keeps_marshal {R} `{JsonRecord R} what (r : R) : keeps_db (marshal what r).
Proof. apply keeps_bind; [auto with world_db|]. intros nil. by destruct (Marshal nil r). Qed.

Definition SaveItem (item : ComplianceCase) : dop ComplianceCase :=
  data ← marshal "marshal item" item;
  loc ← wrapping (errorf "write item shard")
          (Append writer "items" (ic_RegisteredAt item) data);
  let item := item <| ic_ShardPath := loc_Path loc |> <| ic_ShardOffset := loc_Offset loc |> in
  _ ← InsertItem item;
  mret item.

Definition Tx_UpdateItem (item : ComplianceCase) : dop ComplianceCase :=
  data ← marshal "marshal item" item;
  now ← clock_now;
  loc ← wrapping (errorf "write item update shard") (Append writer "items" now data);
  let item := item <| ic_ShardPath := loc_Path loc |> <| ic_ShardOffset := loc_Offset loc |> in
  _ ← UpdateItem item;
  mret item.

Definition SaveAssignment (a : Referral) : dop () :=
  data ← marshal "marshal referral" a;
  loc ← wrapping (errorf "write referral shard")
          (Append writer "assignments" (rf_AdjudicatedAt a) data);
  InsertAssignment (a <| rf_ShardPath := loc_Path loc |>).

Definition Tx_MarkAssignmentSuperseded (itemID : string) : dop () :=
  MarkAssignmentSuperseded itemID.

Definition SaveEscalation (e : Escalation) : dop Escalation :=
  data ← marshal "marshal escalation" e;
  loc ← wrapping (errorf "write escalation shard")
          (Append writer "escalations" (es_EscalatedAt e) data);
  let e := e <| es_ShardPath := loc_Path loc |> in
  _ ← InsertEscalation e;
  mret e.

Definition SaveAudit (a : AuditEntry) : dop () :=
  data ← marshal "marshal audit" a;
  loc ← wrapping (errorf "write audit shard")
          (Append writer "audit" (au_Timestamp a) data);
  InsertAudit (a <| au_ShardPath := loc_Path loc |>).

Definition SaveFailure (f : PermanentFailure) : dop () :=
  data ← marshal "marshal failure" f;
  _ ← wrapping (errorf "write failure shard")
        (Append writer "failures" (pf_FirstFailedAt f) data);
  InsertFailure f.

Definition Tx_UpdateFailure (f : PermanentFailure) : dop () :=
  data ← marshal "marshal failure" f;
  now ← clock_now;
  _ ← wrapping (errorf "write failure update shard") (Append writer "failures" now data);
  UpdateFailure f.

Definition SaveBatch (b : ImportBatch) : dop () :=
  data ← marshal "marshal batch" b;
  loc ← wrapping (errorf "write batch shard")
          (Append writer "batches" (ib_ImportedAt b) data);
  InsertBatch (b <| ib_ShardPath := loc_Path loc |>).

Definition SaveRule (r : Rule) : dop Rule :=
  data ← marshal "marshal rule" r;
  loc ← wrapping (errorf "write rule shard")
          (Append writer "rules" (ru_CreatedAt r) data);
  let r := r <| ru_ShardPath := loc_Path loc |> in
  _ ← InsertRule r;
  mret r.

Definition Tx_SupersedeRule (version : Z) : dop () := SupersedeRule version.

(** ** Reads *)

(** [db.PingContext] *)
Definition Ping : dop () := attempt (λ e, e).
Definition GetItem (id : string) : dop ComplianceCase := GetItemByID id.
Definition GetRule (version : Z) : dop Rule := GetRuleByVersion version.
Definition GetAssignments (itemID : string) : dop (list Referral) := GetAssignmentsByItemID itemID.
Definition GetEscalations (itemID : string) : dop (list Escalation) := GetEscalationsByItemID itemID.
Definition GetFailure (id : string) : dop PermanentFailure := GetFailureByID id.
End repo.

#[export] Hint Resolve keeps_marshal : world_db.
