(* ===== verification/Rebuild.v ===== *)
(** * Rebuilding, reconciling and diagnosing the index

    [internal/repo/rebuild.go]. [RebuildIndex] reads every shard, keeps the
    last record of each key, and replaces the tables in one transaction. The
    report is returned also when it fails, so the operations here run on the
    state of the process and the report together. *)
From Stdlib Require Import Ascii.
From S2P Require Import Prelude GoErrors GoStrings GoNumbers GoTime Json Rfc3339 Domain Records.
From S2P Require Import World Shard Reader Index.

(** ** Reports (internal/store/interfaces.go) *)

Record CorruptedShard : Type := { cs_Path : string; cs_Reason : string }.
Record RebuildReport : Type := {
  rr_TotalShards : Z;
  rr_IndexedShards : Z;
  rr_SkippedShards : Z;
  rr_CorruptedShards : list CorruptedShard;
  rr_TotalRecords : Z
}.
#[export] Instance RebuildReport_eta : Eta RebuildReport := λ r, {|
  rr_TotalShards := rr_TotalShards r; rr_IndexedShards := rr_IndexedShards r;
  rr_SkippedShards := rr_SkippedShards r; rr_CorruptedShards := rr_CorruptedShards r;
  rr_TotalRecords := rr_TotalRecords r |}.
Definition empty_rebuild : RebuildReport := {|
  rr_TotalShards := 0; rr_IndexedShards := 0; rr_SkippedShards := 0;
  rr_CorruptedShards := []; rr_TotalRecords := 0 |}.
Record ReconcileReport : Type := {
  rc_ShardCount : Z;
  rc_IndexCount : Z;
  rc_OrphanedInShard : Z;
  rc_MissingInShard : Z;
  rc_ChecksumMismatches : Z;
  rc_Details : list string
}.
#[export] Instance ReconcileReport_eta : Eta ReconcileReport := λ r, {|
  rc_ShardCount := rc_ShardCount r; rc_IndexCount := rc_IndexCount r;
  rc_OrphanedInShard := rc_OrphanedInShard r; rc_MissingInShard := rc_MissingInShard r;
  rc_ChecksumMismatches := rc_ChecksumMismatches r; rc_Details := rc_Details r |}.
Definition empty_reconcile : ReconcileReport := {|
  rc_ShardCount := 0; rc_IndexCount := 0; rc_OrphanedInShard := 0; rc_MissingInShard := 0;
  rc_ChecksumMismatches := 0; rc_Details := [] |}.
Record ShardManifestEntry : Type := {
  sm_ShardID : string; sm_EntityType : string; sm_ShardPath : string;
  sm_RecordCount : Z; sm_Status : string; sm_Checksum : string
}.
Record DiagnoseReport : Type := {
  dr_DataDirWritable : bool;
  dr_ShardManifest : list ShardManifestEntry;
  dr_ItemCount : Z;
  dr_RuleCount : Z;
  dr_OverdueCount : Z;
  dr_CorruptedShards : Z;
  dr_SchemaVersion : Z;
  dr_Ready : bool;
  dr_Issues : list string
}.

(** An operation on the process that also fills in a report [R]. *)
Abbreviation rop R := (op (World * R) derror).
Definition on_world {R A} (m : dop A) : rop R A := λ '(w, rp),
  let '(w, r) := m w in ((w, rp), r).
Definition report {R} (f : R → R) : rop R () := λ '(w, rp), ((w, f rp), Ok ()).
(** ** The collector *)

Record recordCollector : Type := {
  itemsByID : gmap string ComplianceCase;
  rulesByVersion : gmap Z Rule;
  assignmentsByID : gmap string Referral;
  escalationsByID : gmap string Escalation;
  auditByID : gmap string AuditEntry;
  failuresByID : gmap string PermanentFailure;
  batchesByID : gmap string ImportBatch
}.
#[export] Instance recordCollector_eta : Eta recordCollector := λ c, {|
  itemsByID := itemsByID c; rulesByVersion := rulesByVersion c;
  assignmentsByID := assignmentsByID c; escalationsByID := escalationsByID c;
  auditByID := auditByID c; failuresByID := failuresByID c; batchesByID := batchesByID c |}.
Definition newCollector : recordCollector := {|
  itemsByID := ∅; rulesByVersion := ∅; assignmentsByID := ∅; escalationsByID := ∅;
  auditByID := ∅; failuresByID := ∅; batchesByID := ∅ |}.

(** The collector after the call; [None] is an error. *)
Definition add (c : recordCollector) (entityType : string) (data : bytes) : option recordCollector :=
  if bool_decide (entityType = "items") then
    item ← Unmarshal data;
    mret (c <| itemsByID := <[ic_ID item := item]> (itemsByID c) |>)
  else if bool_decide (entityType = "rules") then
    rule ← Unmarshal data;
    mret (c <| rulesByVersion := <[ru_Version rule := rule]> (rulesByVersion c) |>)
  else if bool_decide (entityType = "assignments") then
    a ← Unmarshal data;
    mret (c <| assignmentsByID := <[rf_ID a := a]> (assignmentsByID c) |>)
  else if bool_decide (entityType = "escalations") then
    e ← Unmarshal data;
    mret (c <| escalationsByID := <[es_ID e := e]> (escalationsByID c) |>)
  else if bool_decide (entityType = "audit") then
    a ← Unmarshal data;
    mret (c <| auditByID := <[au_ID a := a]> (auditByID c) |>)
  else if bool_decide (entityType = "failures") then
    f ← Unmarshal data;
    mret (c <| failuresByID := <[pf_ID f := f]> (failuresByID c) |>)
  else if bool_decide (entityType = "batches") then
    b ← Unmarshal data;
    mret (c <| batchesByID := <[ib_ID b := b]> (batchesByID c) |>)
  else None.
(** [_ = collector.add(sf.EntityType, rec)]: an error is dropped. *)
Definition add_all (c : recordCollector) (entityType : string) (records : list bytes) :
    recordCollector :=
  foldl (λ c rec, default c (add c entityType rec)) c records.

(** ** Post-processing *)

(** [CAST(s AS INTEGER)] of SQLite: the longest prefix that is a decimal
    number, after white space; the value is clamped to 64 bits. *)
Fixpoint skip_sql_space (s : bytes) : bytes :=
  match s with
  | c :: r => if asciiSpace c then skip_sql_space r else s
  | [] => []
  end.
Definition cast_digits (s : bytes) : Z := default 0 (digits_val 0 (span_digits s).1).
Definition cast_integer (s : string) : Z :=
  let z :=
    match skip_sql_space (to_bytes s) with
    | c :: r =>
        if is_byte 45 c then - cast_digits r
        else if is_byte 43 c then cast_digits r
        else cast_digits (c :: r)
    | [] => 0
    end in
  Z.max min_i64 (Z.min max_i64 z).

Definition superseded_version (d : DB) (version : Z) : bool :=
  existsb (λ a, bool_decide (cast_integer (au_EntityID a) = version)
                && bool_decide (au_Action a = "supersede_rule")
                && bool_decide (au_EntityType a = "rule")) (db_audit d).

(** [filepath.Base] of a path without trailing separators *)
Fixpoint base_bytes (s acc : bytes) : bytes :=
  match s with
  | [] => acc
  | c :: s => if is_byte 47 c then base_bytes s [] else base_bytes s (acc ++ [c])
  end.
Definition Base (path : string) : string := of_bytes (base_bytes (to_bytes path) []).
Definition TrimSuffix (s suffix : string) : string :=
  if HasSuffix s suffix
  then of_bytes (take (String.length s - String.length suffix) (to_bytes s)) else s.
Definition extractDateKey (path : string) : string := TrimSuffix (Base path) ".jsonl".

Section rebuild.
Context `{Env} (root : string).

(** [s.scanner.ScanAll(ctx)]: the outcome of the polls of a walk is one
    answer. *)
Fixpoint scan_shards (types : list string) : dop (list (string * string)) :=
  match types with
  | [] => mret []
  | t :: types =>
      c ← ask env_ctx;
      fs ← gets w_fs;
      files ← lift (ScanEntityType [c] root fs t);
      rest ← scan_shards types;
      mret (((λ path, (path, t)) <$> files) ++ rest)
  end.
Definition by_path (a b : string * string) : Prop := path_le a.1 b.1.
#[export] Instance by_path_dec a b : Decision (by_path a b).
Proof. unfold by_path. apply _. Defined.

(** ** The rebuild *)

Fixpoint read_shards (files : list (string * string)) (c : recordCollector) :
    rop RebuildReport recordCollector :=
  match files with
  | [] => mret c
  | (path, entityType) :: files =>
      c ← on_result (on_world (ReadAll path)) (λ r,
        match r with
        | Err readErr =>
            _ ← report (λ rp, rp
              <| rr_CorruptedShards := rr_CorruptedShards rp ++
                   [{| cs_Path := path; cs_Reason := error_text domain_error_text readErr |}] |>
              <| rr_SkippedShards := rr_SkippedShards rp + 1 |>);
            mret c
        | Ok records =>
            _ ← report (λ rp, rp <| rr_IndexedShards := rr_IndexedShards rp + 1 |>);
            mret (add_all c entityType records)
        end);
      read_shards files c
  end.

(** The rows of a collector's map, in the order Go iterates it. *)
Definition range_values {K A} `{Countable K} (m : gmap K A) : dop (list A) :=
  scan_rows (map_to_list m).*2.
Definition insert_all {K A} `{Countable K} (m : gmap K A) (what : A → string)
    (insert : A → dop ()) : rop RebuildReport () :=
  rows ← on_world (range_values m);
  for_each rows (λ row,
    _ ← on_world (wrapping (errorf (what row)) (insert row));
    report (λ rp, rp <| rr_TotalRecords := rr_TotalRecords rp + 1 |>)).

Definition postProcessRebuild : dop () :=
  _ ← attempt (errorf "mark superseded assignments");
  _ ← modify (set_db (λ d, d <| db_assignments :=
        update_where (λ row, bool_decide (rf_ItemID row ∈ es_ItemID <$> db_escalations d))
          (λ row, row <| rf_IsCurrent := false |>) (db_assignments d) |>));
  _ ← attempt (errorf "mark superseded rules");
  modify (set_db (λ d, d <| db_rules :=
    update_where (λ row, superseded_version d (ru_Version row))
      (λ row, row <| ru_Status := RuleStatusSuperseded |>) (db_rules d) |>)).

(** The entry [rebuildManifests] writes for a file. *)
Definition manifest_entry (now : Time) (path entityType : string)
    (records : result derror (list bytes)) (checksum : result derror string) : ManifestEntry := {|
  me_ShardID := entityType +:+ ":" +:+ Base path;
  me_EntityType := entityType;
  me_ShardPath := path;
  me_Checksum := match checksum with Ok c => c | Err _ => "" end;
  me_RecordCount := match records with Ok l => Z.of_nat (length l) | Err _ => 0 end;
  me_MinKey := ""; me_MaxKey := "";
  me_DateKey := extractDateKey path;
  me_Status := match records with Ok _ => "ok" | Err _ => "corrupted" end;
  me_CreatedAt := time_text now; me_UpdatedAt := time_text now |}.
Definition rebuildManifests (files : list (string * string)) : dop () :=
  now ← clock_now;
  for_each files (λ '(path, entityType),
    on_result (ReadAll path) (λ records,
      on_result (match records with
                 | Ok _ => Checksum path
                 | Err _ => mret "" end) (λ checksum,
        UpsertManifest (manifest_entry now path entityType records checksum)))).

Definition rollback_on_error {R A} (m : rop R A) : rop R A := λ '(w, rp),
  match m (w, rp) with
  | ((w', rp'), Err e) => ((w' <| w_db := w_db w |>, rp'), Err e)
  | done => done
  end.
(** The transaction of the rebuild, after the shards were read. *)
Definition replace_tables (c : recordCollector) (files : list (string * string)) :
    rop RebuildReport () :=
  _ ← on_world (wrapping (errorf "delete all data") DeleteAllData);
  _ ← insert_all (itemsByID c) (λ item, "insert item " +:+ ic_ID item) InsertItem;
  _ ← insert_all (rulesByVersion c) (λ rule, "insert rule v" +:+ pretty (ru_Version rule)) InsertRule;
  _ ← insert_all (assignmentsByID c) (λ a, "insert referral " +:+ rf_ID a) InsertAssignment;
  _ ← insert_all (escalationsByID c) (λ e, "insert escalation " +:+ es_ID e) InsertEscalation;
  _ ← insert_all (auditByID c) (λ a, "insert audit " +:+ au_ID a) InsertAudit;
  _ ← insert_all (failuresByID c) (λ f, "insert failure " +:+ pf_ID f) InsertFailure;
  _ ← insert_all (batchesByID c) (λ b, "insert batch " +:+ ib_ID b) InsertBatch;
  _ ← on_world (wrapping (errorf "post-process") postProcessRebuild);
  _ ← on_world (wrapping (errorf "rebuild manifests") (rebuildManifests files));
  on_world (attempt (errorf "commit rebuild")).

Definition RebuildIndex : rop RebuildReport () :=
  files ← on_world (wrapping (errorf "scan shards") (scan_shards shard_types));
  let files := merge_sort by_path files in
  _ ← report (λ rp, rp <| rr_TotalShards := Z.of_nat (length files) |>);
  c ← read_shards files newCollector;
  _ ← on_world interleave;
  _ ← on_world (attempt (λ e, errorf "begin tx" (errorf "begin tx" e)));
  rollback_on_error (replace_tables c files).

(** ** Reconciliation *)

(** What [Reconcile] finds about one shard. *)
Definition reconcile_shard (manifestByPath : gmap string ManifestEntry)
    (path : string) : rop ReconcileReport () :=
  on_result (on_world (ReadAll path)) (λ r,
    match r with
    | Err readErr =>
        report (λ rp, rp <| rc_Details := rc_Details rp ++
          ["corrupted shard " +:+ path +:+ ": " +:+ error_text domain_error_text readErr] |>)
    | Ok records =>
        let shardCount := Z.of_nat (length records) in
        match manifestByPath !! path with
        | None =>
            report (λ rp, rp
              <| rc_OrphanedInShard := rc_OrphanedInShard rp + shardCount |>
              <| rc_Details := rc_Details rp ++ ["shard " +:+ path +:+
                   " not in manifest (records: " +:+ pretty shardCount +:+ ")"] |>)
        | Some m =>
            let diff := shardCount - me_RecordCount m in
            _ ← (if diff =? 0 then mret () else
                   report (λ rp, rp
                     <| rc_OrphanedInShard := rc_OrphanedInShard rp + Z.max 0 diff |>
                     <| rc_MissingInShard := rc_MissingInShard rp + Z.max 0 (- diff) |>
                     <| rc_Details := rc_Details rp ++ ["count mismatch " +:+ path +:+
                          ": shard=" +:+ pretty shardCount +:+ " manifest=" +:+
                          pretty (me_RecordCount m)] |>));
            _ ← on_result (on_world (Checksum path)) (λ checksum,
                  let checksum := match checksum with Ok c => c | Err _ => "" end in
                  if bool_decide (me_Checksum m = "") || bool_decide (me_Checksum m = checksum)
                  then mret ()
                  else report (λ rp, rp
                         <| rc_ChecksumMismatches := rc_ChecksumMismatches rp + 1 |>
                         <| rc_Details := rc_Details rp ++ ["checksum mismatch " +:+ path] |>));
            report (λ rp, rp <| rc_IndexCount := rc_IndexCount rp + me_RecordCount m |>)
        end
    end).
Definition Reconcile : rop ReconcileReport () :=
  files ← on_world (scan_shards shard_types);
  _ ← report (λ rp, rp <| rc_ShardCount := Z.of_nat (length files) |>);
  manifests ← on_world ListManifest;
  let manifestByPath : gmap string ManifestEntry :=
    foldl (λ acc m, <[me_ShardPath m := m]> acc) ∅ manifests in
  for_each files (λ sf, reconcile_shard manifestByPath sf.1).

(** ** Diagnosis *)

(** A query whose error becomes an issue and whose value is then the zero
    value. *)
Definition diagnosed {A} (what : string) (zero : A) (m : dop A) : rop (list string) A :=
  on_result (on_world m) (λ r,
    match r with
    | Ok a => mret a
    | Err e =>
        _ ← report (λ issues, issues ++ [what +:+ ": " +:+ error_text domain_error_text e]);
        mret zero
    end).
Definition Diagnose : rop (list string) DiagnoseReport :=
  writable ← on_result (on_world (attempt (λ e, e))) (λ r,
    match r with
    | Ok _ => mret true
    | Err _ => _ ← report (λ issues, issues ++ ["data directory not writable"]); mret false
    end);
  manifests ← diagnosed "failed to list manifest" [] ListManifest;
  statusCounts ← diagnosed "failed to count by status" ∅ CountByStatus;
  rules ← diagnosed "failed to list rules" [] ListRules;
  now ← on_world clock_now;
  overdue ← diagnosed "failed to find overdue" [] (FindOverdueItems now 999);
  sv ← diagnosed "failed to get schema version" 0 SchemaVersion;
  issues ← gets snd;
  let corrupted :=
    Z.of_nat (length (List.filter (λ m, bool_decide (me_Status m = "corrupted")) manifests)) in
  mret {|
    dr_DataDirWritable := writable;
    dr_ShardManifest := (λ m, {| sm_ShardID := me_ShardID m; sm_EntityType := me_EntityType m;
      sm_ShardPath := me_ShardPath m; sm_RecordCount := me_RecordCount m;
      sm_Status := me_Status m; sm_Checksum := me_Checksum m |}) <$> manifests;
    dr_ItemCount := map_sum (λ n, n) statusCounts;
    dr_RuleCount := Z.of_nat (length rules);
    dr_OverdueCount := Z.of_nat (length overdue);
    dr_CorruptedShards := corrupted;
    dr_SchemaVersion := sv;
    dr_Ready := writable && (corrupted =? 0) && bool_decide (issues = []);
    dr_Issues := issues |}.
End rebuild.

Example extractDateKey_ex : extractDateKey "/data/shards/items/2023-11/2023-11-14.jsonl" = "2023-11-14".
Proof. vm_compute. reflexivity. Qed.
Example cast_integer_ex : cast_integer " 12abc" = 12 ∧ cast_integer "x" = 0 ∧ cast_integer "-7" = -7.
Proof. vm_compute. done. Qed.
