(* ===== verification/Migrate.v ===== *)
(** * Opening the store and migrating its database

    [internal/index] schema.go ([Open], [migrate]), [migrations] and [New] of
    [internal/repo] store.go. The scripts are SQL: what SQLite makes of one is
    a parameter ([run_migration]). Of a row of [schema_version] only the
    version is kept; its description and its time are never read. *)
From Stdlib Require Import Ascii.
From S2P Require Import Prelude GoErrors GoStrings GoNumbers Json Domain World Shard Index Rebuild.

(** ** The version in the name of a file *)

(** [fmt.Sscanf(s, "%d", &v)]: leading space but no newline, a sign, digits;
    what follows is not looked at. An error is its text. *)
Definition Sscanf_d (s : bytes) : result string Z :=
  let r := trim_left s in
  if existsb (is_byte 10) (take (length s - length r) s) then Err "unexpected newline"
  else
    let '(sign, r) := match r with
                      | c :: r' => if is_byte 45 c || is_byte 43 c then ([c], r') else ([], r)
                      | [] => ([], [])
                      end in
    if bool_decide (r = []) then Err "unexpected EOF"
    else
      let digits := fst (span_digits r) in
      if bool_decide (digits = []) then Err "expected integer"
      else match ParseInt (of_bytes (sign ++ digits)) with
           | Some v => Ok v
           | None => Err ("strconv.ParseInt: parsing " +:+
               of_bytes ([byte 34] ++ sign ++ digits ++ [byte 34]) +:+ ": value out of range")
           end.

(** What precedes the first underscore: [strings.SplitN(name, "_", 2)]. *)
Fixpoint before_underscore (s : bytes) : option bytes :=
  match s with
  | [] => None
  | c :: s => if is_byte 95 c then Some [] else cons c <$> before_underscore s
  end.
Definition migrationVersion (name : string) : result derror Z :=
  match before_underscore (to_bytes name) with
  | None => Err (External ("invalid migration filename: " +:+ name))
  | Some part =>
      match Sscanf_d part with
      | Ok v => Ok v
      | Err text => Err (errorf ("parse version from " +:+ name) (External text))
      end
  end.

(** ** The scripts *)

(** [migrations.FS]: the names of the files [*.sql], and what running one does
    to the tables. *)
Class Migrations : Type := {
  migration_files : list string;
  run_migration : string → DB → result string DB
}.
(** No script touches the rows of [schema_version]. *)
Class MigrationLaws `(Migrations) : Prop :=
  script_keeps_versions name d d' : run_migration name d = Ok d' → db_schema d' = db_schema d.

(** [names] of [migrate], in the order in which they are applied *)
Definition migration_names `{Migrations} : list string :=
  merge_sort path_le (List.filter (λ name, HasSuffix name ".sql") migration_files).
(** The files of the repository. *)
Definition repository_files : list string := ["0001_init.sql"; "0002_add_retry_count.sql"].

(** A database that has just been created. *)
Definition new_db : DB := empty_db <| db_schema := [] |>.

Section migrate.
Context `{Env} `{Migrations}.

Definition appliedMigrations : dop (list Z) :=
  _ ← attempt (λ e, e);
  gets (λ w, db_schema (w_db w)).

(** [tx ... defer tx.Rollback() ... return tx.Commit()] *)
Definition transaction (fn : dop ()) : dop () := λ w,
  match (_ ← fn; attempt (λ e, e)) w with
  | (w', Err e) => (w' <| w_db := w_db w |>, Err e)
  | done => done
  end.

Definition applyMigration (version : Z) (name : string) : dop () :=
  _ ← attempt (λ e, e);
  transaction (
    _ ← attempt (errorf "exec migration sql");
    d ← gets w_db;
    d ← lift (match run_migration name d with
              | Ok d => Ok d
              | Err text => Err (errorf "exec migration sql" (External text))
              end);
    _ ← modify (set_db (λ _, d));
    _ ← attempt (λ e, e);
    versions ← gets (λ w, db_schema (w_db w));
    _ ← ensure (negb (bool_decide (version ∈ versions)))
          (External "constraint failed: UNIQUE constraint failed: schema_version.version");
    modify (set_db (λ d, d <| db_schema := db_schema d ++ [version] |>))).

Definition migrate : dop () :=
  _ ← attempt (errorf "create schema_version");
  applied ← appliedMigrations;
  for_each migration_names (λ name,
    version ← lift (migrationVersion name);
    if bool_decide (version ∈ applied) then mret ()
    else wrapping (errorf ("apply migration " +:+ name)) (applyMigration version name)).

Definition pragmas : list string :=
  ["PRAGMA journal_mode=WAL"; "PRAGMA busy_timeout=5000"; "PRAGMA foreign_keys=ON"].
Definition quoted_text (s : string) : string := of_bytes ([byte 34] ++ to_bytes s ++ [byte 34]).
Definition Open (dbPath : string) : dop () :=
  _ ← attempt (errorf ("open sqlite " +:+ dbPath));
  _ ← attempt (errorf "ping sqlite");
  _ ← for_each pragmas (λ pragma, attempt (errorf ("exec pragma " +:+ quoted_text pragma)));
  wrapping (errorf "migrate") migrate.

(** ** The store *)

Definition EnsureDirs (root : string) : dop () :=
  for_each ["items"; "rules"; "assignments"; "escalations"; "audit"; "batches"; "failures"] (λ t,
    attempt (errorf ("create dir " +:+ root +:+ "/shards/" +:+ t))).
Definition New (dataDir : string) (maxSize : Z) (sync : bool) : dop Writer :=
  _ ← wrapping (errorf "ensure shard dirs") (EnsureDirs dataDir);
  _ ← wrapping (errorf "open index") (Open (dataDir +:+ "/index.db"));
  mret {| rootDir := dataDir; maxShardSize := maxSize; syncOnWrite := sync |}.
End migrate.
