(* ===== verification/AuditLog.v ===== *)
(** * Audit entries

    [internal/auditlog/logger.go]. *)
From S2P Require Import Prelude GoErrors Domain World.

Definition NewEntry (uuid entityID entityType action actor : string) (timestamp : Time)
    (details : string) : AuditEntry := {|
  au_ID := uuid; au_EntityID := entityID; au_EntityType := entityType;
  au_Action := action; au_Actor := actor; au_Timestamp := timestamp;
  au_Details := details; au_ShardPath := ""; au_DataVersion := DataVersion |}.

Definition ActionRegister : string := "register".
Definition ActionModify : string := "modify".
Definition ActionReturn : string := "return_for_correction".
Definition ActionResubmit : string := "resubmit".
Definition ActionCancel : string := "cancel".
Definition ActionComplete : string := "complete".
Definition ActionStartProcessing : string := "start_processing".
Definition ActionEscalate : string := "escalate".
Definition ActionRuleCreate : string := "rule_create".
Definition ActionRuleSupersede : string := "supersede_rule".
Definition ActionBatchImport : string := "batch_import".
Definition ActionFailureRetry : string := "failure_retry".
Definition ActionRuleReevaluated : string := "rule_reevaluated".
