(* ===== verification/StoreApi.v ===== *)
(** * The interface of the store

    [internal/store/interfaces.go]: what a store offers, over a state of its
    own, the laws its clients rely on, and the store of [internal/repo], which
    hands every read to the index, as an instance. That it meets the laws is
    in QueryClaims. *)
From S2P Require Import Prelude GoErrors GoTime Domain World Shard Index Repo Rebuild.

(** ** Operations *)

(** A method that sets fields of its argument returns the changed record. *)
Record Tx (S : Type) : Type := {
  tx_SaveItem : ComplianceCase → op S derror ComplianceCase;
  tx_UpdateItem : ComplianceCase → op S derror ComplianceCase;
  tx_SaveAssignment : Referral → op S derror ();
  tx_MarkAssignmentSuperseded : string → op S derror ();
  tx_SaveEscalation : Escalation → op S derror Escalation;
  tx_SaveAudit : AuditEntry → op S derror ();
  tx_SaveFailure : PermanentFailure → op S derror ();
  tx_UpdateFailure : PermanentFailure → op S derror ();
  tx_SaveBatch : ImportBatch → op S derror ();
  tx_SaveRule : Rule → op S derror Rule;
  tx_SupersedeRule : Z → op S derror ()
}.
(** The reports of a rebuild and of a reconciliation are returned also with an
    error. *)
Record Store (S : Type) : Type := {
  st_WithTx : ∀ A, (Tx S → op S derror A) → op S derror A;
  st_GetItem : string → op S derror ComplianceCase;
  st_GetItemByExternalRef : string → op S derror ComplianceCase;
  st_ListItems : ItemFilter → op S derror (list ComplianceCase * Z);
  st_FindOverdueItems : Time → Z → op S derror (list ComplianceCase);
  st_CountByStatus : op S derror (gmap string Z);
  st_GetRule : Z → op S derror Rule;
  st_GetActiveRules : Time → op S derror (list Rule);
  st_GetCurrentRuleVersion : op S derror Z;
  st_ListRules : op S derror (list Rule);
  st_GetAssignments : string → op S derror (list Referral);
  st_GetCurrentAssignment : string → op S derror Referral;
  st_GetEscalations : string → op S derror (list Escalation);
  st_ListAudit : AuditFilter → op S derror (list AuditEntry * Z);
  st_ListFailures : op S derror (list PermanentFailure);
  st_GetFailure : string → op S derror PermanentFailure;
  st_ListBatches : BatchFilter → op S derror (list ImportBatch * Z);
  st_RebuildIndex : S → S * RebuildReport * result derror ();
  st_Reconcile : S → S * ReconcileReport * result derror ();
  st_Diagnose : S → S * result derror DiagnoseReport;
  st_Ping : op S derror ()
}.
Arguments st_WithTx {S} _ {A} _.
Arguments tx_SaveItem {S}. Arguments tx_UpdateItem {S}. Arguments tx_SaveAssignment {S}.
Arguments tx_MarkAssignmentSuperseded {S}. Arguments tx_SaveEscalation {S}. Arguments tx_SaveAudit {S}.
Arguments tx_SaveFailure {S}. Arguments tx_UpdateFailure {S}. Arguments tx_SaveBatch {S}.
Arguments tx_SaveRule {S}. Arguments tx_SupersedeRule {S}.
Arguments st_GetItem {S}. Arguments st_GetItemByExternalRef {S}. Arguments st_ListItems {S}.
Arguments st_FindOverdueItems {S}. Arguments st_CountByStatus {S}. Arguments st_GetRule {S}.
Arguments st_GetActiveRules {S}. Arguments st_GetCurrentRuleVersion {S}. Arguments st_ListRules {S}.
Arguments st_GetAssignments {S}. Arguments st_GetCurrentAssignment {S}. Arguments st_GetEscalations {S}.
Arguments st_ListAudit {S}. Arguments st_ListFailures {S}. Arguments st_GetFailure {S}.
Arguments st_ListBatches {S}. Arguments st_RebuildIndex {S}. Arguments st_Reconcile {S}.
Arguments st_Diagnose {S}. Arguments st_Ping {S}.

(** ** The store of [internal/repo] *)

Section repo_store.
Context `{Env} (writer : Writer).

Definition repo_tx : Tx World := {|
  tx_SaveItem := SaveItem writer;
  tx_UpdateItem := Tx_UpdateItem writer;
  tx_SaveAssignment := SaveAssignment writer;
  tx_MarkAssignmentSuperseded := Tx_MarkAssignmentSuperseded;
  tx_SaveEscalation := SaveEscalation writer;
  tx_SaveAudit := SaveAudit writer;
  tx_SaveFailure := SaveFailure writer;
  tx_UpdateFailure := Tx_UpdateFailure writer;
  tx_SaveBatch := SaveBatch writer;
  tx_SaveRule := SaveRule writer;
  tx_SupersedeRule := Tx_SupersedeRule
|}.
Definition repo_store : Store World := {|
  st_WithTx A fn := WithTx (fn repo_tx);
  st_GetItem := GetItem;
  st_GetItemByExternalRef := GetItemByExternalRef;
  st_ListItems := ListItems;
  st_FindOverdueItems := FindOverdueItems;
  st_CountByStatus := CountByStatus;
  st_GetRule := GetRule;
  st_GetActiveRules := GetActiveRules;
  st_GetCurrentRuleVersion := GetCurrentRuleVersion;
  st_ListRules := ListRules;
  st_GetAssignments := GetAssignments;
  st_GetCurrentAssignment := GetCurrentAssignment;
  st_GetEscalations := GetEscalations;
  st_ListAudit := ListAudit;
  st_ListFailures := ListFailures;
  st_GetFailure := GetFailure;
  st_ListBatches := ListBatches;
  st_RebuildIndex w := RebuildIndex (rootDir writer) (w, empty_rebuild);
  st_Reconcile w := Reconcile (rootDir writer) (w, empty_reconcile);
  st_Diagnose w := let '((w, _), r) := Diagnose (w, []) in (w, r);
  st_Ping := Ping
|}.
End repo_store.
