(* ===== verification/QueryService.v ===== *)
(** * The query service

    [internal/service/query_service.go], over any store that offers the
    interface of StoreApi. Services uses it over the store of
    [internal/repo]. *)
From S2P Require Import Prelude GoErrors GoTime Domain World Index AuditLog StoreApi.

Section query_service.
Context {S : Type} (store : Store S) (now : op S derror Time) (uuid : op S derror string).

Definition GetItemDetail (id : string) :
    op S derror (ComplianceCase * list Referral * list Escalation * list AuditEntry) :=
  item ← wrapping (errorf "get item") (st_GetItem store id);
  assignments ← wrapping (errorf "get assignments") (st_GetAssignments store id);
  escalations ← wrapping (errorf "get escalations") (st_GetEscalations store id);
  audit ← wrapping (errorf "list audit")
    (st_ListAudit store {| af_EntityID := id; af_EntityType := ""; af_Actor := ""; af_From := zero_stamp;
                           af_To := zero_stamp; af_PageSize := 100; af_PageOffset := 0 |});
  mret (item, assignments, escalations, fst audit).

Definition GetBacklog : op S derror (gmap string Z * Z * list ComplianceCase) :=
  counts ← wrapping (errorf "count by status") (st_CountByStatus store);
  now ← now;
  overdue ← wrapping (errorf "find overdue") (st_FindOverdueItems store now 999);
  mret (counts, Z.of_nat (length overdue), overdue).

Definition RetryFailure (id actor : string) : op S derror () :=
  failure ← wrapping (errorf "get failure") (st_GetFailure store id);
  now ← now;
  let failure := failure <| pf_Status := FailureStatusRetried |> <| pf_ResolvedAt := Some now |> in
  st_WithTx store (λ tx,
    _ ← wrapping (errorf "update failure") (tx_UpdateFailure tx failure);
    uuid ← uuid;
    tx_SaveAudit tx (NewEntry uuid id "failure" ActionFailureRetry actor now "")).

Definition ListFailures : op S derror (list PermanentFailure) := st_ListFailures store.
Definition ListBatches : BatchFilter → op S derror (list ImportBatch * Z) := st_ListBatches store.
Definition ListAudit : AuditFilter → op S derror (list AuditEntry * Z) := st_ListAudit store.
Definition ListItems : ItemFilter → op S derror (list ComplianceCase * Z) := st_ListItems store.
Definition GetItem : string → op S derror ComplianceCase := st_GetItem store.
End query_service.
