(* ===== verification/Services.v ===== *)
(** * The compliance services

    [internal/service]: registration, processing and escalation of compliance
    cases, dispatch rules, batch import, queries. A service reads the store,
    decides, and writes in one transaction; between the read and the
    transaction other goroutines may commit. The clock, UUIDs and failures are
    the environment's ([Env]). *)
From S2P Require Import QueryService Prelude GoErrors GoStrings GoTime Domain Dispatch World Shard Index Repo.
From S2P Require Import AuditLog StoreApi.

(** ** Requests *)

(** A slice of a request may be nil ([None]) or empty, which [Modify] tells
    apart. *)
Record RegisterItemRequest : Type := {
  rq_ExternalRef : string;
  rq_Title : string;
  rq_Description : string;
  rq_OperatorName : string;
  rq_OperatorContact : string;
  rq_Materials : list string;
  rq_Category : string;
  rq_Keywords : list string;
  rq_RegisteredBy : string;
  rq_StoreID : string
}.
Record ModifyItemRequest : Type := {
  mq_Title : string;
  mq_Description : string;
  mq_OperatorName : string;
  mq_OperatorContact : string;
  mq_Materials : option (list string);
  mq_Category : string;
  mq_Keywords : option (list string);
  mq_Actor : string
}.
Record CreateRuleRequest : Type := {
  cr_Name : string;
  cr_Description : string;
  cr_MatchKeywords : list string;
  cr_MatchCategory : string;
  cr_LeadDepartment : string;
  cr_CoDepartments : list string;
  cr_Priority : Z;
  cr_IsDefault : bool;
  cr_CreatedBy : string;
  cr_SupersedeVersion : Z
}.

Section services.
Context `{Env} (writer : Writer).

(** An audit entry with a fresh ID. *)
Definition save_audit (entityID entityType action actor : string) (at_ : Time)
    (details : string) : dop () :=
  uuid ← new_uuid;
  SaveAudit writer (NewEntry uuid entityID entityType action actor at_ details).

(** ** Cases (case_service.go) *)

Section items.
(** the [deadline] of the service *)
Context (deadline : Duration).

(** The case [Register] builds, before adjudication. *)
Definition new_case (req : RegisterItemRequest) (uuid : string) (now : Time) : ComplianceCase := {|
  ic_ID := uuid; ic_ExternalRef := rq_ExternalRef req; ic_Title := rq_Title req;
  ic_Description := rq_Description req; ic_OperatorName := rq_OperatorName req;
  ic_OperatorContact := rq_OperatorContact req; ic_Materials := rq_Materials req;
  ic_Category := rq_Category req; ic_Keywords := rq_Keywords req;
  ic_Status := StatusRegistered; ic_LeadDepartment := ""; ic_CoDepartments := [];
  ic_RuleVersion := 0; ic_RegisteredAt := now; ic_RegisteredBy := rq_RegisteredBy req;
  ic_Deadline := Add now deadline; ic_EscalationLevel := 0; ic_StoreID := rq_StoreID req;
  ic_CompletedAt := None; ic_CancelledAt := None; ic_CancelReason := "";
  ic_ShardPath := ""; ic_ShardOffset := 0; ic_DataVersion := DataVersion;
  ic_CreatedAt := now; ic_UpdatedAt := now |}.

Definition routed (item : ComplianceCase) (referral : Referral) : ComplianceCase :=
  item <| ic_LeadDepartment := rf_LeadDepartment referral |>
       <| ic_CoDepartments := rf_CoDepartments referral |>
       <| ic_RuleVersion := rf_RuleVersion referral |>.

(** The existing case with this reference, if there is one. *)
Definition find_existing (ref : string) : dop (option ComplianceCase) :=
  on_result (GetItemByExternalRef ref) (λ r,
    match r with
    | Ok item => mret (Some item)
    | Err e => if errors_is e ErrNotFound then mret None else raise (errorf "check duplicate" e)
    end).

(** [Adjudicate] polls the context and, when a rule is chosen, takes a UUID and
    a clock reading. *)
Definition adjudicate (item : ComplianceCase) (rules : list Rule) : dop Referral :=
  cerr ← ask env_ctx;
  uuid ← new_uuid;
  now ← clock_now;
  lift (Adjudicate cerr uuid now item rules).

Definition Register (req : RegisterItemRequest) : dop ComplianceCase :=
  _ ← ensure (negb (bool_decide (rq_ExternalRef req = "")))
        (errorf "external_ref empty" (Sentinel ErrValidation));
  _ ← ensure (negb (bool_decide (rq_Title req = "")))
        (errorf "title empty" (Sentinel ErrValidation));
  _ ← ensure (negb (bool_decide (rq_RegisteredBy req = "")))
        (errorf "reported_by empty" (Sentinel ErrValidation));
  existing ← find_existing (rq_ExternalRef req);
  match existing with
  | Some existing => mret existing
  | None =>
      now ← clock_now;
      rules ← wrapping (errorf "get active rules") (GetActiveRules now);
      uuid ← new_uuid;
      let item := new_case req uuid now in
      referral ← wrapping (errorf ("adjudicate item " +:+ ic_ID item)) (adjudicate item rules);
      let item := (routed item referral) <| ic_Status := StatusAdjudicated |> in
      wrapping (errorf "register item tx") (WithTx (
        item ← wrapping (errorf "save item") (SaveItem writer item);
        _ ← wrapping (errorf "save referral") (SaveAssignment writer referral);
        _ ← wrapping (errorf "save audit")
              (save_audit (ic_ID item) "item" ActionRegister (rq_RegisteredBy req) now "");
        mret item))
  end.

Definition updateItemWithAudit (item : ComplianceCase) (actor action details : string) :
    dop ComplianceCase :=
  now ← clock_now;
  wrapping (errorf "update item with audit") (WithTx (
    item ← wrapping (errorf "update item") (Tx_UpdateItem writer item);
    _ ← wrapping (errorf "save audit") (save_audit (ic_ID item) "item" action actor now details);
    mret item)).

Definition StartProcessing (id actor : string) : dop ComplianceCase :=
  item ← wrapping (errorf "get item") (GetItem id);
  now ← clock_now;
  item ← lift (TransitionTo item StatusInProgress);
  updateItemWithAudit (item <| ic_UpdatedAt := now |>) actor ActionStartProcessing "".

Definition override (new old : string) : string := if bool_decide (new = "") then old else new.

Definition Modify (id : string) (req : ModifyItemRequest) : dop ComplianceCase :=
  item ← wrapping (errorf "get item") (GetItem id);
  _ ← ensure (negb (IsTerminal (ic_Status item)))
        (errorf ("item " +:+ id +:+ " is " +:+ status_text (ic_Status item))
           (Sentinel ErrAlreadyCompleted));
  let item := item
    <| ic_Title := override (mq_Title req) (ic_Title item) |>
    <| ic_Description := override (mq_Description req) (ic_Description item) |>
    <| ic_OperatorName := override (mq_OperatorName req) (ic_OperatorName item) |>
    <| ic_OperatorContact := override (mq_OperatorContact req) (ic_OperatorContact item) |>
    <| ic_Materials := default (ic_Materials item) (mq_Materials req) |>
    <| ic_Category := override (mq_Category req) (ic_Category item) |>
    <| ic_Keywords := default (ic_Keywords item) (mq_Keywords req) |> in
  now ← clock_now;
  updateItemWithAudit (item <| ic_UpdatedAt := now |>) (mq_Actor req) ActionModify "".

Definition ReturnForCorrection (id reason actor : string) : dop ComplianceCase :=
  item ← wrapping (errorf "get item") (GetItem id);
  now ← clock_now;
  item ← lift (TransitionTo item StatusReturned);
  updateItemWithAudit (item <| ic_UpdatedAt := now |>) actor ActionReturn reason.

Definition Resubmit (id actor : string) : dop ComplianceCase :=
  item ← wrapping (errorf "get item") (GetItem id);
  item ← lift (TransitionTo item StatusRegistered);
  item ← lift (TransitionTo item StatusAdjudicated);
  now ← clock_now;
  updateItemWithAudit (item <| ic_UpdatedAt := now |>) actor ActionResubmit "".

Definition Cancel (id reason actor : string) : dop ComplianceCase :=
  item ← wrapping (errorf "get item") (GetItem id);
  now ← clock_now;
  item ← lift (TransitionTo item StatusCancelled);
  updateItemWithAudit (item <| ic_CancelledAt := Some now |> <| ic_CancelReason := reason |>
                            <| ic_UpdatedAt := now |>) actor ActionCancel reason.

Definition Complete (id actor : string) : dop ComplianceCase :=
  item ← wrapping (errorf "get item") (GetItem id);
  now ← clock_now;
  item ← lift (TransitionTo item StatusCompleted);
  updateItemWithAudit (item <| ic_CompletedAt := Some now |> <| ic_UpdatedAt := now |>)
    actor ActionComplete "".

(** ** Batch import (batch_service.go) *)

Fixpoint import_rows (i : Z) (reqs : list RegisterItemRequest) : dop (list BatchRowResult) := λ w,
  match reqs with
  | [] => (w, Ok [])
  | req :: reqs =>
      let '(w, row) :=
        match Register req w with
        | (w, Err e) =>
            (w, {| br_RowIndex := i; br_ExternalRef := rq_ExternalRef req; br_Success := false;
                   br_ItemID := ""; br_Error := error_text domain_error_text e |})
        | (w, Ok item) =>
            (w, {| br_RowIndex := i; br_ExternalRef := rq_ExternalRef req; br_Success := true;
                   br_ItemID := ic_ID item; br_Error := "" |})
        end in
      match import_rows (i + 1) reqs w with
      | (w, Ok rows) => (w, Ok (row :: rows))
      | (w, Err e) => (w, Err e)
      end
  end.

Definition count_rows (success : bool) (rows : list BatchRowResult) : Z :=
  Z.of_nat (length (List.filter (λ r, Bool.eqb (br_Success r) success) rows)).

Definition Import (storeID : string) (reqs : list RegisterItemRequest) : dop BatchImportResult :=
  now ← clock_now;
  batchID ← new_uuid;
  rows ← import_rows 0 reqs;
  let result := {| bi_BatchID := batchID; bi_TotalRows := Z.of_nat (length reqs);
    bi_SuccessCount := count_rows true rows; bi_FailureCount := count_rows false rows;
    bi_Results := rows |} in
  let batch := {| ib_ID := batchID; ib_StoreID := storeID; ib_BatchDate := now;
    ib_TotalRows := bi_TotalRows result; ib_SuccessCount := bi_SuccessCount result;
    ib_FailureCount := bi_FailureCount result; ib_ImportedAt := now; ib_ShardPath := "";
    ib_DataVersion := DataVersion |} in
  _ ← wrapping (errorf "save import batch") (WithTx (
        _ ← wrapping (errorf "save batch") (SaveBatch writer batch);
        save_audit batchID "batch" ActionBatchImport storeID now
          (itoa (bi_SuccessCount result) +:+ " success, " +:+
           itoa (bi_FailureCount result) +:+ " fail")));
  mret result.

Definition Export (from to : Stamp) : dop (list ComplianceCase * Z) :=
  ListItems {| if_Status := StatusOther ""; if_LeadDepartment := ""; if_StoreID := "";
    if_RegisteredBy := ""; if_From := from; if_To := to; if_OverdueOnly := false;
    if_PageSize := 1000; if_PageOffset := 0 |}.
End items.

(** ** Rules (rule_service.go) *)

Definition CreateRule (req : CreateRuleRequest) : dop Rule :=
  _ ← ensure (negb (bool_decide (cr_Name req = "")))
        (errorf "rule name empty" (Sentinel ErrValidation));
  _ ← ensure (negb (bool_decide (cr_LeadDepartment req = "")))
        (errorf "lead_department empty" (Sentinel ErrValidation));
  _ ← ensure (negb (bool_decide (cr_CreatedBy req = "")))
        (errorf "created_by empty" (Sentinel ErrValidation));
  currentVersion ← wrapping (errorf "get current version") GetCurrentRuleVersion;
  now ← clock_now;
  let rule := {| ru_Version := currentVersion +ᵢ 1; ru_Name := cr_Name req;
    ru_Description := cr_Description req; ru_MatchKeywords := cr_MatchKeywords req;
    ru_MatchCategory := cr_MatchCategory req; ru_LeadDepartment := cr_LeadDepartment req;
    ru_CoDepartments := cr_CoDepartments req; ru_Priority := cr_Priority req;
    ru_IsDefault := cr_IsDefault req; ru_EffectiveFrom := now; ru_EffectiveTo := zero_time;
    ru_Status := RuleStatusActive; ru_CreatedAt := now; ru_CreatedBy := cr_CreatedBy req;
    ru_ShardPath := ""; ru_DataVersion := DataVersion |} in
  WithTx (
    _ ← (if 0 <? cr_SupersedeVersion req then
           _ ← wrapping (errorf ("supersede rule v" +:+ itoa (cr_SupersedeVersion req)))
                 (Tx_SupersedeRule (cr_SupersedeVersion req));
           wrapping (errorf "save supersede audit")
             (save_audit (itoa (cr_SupersedeVersion req)) "rule" ActionRuleSupersede
                (cr_CreatedBy req) now ("superseded by v" +:+ itoa (ru_Version rule)))
         else mret ());
    rule ← wrapping (errorf "save rule") (SaveRule writer rule);
    _ ← save_audit (itoa (ru_Version rule)) "rule" ActionRuleCreate (cr_CreatedBy req) now
          (ru_Name rule);
    mret rule).

Definition Service_ListRules : dop (list Rule) := ListRules.
Definition Service_GetRule (version : Z) : dop Rule := GetRule version.
Definition Service_GetActiveRules : dop (list Rule) :=
  now ← clock_now; GetActiveRules now.

(** ** Escalation (escalation_service.go) *)

Section escalation.
Context (deadlineExtension : Duration) (maxLevel : Z).

Definition escalateItem (item : ComplianceCase) (now : Time) : dop Escalation :=
  let newLevel := ic_EscalationLevel item +ᵢ 1 in
  _ ← ensure (negb (maxLevel <? newLevel))
        (errorf ("item " +:+ ic_ID item +:+ " at level " +:+ itoa (ic_EscalationLevel item))
           (Sentinel ErrMaxEscalationReached));
  let newLead := EscalationDepartmentName (ic_LeadDepartment item) newLevel in
  let newDeadline := Add now deadlineExtension in
  escID ← new_uuid;
  let esc := {| es_ID := escID; es_ItemID := ic_ID item;
    es_FromLevel := ic_EscalationLevel item; es_ToLevel := newLevel;
    es_OldLeadDept := ic_LeadDepartment item; es_NewLeadDept := newLead;
    es_EscalatedAt := now; es_Reason := "deadline_exceeded"; es_NewDeadline := newDeadline;
    es_ShardPath := ""; es_DataVersion := DataVersion |} in
  refID ← new_uuid;
  let referral := {| rf_ID := refID; rf_ItemID := ic_ID item; rf_LeadDepartment := newLead;
    rf_CoDepartments := ic_CoDepartments item; rf_RuleVersion := ic_RuleVersion item;
    rf_AdjudicatedAt := now; rf_AdjudicatedBy := "system_escalation"; rf_IsCurrent := true;
    rf_ShardPath := ""; rf_DataVersion := DataVersion |} in
  let item := item <| ic_LeadDepartment := newLead |> <| ic_EscalationLevel := newLevel |>
                   <| ic_Deadline := newDeadline |> in
  item ← lift (TransitionTo item StatusEscalated);
  let item := item <| ic_UpdatedAt := now |> in
  WithTx (
    esc ← wrapping (errorf "save escalation") (SaveEscalation writer esc);
    _ ← wrapping (errorf "mark referral superseded") (Tx_MarkAssignmentSuperseded (ic_ID item));
    _ ← wrapping (errorf "save escalation referral") (SaveAssignment writer referral);
    item ← wrapping (errorf "update item") (Tx_UpdateItem writer item);
    _ ← save_audit (ic_ID item) "item" ActionEscalate "system" now
          ("level " +:+ itoa (es_FromLevel esc) +:+ "->" +:+ itoa (es_ToLevel esc) +:+ " lead "
           +:+ es_OldLeadDept esc +:+ "->" +:+ es_NewLeadDept esc);
    mret esc).

Definition recordPermanentFailure (item : ComplianceCase) (now : Time) (cause : derror) : dop () :=
  uuid ← new_uuid;
  let failure := {| pf_ID := uuid; pf_EntityType := "item"; pf_EntityID := ic_ID item;
    pf_TaskType := "escalation"; pf_LastError := error_text domain_error_text cause;
    pf_Attempts := maxLevel; pf_FirstFailedAt := ic_RegisteredAt item; pf_LastFailedAt := now;
    pf_Status := FailureStatusActive; pf_ResolvedAt := None; pf_NextRetryAt := None;
    pf_BackoffState := ""; pf_DataVersion := DataVersion |} in
  WithTx (
    _ ← wrapping (errorf "save failure") (SaveFailure writer failure);
    save_audit (ic_ID item) "item" "max_escalation_reached" "system" now
      (error_text domain_error_text cause)).

(** The loop over the overdue items: the escalations made so far and, if one
    item failed, the error that ended the loop. *)
Fixpoint escalate_all (overdue : list ComplianceCase) (now : Time) (w : World) :
    World * (list Escalation * option derror) :=
  match overdue with
  | [] => (w, ([], None))
  | item :: overdue =>
      match escalateItem item now w with
      | (w, Ok esc) =>
          let '(w, (escs, e)) := escalate_all overdue now w in (w, (esc :: escs, e))
      | (w, Err e) =>
          if errors_is e ErrMaxEscalationReached then
            match recordPermanentFailure item now e w with
            | (w, Err ferr) => (w, ([], Some ferr))
            | (w, Ok _) => escalate_all overdue now w
            end
          else (w, ([], Some (errorf ("escalate item " +:+ ic_ID item) e)))
      end
  end.

Definition CheckAndEscalate (w : World) : World * (list Escalation * option derror) :=
  match (now ← clock_now;
         overdue ← wrapping (errorf "find overdue items") (FindOverdueItems now maxLevel);
         mret (now, overdue)) w with
  | (w, Err e) => (w, ([], Some e))
  | (w, Ok (now, overdue)) => escalate_all overdue now w
  end.
End escalation.

(** ** Queries (query_service.go) *)

(** The query service over the repository's store. *)
Definition GetItemDetail : string → dop (ComplianceCase * list Referral * list Escalation * list AuditEntry) :=
  QueryService.GetItemDetail (repo_store writer).
Definition GetBacklog : dop (gmap string Z * Z * list ComplianceCase) :=
  QueryService.GetBacklog (repo_store writer) clock_now.
Definition RetryFailure : string → string → dop () :=
  QueryService.RetryFailure (repo_store writer) clock_now new_uuid.
End services.
