(* ===== verification/Http.v ===== *)
(** * HTTP: requests, responses and their bodies

    [internal/httpapi/dto.go] and the request types of the services. A
    request is what [net/http] makes of one: method, path, the first value of
    a header or query parameter, the body. A response is the status and the
    value a handler writes; [rendered] is the text of that value. *)
From Stdlib Require Import Ascii.
From S2P Require Import Prelude GoErrors GoStrings GoNumbers GoTime Json Rfc3339 Domain Records Auth Services.

(** ** Requests *)

Record Request : Type := {
  hr_Method : string;
  hr_Path : string;
  (** the ID the router's middleware gives the request *)
  hr_ID : string;
  hr_Header : string → string;
  hr_Query : string → string;
  hr_Param : string → string;
  hr_Body : bytes
}.
#[export] Instance Request_eta : Eta Request := λ r, {|
  hr_Method := hr_Method r; hr_Path := hr_Path r; hr_ID := hr_ID r; hr_Header := hr_Header r;
  hr_Query := hr_Query r; hr_Param := hr_Param r; hr_Body := hr_Body r |}.

(** [strings.EqualFold(s, "Bearer ")]: no character outside ASCII folds to
    one of these. *)
Definition bearer_fold (s : bytes) : bool :=
  bool_decide (map upper_byte s = to_bytes "BEARER ").
Definition bearerToken (r : Request) : string :=
  let value := to_bytes (TrimSpace (hr_Header r "Authorization")) in
  if (7 <? Z.of_nat (length value)) && bearer_fold (take 7 value)
  then TrimSpace (of_bytes (drop 7 value)) else "".

Definition parsePageSize (r : Request) : Z :=
  let s := hr_Query r "page_size" in
  if bool_decide (s = "") then 20
  else match Atoi s with
       | None => 20
       | Some n => if n <=? 0 then 20 else if 200 <? n then 200 else n
       end.
Definition parsePageOffset (r : Request) : Z :=
  let s := hr_Query r "page_offset" in
  if bool_decide (s = "") then 0
  else match Atoi s with
       | None => 0
       | Some n => if n <? 0 then 0 else n
       end.
(** A time in the query; one that does not parse is as good as none. *)
Definition query_time (name : string) (r : Request) : Stamp :=
  let s := hr_Query r name in
  if bool_decide (s = "") then zero_stamp else default zero_stamp (Parse s).
Definition query_or (name other : string) (r : Request) : string :=
  let s := hr_Query r name in
  if bool_decide (s = "") then other else s.

Definition parseItemFilter (r : Request) : ItemFilter := {|
  if_Status := status_of_text (hr_Query r "status");
  if_LeadDepartment := hr_Query r "lead_department";
  if_StoreID := hr_Query r "store_id";
  if_RegisteredBy := hr_Query r "reported_by";
  if_From := query_time "from" r;
  if_To := query_time "to" r;
  if_OverdueOnly := bool_decide (hr_Query r "overdue" = "true");
  if_PageSize := parsePageSize r;
  if_PageOffset := parsePageOffset r |}.
Definition parseAuditFilter (r : Request) : AuditFilter := {|
  af_EntityID := hr_Query r "entity_id";
  af_EntityType := hr_Query r "entity_type";
  af_Actor := hr_Query r "actor";
  af_From := query_time "from" r;
  af_To := query_time "to" r;
  af_PageSize := parsePageSize r;
  af_PageOffset := parsePageOffset r |}.
Definition parseBatchFilter (r : Request) : BatchFilter := {|
  bf_StoreID := hr_Query r "store_id";
  bf_From := query_time "from" r;
  bf_To := query_time "to" r;
  bf_PageSize := parsePageSize r;
  bf_PageOffset := parsePageOffset r |}.

(** ** Bodies of requests *)

#[export] Instance RegisterItemRequest_eta : Eta RegisterItemRequest := λ r, {|
  rq_ExternalRef := rq_ExternalRef r; rq_Title := rq_Title r; rq_Description := rq_Description r;
  rq_OperatorName := rq_OperatorName r; rq_OperatorContact := rq_OperatorContact r;
  rq_Materials := rq_Materials r; rq_Category := rq_Category r; rq_Keywords := rq_Keywords r;
  rq_RegisteredBy := rq_RegisteredBy r; rq_StoreID := rq_StoreID r |}.
Definition register_fields : list (string * decoder RegisterItemRequest) := [
  ("external_ref", via dec_string rq_ExternalRef (λ v r, r <| rq_ExternalRef := v |>));
  ("title", via dec_string rq_Title (λ v r, r <| rq_Title := v |>));
  ("description", via dec_string rq_Description (λ v r, r <| rq_Description := v |>));
  ("operator_name", via dec_string rq_OperatorName (λ v r, r <| rq_OperatorName := v |>));
  ("operator_contact", via dec_string rq_OperatorContact (λ v r, r <| rq_OperatorContact := v |>));
  ("materials", via dec_strings rq_Materials (λ v r, r <| rq_Materials := v |>));
  ("category", via dec_string rq_Category (λ v r, r <| rq_Category := v |>));
  ("keywords", via dec_strings rq_Keywords (λ v r, r <| rq_Keywords := v |>));
  ("reported_by", via dec_string rq_RegisteredBy (λ v r, r <| rq_RegisteredBy := v |>));
  ("store_id", via dec_string rq_StoreID (λ v r, r <| rq_StoreID := v |>))
].
Definition zero_register : RegisterItemRequest := {|
  rq_ExternalRef := ""; rq_Title := ""; rq_Description := ""; rq_OperatorName := "";
  rq_OperatorContact := ""; rq_Materials := []; rq_Category := ""; rq_Keywords := [];
  rq_RegisteredBy := ""; rq_StoreID := "" |}.

#[export] Instance ModifyItemRequest_eta : Eta ModifyItemRequest := λ r, {|
  mq_Title := mq_Title r; mq_Description := mq_Description r; mq_OperatorName := mq_OperatorName r;
  mq_OperatorContact := mq_OperatorContact r; mq_Materials := mq_Materials r;
  mq_Category := mq_Category r; mq_Keywords := mq_Keywords r; mq_Actor := mq_Actor r |}.
(** A slice that stays nil when the request has none. *)
Definition dec_opt_strings : decoder (option (list string)) := λ j _,
  match j with
  | JNull => Some None
  | _ => Some <$> dec_strings j []
  end.
Definition modify_fields : list (string * decoder ModifyItemRequest) := [
  ("title", via dec_string mq_Title (λ v r, r <| mq_Title := v |>));
  ("description", via dec_string mq_Description (λ v r, r <| mq_Description := v |>));
  ("operator_name", via dec_string mq_OperatorName (λ v r, r <| mq_OperatorName := v |>));
  ("operator_contact", via dec_string mq_OperatorContact (λ v r, r <| mq_OperatorContact := v |>));
  ("materials", via dec_opt_strings mq_Materials (λ v r, r <| mq_Materials := v |>));
  ("category", via dec_string mq_Category (λ v r, r <| mq_Category := v |>));
  ("keywords", via dec_opt_strings mq_Keywords (λ v r, r <| mq_Keywords := v |>));
  ("actor", via dec_string mq_Actor (λ v r, r <| mq_Actor := v |>))
].
Definition zero_modify : ModifyItemRequest := {|
  mq_Title := ""; mq_Description := ""; mq_OperatorName := ""; mq_OperatorContact := "";
  mq_Materials := None; mq_Category := ""; mq_Keywords := None; mq_Actor := "" |}.

#[export] Instance CreateRuleRequest_eta : Eta CreateRuleRequest := λ r, {|
  cr_Name := cr_Name r; cr_Description := cr_Description r; cr_MatchKeywords := cr_MatchKeywords r;
  cr_MatchCategory := cr_MatchCategory r; cr_LeadDepartment := cr_LeadDepartment r;
  cr_CoDepartments := cr_CoDepartments r; cr_Priority := cr_Priority r;
  cr_IsDefault := cr_IsDefault r; cr_CreatedBy := cr_CreatedBy r;
  cr_SupersedeVersion := cr_SupersedeVersion r |}.
Definition create_rule_fields : list (string * decoder CreateRuleRequest) := [
  ("name", via dec_string cr_Name (λ v r, r <| cr_Name := v |>));
  ("description", via dec_string cr_Description (λ v r, r <| cr_Description := v |>));
  ("match_keywords", via dec_strings cr_MatchKeywords (λ v r, r <| cr_MatchKeywords := v |>));
  ("match_category", via dec_string cr_MatchCategory (λ v r, r <| cr_MatchCategory := v |>));
  ("lead_department", via dec_string cr_LeadDepartment (λ v r, r <| cr_LeadDepartment := v |>));
  ("co_departments", via dec_strings cr_CoDepartments (λ v r, r <| cr_CoDepartments := v |>));
  ("priority", via dec_int cr_Priority (λ v r, r <| cr_Priority := v |>));
  ("is_default", via dec_bool cr_IsDefault (λ v r, r <| cr_IsDefault := v |>));
  ("created_by", via dec_string cr_CreatedBy (λ v r, r <| cr_CreatedBy := v |>));
  ("supersede_version", via dec_int cr_SupersedeVersion (λ v r, r <| cr_SupersedeVersion := v |>))
].
Definition zero_create_rule : CreateRuleRequest := {|
  cr_Name := ""; cr_Description := ""; cr_MatchKeywords := []; cr_MatchCategory := "";
  cr_LeadDepartment := ""; cr_CoDepartments := []; cr_Priority := 0; cr_IsDefault := false;
  cr_CreatedBy := ""; cr_SupersedeVersion := 0 |}.

Record BatchImportRequest : Type := {
  ir_StoreID : string;
  ir_Items : option (list RegisterItemRequest)
}.
#[export] Instance BatchImportRequest_eta : Eta BatchImportRequest := λ r, {|
  ir_StoreID := ir_StoreID r; ir_Items := ir_Items r |}.
Definition import_fields : list (string * decoder BatchImportRequest) := [
  ("store_id", via dec_string ir_StoreID (λ v r, r <| ir_StoreID := v |>));
  ("items", via (dec_list (decode_struct register_fields) zero_register) ir_Items (λ v r, r <| ir_Items := v |>))
].
Definition zero_import : BatchImportRequest := {| ir_StoreID := ""; ir_Items := None |}.

Record loginRequest : Type := { lr_Username : string; lr_Password : string }.
#[export] Instance loginRequest_eta : Eta loginRequest := λ r, {|
  lr_Username := lr_Username r; lr_Password := lr_Password r |}.
Definition login_fields : list (string * decoder loginRequest) := [
  ("username", via dec_string lr_Username (λ v r, r <| lr_Username := v |>));
  ("password", via dec_string lr_Password (λ v r, r <| lr_Password := v |>))
].
Definition zero_login : loginRequest := {| lr_Username := ""; lr_Password := "" |}.

(** The struct of [returnForCorrection] and [cancelItem]. *)
Record reasonRequest : Type := { rr_Reason : string; rr_Actor : string }.
#[export] Instance reasonRequest_eta : Eta reasonRequest := λ r, {|
  rr_Reason := rr_Reason r; rr_Actor := rr_Actor r |}.
Definition reason_fields : list (string * decoder reasonRequest) := [
  ("reason", via dec_string rr_Reason (λ v r, r <| rr_Reason := v |>));
  ("actor", via dec_string rr_Actor (λ v r, r <| rr_Actor := v |>))
].
Definition zero_reason : reasonRequest := {| rr_Reason := ""; rr_Actor := "" |}.

(** [json.NewDecoder(body).Decode(&v)] reads the first JSON value and ignores
    what follows it. *)
Definition first_value (body : bytes) : option json :=
  fst <$> parse_value (2 * S (length body)) maxNestingDepth body.
Definition Decode {R} (fields : list (string * decoder R)) (zero : R) (body : bytes) : option R :=
  j ← first_value body;
  decode_struct fields j zero.
(** Where the error is ignored, the members of the right type are kept. *)
Definition Decode_ignoring {R} (fields : list (string * decoder R)) (zero : R) (body : bytes) : R :=
  match first_value body with
  | Some (JObj l) =>
      foldl (λ r '(key, v),
        match find_field fields (unquote key) with
        | Some set => default r (set v r)
        | None => r
        end) zero l
  | _ => zero
  end.

Example Decode_trailing :
  Decode login_fields zero_login (print (JObj [jfield "username" (jstring "lamp")]) ++ to_bytes " ]") =
  Some {| lr_Username := "lamp"; lr_Password := "" |}.
Proof. vm_compute. reflexivity. Qed.
Example Decode_ignoring_ex :
  Decode_ignoring reason_fields zero_reason
    (print (JObj [jfield "reason" (jint 5); jfield "actor" (jstring "lamp")])) =
  {| rr_Reason := ""; rr_Actor := "lamp" |}.
Proof. vm_compute. reflexivity. Qed.
