(* ===== verification/Hubctl.v ===== *)
(** * The operations command

    [cmd/hubctl/main.go]: a command is run on the machine, that is the
    databases by their paths, the files, and what was printed. A result [Err n]
    is an exit with the status [n]. The lines of the logger and of the package
    [flag] are not kept. *)
From S2P Require Import Prelude GoErrors GoStrings GoNumbers GoTime Json Rfc3339 GoFlags Domain Records.
From S2P Require Import Config World Shard Index Repo Rebuild Migrate Services Http.

Record Machine : Type := {
  mc_dbs : gmap string DB;
  mc_fs : FS;
  mc_tick : nat;
  mc_out : list string;
  mc_err : list string
}.
#[export] Instance Machine_eta : Eta Machine := λ m, {|
  mc_dbs := mc_dbs m; mc_fs := mc_fs m; mc_tick := mc_tick m; mc_out := mc_out m; mc_err := mc_err m |}.
Abbreviation cop := (op Machine Z).

Definition index_path (dir : string) : string := dir +:+ "/index.db".
(** What a store opened on the directory [dir] works on. *)
Definition world_at (dir : string) (m : Machine) : World := {|
  w_db := default new_db (mc_dbs m !! index_path dir); w_fs := mc_fs m; w_tick := mc_tick m |}.
Definition on_store {A} (dir : string) (f : dop A) : cop (result derror A) := λ m,
  let '(w, r) := f (world_at dir m) in
  (m <| mc_dbs := <[index_path dir := w_db w]> (mc_dbs m) |> <| mc_fs := w_fs w |> <| mc_tick := w_tick w |>,
   Ok r).

(** [if err != nil { logger.Fatal()... }] *)
Definition or_fatal {A} (m : cop (result derror A)) : cop A :=
  r ← m;
  match r with
  | Ok a => mret a
  | Err _ => raise 1
  end.
Definition print_line (line : string) : cop () := modify (λ m, m <| mc_out := mc_out m ++ [line] |>).
Definition print_error (line : string) : cop () := modify (λ m, m <| mc_err := mc_err m ++ [line] |>).
(** [fs.Parse(args)] *)
Definition parse_flags (args : list string) (f : FlagSet) : cop FlagSet := lift (Parse args f).
Definition flag_value (name : string) (f : FlagSet) : string := default "" (f !! name).
Definition number (label : string) (n : Z) : string := "  " +:+ label +:+ ": " +:+ pretty n.
Definition truth (b : bool) : string := if b then "true" else "false".

Definition printUsage : cop () :=
  for_each ["hubctl - operations CLI for lead responsibility adjudication service"; "";
    "Usage: hubctl <command> [flags]"; ""; "Commands:";
    "  init           Initialize data directory and schema";
    "  import         Import items from a JSON file";
    "  export         Export items to a JSON file";
    "  reconcile      Reconcile shard files with index";
    "  rebuild-index  Rebuild SQLite index from shard files";
    "  diagnose       Diagnose system status"] print_error.

Section hubctl.
Context `{Env} `{Migrations} `{ConfigEnv}.

Definition data_dir (cfg : Config) : string := st_DataDir (cf_Storage cfg).
Definition openStore (cfg : Config) : cop Writer :=
  or_fatal (on_store (data_dir cfg) (wrapping (errorf "open store")
    (New (data_dir cfg) (st_ShardMaxSize (cf_Storage cfg)) (st_SyncOnWrite (cf_Storage cfg))))).

Definition default_rule : CreateRuleRequest :=
  zero_create_rule <| cr_Name := "default-dispatch" |>
    <| cr_Description := "default fallback rule for unclassified items" |>
    <| cr_LeadDepartment := "general-affairs-bureau" |> <| cr_Priority := 0 |>
    <| cr_IsDefault := true |> <| cr_CreatedBy := "init" |>.
Definition runInit (cfg : Config) : cop () :=
  writer ← openStore cfg;
  _ ← or_fatal (on_store (data_dir cfg) (CreateRule writer default_rule));
  print_line "init complete".

(** [os.ReadFile], [json.Unmarshal] *)
Definition ReadFile (path : string) : cop bytes := λ m,
  match (_ ← attempt (λ e, e); gets (λ w, w_fs w !! path)) (world_at "" m) with
  | (w, Ok (Some data)) => (m <| mc_tick := w_tick w |>, Ok data)
  | (w, _) => (m <| mc_tick := w_tick w |>, Err 1)
  end.
Definition decode_import (data : bytes) : option BatchImportRequest :=
  j ← parse data;
  decode_struct import_fields j zero_import.
Definition runImport (cfg : Config) (args : list string) (f : FlagSet) : cop () :=
  f ← parse_flags args (<["file" := ""]> f);
  let filePath := flag_value "file" f in
  if bool_decide (filePath = "")
  then _ ← print_error "error: --file is required"; raise 1
  else
    data ← ReadFile filePath;
    req ← must (decode_import data) 1;
    writer ← openStore cfg;
    result ← or_fatal (on_store (data_dir cfg)
      (Import writer (bc_DefaultDeadline (cf_Business cfg)) (ir_StoreID req) (default [] (ir_Items req))));
    _ ← print_line ("import complete: " +:+ pretty (bi_SuccessCount result) +:+ " success, " +:+
                    pretty (bi_FailureCount result) +:+ " failure");
    for_each (bi_Results result) (λ r,
      if br_Success r then mret ()
      else print_error ("  row " +:+ pretty (br_RowIndex r) +:+ ": " +:+ br_ExternalRef r +:+ " - " +:+ br_Error r)).

(** [data, _ := json.Marshal(item)] *)
Definition item_line (item : ComplianceCase) : dop bytes :=
  nil ← ask env_nil;
  mret (match Marshal nil item with Ok data => data | Err _ => [] end).
(** [os.Create], and [fmt.Fprintln] to the file, whose error is dropped *)
Definition Create (path : string) : dop () :=
  _ ← attempt (λ e, e);
  modify (put_file path []).
Definition append_line (path : string) (line : bytes) : dop () :=
  before ← gets (λ w, default [] (w_fs w !! path));
  on_result (write_file path before (line ++ [newline]) (λ e, e)) (λ _, mret ()).
Definition time_flag (name : string) (f : FlagSet) : Stamp :=
  let s := flag_value name f in
  if bool_decide (s = "") then zero_stamp else default zero_stamp (Rfc3339.Parse s).
Definition runExport (cfg : Config) (args : list string) (f : FlagSet) : cop () :=
  f ← parse_flags args (<["from" := ""]> (<["to" := ""]> (<["out" := ""]> f)));
  let outPath := flag_value "out" f in
  _ ← openStore cfg;
  '(items, total) ← or_fatal (on_store (data_dir cfg) (Export (time_flag "from" f) (time_flag "to" f)));
  _ ← (if bool_decide (outPath = "") then mret () else or_fatal (on_store (data_dir cfg) (Create outPath)));
  _ ← for_each items (λ item,
        data ← or_fatal (on_store (data_dir cfg) (item_line item));
        if bool_decide (outPath = "") then print_line (of_bytes data)
        else or_fatal (on_store (data_dir cfg) (append_line outPath data)));
  print_error ("export complete: " +:+ pretty total +:+ " items").

Definition runReconcile (cfg : Config) : cop () :=
  _ ← openStore cfg;
  report ← or_fatal (on_store (data_dir cfg) (λ w,
    match Reconcile (data_dir cfg) (w, empty_reconcile) with
    | ((w, rp), Ok _) => (w, Ok rp)
    | ((w, _), Err e) => (w, Err e)
    end));
  _ ← for_each (["reconcile complete:"; number "shard count" (rc_ShardCount report);
        number "index count" (rc_IndexCount report);
        number "orphaned in shard" (rc_OrphanedInShard report);
        number "missing in shard" (rc_MissingInShard report);
        number "checksum mismatches" (rc_ChecksumMismatches report)]) print_line;
  for_each (rc_Details report) (λ d, print_line ("  - " +:+ d)).

Definition runRebuildIndex (cfg : Config) : cop () :=
  _ ← openStore cfg;
  report ← or_fatal (on_store (data_dir cfg) (λ w,
    match RebuildIndex (data_dir cfg) (w, empty_rebuild) with
    | ((w, rp), Ok _) => (w, Ok rp)
    | ((w, _), Err e) => (w, Err e)
    end));
  _ ← for_each (["rebuild-index complete:"; number "total shards" (rr_TotalShards report);
        number "indexed shards" (rr_IndexedShards report);
        number "skipped shards" (rr_SkippedShards report);
        number "total records" (rr_TotalRecords report)]) print_line;
  for_each (rr_CorruptedShards report) (λ c,
    print_line ("  corrupted: " +:+ cs_Path c +:+ " - " +:+ cs_Reason c)).

Definition runDiagnose (cfg : Config) : cop () :=
  _ ← openStore cfg;
  report ← or_fatal (on_store (data_dir cfg) (λ w,
    let '((w, _), r) := Diagnose (w, []) in (w, r)));
  _ ← for_each (["diagnose complete:"; "  data dir writable: " +:+ truth (dr_DataDirWritable report);
        number "item count" (dr_ItemCount report); number "rule count" (dr_RuleCount report);
        number "overdue count" (dr_OverdueCount report);
        number "corrupted shards" (dr_CorruptedShards report);
        number "schema version" (dr_SchemaVersion report);
        "  ready: " +:+ truth (dr_Ready report)]) print_line;
  _ ← for_each (dr_Issues report) (λ issue, print_line ("  issue: " +:+ issue));
  for_each (dr_ShardManifest report) (λ s,
    print_line ("  shard: " +:+ sm_ShardPath s +:+ " type=" +:+ sm_EntityType s +:+ " count=" +:+
                pretty (sm_RecordCount s) +:+ " status=" +:+ sm_Status s)).

Definition common_flags : FlagSet := {[ "data-dir" := "./data"; "config" := "" ]}.
Definition main (args : list string) : cop () :=
  match args with
  | _ :: cmd :: args =>
      f ← parse_flags args common_flags;
      cfg ← (match Load (flag_value "config" f) with
             | Ok cfg => mret cfg
             | Err text => _ ← print_error ("load config: " +:+ text); raise 1
             end);
      let dataDir := flag_value "data-dir" f in
      let cfg := if bool_decide (dataDir = "") then cfg
                 else cfg <| cf_Storage ::= λ s, s <| st_DataDir := dataDir |> |> in
      if bool_decide (cmd = "init") then runInit cfg
      else if bool_decide (cmd = "import") then runImport cfg args f
      else if bool_decide (cmd = "export") then runExport cfg args f
      else if bool_decide (cmd = "reconcile") then runReconcile cfg
      else if bool_decide (cmd = "rebuild-index") then runRebuildIndex cfg
      else if bool_decide (cmd = "diagnose") then runDiagnose cfg
      else _ ← printUsage; raise 1
  | _ => _ ← printUsage; raise 1
  end.
End hubctl.
