(* ===== verification/HttpServer.v ===== *)
(** * HTTP: handlers, middleware and routes

    [internal/httpapi]: one operation per handler, over the state of the
    process. A handler that writes an error and returns raises the response.
    The router (chi) is a parameter: it picks a route of the table. *)
From Stdlib Require Import Ascii.
From S2P Require Import Prelude GoErrors GoStrings GoNumbers GoTime Json Rfc3339 Domain World Shard Index Repo.
From S2P Require Import Records Auth Config Services Http.

(** ** Responses *)

Record ErrorBody : Type := { eb_Code : string; eb_Message : string; eb_RequestID : string }.

(** The rows of a [PaginatedResponse]. *)
Inductive listing : Type :=
| Cases (l : list ComplianceCase)
| Batches (l : list ImportBatch)
| Entries (l : list AuditEntry).
Definition listing_length (l : listing) : nat :=
  match l with
  | Cases l => length l
  | Batches l => length l
  | Entries l => length l
  end.

(** The values handlers write. *)
Inductive payload : Type :=
| NoBody
| ErrorResponse (e : ErrorBody)
| StatusText (s : string)
| Readiness (ready : bool) (data_dir reeval_worker scheduler store : string)
| LoggedIn (token : string) (expires : Time) (user : User)
| UserBody (u : User)
| CaseBody (i : ComplianceCase)
| PageBody (items : listing) (total pageSize pageOffset : Z)
| DetailBody (item : ComplianceCase) (assignments : list Referral) (escalations : list Escalation)
    (audit : list AuditEntry)
| RuleBody (r : Rule)
| RulesBody (rules : list Rule)
| ImportBody (r : BatchImportResult)
| BacklogBody (counts : gmap string Z) (overdue : Z) (items : list ComplianceCase)
| FailuresBody (l : list PermanentFailure)
(** the text of the router's own answers *)
| PlainText (s : string).
Record Response : Type := { rs_Status : Z; rs_Body : payload }.

(** ** What is written *)

Definition jrecord {R} `{JsonRecord R, Zone} (nil : string → bool) (r : R) : json := JObj (rec_members nil r).
Definition jarray {A} (nil : string → bool) (name : string) (to : A → json) (l : list A) : json :=
  if nil name && bool_decide (l = []) then JNull else JArr (to <$> l).
Definition jrecords {R} `{JsonRecord R, Zone} (nil : string → bool) (name : string) (l : list R) : json :=
  if nil name && bool_decide (length l = 0%nat) then JNull else JArr (jrecord nil <$> l).
Definition jtext (name value : string) : bytes * json := jfield name (jstring value).
Definition omitempty (name value : string) : list (bytes * json) :=
  omit (bool_decide (value = "")) (jtext name value).
Definition row_json (r : BatchRowResult) : json :=
  JObj ([jfield "row_index" (jint (br_RowIndex r)); jtext "external_ref" (br_ExternalRef r);
         jfield "success" (JBool (br_Success r))]
        ++ omitempty "item_id" (br_ItemID r) ++ omitempty "error" (br_Error r)).
(** The keys of a map are sorted. *)
Definition key_le (a b : string * Z) : Prop := String.leb a.1 b.1 = true.
#[export] Instance key_le_dec a b : Decision (key_le a b).
Proof. unfold key_le. apply _. Defined.
Definition counts_json (m : gmap string Z) : json :=
  JObj ((λ e, jfield e.1 (jint e.2)) <$> merge_sort key_le (map_to_list m)).

Definition payload_json `{Zone} (nil : string → bool) (p : payload) : option json :=
  match p with
  | NoBody | PlainText _ => None
  | ErrorResponse e =>
      Some (JObj [jfield "error" (JObj ([jtext "code" (eb_Code e); jtext "message" (eb_Message e)]
        ++ omitempty "request_id" (eb_RequestID e)))])
  | StatusText s => Some (JObj [jtext "status" s])
  | Readiness ready data_dir reeval_worker scheduler store =>
      Some (JObj [jfield "checks" (JObj [jtext "data_dir" data_dir; jtext "reeval_worker" reeval_worker;
              jtext "scheduler" scheduler; jtext "store" store]);
            jtext "status" (if ready then "ready" else "not_ready")])
  | LoggedIn token expires user =>
      Some (JObj [jfield "expires_at" (@jtime utc expires); jtext "token" token;
                  jfield "user" (JObj (user_members user))])
  | UserBody u => Some (JObj (user_members u))
  | CaseBody i => Some (jrecord nil i)
  | PageBody items total pageSize pageOffset =>
      Some (JObj [jfield "items" match items with
                                 | Cases l => jrecords nil "items" l
                                 | Batches l => jrecords nil "items" l
                                 | Entries l => jrecords nil "items" l
                                 end;
                  jfield "total" (jint total); jfield "page_size" (jint pageSize);
                  jfield "page_offset" (jint pageOffset)])
  | DetailBody item assignments escalations audit =>
      Some (JObj [jfield "item" (jrecord nil item); jfield "assignments" (jrecords nil "assignments" assignments);
                  jfield "escalations" (jrecords nil "escalations" escalations);
                  jfield "audit" (jrecords nil "audit" audit)])
  | RuleBody r => Some (jrecord nil r)
  | RulesBody rules =>
      Some (JObj [jfield "rules" (jrecords nil "rules" rules); jfield "total" (jint (Z.of_nat (length rules)))])
  | ImportBody r =>
      Some (JObj [jtext "batch_id" (bi_BatchID r); jfield "total_rows" (jint (bi_TotalRows r));
                  jfield "success_count" (jint (bi_SuccessCount r));
                  jfield "failure_count" (jint (bi_FailureCount r));
                  jfield "results" (JArr (row_json <$> bi_Results r))])
  | BacklogBody counts overdue items =>
      Some (JObj [jfield "status_counts" (counts_json counts); jfield "overdue_count" (jint overdue);
                  jfield "overdue_items" (jrecords nil "overdue_items" items)])
  | FailuresBody l =>
      Some (JObj [jfield "failures" (jrecords nil "failures" l); jfield "total" (jint (Z.of_nat (length l)))])
  end.
(** The times of a payload, and the zone they are written in: the end of a
    session is in UTC. *)
Definition payload_zone `{zone : Zone} (p : payload) : Zone :=
  match p with LoggedIn _ _ _ => utc | _ => zone end.
Definition payload_times (p : payload) : list Time :=
  match p with
  | LoggedIn _ expires _ => [expires]
  | CaseBody i => rec_times i
  | PageBody (Cases l) _ _ _ => l ≫= rec_times
  | PageBody (Batches l) _ _ _ => l ≫= rec_times
  | PageBody (Entries l) _ _ _ => l ≫= rec_times
  | DetailBody i a e t => rec_times i ++ (a ≫= rec_times) ++ (e ≫= rec_times) ++ (t ≫= rec_times)
  | RuleBody r => rec_times r
  | RulesBody l => l ≫= rec_times
  | BacklogBody _ _ l => l ≫= rec_times
  | FailuresBody l => l ≫= rec_times
  | _ => []
  end.
(** [writeJSON]: the encoder writes nothing when a value does not encode; its
    error is dropped. *)
Definition rendered `{Zone} (nil : string → bool) (p : payload) : bytes :=
  match p with
  | PlainText s => to_bytes s
  | _ =>
      match payload_json nil p with
      | Some j =>
          if forallb (λ t, bool_decide (@formattable (payload_zone p) t)) (payload_times p)
          then print j ++ [byte 10] else []
      | None => []
      end
  end.

(** ** Errors as responses *)

Definition writeJSON (status : Z) (data : payload) : Response := {| rs_Status := status; rs_Body := data |}.
Definition writeError (requestID : string) (status : Z) (code message : string) : Response :=
  writeJSON status (ErrorResponse {| eb_Code := code; eb_Message := message; eb_RequestID := requestID |}).
Definition writeBadRequest (r : Request) (message : string) : Response :=
  writeError (hr_ID r) 400 "BAD_REQUEST" message.
(** Status and code of an error that is no [ValidationError]: the first
    sentinel of this order that is in its chain decides. *)
Definition error_status (err : derror) : Z * string :=
  if errors_is err ErrValidation then (400, "VALIDATION_ERROR")
  else if errors_is err ErrNotFound then (404, "NOT_FOUND")
  else if errors_is err ErrInvalidTransition then (409, "INVALID_TRANSITION")
  else if errors_is err ErrAlreadyCompleted then (409, "ALREADY_COMPLETED")
  else if errors_is err ErrAlreadyCancelled then (409, "ALREADY_CANCELLED")
  else if errors_is err ErrNoMatchingRule then (422, "NO_MATCHING_RULE")
  else if errors_is err ErrMaxEscalationReached then (409, "MAX_ESCALATION")
  else if errors_is err ErrDuplicate then (409, "DUPLICATE")
  else (500, "INTERNAL_ERROR").
Definition writeServiceError (r : Request) (err : derror) : Response :=
  match errors_as_field err with
  | Some (field, message) => writeError (hr_ID r) 400 "VALIDATION_ERROR" (field +:+ ": " +:+ message)
  | None =>
      let '(status, code) := error_status err in
      writeError (hr_ID r) status code (error_text domain_error_text err)
  end.

(** ** The process *)

(** [pc_scheduler]: [None] before [SetScheduler], then whether it is started. *)
Record Process : Type := {
  pc_world : World;
  pc_auth : Store;
  pc_scheduler : option bool;
  pc_worker : bool;
  pc_tick : nat
}.
#[export] Instance Process_eta : Eta Process := λ p, {|
  pc_world := pc_world p; pc_auth := pc_auth p; pc_scheduler := pc_scheduler p;
  pc_worker := pc_worker p; pc_tick := pc_tick p |}.
Abbreviation hop := (op Process Response).

(** [time.Now()], the text of an error of the JSON decoder, whether
    [os.CreateTemp] fails. *)
Class HttpEnv : Type := {
  wall_now : nat → Time;
  body_error : bytes → string;
  temp_fault : nat → option string
}.
(** What the router makes of a request: a route of the table and the values
    of its parameters, or an answer of its own (404, 405), below [/api] or
    not. *)
Inductive routing : Type :=
| Matched (route : nat) (params : string → string)
| Unmatched (mounted : bool) (status : Z) (text : string).
Class Router : Type := chi_match : list (string * string) → string → string → routing.
(** A route is one of the table, with the method of the request. *)
Class RouterLaws `(Router) : Prop := {
  chi_route table method path i params : chi_match table method path = Matched i params →
    fst <$> table !! i = Some method;
  chi_refuses table method path mounted status text : chi_match table method path = Unmatched mounted status text →
    status = 404 ∨ status = 405
}.

Section server.
Context `{Env, AuthEnv, HttpEnv, Router} (writer : Writer) (cfg : Config).

Definition http_ask {A} (answer : nat → A) : hop A := λ p,
  (p <| pc_tick := S (pc_tick p) |>, Ok (answer (pc_tick p))).
Definition time_now : hop Time := http_ask wall_now.
(** A call of a service; its error is the response. *)
Definition service {A} (r : Request) (m : dop A) : hop A := λ p,
  let '(w, res) := m (pc_world p) in
  (p <| pc_world := w |>, match res with Ok a => Ok a | Err e => Err (writeServiceError r e) end).
(** A call whose error the handler looks at. *)
Definition on_store {A} (m : dop A) : hop (result derror A) := λ p,
  let '(w, res) := m (pc_world p) in (p <| pc_world := w |>, Ok res).
Definition on_auth {A} (m : aop A) : hop (result aerror A) := λ p,
  let '(s, res) := m (pc_auth p) in (p <| pc_auth := s |>, Ok res).
Definition decode_body {R} (fields : list (string * decoder R)) (zero : R) (r : Request) : hop R :=
  must (Decode fields zero (hr_Body r)) (writeBadRequest r ("invalid JSON: " +:+ body_error (hr_Body r))).
Definition reply (status : Z) (data : payload) : hop Response := mret (writeJSON status data).

(** ** Sessions (handler_auth.go, middleware.go) *)

Definition unauthorized (requestID code message : string) : Response := writeError requestID 401 code message.

Definition login (r : Request) : hop Response :=
  req ← decode_body login_fields zero_login r;
  now ← time_now;
  res ← on_auth (Login (lr_Username req) (lr_Password req) (ac_SessionTTL (cf_Auth cfg)) now);
  match res with
  | Err err =>
      if errors_is err ErrInvalidCredentials
      then raise (unauthorized "" "INVALID_CREDENTIALS" "用户名或密码错误")
      else raise (writeError "" 500 "AUTH_STORE_ERROR" (error_text auth_error_text err))
  | Ok (user, token, expires) => reply 200 (LoggedIn token expires user)
  end.
Definition logout (r : Request) : hop Response :=
  let token := bearerToken r in
  _ ← ensure (negb (bool_decide (token = ""))) (unauthorized "" "UNAUTHORIZED" "缺少会话令牌");
  now ← time_now;
  res ← on_auth (Logout token now);
  match res with
  | Err _ => raise (unauthorized "" "INVALID_SESSION" "会话无效")
  | Ok _ => reply 204 NoBody
  end.
Definition me (r : Request) : hop Response :=
  let token := bearerToken r in
  _ ← ensure (negb (bool_decide (token = ""))) (unauthorized "" "UNAUTHORIZED" "缺少会话令牌");
  now ← time_now;
  res ← on_auth (Resolve token now);
  match res with
  | Err err =>
      if errors_is err ErrSessionExpired then raise (unauthorized "" "SESSION_EXPIRED" "会话已过期")
      else if errors_is err ErrSessionRevoked then raise (unauthorized "" "SESSION_REVOKED" "会话已退出")
      else raise (unauthorized "" "INVALID_SESSION" "会话无效")
  | Ok user => reply 200 (UserBody user)
  end.

(** The user it puts into the context of the request. *)
Definition authenticationMiddleware (r : Request) : hop User :=
  let token := bearerToken r in
  _ ← ensure (negb (bool_decide (token = ""))) (unauthorized (hr_ID r) "UNAUTHORIZED" "缺少会话令牌");
  now ← time_now;
  res ← on_auth (Resolve token now);
  match res with
  | Err err =>
      let code := if errors_is err ErrSessionRevoked then "SESSION_REVOKED"
                  else if errors_is err ErrSessionExpired then "SESSION_EXPIRED" else "INVALID_SESSION" in
      raise (unauthorized (hr_ID r) code "会话无效或已失效")
  | Ok user => mret user
  end.
Definition requireRoles (roles : list Role) (user : option User) (r : Request) : hop () :=
  let forbidden := writeError (hr_ID r) 403 "FORBIDDEN" "当前角色无权执行此操作" in
  match user with
  | None => raise forbidden
  | Some user => ensure (result_is_ok (RequireRole user roles)) forbidden
  end.

(** ** Health (server.go) *)

Definition healthz (r : Request) : hop Response := reply 200 (StatusText "alive").
Definition readyz (r : Request) : hop Response :=
  ping ← on_store Ping;
  let store := match ping with Ok _ => "ok" | Err e => "unavailable: " +:+ error_text domain_error_text e end in
  temp ← http_ask temp_fault;
  let data_dir := match temp with None => "ok" | Some t => "not writable: " +:+ t end in
  scheduler ← gets pc_scheduler;
  let scheduler := match scheduler with Some true => "ok" | _ => "not started" end in
  worker ← gets pc_worker;
  let reeval_worker := if (worker : bool) then "ok" else "not started" in
  let ready := result_is_ok ping && bool_decide (temp = None) && bool_decide (scheduler = "ok") && worker in
  reply (if ready then 200 else 503) (Readiness ready data_dir reeval_worker scheduler store).

(** ** Cases (handler_case.go) *)

Definition item_id (r : Request) (what : string) : hop string :=
  let id := hr_Param r "id" in
  _ ← ensure (negb (bool_decide (id = ""))) (writeBadRequest r what);
  mret id.

Definition registerItem (r : Request) : hop Response :=
  req ← decode_body register_fields zero_register r;
  item ← service r (Register writer (bc_DefaultDeadline (cf_Business cfg)) req);
  reply 201 (CaseBody item).
Definition listItems (r : Request) : hop Response :=
  let filter := parseItemFilter r in
  '(items, total) ← service r (ListItems filter);
  reply 200 (PageBody (Cases items) total (if_PageSize filter) (if_PageOffset filter)).
Definition getItemDetail (r : Request) : hop Response :=
  id ← item_id r "item id required";
  '(item, assignments, escalations, audit) ← service r (GetItemDetail writer id);
  reply 200 (DetailBody item assignments escalations audit).
Definition modifyItem (r : Request) : hop Response :=
  id ← item_id r "item id required";
  req ← decode_body modify_fields zero_modify r;
  item ← service r (Modify writer id req);
  reply 200 (CaseBody item).
Definition startProcessing (r : Request) : hop Response :=
  item ← service r (StartProcessing writer (hr_Param r "id") (query_or "actor" "unknown" r));
  reply 200 (CaseBody item).
Definition or_unknown (actor : string) : string := if bool_decide (actor = "") then "unknown" else actor.
Definition returnForCorrection (r : Request) : hop Response :=
  let req := Decode_ignoring reason_fields zero_reason (hr_Body r) in
  item ← service r (ReturnForCorrection writer (hr_Param r "id") (rr_Reason req) (or_unknown (rr_Actor req)));
  reply 200 (CaseBody item).
Definition resubmitItem (r : Request) : hop Response :=
  item ← service r (Resubmit writer (hr_Param r "id") (query_or "actor" "unknown" r));
  reply 200 (CaseBody item).
Definition cancelItem (r : Request) : hop Response :=
  let req := Decode_ignoring reason_fields zero_reason (hr_Body r) in
  item ← service r (Cancel writer (hr_Param r "id") (rr_Reason req) (or_unknown (rr_Actor req)));
  reply 200 (CaseBody item).
Definition completeItem (r : Request) : hop Response :=
  item ← service r (Complete writer (hr_Param r "id") (query_or "actor" "unknown" r));
  reply 200 (CaseBody item).

(** ** Rules (handler_rule.go) *)

Definition createRule (r : Request) : hop Response :=
  req ← decode_body create_rule_fields zero_create_rule r;
  rule ← service r (CreateRule writer req);
  reply 201 (RuleBody rule).
Definition listRules (r : Request) : hop Response :=
  rules ← service r Service_ListRules;
  reply 200 (RulesBody rules).
Definition getRule (r : Request) : hop Response :=
  version ← must (Atoi (hr_Param r "version")) (writeBadRequest r "invalid rule version");
  rule ← service r (Service_GetRule version);
  reply 200 (RuleBody rule).

(** ** Batches (handler_batch.go) *)

Definition batchImport (r : Request) : hop Response :=
  req ← decode_body import_fields zero_import r;
  result ← service r (Import writer (bc_DefaultDeadline (cf_Business cfg)) (ir_StoreID req)
                        (default [] (ir_Items req)));
  reply 200 (ImportBody result).
Definition batchExport (r : Request) : hop Response :=
  '(items, total) ← service r (Export (query_time "from" r) (query_time "to" r));
  reply 200 (PageBody (Cases items) total (Z.of_nat (length items)) 0).
Definition listBatches (r : Request) : hop Response :=
  let filter := parseBatchFilter r in
  '(batches, total) ← service r (ListBatches filter);
  reply 200 (PageBody (Batches batches) total (bf_PageSize filter) (bf_PageOffset filter)).

(** ** Queries (handler_query.go) *)

Definition getBacklog (r : Request) : hop Response :=
  '(counts, overdue, items) ← service r (GetBacklog writer);
  reply 200 (BacklogBody counts overdue items).
Definition listAudit (r : Request) : hop Response :=
  let filter := parseAuditFilter r in
  '(entries, total) ← service r (ListAudit filter);
  reply 200 (PageBody (Entries entries) total (af_PageSize filter) (af_PageOffset filter)).
Definition listFailures (r : Request) : hop Response :=
  failures ← service r ListFailures;
  reply 200 (FailuresBody failures).
Definition retryFailure (r : Request) : hop Response :=
  id ← item_id r "failure id required";
  _ ← service r (RetryFailure writer id (query_or "actor" "admin" r));
  reply 200 (StatusText "retried").

(** ** Routes ([setupRouter]) *)

(** [rt_mounted]: the route is below [r.Route("/api", ...)], which uses the
    authentication middleware if the configuration requires it. *)
Record Route : Type := {
  rt_method : string;
  rt_pattern : string;
  rt_mounted : bool;
  rt_roles : option (list Role);
  rt_handler : Request → hop Response
}.
Definition open_route (method pattern : string) (h : Request → hop Response) : Route :=
  {| rt_method := method; rt_pattern := pattern; rt_mounted := false; rt_roles := None; rt_handler := h |}.
Definition api_route (method pattern : string) (h : Request → hop Response) : Route :=
  {| rt_method := method; rt_pattern := "/api" +:+ pattern; rt_mounted := true; rt_roles := None; rt_handler := h |}.
Definition guarded_route (roles : list Role) (method pattern : string) (h : Request → hop Response) : Route :=
  {| rt_method := method; rt_pattern := "/api" +:+ pattern; rt_mounted := true; rt_roles := Some roles;
     rt_handler := h |}.
Definition routes : list Route := [
  open_route "GET" "/healthz" healthz;
  open_route "GET" "/readyz" readyz;
  open_route "POST" "/api/auth/login" login;
  open_route "POST" "/api/auth/logout" logout;
  open_route "GET" "/api/auth/me" me;
  api_route "POST" "/items/" registerItem;
  api_route "GET" "/items/" listItems;
  api_route "GET" "/items/{id}" getItemDetail;
  api_route "PATCH" "/items/{id}" modifyItem;
  api_route "POST" "/items/{id}/start" startProcessing;
  api_route "POST" "/items/{id}/return" returnForCorrection;
  api_route "POST" "/items/{id}/resubmit" resubmitItem;
  api_route "POST" "/items/{id}/cancel" cancelItem;
  api_route "POST" "/items/{id}/complete" completeItem;
  guarded_route [RoleAdmin; RoleLightingAssessor] "POST" "/rules/" createRule;
  api_route "GET" "/rules/" listRules;
  api_route "GET" "/rules/{version}" getRule;
  guarded_route [RoleAdmin; RoleLightingAssessor] "POST" "/batches/import" batchImport;
  api_route "GET" "/batches/export" batchExport;
  api_route "GET" "/batches/" listBatches;
  api_route "GET" "/stats/backlog" getBacklog;
  api_route "GET" "/audit" listAudit;
  api_route "GET" "/failures/" listFailures;
  guarded_route [RoleAdmin] "POST" "/failures/{id}/retry" retryFailure
].

(** The middleware of the [/api] block: the user of the request, if there is
    one in its context. *)
Definition authenticated (mounted : bool) (r : Request) : hop (option User) :=
  if mounted && ac_Required (cf_Auth cfg)
  then user ← authenticationMiddleware r; mret (Some user)
  else mret None.
Definition dispatch (r : Request) : hop Response :=
  match chi_match ((λ rt, (rt_method rt, rt_pattern rt)) <$> routes) (hr_Method r) (hr_Path r) with
  | Unmatched mounted status text =>
      _ ← authenticated mounted r;
      reply status (PlainText text)
  | Matched i params =>
      match routes !! i with
      | None => reply 404 (PlainText "404 page not found")
      | Some rt =>
          user ← authenticated (rt_mounted rt) r;
          _ ← match rt_roles rt with
              | Some roles => requireRoles roles user r
              | None => mret ()
              end;
          rt_handler rt (r <| hr_Param := params |>)
      end
  end.
Definition ServeHTTP (r : Request) (p : Process) : Process * Response :=
  match dispatch r p with
  | (p, Ok response) => (p, response)
  | (p, Err response) => (p, response)
  end.
End server.
