(* ===== verification/Middleware.v ===== *)
(** * HTTP: the middleware around the routes

    [loggingMiddleware] and [recoveryMiddleware] of [internal/httpapi], and the
    writing of an answer. A handler works on an [Exchange]: the process, the
    log, what has been written to the client; it returns or panics. The
    router's own middleware is chi's: [hr_ID] is the ID it gives a request. *)
From S2P Require Import Prelude GoErrors GoStrings GoNumbers GoTime Domain World Shard Auth Config Http HttpServer AppLog.

(** ** Exchanges *)

(** [xc_status]: what [WriteHeader] was called with first. *)
Record Exchange : Type := {
  xc_process : Process;
  xc_log : list Entry;
  xc_status : option Z;
  xc_body : bytes
}.
#[export] Instance Exchange_eta : Eta Exchange := λ x, {|
  xc_process := xc_process x; xc_log := xc_log x; xc_status := xc_status x; xc_body := xc_body x |}.
(** How a handler ends: the value of a panic is its text. *)
Inductive finish : Type := Returned | Panicked (value : string).
Definition Handler : Type := Request → Exchange → Exchange * finish.

Definition exchange (p : Process) (log : list Entry) : Exchange :=
  {| xc_process := p; xc_log := log; xc_status := None; xc_body := [] |}.

(** ** Writing *)

(** Only the first call counts. *)
Definition WriteHeader (status : Z) (x : Exchange) : Exchange :=
  match xc_status x with
  | None => x <| xc_status := Some status |>
  | Some _ => x
  end.
Definition Write (data : bytes) (x : Exchange) : Exchange :=
  let x := WriteHeader 200 x in
  x <| xc_body := xc_body x ++ data |>.
(** The encoder writes a value in one piece, or nothing. *)
Definition respond `{Zone} (nil : string → bool) (response : Response) (x : Exchange) : Exchange :=
  let x := WriteHeader (rs_Status response) x in
  match rendered nil (rs_Body response) with
  | [] => x
  | data => Write data x
  end.

(** [time.Since(start)], which does not wrap *)
Definition Since (start now : Time) : Duration := Z.max min_i64 (Z.min max_i64 (now - start)).

(** A question to the clock has been asked. *)
Definition clock_ticked (p : Process) : Process := p <| pc_tick := S (pc_tick p) |>.

Section middleware.
Context `{Env, AuthEnv, HttpEnv, Router} (logger : Logger) (nil : string → bool).

Definition log_entry (level : Level) (fields : list (string * field)) (message : string) (x : Exchange) : Exchange :=
  x <| xc_log := xc_log x ++ entry logger level fields message |>.
(** [time.Now()] *)
Definition clock_read (x : Exchange) : Exchange * Time :=
  (x <| xc_process ::= clock_ticked |>, wall_now (pc_tick (xc_process x))).

(** A panic of [next] passes through, and nothing is logged. *)
Definition loggingMiddleware (next : Handler) : Handler := λ r x,
  let '(x, start) := clock_read x in
  match next r x with
  | (x, Panicked value) => (x, Panicked value)
  | (x, Returned) =>
      let '(x, now) := clock_read x in
      (log_entry InfoLevel
         [("method", FText (hr_Method r)); ("path", FText (hr_Path r));
          ("status", FInt (default 0 (xc_status x))); ("duration", FDuration (Since start now));
          ("request_id", FText (hr_ID r))] "request" x, Returned)
  end.
(** The stack of the goroutine is left out of the entry. *)
Definition recoveryMiddleware (next : Handler) : Handler := λ r x,
  match next r x with
  | (x, Panicked value) =>
      let x := log_entry ErrorLevel [("panic", FText value); ("request_id", FText (hr_ID r))] "panic recovered" x in
      (respond nil (writeError (hr_ID r) 500 "PANIC" "internal panic") x, Returned)
  | done => done
  end.

(** The chain of [setupRouter]; the routes at its end. *)
Definition chain (next : Handler) : Handler := loggingMiddleware (recoveryMiddleware next).
Definition route_handler (writer : Writer) (cfg : Config) : Handler := λ r x,
  let '(p, response) := ServeHTTP writer cfg r (xc_process x) in
  (respond nil response (x <| xc_process := p |>), Returned).
Definition serve_request (writer : Writer) (cfg : Config) (r : Request) (p : Process) (log : list Entry) : Exchange :=
  fst (chain (route_handler writer cfg) r (exchange p log)).
End middleware.
