(* ===== verification/Worker.v ===== *)
(** * The re-evaluation worker

    [internal/worker]: when a newer dispatch rule exists, the cases that are
    still registered or adjudicated under an older rule are adjudicated again.
    The worker's counters are part of its state; [wk_running] is its run
    mutex. *)
From S2P Require Import Prelude GoErrors GoStrings GoTime Domain Dispatch World Shard Index Repo.
From S2P Require Import AuditLog Services.

Record Worker : Type := {
  wk_world : World;
  wk_running : bool;
  wk_cycles : Z;
  wk_reevaled : Z;
  wk_skipped : Z;
  wk_failed : Z
}.
#[export] Instance Worker_eta : Eta Worker := λ k, {|
  wk_world := wk_world k; wk_running := wk_running k; wk_cycles := wk_cycles k;
  wk_reevaled := wk_reevaled k; wk_skipped := wk_skipped k; wk_failed := wk_failed k |}.

Abbreviation kop := (op Worker derror).

(** An operation of the store, run by the worker. *)
Definition on_world {A} (m : dop A) : kop A := λ k,
  let '(w, r) := m (wk_world k) in (k <| wk_world := w |>, r).

Definition count_skipped (k : Worker) : Worker := k <| wk_skipped := wk_skipped k +ᵢ 1 |>.
Definition count_failed (k : Worker) : Worker := k <| wk_failed := wk_failed k +ᵢ 1 |>.
Definition count_reevaled (k : Worker) : Worker := k <| wk_reevaled := wk_reevaled k +ᵢ 1 |>.

(** ** Re-evaluation (reeval.go) *)

Definition reevaluableStatuses : list ItemStatus := [StatusRegistered; StatusAdjudicated].
Definition sweepPageSize : Z := 200.
Definition isReevaluable (s : ItemStatus) : bool :=
  existsb (λ r, bool_decide (s = r)) reevaluableStatuses.

(** [fmt.Errorf("<what>: %w: %w", err, ErrRuleReeval)] *)
Definition reeval_error (what : string) (e : derror) : derror :=
  Join (what +:+ ": ") e (Sentinel ErrRuleReeval).

Section worker.
Context `{Env} (writer : Writer).

(** The pages of one status: [None] when [fuel] pages were all full. *)
Fixpoint collect_status (fuel : nat) (status : ItemStatus) (currentVersion offset : Z) :
    dop (option (list ComplianceCase)) :=
  match fuel with
  | O => mret None
  | S fuel =>
      page ← wrapping (errorf ("list " +:+ status_text status +:+ " items offset " +:+ itoa offset))
        (ListItems {| if_Status := status; if_LeadDepartment := ""; if_StoreID := "";
           if_RegisteredBy := ""; if_From := zero_stamp; if_To := zero_stamp;
           if_OverdueOnly := false; if_PageSize := sweepPageSize; if_PageOffset := offset |});
      let items := fst page in
      let stale := List.filter (λ it, ic_RuleVersion it <? currentVersion) items in
      if Z.of_nat (length items) <? sweepPageSize then mret (Some stale)
      else
        rest ← collect_status fuel status currentVersion (offset +ᵢ sweepPageSize);
        mret (app stale <$> rest)
  end.

Definition collectStaleItems (fuel : nat) (currentVersion : Z) :
    dop (option (list ComplianceCase)) :=
  registered ← collect_status fuel StatusRegistered currentVersion 0;
  match registered with
  | None => mret None
  | Some registered =>
      adjudicated ← collect_status fuel StatusAdjudicated currentVersion 0;
      mret (app registered <$> adjudicated)
  end.

(** The transaction that re-routes a case. *)
Definition reroute (fresh : ComplianceCase) (referral : Referral) (oldVersion : Z) (now : Time) :
    dop () :=
  WithTx (
    _ ← wrapping (errorf "supersede old referral") (Tx_MarkAssignmentSuperseded (ic_ID fresh));
    _ ← wrapping (errorf "save new referral") (SaveAssignment writer referral);
    fresh ← wrapping (errorf "update item") (Tx_UpdateItem writer fresh);
    save_audit writer (ic_ID fresh) "item" ActionRuleReevaluated "system" now
      ("rule v" +:+ itoa oldVersion +:+ "->v" +:+ itoa (rf_RuleVersion referral) +:+ " lead "
       +:+ rf_LeadDepartment referral)).

Definition reevaluateItem (item : ComplianceCase) (rules : list Rule) (currentVersion : Z) :
    kop () :=
  fresh ← on_world (wrapping (errorf ("reload item " +:+ ic_ID item)) (GetItem (ic_ID item)));
  if currentVersion <=? ic_RuleVersion fresh then modify count_skipped
  else if IsTerminal (ic_Status fresh) then modify count_skipped
  else if negb (isReevaluable (ic_Status fresh)) then modify count_skipped
  else on_result (on_world (adjudicate fresh rules)) (λ r,
    match r with
    | Err e =>
        if errors_is e ErrNoMatchingRule then modify count_skipped
        else raise (errorf ("adjudicate item " +:+ ic_ID fresh) e)
    | Ok referral =>
        now ← on_world clock_now;
        adjudicated ← lift (if bool_decide (ic_Status fresh = StatusRegistered) then
                              match TransitionTo fresh StatusAdjudicated with
                              | Ok i => Ok i
                              | Err e => Err (errorf ("transition item " +:+ ic_ID fresh) e)
                              end
                            else Ok fresh);
        let updated := (routed adjudicated referral) <| ic_UpdatedAt := now |> in
        _ ← on_world (wrapping (errorf ("reeval tx for " +:+ ic_ID fresh))
              (reroute updated referral (ic_RuleVersion fresh) now));
        modify count_reevaled
    end).

(** The loop over the stale items: a failed item is counted and the loop goes
    on; a cancelled context ends it. *)
Fixpoint sweep_items (stale : list ComplianceCase) (rules : list Rule) (currentVersion : Z) :
    kop () :=
  match stale with
  | [] => mret ()
  | item :: stale =>
      _ ← on_world (wrapping (reeval_error "sweep canceled") poll_ctx);
      on_result (reevaluateItem item rules currentVersion) (λ r,
        match r with
        | Ok _ => sweep_items stale rules currentVersion
        | Err _ => _ ← modify count_failed; sweep_items stale rules currentVersion
        end)
  end.

(** [None]: the page loop has not come to its end within the fuel. Nothing
    else of the sweep has happened then. *)
Definition sweep (fuel : nat) : kop (option ()) :=
  current ← on_world (wrapping (reeval_error "get current rule version") GetCurrentRuleVersion);
  if current =? 0 then mret (Some ())
  else
    now ← on_world clock_now;
    rules ← on_world (wrapping (reeval_error "get active rules") (GetActiveRules now));
    stale ← on_world (wrapping (reeval_error "collect stale items") (collectStaleItems fuel current));
    match stale with
    | None => mret None
    | Some stale => _ ← sweep_items stale rules current; mret (Some ())
    end.

(** ** The loop (worker.go) *)

(** A sweep that has not ended keeps the mutex. *)
Definition RunOnce (fuel : nat) : kop (option ()) := λ k,
  if wk_running k then (count_skipped k, Ok (Some ()))
  else
    match sweep fuel (k <| wk_running := true |>) with
    | (k, Ok None) => (k, Ok None)
    | (k, r) => (k <| wk_running := false |>, r)
    end.

(** One tick of the loop, as far as the fuel goes: a worker that is still
    [wk_running] after it is in its sweep. *)
Definition worker_tick (fuel : nat) (k : Worker) : Worker :=
  let k := k <| wk_cycles := wk_cycles k +ᵢ 1 |> in
  match RunOnce fuel k with
  | (k, Ok _) => k
  | (k, Err _) => count_failed k
  end.
End worker.
