(* ===== verification/Scheduler.v ===== *)
(** * The scheduler

    [internal/scheduler]: periodic tasks with bounded retries. [runWithRetry]
    runs a task until it succeeds, the context ends during a back-off, or the
    attempts are exhausted, in which case a permanent failure is recorded. *)
From S2P Require Import Prelude GoErrors GoStrings GoTime Config Domain World Shard Index Repo AuditLog.
From S2P Require Import Services Rebuild.

(** [s.config.BaseBackoff * time.Duration(1<<shift)]: [uint(attempt-1)] wraps,
    but [attempt] is at least one. *)
Definition calculateBackoff (cfg : SchedulerConfig) (attempt : Z) : Duration :=
  let attempt := if attempt <=? 0 then 1 else attempt in
  let shift := (attempt -ᵢ 1) mod 2 ^ 64 in
  let shift := if 10 <? shift then 10 else shift in
  sg_BaseBackoff cfg *ᵢ Z.shiftl 1 shift.

(** How [runWithRetry] ends. *)
Inductive retry_end : Type :=
| Succeeded
(** the context ended during a back-off *)
| Interrupted
(** the attempts are used up; the result of recording the failure *)
| Exhausted (cause : derror) (recorded : result derror ())
| OutOfFuel.

Section scheduler.
Context `{Env} (writer : Writer) (cfg : SchedulerConfig).

Definition recordTaskFailure (taskName : string) (cause : derror) (attempts : Z) : dop () :=
  now ← clock_now;
  uuid ← new_uuid;
  let failure := {| pf_ID := uuid; pf_EntityType := "scheduler_task"; pf_EntityID := taskName;
    pf_TaskType := taskName; pf_LastError := error_text domain_error_text cause;
    pf_Attempts := attempts;
    pf_FirstFailedAt := Add now (i64 (- sg_BaseBackoff cfg) *ᵢ attempts);
    pf_LastFailedAt := now; pf_Status := FailureStatusActive; pf_ResolvedAt := None;
    pf_NextRetryAt := None; pf_BackoffState := "exhausted after " +:+ itoa attempts +:+ " attempts";
    pf_DataVersion := DataVersion |} in
  WithTx (SaveFailure writer failure).

(** The loop; it also yields the back-offs it waited for. *)
Fixpoint retry_loop (fuel : nat) (taskName : string) (fn : dop ()) (attempts : Z) (w : World) :
    World * (retry_end * list Duration) :=
  match fuel with
  | O => (w, (OutOfFuel, []))
  | S fuel =>
      match fn w with
      | (w, Ok _) => (w, (Succeeded, []))
      | (w, Err e) =>
          let attempts := attempts +ᵢ 1 in
          if sg_MaxRetries cfg <=? attempts then
            let '(w, ferr) := recordTaskFailure taskName e attempts w in
            (w, (Exhausted e ferr, []))
          else
            let backoff := calculateBackoff cfg attempts in
            match ask env_ctx w with
            | (w, Ok (Some _)) => (w, (Interrupted, []))
            | (w, _) =>
                let '(w, (r, waits)) := retry_loop fuel taskName fn attempts w in
                (w, (r, backoff :: waits))
            end
      end
  end.
Definition runWithRetry (taskName : string) (fn : dop ()) (w : World) :
    World * (retry_end * list Duration) :=
  retry_loop (Z.to_nat (Z.max 1 (sg_MaxRetries cfg))) taskName fn 0 w.

Definition runEscalationOnce (deadlineExtension : Duration) (maxLevel : Z) : dop () := λ w,
  match CheckAndEscalate writer deadlineExtension maxLevel w with
  | (w, (_, Some e)) => (w, Err (errorf "escalation check" e))
  | (w, (_, None)) => (w, Ok ())
  end.
(** The report only goes to the log. *)
Definition runReconciliationOnce (root : string) : dop () := λ w,
  match Reconcile root (w, empty_reconcile) with
  | ((w, _), Err e) => (w, Err (errorf "reconcile" e))
  | ((w, _), Ok _) => (w, Ok ())
  end.
End scheduler.
