(* ===== verification/Lifecycle.v ===== *)
(** * Goroutines: background loops and the shutdown

    [Start], [Stop], the loops and [RunOnce] of [internal/worker] worker.go and
    [internal/scheduler] scheduler.go, and [main] of [cmd/lightgovernance],
    as transition systems. A transition is what one goroutine does between two
    points where another can interfere: it makes its ticker, looks at the
    channel of a context, takes a tick, takes or gives back the run mutex,
    waits for the group. What a sweep or a task does is in Worker and
    Scheduler. *)
From S2P Require Import Prelude Config.

(** ** Loops *)

(** Where the goroutine of a loop is: about to make the ticker with its
    interval; before its next [select]; in it, with the channel of the context
    it read from the field [ctx]; in a sweep or a task; after its [return]. *)
Inductive loop : Type :=
| Starting (interval : Z)
| Selecting
| Waiting (ctx : nat)
| Working
| Exited.
#[export] Instance loop_eq_dec : EqDecision loop.
Proof. solve_decision. Defined.

(** [time.NewTicker], also behind the clock's [Ticker], panics if the interval
    is not positive; in a goroutine without [recover] this ends the process. *)
Definition panicking (l : loop) : bool :=
  match l with Starting interval => interval <=? 0 | _ => false end.

(** Contexts are numbered as they are made. *)
Record Loops : Type := {
  lo_ctx : option nat;
  lo_made : nat;
  lo_cancelled : list nat;
  (** [wg], [started], [runMu] and whether a caller of [RunOnce] holds it *)
  lo_wg : Z;
  lo_started : bool;
  lo_lock : bool;
  lo_manual : bool;
  lo_loops : list loop;
  (** [Stop] has cancelled and waits *)
  lo_stopping : bool
}.
#[export] Instance Loops_eta : Eta Loops := λ s, {|
  lo_ctx := lo_ctx s; lo_made := lo_made s; lo_cancelled := lo_cancelled s; lo_wg := lo_wg s;
  lo_started := lo_started s; lo_lock := lo_lock s; lo_manual := lo_manual s; lo_loops := lo_loops s;
  lo_stopping := lo_stopping s |}.
Definition new_loops : Loops := {|
  lo_ctx := None; lo_made := 0; lo_cancelled := []; lo_wg := 0; lo_started := false;
  lo_lock := false; lo_manual := false; lo_loops := []; lo_stopping := false |}.

Inductive move : Type :=
| Start
| StopCancel
| StopReturn
| LoopTicker (i : nat)
| LoopSelect (i : nat)
| LoopExit (i : nat)
| LoopTick (i : nat)
| LoopFinish (i : nat)
| RunBegin
| RunEnd.

(** [guarded]: a tick needs the run mutex, as the worker's does; [intervals]
    are those of the loops that [Start] starts. *)
Section loops.
Context (guarded : bool) (intervals : list Z).

Definition set_loop (i : nat) (l : loop) (s : Loops) : Loops := s <| lo_loops := <[i := l]> (lo_loops s) |>.

(** [Start] *)
Definition start (s : Loops) : Loops :=
  s <| lo_ctx := Some (lo_made s) |> <| lo_made := S (lo_made s) |>
    <| lo_wg := lo_wg s + Z.of_nat (length intervals) |> <| lo_loops := lo_loops s ++ (Starting <$> intervals) |>
    <| lo_started := true |>.
(** [Stop]: it cancels the context of the last [Start], then waits. *)
Definition stop_cancel (s : Loops) : Loops :=
  s <| lo_cancelled := option_list (lo_ctx s) ++ lo_cancelled s |> <| lo_stopping := true |>.
Definition stop_return (s : Loops) : option Loops :=
  if lo_stopping s && (lo_wg s =? 0)
  then Some (s <| lo_started := false |> <| lo_stopping := false |>) else None.
(** The loop makes its ticker; with an interval that is not positive it does
    not come further than that. *)
Definition loop_ticker (i : nat) (s : Loops) : option Loops :=
  match lo_loops s !! i with
  | Some (Starting interval) => if panicking (Starting interval) then None else Some (set_loop i Selecting s)
  | _ => None
  end.
(** It evaluates [w.ctx.Done()] when it comes to the [select]. *)
Definition loop_select (i : nat) (s : Loops) : option Loops :=
  match lo_loops s !! i, lo_ctx s with
  | Some Selecting, Some c => Some (set_loop i (Waiting c) s)
  | _, _ => None
  end.
Definition loop_exit (i : nat) (s : Loops) : option Loops :=
  match lo_loops s !! i with
  | Some (Waiting c) =>
      if bool_decide (c ∈ lo_cancelled s)
      then Some (set_loop i Exited s <| lo_wg := lo_wg s - 1 |>) else None
  | _ => None
  end.
(** A tick, also when the context is cancelled: a [select] with two channels
    ready picks either. Without the mutex the run is skipped. *)
Definition loop_tick (i : nat) (s : Loops) : option Loops :=
  match lo_loops s !! i with
  | Some (Waiting _) =>
      Some (if guarded && lo_lock s then set_loop i Selecting s
            else set_loop i Working s <| lo_lock := guarded |>)
  | _ => None
  end.
Definition loop_finish (i : nat) (s : Loops) : option Loops :=
  match lo_loops s !! i with
  | Some Working => Some (set_loop i Selecting s <| lo_lock := false |>)
  | _ => None
  end.
(** [RunOnce], called by others; a call that finds the mutex taken changes
    nothing. *)
Definition run_begin (s : Loops) : option Loops :=
  if guarded && negb (lo_lock s) then Some (s <| lo_lock := true |> <| lo_manual := true |>) else None.
Definition run_end (s : Loops) : option Loops :=
  if lo_manual s then Some (s <| lo_lock := false |> <| lo_manual := false |>) else None.

(** What a move makes of the state, if it can be made. *)
Definition make (m : move) (s : Loops) : option Loops :=
  match m with
  | Start => Some (start s)
  | StopCancel => Some (stop_cancel s)
  | StopReturn => stop_return s
  | LoopTicker i => loop_ticker i s
  | LoopSelect i => loop_select i s
  | LoopExit i => loop_exit i s
  | LoopTick i => loop_tick i s
  | LoopFinish i => loop_finish i s
  | RunBegin => run_begin s
  | RunEnd => run_end s
  end.
Definition moves (s : Loops) (m : move) (s' : Loops) : Prop := make m s = Some s'.
End loops.
Arguments start intervals s /.
Arguments stop_cancel s /.
Arguments stop_return s /.
Arguments loop_ticker i s /.
Arguments loop_select i s /.
Arguments loop_exit i s /.
Arguments loop_tick guarded i s /.
Arguments loop_finish i s /.
Arguments run_begin guarded s /.
Arguments run_end s /.

(** The worker has one loop and a mutex, the scheduler two loops and none. *)
Definition worker_intervals (cfg : SchedulerConfig) : list Z := [sg_ReevalInterval cfg].
Definition scheduler_intervals (cfg : SchedulerConfig) : list Z :=
  [sg_EscalationInterval cfg; sg_ReconciliationInterval cfg].
Definition worker_make (cfg : SchedulerConfig) : move → Loops → option Loops := make true (worker_intervals cfg).
Definition scheduler_make (cfg : SchedulerConfig) : move → Loops → option Loops :=
  make false (scheduler_intervals cfg).
(** The intervals with which every ticker can be made; [Config.Validate] does
    not ask for it. *)
Definition tickers_ok (cfg : SchedulerConfig) : bool :=
  forallb (λ interval, 0 <? interval) (scheduler_intervals cfg ++ worker_intervals cfg).
(** What the goroutines of the loops do by themselves; without a tick. *)
Definition of_loop (m : move) : bool :=
  match m with LoopTicker _ | LoopSelect _ | LoopExit _ | LoopTick _ | LoopFinish _ => true | _ => false end.
Definition without_tick (m : move) : bool :=
  match m with LoopTicker _ | LoopSelect _ | LoopExit _ | LoopFinish _ => true | _ => false end.

(** ** The server process ([main]) *)

(** The goroutine that waits for a signal. *)
Inductive signal_pc : Type :=
| AwaitSignal
| InShutdown
| StopScheduler
| StopWorker
| CloseStore
| SignalDone.

Record Server : Type := {
  sr_scheduler : Loops;
  sr_worker : Loops;
  (** requests in flight; the listeners are closed; the store is closed; the
      process has exited *)
  sr_requests : nat;
  sr_closing : bool;
  sr_signal : signal_pc;
  sr_closed : bool;
  sr_exited : bool
}.
#[export] Instance Server_eta : Eta Server := λ p, {|
  sr_scheduler := sr_scheduler p; sr_worker := sr_worker p; sr_requests := sr_requests p;
  sr_closing := sr_closing p; sr_signal := sr_signal p; sr_closed := sr_closed p;
  sr_exited := sr_exited p |}.

Inductive event : Type :=
| Arrive
| Respond
| SchedulerMove (m : move)
| WorkerMove (m : move)
| Signal
(** [Shutdown] returns: no request is left, or its context has ended *)
| ShutdownDone
| ShutdownTimeout
| SchedulerStopped
| WorkerStopped
| StoreClosed
(** [ListenAndServe] fails; it returns because of [Shutdown]; [main] returns *)
| ListenFails
| MainReturns
(** a loop cannot make its ticker: the runtime ends the process. (The deferred
    [wg.Done] of the goroutine runs just before.) *)
| LoopPanics.

Definition panics (s : Loops) : bool := existsb panicking (lo_loops s).
Section server.
Context (cfg : SchedulerConfig).

Definition happen (e : event) (p : Server) : option Server :=
  if sr_exited p then None
  else match e, sr_signal p with
  | Arrive, _ => if sr_closing p then None else Some (p <| sr_requests := S (sr_requests p) |>)
  | Respond, _ =>
      match sr_requests p with
      | O => None
      | S n => Some (p <| sr_requests := n |>)
      end
  | SchedulerMove m, _ =>
      if of_loop m then s ← scheduler_make cfg m (sr_scheduler p); Some (p <| sr_scheduler := s |>) else None
  | WorkerMove m, _ =>
      if of_loop m then s ← worker_make cfg m (sr_worker p); Some (p <| sr_worker := s |>) else None
  | Signal, AwaitSignal => Some (p <| sr_closing := true |> <| sr_signal := InShutdown |>)
  | ShutdownDone, InShutdown =>
      if bool_decide (sr_requests p = 0%nat)
      then s ← scheduler_make cfg StopCancel (sr_scheduler p);
           Some (p <| sr_scheduler := s |> <| sr_signal := StopScheduler |>)
      else None
  | ShutdownTimeout, InShutdown =>
      s ← scheduler_make cfg StopCancel (sr_scheduler p);
      Some (p <| sr_scheduler := s |> <| sr_signal := StopScheduler |>)
  | SchedulerStopped, StopScheduler =>
      s ← scheduler_make cfg StopReturn (sr_scheduler p);
      w ← worker_make cfg StopCancel (sr_worker p);
      Some (p <| sr_scheduler := s |> <| sr_worker := w |> <| sr_signal := StopWorker |>)
  | WorkerStopped, StopWorker =>
      w ← worker_make cfg StopReturn (sr_worker p);
      Some (p <| sr_worker := w |> <| sr_signal := CloseStore |>)
  | StoreClosed, CloseStore => Some (p <| sr_closed := true |> <| sr_signal := SignalDone |>)
  | ListenFails, _ => Some (p <| sr_exited := true |>)
  | MainReturns, _ => if sr_closing p then Some (p <| sr_exited := true |>) else None
  | LoopPanics, _ =>
      if panics (sr_scheduler p) || panics (sr_worker p) then Some (p <| sr_exited := true |>) else None
  | _, _ => None
  end.
Definition happens (p : Server) (e : event) (p' : Server) : Prop := happen e p = Some p'.
(** The server as [main] leaves it when it calls [ListenAndServe]. *)
Definition serving (p : Server) : Prop :=
  scheduler_make cfg Start new_loops = Some (sr_scheduler p) ∧ worker_make cfg Start new_loops = Some (sr_worker p) ∧
  sr_requests p = 0%nat ∧ sr_closing p = false ∧ sr_signal p = AwaitSignal ∧ sr_closed p = false ∧
  sr_exited p = false.
End server.
