(* ===== verification/Boot.v ===== *)
(** * The server process from its start to its end

    [main] of [cmd/lightgovernance] up to [ListenAndServe], with [New] of
    [internal/httpapi], on the machine of Hubctl; and the life of a machine on
    which the process is started, serves requests, runs its tasks and sweeps,
    and ends or panics, any number of times. The goroutines after the start and the
    shutdown itself are in Lifecycle. *)
From S2P Require Import Prelude GoErrors GoStrings GoNumbers GoTime GoPaths Domain World Shard Index Repo Rebuild.
From S2P Require Import Migrate Records Auth Config AppLog Services Http Hubctl HttpServer Middleware Worker Scheduler.
From S2P Require Import Lifecycle.

(** ** The host of the process

    The machine, what was logged, and the numbers of the next questions to
    the environments of the user store and of the HTTP server. *)
Record Host : Type := {
  ho_machine : Machine;
  ho_log : list Entry;
  ho_auth_tick : nat;
  ho_http_tick : nat
}.
#[export] Instance Host_eta : Eta Host := λ h, {|
  ho_machine := ho_machine h; ho_log := ho_log h; ho_auth_tick := ho_auth_tick h;
  ho_http_tick := ho_http_tick h |}.

(** How the process ends before it listens. *)
Inductive stop : Type :=
| Exit (status : Z)
| Panic (text : string).
Abbreviation bop := (op Host stop).

(** What runs when [main] calls [ListenAndServe]: the HTTP server over the
    process's state, the worker's counters, the goroutines. *)
Record App : Type := {
  ap_config : Config;
  ap_writer : Writer;
  ap_logger : Logger;
  ap_process : Process;
  ap_worker : Worker;
  ap_server : Server
}.
#[export] Instance App_eta : Eta App := λ a, {|
  ap_config := ap_config a; ap_writer := ap_writer a; ap_logger := ap_logger a; ap_process := ap_process a;
  ap_worker := ap_worker a; ap_server := ap_server a |}.

Definition on_machine {A} (m : cop A) : bop A := λ h,
  let '(mc, r) := m (ho_machine h) in
  (h <| ho_machine := mc |>, match r with Ok a => Ok a | Err status => Err (Exit status) end).
Definition logs (logger : Logger) (level : Level) (fields : list (string * field)) (message : string) : bop () :=
  modify (λ h, h <| ho_log := ho_log h ++ entry logger level fields message |>).

(** ** [httpapi.New] *)

(** The path of the file of users and sessions: a relative one is moved into
    the data directory. *)
Definition authPath (cfg : Config) : string :=
  let path := ac_StorePath (cf_Auth cfg) in
  let dir := st_DataDir (cf_Storage cfg) in
  if negb (IsAbs path) && negb (bool_decide (dir = "")) then Join [dir; Base path] else path.
Definition bootstrap_user (u : AuthBootstrapUser) : BootstrapUser := {|
  bu_ID := ab_ID u; bu_Username := ab_Username u; bu_Password := ab_Password u;
  bu_Role := role_of_text (ab_Role u) |}.
Definition bootstrap_users (cfg : Config) : list BootstrapUser := bootstrap_user <$> ac_BootstrapUsers (cf_Auth cfg).

(** The file of the user store, before and after. *)
Definition auth_at (path : string) (h : Host) : Auth.Store := {|
  st_data := empty_disk; st_disk := mc_fs (ho_machine h) !! path; st_tick := ho_auth_tick h |}.
Definition put_auth (path : string) (s : Auth.Store) (h : Host) : Host :=
  h <| ho_machine ::= λ m, m <| mc_fs := partial_alter (λ _, st_disk s) path (mc_fs m) |> |>
    <| ho_auth_tick := st_tick s |>.

Section boot.
Context `{Env, Migrations, ConfigEnv, AuthEnv, HttpEnv, Router}.

Definition open_auth (cfg : Config) : bop Auth.Store := λ h,
  match Auth.Open (bootstrap_users cfg) (auth_at (authPath cfg) h) with
  | (s, Ok _) => (put_auth (authPath cfg) s h, Ok s)
  | (s, Err e) => (put_auth (authPath cfg) s h, Err (Panic ("open auth store: " +:+ error_text auth_error_text e)))
  end.
(** The services have no state of their own; there is no scheduler yet, and
    the worker is not started. *)
Definition New_server (cfg : Config) : bop Process :=
  auth ← open_auth cfg;
  h ← gets id;
  mret {| pc_world := world_at (data_dir cfg) (ho_machine h); pc_auth := auth; pc_scheduler := None;
          pc_worker := false; pc_tick := ho_http_tick h |}.

(** ** [main], up to [ListenAndServe] *)

(** [Start] of the scheduler and of the worker; neither returns an error. Their
    loops are goroutines that have their tickers still to make. *)
Definition started_scheduler (cfg : Config) : Loops := start (scheduler_intervals (cf_Scheduler cfg)) new_loops.
Definition started_worker (cfg : Config) : Loops := start (worker_intervals (cf_Scheduler cfg)) new_loops.
Definition started_server (cfg : Config) : Server := {|
  sr_scheduler := started_scheduler cfg; sr_worker := started_worker cfg; sr_requests := 0; sr_closing := false;
  sr_signal := AwaitSignal; sr_closed := false; sr_exited := false |}.
(** A started loop that cannot make its ticker ends the process when it is
    run. [early n]: whether it is before the [n]-th of the next steps of
    [main], which are the lines it logs. *)
Definition ticker_panic : stop := Panic "non-positive interval for NewTicker".
Definition ticker_race (early : nat → bool) (n : nat) (started : list Loops) : bop () :=
  if existsb panics started && early n then raise ticker_panic else mret ().

Definition config_path (args : list string) : string :=
  match args with
  | _ :: path :: _ => path
  | _ => variable "CONFIG"
  end.
Definition load_config (args : list string) : bop Config :=
  match Load (config_path args) with
  | Ok cfg => mret cfg
  | Err text => _ ← on_machine (print_error ("load config: " +:+ text)); raise (Exit 1)
  end.
Definition open_store (cfg : Config) (logger : Logger) : bop Writer :=
  opened ← on_machine (Hubctl.on_store (data_dir cfg)
    (Migrate.New (data_dir cfg) (st_ShardMaxSize (cf_Storage cfg)) (st_SyncOnWrite (cf_Storage cfg))));
  match opened with
  | Ok writer => mret writer
  | Err e =>
      _ ← logs logger ErrorLevel [("error", FText (error_text domain_error_text e))] "failed to open store";
      raise (Exit 1)
  end.
Definition main_start (early : nat → bool) (args : list string) : bop App :=
  cfg ← load_config args;
  let logger := AppLog.New (lg_Level (cf_Logging cfg)) (lg_Format (cf_Logging cfg)) in
  writer ← open_store cfg logger;
  process ← New_server cfg;
  let scheduler := started_scheduler cfg in
  _ ← ticker_race early 0 [scheduler];
  _ ← logs logger InfoLevel [] "scheduler started";
  let process := process <| pc_scheduler := Some (lo_started scheduler) |> in
  let worker := started_worker cfg in
  _ ← ticker_race early 1 [scheduler; worker];
  _ ← logs logger InfoLevel [("interval", FDuration (sg_ReevalInterval (cf_Scheduler cfg)))] "reeval worker started";
  let process := process <| pc_worker := lo_started worker |> in
  _ ← ticker_race early 2 [scheduler; worker];
  _ ← logs logger InfoLevel [("addr", FText (":" +:+ itoa (sv_Port (cf_Server cfg))))] "http server starting";
  mret {| ap_config := cfg; ap_writer := writer; ap_logger := logger; ap_process := process;
          ap_worker := {| wk_world := pc_world process; wk_running := false; wk_cycles := 0; wk_reevaled := 0;
                          wk_skipped := 0; wk_failed := 0 |};
          ap_server := started_server cfg |}.
End boot.

(** ** The life of a machine *)

Inductive life : Type :=
| Down (h : Host)
| Up (h : Host) (a : App).

(** What the process leaves behind when it ends: its tables and files, also
    the one of the users, are the machine's. *)
Definition halt (h : Host) (a : App) : Host :=
  let p := ap_process a in
  let dir := data_dir (ap_config a) in
  put_auth (authPath (ap_config a)) (pc_auth p)
    (h <| ho_machine ::= λ m, m <| mc_dbs := <[index_path dir := w_db (pc_world p)]> (mc_dbs m) |>
            <| mc_fs := w_fs (pc_world p) |> <| mc_tick := w_tick (pc_world p) |> |>
       <| ho_http_tick := pc_tick p |>).

(** One thing after the other: the process is started with arguments, answers
    a request, runs a task of the scheduler or a sweep, ends or panics between
    two of these. A loop whose ticker cannot be made runs nothing; the panic
    comes when it is run, in the start ([early]) or at any time after it. The
    sweep's fuel bounds its pages. *)
Inductive happening : Type :=
| HStart (early : nat → bool) (args : list string)
| HRequest (r : Request)
| HEscalate
| HReconcile
| HSweep (fuel : nat)
| HPanic
| HEnd.

Section life.
Context `{Env, Migrations, ConfigEnv, AuthEnv, HttpEnv, Router} (nil : string → bool).

Definition on_app (f : World → World) (a : App) : App :=
  a <| ap_process ::= λ p, p <| pc_world := f (pc_world p) |> |>.
Definition escalation_task (a : App) (w : World) : World :=
  let business := cf_Business (ap_config a) in
  fst (runWithRetry (ap_writer a) (cf_Scheduler (ap_config a)) "escalation"
    (runEscalationOnce (ap_writer a) (bc_EscalationDeadlineExtension business) (bc_MaxEscalationLevel business)) w).
Definition reconciliation_task (a : App) (w : World) : World :=
  fst (runWithRetry (ap_writer a) (cf_Scheduler (ap_config a)) "reconciliation"
    (runReconciliationOnce (data_dir (ap_config a))) w).
Definition sweep_task (fuel : nat) (a : App) : App :=
  let k := worker_tick (ap_writer a) fuel ((ap_worker a) <| wk_world := pc_world (ap_process a) |>) in
  on_app (λ _, wk_world k) (a <| ap_worker := k |>).
Definition answer (r : Request) (h : Host) (a : App) : Host * App :=
  let x := serve_request (ap_logger a) nil (ap_writer a) (ap_config a) r (ap_process a) (ho_log h) in
  (h <| ho_log := xc_log x |>, a <| ap_process := xc_process x |>).

(** A loop that has made its ticker. *)
Definition ticks (interval : Z) (l : life) : option life := if panicking (Starting interval) then None else Some l.

Definition live (l : life) (e : happening) : option life :=
  match l, e with
  | Down h, HStart early args =>
      Some (match main_start early args h with
            | (h, Ok a) => Up h a
            | (h, Err _) => Down h
            end)
  | Up h a, HRequest r => Some (let '(h, a) := answer r h a in Up h a)
  | Up h a, HEscalate =>
      ticks (sg_EscalationInterval (cf_Scheduler (ap_config a))) (Up h (on_app (escalation_task a) a))
  | Up h a, HReconcile =>
      ticks (sg_ReconciliationInterval (cf_Scheduler (ap_config a))) (Up h (on_app (reconciliation_task a) a))
  | Up h a, HSweep fuel => ticks (sg_ReevalInterval (cf_Scheduler (ap_config a))) (Up h (sweep_task fuel a))
  | Up h a, HPanic =>
      _ ← happen (cf_Scheduler (ap_config a)) LoopPanics (ap_server a); Some (Down (halt h a))
  | Up h a, HEnd => Some (Down (halt h a))
  | _, _ => None
  end.
Definition lives (l : life) (e : happening) (l' : life) : Prop := live l e = Some l'.
End life.
(** The machine as it is, or would be if the process ended now. *)
Definition machine_of (l : life) : Machine :=
  match l with
  | Down h => ho_machine h
  | Up h a => ho_machine (halt h a)
  end.
