(* ===== verification/StoreFacts.v ===== *)
(** * What the operations of the store do

    The effect of each statement on the tables when it succeeds, what a
    transaction leaves behind when it fails, and when a row is read back as it
    was written. *)
From S2P Require Import Prelude GoErrors GoStrings GoTime Domain World Shard Index Repo.

(** ** Inversion of successful operations *)

Section inversion.
Context `{Env}.

Lemma wrapping_ok {A} f (m : dop A) w w' a :
  wrapping f m w = (w', Ok a) ↔ m w = (w', Ok a).
Proof. unfold wrapping. destruct (m w) as [w1 [b|e]]; naive_solver. Qed.
Lemma wrapping_err {A} f (m : dop A) w w' e :
  wrapping f m w = (w', Err e) ↔ ∃ e0, m w = (w', Err e0) ∧ e = f e0.
Proof. unfold wrapping. destruct (m w) as [w1 [b|e0]]; naive_solver. Qed.
Lemma ensure_ok b e (w w' : World) u :
  ensure (E := derror) b e w = (w', Ok u) → b = true ∧ w' = w.
Proof. unfold ensure. destruct b; naive_solver. Qed.
Lemma gets_ok {A} (f : World → A) (w w' : World) a :
  gets (E := derror) f w = (w', Ok a) → a = f w ∧ w' = w.
Proof. by intros [=]. Qed.
Lemma lift_ok {A} (r : result derror A) (w w' : World) a :
  lift r w = (w', Ok a) → r = Ok a ∧ w' = w.
Proof. by intros [=]. Qed.
Lemma ret_ok {A} (b a : A) (w w' : World) :
  (mret b : dop A) w = (w', Ok a) → a = b ∧ w' = w.
Proof. by intros [=]. Qed.
Lemma modify_ok f (w w' : World) u :
  modify (E := derror) f w = (w', Ok u) → w' = f w.
Proof. by intros [=]. Qed.
Lemma keeps_ok {A} (m : dop A) w w' r : keeps_db m → m w = (w', r) → w_db w' = w_db w.
Proof. intros Hk Hm. specialize (Hk w). by rewrite Hm in Hk. Qed.
End inversion.

(** [binds H] takes a successful sequence apart into its steps and turns each
    step into what it says of the state. *)
Ltac step_fact H :=
  match type of H with
  | ensure _ _ _ = _ => apply ensure_ok in H as [H ->]
  | gets _ _ = _ => apply gets_ok in H as [-> ->]
  | lift _ _ = _ => apply lift_ok in H as [H ->]
  | mret _ _ = _ => apply ret_ok in H as [-> ->]
  | modify _ _ = _ => apply modify_ok in H as ->
  | wrapping _ _ _ = _ => apply wrapping_ok in H
  | (_ ≫= _) _ = (_, Ok _) =>
      let H1 := fresh "Hstep" in
      apply bind_ok in H as (? & ? & H1 & H); cbn beta iota zeta in H; repeat step_fact H1
  end.
Ltac binds H := cbn beta iota zeta in H; repeat step_fact H.

(** [kept] uses that an operation leaves the tables alone. *)
Ltac kept :=
  repeat match goal with
  | H : ?m ?w = (?w', _) |- _ =>
      let E := fresh "Hdb" in
      assert (w_db w' = w_db w) as E
        by (eapply keeps_ok; [|exact H]; auto with world_db nocore);
      clear H; rewrite ?E in *
  end.
(** [effect H]: the tables after the successful operation [H]. *)
Ltac effect H :=
  binds H; kept; guards; simpl in *;
  repeat match goal with E : w_db ?x = w_db _ |- context [w_db ?x] => rewrite E end.

(** ** Rows *)

Section rows.
Context `{Zone}.

(** A record that reads back as it was written: its times are in the range of
    the format and not the zero time where a column is nullable, its lists
    hold valid UTF-8. *)
Definition time_storable (t : Time) : Prop := formattable t.
Definition opt_time_storable (t : option Time) : Prop :=
  match t with None => True | Some t => t ≠ 0 ∧ formattable t end.
Definition slice_storable (l : list string) : Prop := Forall (λ s, utf8_valid s = true) l.

Definition item_storable (i : ComplianceCase) : Prop :=
  time_storable (ic_RegisteredAt i) ∧ time_storable (ic_Deadline i) ∧
  time_storable (ic_CreatedAt i) ∧ time_storable (ic_UpdatedAt i) ∧
  opt_time_storable (ic_CompletedAt i) ∧ opt_time_storable (ic_CancelledAt i) ∧
  slice_storable (ic_Materials i) ∧ slice_storable (ic_Keywords i) ∧
  slice_storable (ic_CoDepartments i).

Lemma time_column_ok t : time_storable t → time_column t = Ok t.
Proof.
  intros Ht. unfold time_column, IsZero. destruct (Z.eqb_spec t 0) as [->|]; [done|].
  by rewrite bool_decide_true.
Qed.
Lemma time_column_inv t t' : time_column t = Ok t' → t' = t.
Proof.
  unfold time_column, IsZero. destruct (Z.eqb_spec t 0) as [->|]; [by intros [=]|].
  case_bool_decide; naive_solver.
Qed.
Lemma nullable_time_ok t : opt_time_storable t → nullable_time_column t = Ok t.
Proof.
  destruct t as [t|]; [|done]. intros [Hne Hf]. unfold nullable_time_column, IsZero.
  rewrite (proj2 (Z.eqb_neq _ _)) by done. by rewrite time_column_ok.
Qed.
Lemma slice_column_ok l : slice_storable l → slice_column l = l.
Proof.
  intros Hl. unfold slice_column. induction Hl as [|s l Hs _ IH]; [done|]. simpl. f_equal; [|done].
  unfold utf8_valid in Hs. by apply String.eqb_eq in Hs.
Qed.

Lemma scanItem_storable i : item_storable i → scanItem i = Ok i.
Proof.
  intros (Hr & Hd & Hc & Hu & Hco & Hca & Hm & Hk & Hcd). unfold scanItem.
  rewrite !time_column_ok, !nullable_time_ok by done. simpl.
  rewrite !slice_column_ok by done. by destruct i.
Qed.

(** Reading changes nothing but lists that are not valid UTF-8 and time stamps
    that are zero. *)
Lemma scanItem_inv row i :
  scanItem row = Ok i →
  ic_ID i = ic_ID row ∧ ic_ExternalRef i = ic_ExternalRef row ∧ ic_Status i = ic_Status row ∧
  ic_LeadDepartment i = ic_LeadDepartment row ∧ ic_RuleVersion i = ic_RuleVersion row ∧
  ic_EscalationLevel i = ic_EscalationLevel row ∧ ic_Deadline i = ic_Deadline row ∧
  ic_RegisteredAt i = ic_RegisteredAt row ∧
  (ic_Title i = ic_Title row ∧ ic_Description i = ic_Description row ∧
   ic_OperatorName i = ic_OperatorName row ∧ ic_OperatorContact i = ic_OperatorContact row ∧
   ic_Category i = ic_Category row) ∧
  ic_RegisteredBy i = ic_RegisteredBy row ∧ ic_CreatedAt i = ic_CreatedAt row ∧ ic_UpdatedAt i = ic_UpdatedAt row.
Proof.
  unfold scanItem, mbind, result_bind. intros Hs.
  repeat match type of Hs with
  | match time_column ?t with _ => _ end = _ =>
      let E := fresh in destruct (time_column t) eqn:E; [apply time_column_inv in E|done]
  | match nullable_time_column ?t with _ => _ end = _ =>
      destruct (nullable_time_column t); [|done]
  end.
  injection Hs as <-. subst. done.
Qed.

End rows.

Lemma scan_all_elem {A} (scan : A → result derror A) rows xs x :
  scan_all scan rows = Ok xs → x ∈ xs → ∃ row, row ∈ rows ∧ scan row = Ok x.
Proof.
  revert xs. induction rows as [|row rows IH]; intros xs Hs Hx; simpl in Hs.
  - injection Hs as <-. by apply elem_of_nil in Hx.
  - unfold mbind, result_bind in Hs. destruct (scan row) as [y|] eqn:Hrow; [|done].
    destruct (scan_all scan rows) as [ys|] eqn:Hrest; [|done]. injection Hs as <-.
    apply elem_of_cons in Hx as [->|Hx]; [exists row; split; [by left|done]|].
    destruct (IH ys eq_refl Hx) as (r & Hr & Hs). exists r. split; [by right|done].
Qed.

(** What the statements do to the tables. *)
Definition put_item (item : ComplianceCase) (d : DB) : DB :=
  d <| db_items := update_where (λ row, bool_decide (ic_ID row = ic_ID item)) (item_update item)
         (db_items d) |>.
Definition add_audit (a : AuditEntry) (d : DB) : DB := d <| db_audit := db_audit d ++ [a] |>.
Definition add_referral (r : Referral) (d : DB) : DB :=
  d <| db_assignments := db_assignments d ++ [r] |>.
Definition supersede (id : string) (d : DB) : DB :=
  d <| db_assignments :=
    update_where (λ row, bool_decide (rf_ItemID row = id) && rf_IsCurrent row)
      (λ row, row <| rf_IsCurrent := false |>) (db_assignments d) |>.
Definition supersede_rule (v : Z) (wall : Time) (d : DB) : DB :=
  d <| db_rules := update_where (λ row, bool_decide (ru_Version row = v))
         (λ row, row <| ru_Status := RuleStatusSuperseded |> <| ru_EffectiveTo := wall |>)
         (db_rules d) |>.
Definition add_escalation (e : Escalation) (d : DB) : DB :=
  d <| db_escalations := db_escalations d ++ [e] |>.

(** An update that keeps a column keeps it in every row. *)
Lemma update_where_proj {A B} (proj : A → B) p f (rows : list A) :
  (∀ row, proj (f row) = proj row) → proj <$> update_where p f rows = proj <$> rows.
Proof.
  intros Hf. unfold update_where. rewrite <- list_fmap_compose. apply list_fmap_ext.
  intros _ row _. simpl. by destruct (p row).
Qed.
#[export] Instance update_where_perm {A} (p : A → bool) f : Proper ((≡ₚ) ==> (≡ₚ)) (update_where p f).
Proof. intros l l' Hl. unfold update_where. by rewrite Hl. Qed.
Lemma elem_of_update_where {A} p f (rows : list A) x :
  x ∈ update_where p f rows ↔
  ∃ row, row ∈ rows ∧ x = (if p row then f row else row).
Proof. unfold update_where. rewrite list_elem_of_fmap. naive_solver. Qed.

(** ** Statements *)

Section statements.
Context `{Env} (writer : Writer).

Lemma SaveItem_ok item w w' item' :
  SaveItem writer item w = (w', Ok item') →
  (∃ path off, item' = item <| ic_ShardPath := path |> <| ic_ShardOffset := off |>) ∧
  (ic_ID item ∉ ic_ID <$> db_items (w_db w)) ∧
  (ic_ExternalRef item ∉ ic_ExternalRef <$> db_items (w_db w)) ∧
  w_db w' = (w_db w) <| db_items := db_items (w_db w) ++ [item'] |>.
Proof. unfold SaveItem, InsertItem. intros Hs. effect Hs. split_and!; eauto. Qed.

Lemma UpdateItem_ok item w w' item' :
  Tx_UpdateItem writer item w = (w', Ok item') →
  (∃ path off, item' = item <| ic_ShardPath := path |> <| ic_ShardOffset := off |>) ∧
  ic_ID item ∈ ic_ID <$> db_items (w_db w) ∧
  w_db w' = put_item item (w_db w).
Proof. unfold Tx_UpdateItem, UpdateItem. intros Hs. effect Hs. split_and!; eauto. Qed.

Lemma SaveAssignment_ok a w w' u :
  SaveAssignment writer a w = (w', Ok u) →
  ∃ path, (rf_ID a ∉ rf_ID <$> db_assignments (w_db w)) ∧
    w_db w' = add_referral (a <| rf_ShardPath := path |>) (w_db w).
Proof. unfold SaveAssignment, InsertAssignment. intros Hs. effect Hs. eauto. Qed.

Lemma MarkSuperseded_ok id w w' u :
  Tx_MarkAssignmentSuperseded id w = (w', Ok u) →
  w_db w' = supersede id (w_db w).
Proof.
  unfold Tx_MarkAssignmentSuperseded, MarkAssignmentSuperseded. intros Hs. effect Hs. done.
Qed.

Lemma SaveEscalation_ok e w w' e' :
  SaveEscalation writer e w = (w', Ok e') →
  ∃ path, e' = e <| es_ShardPath := path |> ∧
    (es_ID e ∉ es_ID <$> db_escalations (w_db w)) ∧
    w_db w' = add_escalation e' (w_db w).
Proof. unfold SaveEscalation, InsertEscalation. intros Hs. effect Hs. eauto. Qed.

Lemma SaveAudit_ok a w w' u :
  SaveAudit writer a w = (w', Ok u) →
  ∃ path, (au_ID a ∉ au_ID <$> db_audit (w_db w)) ∧
    w_db w' = add_audit (a <| au_ShardPath := path |>) (w_db w).
Proof. unfold SaveAudit, InsertAudit. intros Hs. effect Hs. eauto. Qed.

Lemma SaveFailure_ok f w w' u :
  SaveFailure writer f w = (w', Ok u) →
  (pf_ID f ∉ pf_ID <$> db_failures (w_db w)) ∧
  w_db w' = (w_db w) <| db_failures := db_failures (w_db w) ++ [f] |>.
Proof. unfold SaveFailure, InsertFailure. intros Hs. effect Hs. eauto. Qed.

Lemma UpdateFailure_ok f w w' u :
  Tx_UpdateFailure writer f w = (w', Ok u) →
  pf_ID f ∈ pf_ID <$> db_failures (w_db w) ∧
  w_db w' = (w_db w) <| db_failures :=
    update_where (λ row, bool_decide (pf_ID row = pf_ID f)) (failure_update f)
      (db_failures (w_db w)) |>.
Proof. unfold Tx_UpdateFailure, UpdateFailure. intros Hs. effect Hs. eauto. Qed.

Lemma SaveBatch_ok b w w' u :
  SaveBatch writer b w = (w', Ok u) →
  ∃ path, (ib_ID b ∉ ib_ID <$> db_batches (w_db w)) ∧
    w_db w' = (w_db w) <| db_batches := db_batches (w_db w) ++ [b <| ib_ShardPath := path |>] |>.
Proof. unfold SaveBatch, InsertBatch. intros Hs. effect Hs. eauto. Qed.

Lemma SaveRule_ok r w w' r' :
  SaveRule writer r w = (w', Ok r') →
  ∃ path, r' = r <| ru_ShardPath := path |> ∧
    (ru_Version r ∉ ru_Version <$> db_rules (w_db w)) ∧
    w_db w' = (w_db w) <| db_rules := db_rules (w_db w) ++ [r'] |>.
Proof. unfold SaveRule, InsertRule. intros Hs. effect Hs. eauto. Qed.

Lemma SupersedeRule_ok v w w' u :
  Tx_SupersedeRule v w = (w', Ok u) →
  ∃ wall, w_db w' = supersede_rule v wall (w_db w).
Proof. unfold Tx_SupersedeRule, SupersedeRule. intros Hs. effect Hs. eauto. Qed.
End statements.

(** ** Transactions *)

Section transactions.
Context `{Env, !Sequential H}.

(** A failed transaction leaves the tables as they were; a successful one
    leaves them as its body left them. *)
Lemma WithTx_err {A} (fn : dop A) w w' e :
  WithTx fn w = (w', Err e) → w_db w' = w_db w.
Proof.
  unfold WithTx. intros [Hi|(w1 & u & Hi & Ht)]%bind_err; [by kept|].
  apply bind_err in Ht as [Ht|(w2 & u2 & Ha & Ht)]; [by kept; congruence|].
  unfold in_tx in Ht. kept.
  destruct (fn w2) as [w3 [a|e3]]; [|by injection Ht as <- _].
  destruct (attempt _ w3) as [w4 [u4|e4]]; [done|]. by injection Ht as <- _.
Qed.

Lemma WithTx_ok {A} (fn : dop A) w w' a :
  WithTx fn w = (w', Ok a) →
  ∃ w1 w2, w_db w1 = w_db w ∧ fn w1 = (w2, Ok a) ∧ w_db w' = w_db w2.
Proof.
  unfold WithTx. intros Ht. binds Ht. unfold in_tx in Ht.
  match type of Ht with context [fn ?w2] => exists w2; destruct (fn w2) as [w3 [b|e3]] eqn:Hfn end;
    [|done].
  destruct (attempt _ w3) as [w4 [u4|e4]] eqn:Hc; [|done]. injection Ht as <- <-.
  exists w3. kept. done.
Qed.
End transactions.

(** ** Reads *)

Section reads.
Context `{Env, !Sequential H}.

Lemma keeps_select {A} wrap (table : DB → list A) where_ : keeps_db (select wrap table where_).
Proof. unfold select. auto 10 with world_db nocore. Qed.
Lemma keeps_query_row {A} (table : DB → list A) where_ scan :
  keeps_db (query_row table where_ scan).
Proof.
  unfold query_row. apply keeps_bind; [apply keeps_select|]. intros [|]; auto with world_db nocore.
Qed.

Lemma select_ok {A} `{!EnvLaws H} wrap (table : DB → list A) where_ w w' rows :
  select wrap table where_ w = (w', Ok rows) →
  w_db w' = w_db w ∧ rows ≡ₚ List.filter where_ (table (w_db w)).
Proof.
  intros Hs. split; [exact (keeps_ok _ _ _ _ (keeps_select wrap table where_) Hs)|].
  unfold select, scan_rows in Hs. binds Hs.
  match goal with Ha : ask _ _ = _ |- _ => injection Ha as <- <- end.
  kept. by rewrite env_scan_perm.
Qed.

Lemma query_row_ok {A} `{!EnvLaws H} (table : DB → list A) where_ scan w w' x :
  query_row table where_ scan w = (w', Ok x) →
  w_db w' = w_db w ∧ ∃ row, row ∈ table (w_db w) ∧ where_ row = true ∧ scan row = Ok x.
Proof.
  intros Hq. split; [exact (keeps_ok _ _ _ _ (keeps_query_row table where_ scan) Hq)|].
  unfold query_row in Hq. apply bind_ok in Hq as (w1 & rows & Hsel & Hq).
  apply select_ok in Hsel as [_ Hperm]. destruct rows as [|row rows]; [done|].
  apply lift_ok in Hq as [Hscan _]. exists row.
  assert (row ∈ List.filter where_ (table (w_db w))) as Hin by (rewrite <- Hperm; by left).
  apply list_elem_of_In, filter_In in Hin as [Hin Hw]. by rewrite list_elem_of_In.
Qed.

(** A query for a row that exists finds it, if nothing fails. *)
Lemma query_row_none {A} `{!EnvLaws H} (table : DB → list A) where_ scan w w' :
  query_row table where_ scan w = (w', Err (Sentinel ErrNotFound)) →
  (∀ row, scan row ≠ Err (Sentinel ErrNotFound)) →
  Forall (λ row, where_ row = false) (table (w_db w)).
Proof.
  intros Hq Hscan. unfold query_row in Hq.
  apply bind_err in Hq as [Hq|(w1 & rows & Hsel & Hq)].
  - unfold select, attempt, scan_rows, ask, interleave in Hq. op_cases Hq;
      by match goal with f : fault |- _ => destruct f end.
  - apply select_ok in Hsel as [_ Hperm]. destruct rows as [|row rows].
    + apply Forall_forall. intros row Hrow. destruct (where_ row) eqn:Hw; [|done].
      assert (row ∈ List.filter where_ (table (w_db w))) as Hin.
      { apply list_elem_of_In, filter_In. by rewrite <- list_elem_of_In. }
      rewrite <- Hperm in Hin. by apply elem_of_nil in Hin.
    + injection Hq as _ Hq. by apply Hscan in Hq.
Qed.
End reads.

Section keeps_queries.
Context `{Env, !Sequential H}.
Lemma keeps_GetItem id : keeps_db (GetItem id).
Proof. apply keeps_query_row. Qed.
Lemma keeps_GetItemByExternalRef ref : keeps_db (GetItemByExternalRef ref).
Proof. apply keeps_query_row. Qed.
Lemma keeps_GetFailure id : keeps_db (GetFailure id).
Proof. apply keeps_query_row. Qed.
Lemma keeps_GetActiveRules t : keeps_db (GetActiveRules t).
Proof. apply keeps_bind; [apply keeps_select|auto with world_db nocore]. Qed.
Lemma keeps_GetCurrentRuleVersion : keeps_db GetCurrentRuleVersion.
Proof. apply keeps_bind; [apply keeps_select|auto with world_db nocore]. Qed.
Lemma keeps_FindOverdueItems now maxLevel : keeps_db (FindOverdueItems now maxLevel).
Proof. apply keeps_bind; [apply keeps_select|auto with world_db nocore]. Qed.
Lemma keeps_ListItems filter : keeps_db (ListItems filter).
Proof.
  unfold ListItems. apply keeps_bind; [destruct (if_OverdueOnly filter); auto with world_db nocore|].
  intros wall. repeat (apply keeps_bind; [first [apply keeps_select|auto with world_db nocore]|intros]).
  auto with world_db nocore.
Qed.
End keeps_queries.

#[export] Hint Resolve keeps_GetItem keeps_GetItemByExternalRef keeps_GetFailure
  keeps_GetActiveRules keeps_GetCurrentRuleVersion keeps_FindOverdueItems keeps_ListItems
  keeps_select keeps_query_row : world_db.
