(* ===== verification/RebuildFacts.v ===== *)
(** * Rebuilding the index: what it leaves in the tables

    The collector as a function of the shard files, the success and failure of
    the transaction that replaces the tables, and its result. *)
From Stdlib Require Import Ascii.
From S2P Require Import Prelude GoErrors GoStrings GoNumbers GoTime Json Domain Records.
From S2P Require Import Sha256 World Shard Reader Index StoreFacts Rebuild.

(** ** Operations that succeed *)

(** [m] succeeds from [s], with a result and a state that satisfy [Q]. *)
Definition wp {S E A} (m : op S E A) (s : S) (Q : A → S → Prop) : Prop :=
  ∃ s' a, m s = (s', Ok a) ∧ Q a s'.

Section wp.
Context {S E : Type}.
Lemma wp_ret {A} (a : A) (s : S) Q : Q a s → wp (mret a : op S E A) s Q.
Proof. intros HQ. by exists s, a. Qed.
Lemma wp_bind {A B} (m : op S E A) (f : A → op S E B) s Q :
  wp m s (λ a s', wp (f a) s' Q) → wp (m ≫= f) s Q.
Proof.
  intros (s1 & a & Hm & s2 & b & Hf & HQ). exists s2, b. split; [|done].
  unfold mbind, op_bind. by rewrite Hm.
Qed.
Lemma wp_mono {A} (m : op S E A) s (P Q : A → S → Prop) :
  wp m s P → (∀ a s', P a s' → Q a s') → wp m s Q.
Proof. intros (s' & a & Hm & HP) HPQ. exists s', a. auto. Qed.
Lemma wp_modify (f : S → S) s Q : Q () (f s) → wp (modify (E := E) f) s Q.
Proof. intros HQ. by exists (f s), (). Qed.
Lemma wp_gets {A} (f : S → A) s Q : Q (f s) s → wp (gets (E := E) f) s Q.
Proof. intros HQ. by exists s, (f s). Qed.
Lemma wp_ensure b (e : E) (s : S) Q : b = true → Q () s → wp (ensure b e) s Q.
Proof. intros -> HQ. by exists s, (). Qed.
Lemma wp_lift {A} (a : A) s Q : Q a s → wp (lift (Ok a) : op S E A) s Q.
Proof. intros HQ. by exists s, a. Qed.
End wp.

(** Two worlds that differ in their ticks at most. *)
Definition same (w w' : World) : Prop := w_db w' = w_db w ∧ w_fs w' = w_fs w.
#[export] Instance same_refl : Reflexive same.
Proof. done. Qed.
#[export] Instance same_trans : Transitive same.
Proof. intros x y z [??] [??]. split; congruence. Qed.

Section faultless.
Context `{Env, !Faultless H}.
Lemma wp_ask {A} (f : nat → A) w Q :
  (∀ a w', same w w' → Q a w') → wp (ask f) w Q.
Proof. intros HQ. eexists _, _. split; [done|]. by apply HQ. Qed.
Lemma wp_attempt wrap w Q : (∀ w', same w w' → Q () w') → wp (attempt wrap) w Q.
Proof.
  intros HQ. unfold attempt, mbind, op_bind, ask, wp. simpl. rewrite no_fault.
  eexists _, _. split; [done|]. by apply HQ.
Qed.
Lemma wp_ctx w Q : (∀ w', same w w' → Q None w') → wp (ask env_ctx) w Q.
Proof. intros HQ. eexists _, _. split; [unfold ask; by rewrite no_cancel|]. by apply HQ. Qed.
Lemma wp_wrapping {A} wrap (m : dop A) w Q : wp m w Q → wp (wrapping wrap m) w Q.
Proof. intros (w' & a & Hm & HQ). exists w', a. unfold wrapping. by rewrite Hm. Qed.
Lemma wp_scan {A} `{!EnvLaws H} (rows : list A) w Q :
  (∀ l w', l ≡ₚ rows → same w w' → Q l w') → wp (scan_rows rows) w Q.
Proof.
  intros HQ. unfold scan_rows. apply wp_bind. eexists _, _. split; [done|]. apply wp_ret.
  apply HQ; [apply env_scan_perm|done].
Qed.
Lemma wp_interleave `{!Sequential H} w Q : (∀ w', same w w' → Q () w') → wp interleave w Q.
Proof.
  intros HQ. eexists _, _. split; [done|]. apply HQ. split; [|done]. simpl. apply others_id.
Qed.
End faultless.

Lemma wp_on_world {R A} (m : dop A) w (rp : R) Q :
  wp m w (λ a w', Q a (w', rp)) → wp (on_world m) (w, rp) Q.
Proof. intros (w' & a & Hm & HQ). exists (w', rp), a. unfold on_world. by rewrite Hm. Qed.
Lemma wp_report {R} (f : R → R) w rp Q : Q () (w, f rp) → wp (report f) (w, rp) Q.
Proof. intros HQ. by exists (w, f rp), (). Qed.
Lemma wp_on_result {S E A B} (m : op S E A) (h : result E A → op S E B) s Q :
  wp m s (λ a s', wp (h (Ok a)) s' Q) → wp (on_result m h) s Q.
Proof.
  intros (s1 & a & Hm & HQ). destruct HQ as (s2 & b & Hh & HQ). exists s2, b.
  unfold on_result. by rewrite Hm.
Qed.

(** ** The collector as a function of the files *)

(** What [ReadAll] returns of a file, if nothing fails. *)
Definition records_of (content : bytes) : result derror (list bytes) :=
  match scan_lines content with
  | Ok lines => Ok (List.filter nonempty lines)
  | Err e => Err e
  end.
Definition collect_file (fs : FS) (c : recordCollector) (sf : string * string) : recordCollector :=
  match fs !! sf.1 with
  | Some content =>
      match records_of content with Ok records => add_all c sf.2 records | Err _ => c end
  | None => c
  end.
Definition all_files (root : string) (fs : FS) : list (string * string) :=
  shard_types ≫= λ t, (λ path, (path, t)) <$> shard_files root fs t.
Definition collect (root : string) (fs : FS) : recordCollector :=
  foldl (collect_file fs) newCollector (merge_sort by_path (all_files root fs)).

Section reading.
Context `{Env, !Faultless H} (root : string).

Lemma wp_scan_shards types w Q :
  (∀ w', same w w' →
     Q (types ≫= λ t, (λ path, (path, t)) <$> shard_files root (w_fs w) t) w') →
  wp (scan_shards root types) w Q.
Proof.
  revert w Q. induction types as [|t types IH]; intros w Q HQ; simpl.
  { apply wp_ret, HQ. done. }
  apply wp_bind, wp_ctx. intros w1 Hw1. apply wp_bind, wp_gets.
  apply wp_bind. eexists _, _. split; [done|]. apply wp_bind, IH. intros w2 Hw2.
  apply wp_ret. destruct Hw1 as [Hd1 Hf1]. rewrite Hf1. apply HQ.
  transitivity w1; [by split|done].
Qed.

(** Reading one file, whichever way it goes. *)
Lemma ReadAll_spec path w content :
  w_fs w !! path = Some content →
  ∃ w', same w w' ∧
    match records_of content with
    | Ok records => ReadAll path w = (w', Ok records)
    | Err e => ReadAll path w = (w', Err (errorf ("scan shard " +:+ path) e))
    end.
Proof.
  intros Hf. unfold ReadAll, open_file, attempt, mbind, op_bind, ask, mret, op_ret. simpl.
  rewrite no_fault. simpl. unfold gets, must. simpl. rewrite Hf. simpl. rewrite no_fault. simpl.
  unfold records_of, wrapping, lift. destruct (scan_lines content); eexists; (split; [|reflexivity]); done.
Qed.
Lemma wp_Checksum path w content Q :
  w_fs w !! path = Some content → (∀ w', same w w' → Q (sha256_hex content) w') →
  wp (Checksum path) w Q.
Proof.
  intros Hf HQ. unfold Checksum, open_file. apply wp_bind, wp_bind, wp_attempt. intros w1 [Hd1 Hf1].
  apply wp_bind, wp_gets. unfold must. rewrite Hf1, Hf. eexists _, _. split; [done|].
  apply wp_bind, wp_attempt. intros w2 Hw2. apply wp_ret, HQ. transitivity w1; [by split|done].
Qed.
End reading.

(** ** Reading all files *)

Definition readable (fs : FS) (sf : string * string) : bool :=
  match fs !! sf.1 with Some content => result_is_ok (records_of content) | None => false end.
(** The report after reading [files]. *)
Definition read_report (fs : FS) (files : list (string * string)) (rp rp' : RebuildReport) : Prop :=
  rr_TotalShards rp' = rr_TotalShards rp ∧ rr_TotalRecords rp' = rr_TotalRecords rp ∧
  rr_IndexedShards rp' = rr_IndexedShards rp + Z.of_nat (length (List.filter (readable fs) files)) ∧
  rr_SkippedShards rp' =
    rr_SkippedShards rp + Z.of_nat (length (List.filter (λ f, negb (readable fs f)) files)) ∧
  cs_Path <$> rr_CorruptedShards rp' =
    (cs_Path <$> rr_CorruptedShards rp) ++ (List.filter (λ f, negb (readable fs f)) files).*1.

Lemma wp_read_shards `{Env, !Faultless H} files c w rp Q :
  Forall (λ f, is_Some (w_fs w !! f.1)) files →
  (∀ w' rp', same w w' → read_report (w_fs w) files rp rp' →
     Q (foldl (collect_file (w_fs w)) c files) (w', rp')) →
  wp (read_shards files c) (w, rp) Q.
Proof.
  revert c w rp Q. induction files as [|[path ty] files IH]; intros c w rp Q Hall HQ.
  { apply wp_ret, HQ; [done|]. unfold read_report. simpl. rewrite app_nil_r. split_and!; lia || done. }
  apply Forall_cons in Hall as [[content Hf] Hall]. simpl in Hf. cbn [read_shards].
  destruct (ReadAll_spec path w content Hf) as (w1 & [Hd1 Hf1] & Hr).
  apply wp_bind. unfold on_result, on_world.
  set (c' := collect_file (w_fs w) c (path, ty)).
  assert (readable (w_fs w) (path, ty) = result_is_ok (records_of content)) as Hread
    by (unfold readable; simpl; by rewrite Hf).
  assert (∀ rp1,
    (∀ rp', read_report (w_fs w) files rp1 rp' → read_report (w_fs w) ((path, ty) :: files) rp rp') →
    wp (read_shards files c') (w1, rp1) Q) as Hrest.
  { intros rp1 Hrp. apply IH; [by rewrite Hf1|]. intros w' rp' [Hd Hfs] Hrep. rewrite Hf1 in *.
    apply HQ; [split; congruence|by apply Hrp]. }
  revert Hr Hread. unfold c', collect_file in *. simpl in *. rewrite Hf in *.
  destruct (records_of content) as [records|e]; intros Hr Hread;
    unfold wp, mbind, op_bind, report, mret, op_ret; rewrite Hr; eexists _, _; (split; [reflexivity|]);
    apply Hrest; unfold read_report; simpl; rewrite Hread; simpl;
    rewrite ?fmap_app, <- ?app_assoc; naive_solver lia.
Qed.

(** ** Tables *)

(** A table of the index: its rows, the insertion of a row, and the columns
    that are unique. *)
Class Table (A : Type) `{Env} : Type := {
  t_rows : DB → list A;
  t_put : list A → DB → DB;
  t_insert : A → dop ();
  t_keys : list (A → string)
}.
(** A row the unique columns of which are new. *)
Definition fresh {A} `{Table A} (row : A) (rows : list A) : Prop :=
  Forall (λ key, key row ∉ key <$> rows) t_keys.
Definition keys_unique {A} `{Table A} (rows : list A) : Prop :=
  Forall (λ key : A → string, NoDup (key <$> rows)) t_keys.
(** What [INSERT] promises. *)
Class TableLaws (A : Type) `{Table A} : Prop := {
  t_rows_put l d : t_rows (t_put l d) = l;
  t_put_put l l' d : t_put l (t_put l' d) = t_put l d;
  t_put_rows d : t_put (t_rows d) d = d;
  t_insert_ok row w w' u :
    t_insert row w = (w', Ok u) →
    fresh row (t_rows (w_db w)) ∧ w_fs w' = w_fs w ∧
    w_db w' = t_put (t_rows (w_db w) ++ [row]) (w_db w);
  t_insert_succeeds `{!Faultless _} row w :
    fresh row (t_rows (w_db w)) → wp (t_insert row) w (λ _ _, True)
}.

Section inserts.
Context `{TableLaws A}.

Lemma fresh_snoc row rows more :
  keys_unique (rows ++ row :: more) → fresh row rows.
Proof.
  unfold keys_unique, fresh. intros Hk. eapply Forall_impl; [exact Hk|]. intros key Hnd. cbv beta in Hnd.
  rewrite fmap_app, fmap_cons in Hnd. apply NoDup_app in Hnd as (_ & Hd & _).
  intros Hin. apply (Hd _ Hin). by left.
Qed.
Lemma unique_snoc row rows : fresh row rows → keys_unique rows → keys_unique (rows ++ [row]).
Proof.
  unfold fresh, keys_unique. rewrite !Forall_forall. intros Hf Hk key Hkey.
  rewrite fmap_app. apply NoDup_app. split_and!; [by apply Hk| |apply NoDup_singleton].
  intros x Hx ->%list_elem_of_singleton. by apply (Hf key Hkey).
Qed.

(** The loop over the rows of one kind. *)
Definition insert_rows (what : A → string) (rows : list A) : rop RebuildReport () :=
  for_each rows (λ row,
    _ ← on_world (wrapping (errorf (what row)) (t_insert row));
    report (λ rp, rp <| rr_TotalRecords := rr_TotalRecords rp + 1 |>)).
Definition count_more (n : nat) (rp : RebuildReport) : RebuildReport :=
  rp <| rr_TotalRecords := rr_TotalRecords rp + Z.of_nat n |>.

Lemma insert_rows_ok what rows w rp w' rp' u :
  insert_rows what rows (w, rp) = ((w', rp'), Ok u) → keys_unique (t_rows (w_db w)) →
  keys_unique (t_rows (w_db w) ++ rows) ∧ w_fs w' = w_fs w ∧
  w_db w' = t_put (t_rows (w_db w) ++ rows) (w_db w) ∧ rp' = count_more (length rows) rp.
Proof.
  revert w rp. induction rows as [|row rows IH]; intros w rp Hi Hk.
  { injection Hi as <- <- _. rewrite app_nil_r, t_put_rows.
    split_and!; try done. destruct rp. unfold count_more, upd. simpl. f_equal. lia. }
  apply bind_ok in Hi as ([w1 rp1] & u1 & Hrow & Hi).
  apply bind_ok in Hrow as ([w2 rp2] & u2 & Hrow & Hrep). unfold on_world in Hrow.
  destruct (wrapping _ (t_insert row) w) as [w3 [u3|e3]] eqn:Hins; [|done].
  injection Hrow as <- <- _. injection Hrep as <- <- _.
  apply wrapping_ok, t_insert_ok in Hins as (Hf & Hfs & Hdb).
  assert (keys_unique (t_rows (w_db w3))) as Hk3.
  { rewrite Hdb, t_rows_put. by apply unique_snoc. }
  destruct (IH _ _ Hi Hk3) as (Hu & Hfs' & Hdb' & ->).
  rewrite Hdb, t_rows_put, <- app_assoc in Hu, Hdb'. rewrite t_put_put in Hdb'.
  split_and!; [done|congruence|done|]. unfold count_more, upd. simpl. f_equal. lia.
Qed.
Lemma wp_insert_rows `{!Faultless _} what rows w rp Q :
  keys_unique (t_rows (w_db w) ++ rows) →
  (∀ w', w_fs w' = w_fs w → w_db w' = t_put (t_rows (w_db w) ++ rows) (w_db w) →
     Q () (w', count_more (length rows) rp)) →
  wp (insert_rows what rows) (w, rp) Q.
Proof.
  revert w rp Q. induction rows as [|row rows IH]; intros w rp Q Hk HQ.
  { exists (w, rp), (). split; [done|].
    assert (count_more 0 rp = rp) as E by (destruct rp; unfold count_more, upd; simpl; f_equal; lia).
    simpl length in HQ. rewrite E in HQ. apply HQ; [done|]. by rewrite app_nil_r, t_put_rows. }
  destruct (t_insert_succeeds row w) as (w1 & u & Hins & _); [by eapply fresh_snoc|].
  pose proof (t_insert_ok _ _ _ _ Hins) as (_ & Hfs & Hdb).
  apply wp_bind, wp_bind, wp_on_world, wp_wrapping. exists w1, u. split; [done|]. apply wp_report.
  apply IH; rewrite Hdb, t_rows_put, <- app_assoc; [done|]. intros w' Hfs' Hdb'.
  rewrite t_put_put in Hdb'.
  match goal with |- Q () (w', ?r) => assert (r = count_more (length (row :: rows)) rp) as -> end.
  { unfold count_more, upd. simpl. f_equal. lia. }
  apply HQ; [congruence|exact Hdb'].
Qed.
End inserts.

Section tables.
Context `{HE : Env}.
#[export] Instance items_table : Table ComplianceCase := {|
  t_rows := db_items; t_put l d := d <| db_items := l |>; t_insert := InsertItem;
  t_keys := [ic_ID; ic_ExternalRef] |}.
#[export] Instance rules_table : Table Rule := {|
  t_rows := db_rules; t_put l d := d <| db_rules := l |>; t_insert := InsertRule;
  t_keys := [λ r, pretty (ru_Version r)] |}.
#[export] Instance assignments_table : Table Referral := {|
  t_rows := db_assignments; t_put l d := d <| db_assignments := l |>; t_insert := InsertAssignment;
  t_keys := [rf_ID] |}.
#[export] Instance escalations_table : Table Escalation := {|
  t_rows := db_escalations; t_put l d := d <| db_escalations := l |>; t_insert := InsertEscalation;
  t_keys := [es_ID] |}.
#[export] Instance audit_table : Table AuditEntry := {|
  t_rows := db_audit; t_put l d := d <| db_audit := l |>; t_insert := InsertAudit;
  t_keys := [au_ID] |}.
#[export] Instance failures_table : Table PermanentFailure := {|
  t_rows := db_failures; t_put l d := d <| db_failures := l |>; t_insert := InsertFailure;
  t_keys := [pf_ID] |}.
#[export] Instance batches_table : Table ImportBatch := {|
  t_rows := db_batches; t_put l d := d <| db_batches := l |>; t_insert := InsertBatch;
  t_keys := [ib_ID] |}.

(** The versions of the rules as texts. *)
Lemma version_key v (rows : list Rule) :
  pretty v ∈ (λ r, pretty (ru_Version r)) <$> rows ↔ v ∈ ru_Version <$> rows.
Proof.
  rewrite !list_elem_of_fmap. split; intros (r & Heq & Hr); exists r; (split; [|done]).
  - by apply (inj pretty) in Heq.
  - by rewrite Heq.
Qed.

Lemma attempt_same wrap w w' r : attempt wrap w = (w', r) → same w w'.
Proof.
  unfold attempt, mbind, op_bind, ask. simpl. destruct (env_fault (w_tick w)); by intros [= <- _].
Qed.
(** An INSERT into a table with one unique column. *)
Lemma insert_one_key {A B} `{EqDecision B} wrap (rows : DB → list A) (key : A → B) row e put :
  let m := _ ← attempt wrap;
    l ← gets (λ w, rows (w_db w));
    _ ← ensure (negb (bool_decide (key row ∈ key <$> l))) e;
    modify (set_db put) in
  (∀ w w' u, m w = (w', Ok u) →
     (key row ∉ key <$> rows (w_db w)) ∧ w_fs w' = w_fs w ∧ w_db w' = put (w_db w)) ∧
  (Faultless HE → ∀ w, (key row ∉ key <$> rows (w_db w)) → wp m w (λ _ _, True)).
Proof.
  simpl. split.
  - intros w w' u Hm. apply bind_ok in Hm as (w1 & u1 & Ha & Hm). apply attempt_same in Ha as [Hd Hf].
    binds Hm. guards. rewrite Hd in *. simpl. by rewrite Hd.
  - intros Hfl w Hk. apply wp_bind, wp_attempt. intros w1 [Hd _]. apply wp_bind, wp_gets.
    apply wp_bind, wp_ensure; [by rewrite Hd, bool_decide_false|]. by apply wp_modify.
Qed.

Ltac one_key rows key :=
  split; [done|done|by intros []
    |intros row w w' u Hi; apply (insert_one_key _ rows key row) in Hi as (Hf & ? & ?);
     split_and!; [by apply Forall_singleton|done|done]
    |intros ? row w Hf; apply (insert_one_key _ rows key row); [done|];
     exact (proj1 (Forall_singleton _ _) Hf)].
#[export] Instance assignments_laws : TableLaws Referral.
Proof. one_key db_assignments rf_ID. Qed.
#[export] Instance escalations_laws : TableLaws Escalation.
Proof. one_key db_escalations es_ID. Qed.
#[export] Instance audit_table_laws : TableLaws AuditEntry.
Proof. one_key db_audit au_ID. Qed.
#[export] Instance failures_laws : TableLaws PermanentFailure.
Proof. one_key db_failures pf_ID. Qed.
#[export] Instance batches_laws : TableLaws ImportBatch.
Proof. one_key db_batches ib_ID. Qed.
#[export] Instance rules_laws : TableLaws Rule.
Proof.
  split; [done|done|by intros []|..].
  - intros row w w' u Hi. apply (insert_one_key _ db_rules ru_Version row) in Hi as (Hf & ? & ?).
    split_and!; [|done|done]. apply Forall_singleton. cbv beta. by rewrite version_key.
  - intros ? row w Hf. apply (insert_one_key _ db_rules ru_Version row); [done|].
    apply Forall_cons in Hf as [Hf _]. intros Hin. apply Hf.
    by apply (version_key (ru_Version row)).
Qed.
#[export] Instance items_laws : TableLaws ComplianceCase.
Proof.
  split; [done|done|by intros []|..].
  - intros row w w' u Hi. unfold t_insert, items_table, InsertItem in Hi.
    apply bind_ok in Hi as (w1 & u1 & Ha & Hi). apply attempt_same in Ha as [Hd Hf].
    binds Hi. guards. rewrite Hd in *. split_and!; [by repeat constructor|done|simpl; by rewrite Hd].
  - intros ? row w Hf. unfold fresh in Hf. cbn [t_keys items_table] in Hf.
    apply Forall_cons in Hf as [Hid Hf]. apply Forall_cons in Hf as [Href _].
    unfold t_insert, items_table, InsertItem. apply wp_bind, wp_attempt. intros w1 [Hd _].
    apply wp_bind, wp_gets. apply wp_bind, wp_ensure; [by rewrite Hd, bool_decide_false|].
    apply wp_bind, wp_ensure; [by rewrite Hd, bool_decide_false|]. by apply wp_modify.
Qed.
End tables.

(** ** Operations that change nothing *)

Definition stays {A} (m : dop A) : Prop := ∀ w, same w (fst (m w)).
Create HintDb stays_db.
Section stays.
Context `{Env}.
Lemma stays_ret {A} (a : A) : stays (mret a).
Proof. done. Qed.
Lemma stays_raise {A} e : stays (raise e : dop A).
Proof. done. Qed.
Lemma stays_ensure b e : stays (ensure b e).
Proof. done. Qed.
Lemma stays_must {A} (o : option A) e : stays (must o e).
Proof. done. Qed.
Lemma stays_lift {A} (r : result derror A) : stays (lift r).
Proof. done. Qed.
Lemma stays_gets {A} (f : World → A) : stays (gets f).
Proof. done. Qed.
Lemma stays_ask {A} (f : nat → A) : stays (ask f).
Proof. done. Qed.
Lemma stays_bind {A B} (m : dop A) (f : A → dop B) :
  stays m → (∀ a, stays (f a)) → stays (m ≫= f).
Proof.
  intros Hm Hf w. unfold mbind, op_bind. specialize (Hm w).
  destruct (m w) as [w' [a|e]]; [|done]. etransitivity; [exact Hm|apply Hf].
Qed.
Lemma stays_wrapping {A} wrap (m : dop A) : stays m → stays (wrapping wrap m).
Proof. intros Hm w. unfold wrapping. specialize (Hm w). by destruct (m w) as [w' [a|e]]. Qed.
Lemma stays_attempt wrap : stays (attempt wrap).
Proof. apply stays_bind; [apply stays_ask|]. by intros [f|]. Qed.
Lemma stays_scan {A} (rows : list A) : stays (scan_rows rows).
Proof. by apply stays_bind. Qed.
Lemma stays_interleave `{!Sequential H} : stays interleave.
Proof. intros w. split; [|done]. simpl. apply others_id. Qed.
Lemma stays_ok {A} (m : dop A) w w' r : stays m → m w = (w', r) → same w w'.
Proof. intros Hs Hm. specialize (Hs w). by rewrite Hm in Hs. Qed.
End stays.
#[export] Hint Resolve stays_ret stays_raise stays_ensure stays_must stays_lift stays_gets stays_ask
  stays_wrapping stays_attempt stays_scan stays_interleave : stays_db.
#[export] Hint Resolve stays_bind | 2 : stays_db.

Section reads_stay.
Context `{Env}.
Lemma stays_ReadAll path : stays (ReadAll path).
Proof. unfold ReadAll, open_file. auto 10 with stays_db. Qed.
Lemma stays_Checksum path : stays (Checksum path).
Proof. unfold Checksum, open_file. auto 10 with stays_db. Qed.
Lemma stays_scan_shards root types : stays (scan_shards root types).
Proof. induction types; simpl; auto 10 with stays_db. Qed.
Lemma stays_select {A} `{!Sequential H} wrap (table : DB → list A) where_ :
  stays (select wrap table where_).
Proof. unfold select. auto 10 with stays_db. Qed.
End reads_stay.
#[export] Hint Resolve stays_ReadAll stays_Checksum stays_scan_shards stays_select : stays_db.

(** ** The transaction *)

(** The tables [DeleteAllData] leaves, and the tables after the inserts. *)
Definition emptied (d : DB) : DB := {|
  db_items := []; db_rules := db_rules d; db_assignments := []; db_escalations := [];
  db_audit := []; db_failures := []; db_batches := []; db_manifest := [];
  db_schema := db_schema d |}.
(** [postProcessRebuild] *)
Definition demote (d : DB) : DB :=
  d <| db_assignments :=
         update_where (λ row, bool_decide (rf_ItemID row ∈ es_ItemID <$> db_escalations d))
           (λ row, row <| rf_IsCurrent := false |>) (db_assignments d) |>
    <| db_rules :=
         update_where (λ row, superseded_version d (ru_Version row))
           (λ row, row <| ru_Status := RuleStatusSuperseded |>) (db_rules d) |>.

(** The rows of a collector: what a rebuild from it leaves in an index whose
    rules were [rules]. *)
Definition values {K A} `{Countable K} (m : gmap K A) : list A := (map_to_list m).*2.
Definition rebuilt (c : recordCollector) (old d : DB) : Prop :=
  ∃ items rules assignments escalations audit failures batches manifest,
    items ≡ₚ values (itemsByID c) ∧ rules ≡ₚ values (rulesByVersion c) ∧
    assignments ≡ₚ values (assignmentsByID c) ∧ escalations ≡ₚ values (escalationsByID c) ∧
    audit ≡ₚ values (auditByID c) ∧ failures ≡ₚ values (failuresByID c) ∧
    batches ≡ₚ values (batchesByID c) ∧
    d = (demote {|
      db_items := items; db_rules := db_rules old ++ rules; db_assignments := assignments;
      db_escalations := escalations; db_audit := audit; db_failures := failures;
      db_batches := batches; db_manifest := []; db_schema := db_schema old |})
      <| db_manifest := manifest |>.
(** How many rows it inserts. *)
Definition collected (c : recordCollector) : nat :=
  size (itemsByID c) + size (rulesByVersion c) + size (assignmentsByID c) +
  size (escalationsByID c) + size (auditByID c) + size (failuresByID c) + size (batchesByID c).
(** What the index must have in common with the shards for a rebuild to be
    possible: nothing clashes. *)
Definition rebuildable (c : recordCollector) (old : DB) : Prop :=
  NoDup (ic_ExternalRef <$> values (itemsByID c)) ∧
  NoDup (ru_Version <$> (db_rules old ++ values (rulesByVersion c))).
(** Every record is filed under its key. *)
Definition keyed (c : recordCollector) : Prop :=
  map_Forall (λ k i, ic_ID i = k) (itemsByID c) ∧
  map_Forall (λ k r, ru_Version r = k) (rulesByVersion c) ∧
  map_Forall (λ k a, rf_ID a = k) (assignmentsByID c) ∧
  map_Forall (λ k e, es_ID e = k) (escalationsByID c) ∧
  map_Forall (λ k a, au_ID a = k) (auditByID c) ∧
  map_Forall (λ k f, pf_ID f = k) (failuresByID c) ∧
  map_Forall (λ k b, ib_ID b = k) (batchesByID c).

Lemma keyed_values {K A} `{Countable K} (m : gmap K A) (key : A → K) :
  map_Forall (λ k a, key a = k) m → NoDup (key <$> values m).
Proof.
  intros Hm. unfold values.
  assert (key <$> (map_to_list m).*2 = (map_to_list m).*1) as ->; [|apply NoDup_fst_map_to_list].
  assert (Forall (λ p, key p.2 = p.1) (map_to_list m)) as Hall.
  { apply Forall_forall. intros [k a] Hin%elem_of_map_to_list. by apply Hm. }
  induction Hall as [|p l Hp _ IH]; [done|]. rewrite !fmap_cons. by f_equal.
Qed.
Lemma keyed_add c ty data c' : keyed c → add c ty data = Some c' → keyed c'.
Proof.
  unfold add. intros (H1 & H2 & H3 & H4 & H5 & H6 & H7) Ha.
  repeat case_bool_decide; try done; destruct (Unmarshal data) as [x|]; try done;
    injection Ha as <-; unfold keyed; simpl; split_and!; try done; by apply map_Forall_insert_2.
Qed.
Lemma keyed_add_all c ty records : keyed c → keyed (add_all c ty records).
Proof.
  unfold add_all. revert c. induction records as [|r records IH]; intros c Hc; [done|]. simpl.
  apply IH. destruct (add c ty r) as [c'|] eqn:E; [|done]. by eapply keyed_add.
Qed.
Lemma keyed_collect_files fs files c : keyed c → keyed (foldl (collect_file fs) c files).
Proof.
  revert c. induction files as [|sf files IH]; intros c Hc; [done|]. simpl. apply IH.
  unfold collect_file. repeat case_match; try done. by apply keyed_add_all.
Qed.
Lemma keyed_new : keyed newCollector.
Proof. unfold keyed. simpl. split_and!; apply map_Forall_empty. Qed.

Section insert_all.
Context `{TableLaws A, !EnvLaws H} {K : Type} `{Countable K} (m : gmap K A) (what : A → string).

Lemma insert_all_ok w rp w' rp' u :
  insert_all m what t_insert (w, rp) = ((w', rp'), Ok u) → keys_unique (t_rows (w_db w)) →
  ∃ rows, rows ≡ₚ values m ∧ keys_unique (t_rows (w_db w) ++ rows) ∧ w_fs w' = w_fs w ∧
    w_db w' = t_put (t_rows (w_db w) ++ rows) (w_db w) ∧ rp' = count_more (size m) rp.
Proof.
  intros Hi Hk. apply bind_ok in Hi as ([w1 rp1] & rows & Hr & Hi). unfold on_world in Hr.
  destruct (range_values m w) as [w2 r] eqn:Hv. injection Hr as <- <- ->.
  pose proof (stays_ok _ _ _ _ (stays_scan _) Hv) as [Hd Hf].
  injection Hv as _ Hv. pose proof (env_scan_perm _ (w_tick w) (map_to_list m).*2) as Hperm.
  rewrite Hv in Hperm. apply insert_rows_ok in Hi as (Hu & Hfs & Hdb & ->); [|by rewrite Hd].
  rewrite Hd in *. exists rows. split_and!; [done|done|congruence|done|].
  f_equal. rewrite Hperm, length_fmap. apply length_map_to_list.
Qed.
Lemma wp_insert_all `{!Faultless H} w rp Q :
  keys_unique (t_rows (w_db w) ++ values m) →
  (∀ w' rows, rows ≡ₚ values m → w_fs w' = w_fs w →
     w_db w' = t_put (t_rows (w_db w) ++ rows) (w_db w) →
     Q () (w', count_more (size m) rp)) →
  wp (insert_all m what t_insert) (w, rp) Q.
Proof.
  intros Hk HQ. apply wp_bind, wp_on_world, wp_scan. intros rows w1 Hperm [Hd Hf].
  apply wp_insert_rows; rewrite Hd.
  - unfold keys_unique in *. eapply Forall_impl; [exact Hk|]. intros key Hnd. cbv beta in Hnd.
    by rewrite Hperm.
  - intros w' Hfs Hdb.
    assert (length rows = size m) as ->.
    { rewrite Hperm, length_fmap. apply length_map_to_list. }
    apply (HQ w' rows); [done|congruence|done].
Qed.
End insert_all.

Section transaction.
Context `{Env, !EnvLaws H}.

Definition deleted_w (w : World) : World := w <| w_db := emptied (w_db w) |>.
Lemma DeleteAllData_ok w w' u :
  DeleteAllData w = (w', Ok u) → w_db w' = emptied (w_db w) ∧ w_fs w' = w_fs w.
Proof.
  unfold DeleteAllData. intros Hd. binds Hd.
  repeat match goal with Ha : attempt _ _ = _ |- _ => apply attempt_same in Ha as [? ?] end.
  simpl in *. split; [|congruence]. unfold set_db, emptied, upd in *. simpl in *.
  repeat match goal with E : w_db ?x = _ |- _ => rewrite E in *; clear E; simpl in * end. done.
Qed.
Lemma wp_DeleteAllData `{!Faultless H} w Q :
  (∀ w', w_db w' = emptied (w_db w) → w_fs w' = w_fs w → Q () w') → wp DeleteAllData w Q.
Proof.
  intros HQ.
  assert (wp DeleteAllData w (λ _ _, True)) as (w' & [] & Hd & _).
  { unfold DeleteAllData. repeat (apply wp_bind, wp_attempt; intros; first [apply wp_bind, wp_modify|by apply wp_modify]). }
  exists w', (). split; [done|]. apply DeleteAllData_ok in Hd as [??]. by apply HQ.
Qed.
Lemma postProcess_ok w w' u :
  postProcessRebuild w = (w', Ok u) → w_db w' = demote (w_db w) ∧ w_fs w' = w_fs w.
Proof.
  unfold postProcessRebuild. intros Hd. binds Hd.
  repeat match goal with Ha : attempt _ _ = _ |- _ => apply attempt_same in Ha as [? ?] end.
  simpl in *. split; [|congruence].
  repeat match goal with E : w_db ?x = _ |- _ => rewrite E in *; clear E; simpl in * end. done.
Qed.
Lemma wp_postProcess `{!Faultless H} w Q :
  (∀ w', w_db w' = demote (w_db w) → w_fs w' = w_fs w → Q () w') → wp postProcessRebuild w Q.
Proof.
  intros HQ.
  assert (wp postProcessRebuild w (λ _ _, True)) as (w' & [] & Hd & _).
  { unfold postProcessRebuild. apply wp_bind, wp_attempt. intros. apply wp_bind, wp_modify.
    apply wp_bind, wp_attempt. intros. by apply wp_modify. }
  exists w', (). split; [done|]. apply postProcess_ok in Hd as [??]. by apply HQ.
Qed.

(** The manifest is all [rebuildManifests] writes. *)
Definition manifest_only (w w' : World) : Prop :=
  w_fs w' = w_fs w ∧ ∃ man, w_db w' = (w_db w) <| db_manifest := man |>.
#[local] Instance manifest_only_refl : Reflexive manifest_only.
Proof. intros w. split; [done|]. exists (db_manifest (w_db w)). by destruct (w_db w). Qed.
#[local] Instance manifest_only_trans : Transitive manifest_only.
Proof.
  intros x y z [H1 (m1 & E1)] [H2 (m2 & E2)]. split; [congruence|]. exists m2. by rewrite E2, E1.
Qed.
Lemma same_manifest w w' : same w w' → manifest_only w w'.
Proof.
  intros [Hd Hf]. split; [done|]. exists (db_manifest (w_db w)). rewrite Hd. by destruct (w_db w).
Qed.
Lemma manifest_Upsert entry w : manifest_only w (fst (UpsertManifest entry w)).
Proof.
  unfold UpsertManifest, mbind, op_bind. destruct (attempt _ w) as [w1 [u|e]] eqn:Ha;
    apply attempt_same in Ha as [Hd Hf]; [|by apply same_manifest].
  split; [done|]. simpl. rewrite Hd. by eexists.
Qed.
Lemma manifest_rebuild files w : manifest_only w (fst (rebuildManifests files w)).
Proof.
  unfold rebuildManifests, mbind, op_bind.
  destruct (clock_now w) as [w0 [now|e]] eqn:Hn; [|done].
  transitivity w0; [by apply same_manifest, (stays_ok _ _ _ _ (stays_ask _) Hn)|]. clear Hn.
  revert w0. induction files as [|[path ty] files IH]; intros w0; [done|].
  cbn [for_each]. unfold mbind, op_bind. unfold on_result at 1.
  destruct (ReadAll path w0) as [w1 r] eqn:Hr. apply (stays_ok _ _ _ _ (stays_ReadAll _)) in Hr.
  unfold on_result.
  destruct ((match r with Ok _ => Checksum path | Err _ => mret "" end) w1) as [w2 s] eqn:Hs.
  assert (same w1 w2) as Hs2.
  { destruct r; [exact (stays_ok _ _ _ _ (stays_Checksum _) Hs)|by injection Hs as <- _]. }
  transitivity w2; [apply same_manifest; by transitivity w1|].
  pose proof (manifest_Upsert (manifest_entry now path ty r s) w2) as Hm.
  destruct (UpsertManifest _ w2) as [w3 [u|e]]; [|exact Hm]. transitivity w3; [exact Hm|apply IH].
Qed.

(** The entry of a readable or unreadable file, and the manifest of a list of
    files. *)
Definition upsert (entry : ManifestEntry) (l : list ManifestEntry) : list ManifestEntry :=
  if bool_decide (me_ShardID entry ∈ me_ShardID <$> l)
  then update_where (λ row, bool_decide (me_ShardID row = me_ShardID entry)) (manifest_update entry) l
  else l ++ [entry].
Definition file_entry (now : Time) (fs : FS) (sf : string * string) : ManifestEntry :=
  let content := default [] (fs !! sf.1) in
  manifest_entry now sf.1 sf.2 (records_of content)
    (match records_of content with Ok _ => Ok (sha256_hex content) | Err _ => Ok "" end).
Definition manifest_of (now : Time) (fs : FS) (files : list (string * string))
    (l : list ManifestEntry) : list ManifestEntry :=
  foldl (λ l sf, upsert (file_entry now fs sf) l) l files.

Lemma wp_Upsert `{!Faultless H} entry w Q :
  (∀ w', w_fs w' = w_fs w → w_db w' = (w_db w) <| db_manifest := upsert entry (db_manifest (w_db w)) |> →
     Q () w') → wp (UpsertManifest entry) w Q.
Proof.
  intros HQ. apply wp_bind, wp_attempt. intros w1 [Hd Hf]. apply wp_modify, HQ; [done|].
  simpl. by rewrite Hd.
Qed.
Lemma wp_manifests `{!Faultless H} files w Q :
  Forall (λ f, is_Some (w_fs w !! f.1)) files →
  (∀ w' now, w_fs w' = w_fs w →
     w_db w' = (w_db w) <| db_manifest := manifest_of now (w_fs w) files (db_manifest (w_db w)) |> →
     Q () w') → wp (rebuildManifests files) w Q.
Proof.
  intros Hall HQ. apply wp_bind, wp_ask. intros now w0 Hw0.
  assert (∀ w', w_fs w' = w_fs w0 →
     w_db w' = (w_db w0) <| db_manifest := manifest_of now (w_fs w0) files (db_manifest (w_db w0)) |> →
     Q () w') as HQ0.
  { destruct Hw0 as [-> ->]. intros w'. apply HQ. }
  assert (Forall (λ f, is_Some (w_fs w0 !! f.1)) files) as Hall0 by (by destruct Hw0 as [_ ->]).
  clear w HQ Hall Hw0. revert w0 Hall0 HQ0.
  induction files as [|[path ty] files IH]; intros w Hall HQ.
  { apply wp_ret, HQ; [done|]. by destruct (w_db w). }
  apply Forall_cons in Hall as [[content Hc] Hall]. simpl in Hc. cbn [for_each]. apply wp_bind.
  destruct (ReadAll_spec path w content Hc) as (w1 & [Hd1 Hf1] & Hr).
  assert (∀ w2 rec sum, same w1 w2 → manifest_entry now path ty rec sum = file_entry now (w_fs w) (path, ty) →
    wp (UpsertManifest (manifest_entry now path ty rec sum)) w2
      (λ _ w', wp (for_each files (λ '(path, entityType),
        on_result (ReadAll path) (λ records,
          on_result (match records with Ok _ => Checksum path | Err _ => mret "" end) (λ checksum,
            UpsertManifest (manifest_entry now path entityType records checksum))))) w' Q)) as Hgo.
  { intros w2 rec sum [Hd2 Hf2] ->. apply wp_Upsert. intros w3 Hf3 Hd3.
    assert (w_fs w3 = w_fs w) as Hf by congruence. apply IH; [by rewrite Hf|].
    intros w' Hf' Hd'. apply HQ; [congruence|]. rewrite Hd', Hd3, Hf, Hd2, Hd1. done. }
  unfold file_entry in Hgo. simpl in Hgo. rewrite Hc in Hgo. simpl in Hgo.
  destruct (records_of content) as [records|e].
  - apply wp_on_result. exists w1, records. split; [done|]. apply wp_on_result.
    apply (wp_Checksum path w1 content); [by rewrite Hf1|]. intros w2 Hw2. by apply Hgo.
  - unfold on_result at 1, wp. rewrite Hr. apply wp_on_result, wp_ret. by apply Hgo.
Qed.

Lemma on_world_ok {R A} (m : dop A) w (rp : R) s r :
  on_world m (w, rp) = (s, r) → ∃ w', m w = (w', r) ∧ s = (w', rp).
Proof. unfold on_world. destruct (m w) as [w' r']. intros [= <- <-]. eauto. Qed.

(** Keys that are unique because the rows are those of a map. *)
Lemma keys_one {A} (key : A → string) l : NoDup (key <$> l) → Forall (λ k, NoDup (k <$> l)) [key].
Proof. intros Hl. by repeat constructor. Qed.
Lemma versions_unique (l : list Rule) :
  NoDup ((λ r, pretty (ru_Version r)) <$> l) ↔ NoDup (ru_Version <$> l).
Proof.
  rewrite <- (NoDup_fmap pretty (ru_Version <$> l)). by rewrite <- list_fmap_compose.
Qed.

(** The transaction, with the tables named. *)
Lemma replace_tables_eq c files : replace_tables c files =
  (_ ← on_world (wrapping (errorf "delete all data") DeleteAllData);
   _ ← insert_all (itemsByID c) (λ i, "insert item " +:+ ic_ID i) t_insert;
   _ ← insert_all (rulesByVersion c) (λ r, "insert rule v" +:+ pretty (ru_Version r)) t_insert;
   _ ← insert_all (assignmentsByID c) (λ a, "insert referral " +:+ rf_ID a) t_insert;
   _ ← insert_all (escalationsByID c) (λ e, "insert escalation " +:+ es_ID e) t_insert;
   _ ← insert_all (auditByID c) (λ a, "insert audit " +:+ au_ID a) t_insert;
   _ ← insert_all (failuresByID c) (λ f, "insert failure " +:+ pf_ID f) t_insert;
   _ ← insert_all (batchesByID c) (λ b, "insert batch " +:+ ib_ID b) t_insert;
   _ ← on_world (wrapping (errorf "post-process") postProcessRebuild);
   _ ← on_world (wrapping (errorf "rebuild manifests") (rebuildManifests files));
   on_world (attempt (errorf "commit rebuild"))).
Proof. done. Qed.

(** Takes the next insert of a successful transaction apart: its rows, and the
    tables it leaves, given those it found. *)
Ltac next_insert Hr Hd rows Hperm Hk :=
  let Hi := fresh "Hi" in let Hdn := fresh "Hd" in
  apply bind_ok in Hr as ([? ?] & ? & Hi & Hr);
  apply insert_all_ok in Hi as (rows & Hperm & Hk & ? & Hdn & ->);
    [|rewrite Hd; first [by repeat constructor | by apply Forall_singleton, versions_unique]];
  rewrite Hd in Hk, Hdn; clear Hd; rename Hdn into Hd;
  cbn [t_rows t_put items_table rules_table assignments_table escalations_table audit_table
    failures_table batches_table emptied upd db_items db_rules db_assignments db_escalations db_audit
    db_failures db_batches db_manifest db_schema app] in Hk, Hd.
Lemma replace_tables_ok c files w rp w' rp' u :
  replace_tables c files (w, rp) = ((w', rp'), Ok u) → NoDup (ru_Version <$> db_rules (w_db w)) →
  rebuilt c (w_db w) (w_db w') ∧ rebuildable c (w_db w) ∧ w_fs w' = w_fs w ∧
  rp' = count_more (collected c) rp.
Proof.
  intros Hr Hrules. rewrite replace_tables_eq in Hr.
  apply bind_ok in Hr as (s1 & u1 & Hdel & Hr). apply on_world_ok in Hdel as (w1 & Hdel & ->).
  apply wrapping_ok, DeleteAllData_ok in Hdel as [Hd Hf1].
  next_insert Hr Hd items P1 K1.
  next_insert Hr Hd rules P2 K2.
  next_insert Hr Hd assignments P3 K3. next_insert Hr Hd escalations P4 K4.
  next_insert Hr Hd audit P5 K5. next_insert Hr Hd failures P6 K6.
  next_insert Hr Hd batches P7 K7.
  apply bind_ok in Hr as (s2 & ? & Hpp & Hr). apply on_world_ok in Hpp as (w8 & Hpp & ->).
  apply wrapping_ok, postProcess_ok in Hpp as [Hd8 Hf8].
  apply bind_ok in Hr as (s3 & ? & Hm & Hr). apply on_world_ok in Hm as (w9 & Hm & ->).
  apply wrapping_ok in Hm. pose proof (manifest_rebuild files w8) as [Hf9 (man & Hd9)].
  rewrite Hm in Hf9, Hd9. cbn [fst] in Hf9, Hd9. apply on_world_ok in Hr as (w10 & Hc & [= -> ->]).
  apply attempt_same in Hc as [Hd10 Hf10]. split_and!.
  - exists items, rules, assignments, escalations, audit, failures, batches, man.
    split_and!; try done. by rewrite Hd10, Hd9, Hd8, Hd.
  - apply Forall_cons in K1 as [_ K1]. apply Forall_cons in K1 as [K1 _].
    apply Forall_cons in K2 as [K2 _]. split; [by rewrite <- P1|].
    apply versions_unique. by rewrite <- P2.
  - congruence.
  - unfold count_more, collected, upd. simpl. f_equal. lia.
Qed.

(** The next insert of a transaction that succeeds. *)
Ltac run_insert Hd rows Hperm tac :=
  let Hdn := fresh "Hd" in
  apply wp_bind, wp_insert_all; [assumption|rewrite Hd; tac|rewrite Hd; intros ? rows Hperm ? Hdn; clear Hd; rename Hdn into Hd;
       cbn [t_rows t_put items_table rules_table assignments_table escalations_table audit_table
         failures_table batches_table emptied upd db_items db_rules db_assignments db_escalations
         db_audit db_failures db_batches db_manifest db_schema app] in Hd].
Lemma wp_replace_tables `{!Faultless H} c files w rp Q :
  keyed c → rebuildable c (w_db w) → Forall (λ f, is_Some (w_fs w !! f.1)) files →
  (∀ w' now, w_fs w' = w_fs w → rebuilt c (w_db w) (w_db w') →
     db_manifest (w_db w') = manifest_of now (w_fs w) files [] →
     Q () (w', count_more (collected c) rp)) →
  wp (replace_tables c files) (w, rp) Q.
Proof.
  intros (H1 & H2 & H3 & H4 & H5 & H6 & H7) [Hrefs Hvers] Hfiles HQ. rewrite replace_tables_eq.
  apply wp_bind, wp_on_world, wp_wrapping, wp_DeleteAllData. intros w1 Hd Hf1.
  run_insert Hd items P1 ltac:(repeat apply Forall_cons_2; [by apply keyed_values|done|done]).
  run_insert Hd rules P2 ltac:(by apply Forall_singleton, versions_unique).
  run_insert Hd assignments P3 ltac:(by apply Forall_singleton, keyed_values).
  run_insert Hd escalations P4 ltac:(by apply Forall_singleton, keyed_values).
  run_insert Hd audit P5 ltac:(by apply Forall_singleton, keyed_values).
  run_insert Hd failures P6 ltac:(by apply Forall_singleton, keyed_values).
  run_insert Hd batches P7 ltac:(by apply Forall_singleton, keyed_values).
  match goal with E : w_fs ?x = _ |- wp _ (?x, _) _ => assert (w_fs x = w_fs w) as Hfs by congruence end.
  apply wp_bind, wp_on_world, wp_wrapping, wp_postProcess. intros w9 Hd9 Hf9.
  apply wp_bind, wp_on_world, wp_wrapping, wp_manifests; rewrite Hf9, Hfs; [done|].
  intros w10 now Hf10 Hd10. apply wp_on_world, wp_attempt. intros w11 [Hd11 Hf11].
  match goal with |- Q () (_, ?r) =>
    assert (r = count_more (collected c) rp) as -> end.
  { unfold count_more, collected, upd. simpl. f_equal. lia. }
  apply (HQ w11 now); [congruence| |by rewrite Hd11, Hd10, Hd9, Hd].
  exists items, rules, assignments, escalations, audit, failures, batches. eexists.
  split_and!; try done. by rewrite Hd11, Hd10, Hd9, Hd.
Qed.
End transaction.

(** ** The whole operation *)

Section whole.
Context `{Env, !EnvLaws H, !Sequential H} (root : string).

Lemma ReadAll_ok path w w' records :
  ReadAll path w = (w', Ok records) →
  ∃ content, w_fs w !! path = Some content ∧ records_of content = Ok records.
Proof.
  unfold ReadAll, open_file. intros Hr. apply bind_ok in Hr as (w1 & content & Ho & Hr).
  apply bind_ok in Ho as (w2 & u & Ha & Ho). apply attempt_same in Ha as [_ Hf].
  apply bind_ok in Ho as (w3 & fs & Hg & Ho). injection Hg as <- <-.
  unfold must in Ho. destruct (w_fs w2 !! path) as [b|] eqn:Hb; [|done]. injection Ho as <- <-.
  rewrite Hf in Hb. exists b. split; [done|]. binds Hr. unfold records_of.
  destruct (scan_lines b) as [lines|]; [|done].
  match goal with E : Ok _ = Ok _ |- _ => by injection E as -> end.
Qed.

(** Reading the shards loses those that cannot be read, and nothing else. *)
Lemma read_shards_ok files c w rp w' rp' r :
  read_shards files c (w, rp) = ((w', rp'), r) →
  same w w' ∧ rr_TotalRecords rp' = rr_TotalRecords rp ∧ rr_TotalShards rp' = rr_TotalShards rp ∧
  ∃ read, read `sublist_of` files ∧ r = Ok (foldl (collect_file (w_fs w)) c read) ∧
    rr_IndexedShards rp' = rr_IndexedShards rp + Z.of_nat (length read) ∧
    rr_SkippedShards rp' = rr_SkippedShards rp + Z.of_nat (length files - length read).
Proof.
  revert c w rp. induction files as [|[path ty] files IH]; intros c w rp Hr.
  { injection Hr as <- <- <-. split_and!; [done..|]. exists []. split_and!; [done|done|..]; simpl; lia. }
  cbn [read_shards] in Hr. unfold mbind, op_bind, on_result, on_world in Hr.
  destruct (ReadAll path w) as [w1 [records|e]] eqn:Hread;
    pose proof (stays_ok _ _ _ _ (stays_ReadAll _) Hread) as [Hd Hf];
    simpl in Hr; apply IH in Hr as ([Hd' Hf'] & Ht & Hs & read & Hsub & -> & Hi & Hk);
    simpl in *; (split; [split; congruence|]); (split; [done|]); (split; [done|]).
  - exists ((path, ty) :: read). apply ReadAll_ok in Hread as (content & Hc & Hrec). split_and!.
    + by apply sublist_skip.
    + assert (collect_file (w_fs w) c (path, ty) = add_all c ty records) as E
        by (unfold collect_file; simpl; by rewrite Hc, Hrec).
      rewrite Hf. cbn [foldl]. by rewrite E.
    + simpl length. lia.
    + simpl length. lia.
  - exists read. pose proof (sublist_length _ _ Hsub). split_and!.
    + by apply sublist_cons.
    + by rewrite Hf.
    + lia.
    + simpl length. lia.
Qed.

Lemma scan_shards_ok types w w' files :
  scan_shards root types w = (w', Ok files) →
  files = types ≫= λ t, (λ path, (path, t)) <$> shard_files root (w_fs w) t.
Proof.
  revert w files. induction types as [|t types IH]; intros w files Hs; [by injection Hs as _ <-|].
  simpl in Hs. binds Hs.
  repeat match goal with Ha : ask _ _ = _ |- _ => injection Ha as <- <- end.
  match goal with Hsc : scan_shards _ _ _ = _ |- _ => apply IH in Hsc as -> end.
  unfold ScanEntityType in *. destruct (head _); [done|]. simplify_eq. done.
Qed.
Lemma all_files_exist (fs : FS) : Forall (λ f, is_Some (fs !! f.1)) (all_files root fs).
Proof.
  apply Forall_forall. intros [path t] Hin. unfold all_files in Hin.
  apply list_elem_of_bind in Hin as (ty & Hin & _). apply list_elem_of_fmap in Hin as (p & [= <- _] & Hin).
  unfold shard_files in Hin. rewrite merge_sort_Permutation in Hin.
  apply list_elem_of_In, filter_In in Hin as [Hin _]. apply list_elem_of_In, list_elem_of_fmap in Hin as ([q b] & -> & Hb).
  apply elem_of_map_to_list in Hb. by eexists.
Qed.
Lemma sorted_files_exist (fs : FS) :
  Forall (λ f, is_Some (fs !! f.1)) (merge_sort by_path (all_files root fs)).
Proof. rewrite merge_sort_Permutation. apply all_files_exist. Qed.
End whole.

(** ** Reconciliation and diagnosis *)

Section reports_stay.
Context `{Env, !Sequential H}.

(** The operation fills in a report and reads. *)
Definition report_stays {R A} (m : rop R A) : Prop := ∀ s, same s.1 (fst (m s)).1.
Lemma report_stays_bind {R A B} (m : rop R A) (f : A → rop R B) :
  report_stays m → (∀ a, report_stays (f a)) → report_stays (m ≫= f).
Proof.
  intros Hm Hf s. unfold mbind, op_bind. specialize (Hm s). destruct (m s) as [s' [a|e]]; [|done].
  simpl in *. etrans; [exact Hm|apply Hf].
Qed.
Lemma report_stays_result {R A B} (m : rop R A) (f : result derror A → rop R B) :
  report_stays m → (∀ a, report_stays (f a)) → report_stays (on_result m f).
Proof.
  intros Hm Hf s. unfold on_result. specialize (Hm s). destruct (m s) as [s' r]. simpl in *. etrans; [exact Hm|apply Hf].
Qed.
Lemma report_stays_world {R A} (m : dop A) : stays m → report_stays (on_world m : rop R A).
Proof. intros Hm [w rp]. unfold on_world. specialize (Hm w). by destruct (m w). Qed.
Lemma report_stays_report {R} (f : R → R) : report_stays (report f).
Proof. by intros [w rp]. Qed.
Lemma report_stays_ret {R A} (a : A) : report_stays (mret a : rop R A).
Proof. by intros s. Qed.
Lemma report_stays_each {R A} (l : list A) (f : A → rop R ()) : (∀ x, report_stays (f x)) → report_stays (for_each l f).
Proof. intros Hf. induction l as [|x l IH]; [done|]. by apply report_stays_bind. Qed.
Lemma stays_Reconcile root : report_stays (Reconcile root).
Proof.
  pose proof @report_stays_report as Hrep. pose proof @report_stays_ret as Hret.
  unfold Reconcile. apply report_stays_bind; [apply report_stays_world, stays_scan_shards|]. intros files.
  apply report_stays_bind; [apply Hrep|]. intros _. apply report_stays_bind.
  { apply report_stays_world. unfold ListManifest. auto with stays_db. }
  intros manifests. apply report_stays_each. intros sf. unfold reconcile_shard.
  apply report_stays_result; [apply report_stays_world; auto with stays_db|]. intros [records|e]; [|apply Hrep].
  cbv zeta. destruct (_ !! _) as [m|]; [|apply Hrep].
  apply report_stays_bind; [destruct (_ =? 0); [apply Hret|apply Hrep]|]. intros _.
  apply report_stays_bind; [|intros _; apply Hrep].
  apply report_stays_result; [apply report_stays_world; auto with stays_db|].
  intros c. destruct (_ || _); [apply Hret|apply Hrep].
Qed.
Lemma stays_diagnosed {A} what (zero : A) m : stays m → report_stays (diagnosed what zero m).
Proof.
  intros Hm. unfold diagnosed. apply report_stays_result; [by apply report_stays_world|]. intros [a|e].
  - apply report_stays_ret.
  - apply report_stays_bind; [apply report_stays_report|]. intros _. apply report_stays_ret.
Qed.
Lemma stays_Diagnose : report_stays Diagnose.
Proof.
  pose proof @report_stays_report as Hrep. pose proof @report_stays_ret as Hret.
  unfold Diagnose. apply report_stays_bind.
  { apply report_stays_result; [apply report_stays_world; auto with stays_db|]. intros [?|?]; [apply Hret|].
    apply report_stays_bind; [apply Hrep|]. intros _. apply Hret. }
  intros writable.
  repeat (apply report_stays_bind; [first
    [apply stays_diagnosed; unfold ListManifest, CountByStatus, ListRules, FindOverdueItems, SchemaVersion;
       auto 10 with stays_db
    |by apply report_stays_world; auto with stays_db
    |by intros s]|intros]).
  apply Hret.
Qed.
End reports_stay.
