(* ===== verification/QueryFacts.v ===== *)
(** * What the clients of the store rely on

    The laws of the interface of StoreApi: a class, over what a store's state
    means, which is a set of tables. The store of [internal/repo] meets them;
    what the query service answers and commits follows from the laws alone. *)
From S2P Require Import QueryService Prelude GoErrors GoStrings GoTime Domain World Shard Index Repo Rebuild AuditLog StoreApi.
From S2P Require Import StoreFacts RebuildFacts.

(** ** Answers *)

(** One row: that it is asked for [none] means that there is none. *)
Definition found {A} (none : domain_error) (table : DB → list A) (where_ : A → bool) (scan : A → result derror A)
    (d : DB) (r : result derror A) : Prop :=
  match r with
  | Ok x => ∃ row, row ∈ table d ∧ where_ row = true ∧ scan row = Ok x
  | Err e => e = Sentinel none → Forall (λ row, where_ row = false) (table d)
  end.
(** All rows, in an order; those of equal keys in any. *)
Definition listed {A} (table : DB → list A) (where_ : A → bool) (order : A → A → Prop) `{!∀ a b, Decision (order a b)}
    (scan : A → result derror A) (d : DB) (r : result derror (list A)) : Prop :=
  match r with
  | Ok l => ∃ rows, rows ≡ₚ List.filter where_ (table d) ∧ scan_all scan (merge_sort order rows) = Ok l
  | Err _ => True
  end.
(** A page of them, and how many there are. *)
Definition paged {A} (table : DB → list A) (where_ : A → bool) (order : A → A → Prop) `{!∀ a b, Decision (order a b)}
    (scan : A → result derror A) (size offset : Z) (d : DB) (r : result derror (list A * Z)) : Prop :=
  match r with
  | Ok (l, total) => ∃ rows, rows ≡ₚ List.filter where_ (table d) ∧
      scan_all scan (page size offset (merge_sort order rows)) = Ok l ∧
      total = Z.of_nat (length (List.filter where_ (table d)))
  | Err _ => True
  end.
(** How many cases have a status. *)
Definition status_count (d : DB) (key : string) : Z :=
  Z.of_nat (length (List.filter (λ row, bool_decide (status_text (ic_Status row) = key)) (db_items d))).
Definition counted (d : DB) (r : result derror (gmap string Z)) : Prop :=
  match r with
  | Ok counts => ∀ key, counts !! key = if status_count d key =? 0 then None else Some (status_count d key)
  | Err _ => True
  end.
(** The newest version of a rule, 0 if there is none. *)
Definition newest (d : DB) (r : result derror Z) : Prop :=
  match r with
  | Ok v => if bool_decide (db_rules d = []) then v = 0
            else (v ∈ ru_Version <$> db_rules d) ∧ Forall (λ x, x ≤ v) (ru_Version <$> db_rules d)
  | Err _ => True
  end.
(** What a success says. *)
Definition on_ok {A} (P : DB → A → Prop) (d : DB) (r : result derror A) : Prop :=
  match r with Ok a => P d a | Err _ => True end.
Definition unsaid {A} (d : DB) (r : result derror A) : Prop := True.

(** ** Laws *)

Section laws.
Context {S : Type} (tables : S → DB).

(** The operation reads, and answers what [P] says of the tables. *)
Definition answers {A} (m : op S derror A) (P : DB → result derror A → Prop) : Prop :=
  ∀ s s' r, m s = (s', r) → tables s' = tables s ∧ P (tables s) r.
(** The effect of an operation that succeeds. *)
Definition writes {A} (m : op S derror A) (Q : DB → A → DB → Prop) : Prop :=
  ∀ s s' a, m s = (s', Ok a) → Q (tables s) a (tables s').

(** The statements of a transaction; which file a record went to is the
    store's choice. *)
Class TxLaws (tx : Tx S) : Prop := {
  law_SaveItem item : writes (tx_SaveItem tx item) (λ d item' d',
    (∃ path off, item' = item <| ic_ShardPath := path |> <| ic_ShardOffset := off |>) ∧
    (ic_ID item ∉ ic_ID <$> db_items d) ∧ (ic_ExternalRef item ∉ ic_ExternalRef <$> db_items d) ∧
    d' = d <| db_items := db_items d ++ [item'] |>);
  law_UpdateItem item : writes (tx_UpdateItem tx item) (λ d item' d',
    (∃ path off, item' = item <| ic_ShardPath := path |> <| ic_ShardOffset := off |>) ∧
    ic_ID item ∈ ic_ID <$> db_items d ∧ d' = put_item item d);
  law_SaveAssignment a : writes (tx_SaveAssignment tx a) (λ d _ d',
    ∃ path, (rf_ID a ∉ rf_ID <$> db_assignments d) ∧ d' = add_referral (a <| rf_ShardPath := path |>) d);
  law_MarkAssignmentSuperseded id : writes (tx_MarkAssignmentSuperseded tx id) (λ d _ d', d' = supersede id d);
  law_SaveEscalation e : writes (tx_SaveEscalation tx e) (λ d e' d',
    ∃ path, e' = e <| es_ShardPath := path |> ∧ (es_ID e ∉ es_ID <$> db_escalations d) ∧ d' = add_escalation e' d);
  law_SaveAudit a : writes (tx_SaveAudit tx a) (λ d _ d',
    ∃ path, (au_ID a ∉ au_ID <$> db_audit d) ∧ d' = add_audit (a <| au_ShardPath := path |>) d);
  law_SaveFailure f : writes (tx_SaveFailure tx f) (λ d _ d',
    (pf_ID f ∉ pf_ID <$> db_failures d) ∧ d' = d <| db_failures := db_failures d ++ [f] |>);
  law_UpdateFailure f : writes (tx_UpdateFailure tx f) (λ d _ d',
    pf_ID f ∈ pf_ID <$> db_failures d ∧
    d' = d <| db_failures := update_where (λ row, bool_decide (pf_ID row = pf_ID f)) (failure_update f)
                               (db_failures d) |>);
  law_SaveBatch b : writes (tx_SaveBatch tx b) (λ d _ d',
    ∃ path, (ib_ID b ∉ ib_ID <$> db_batches d) ∧
      d' = d <| db_batches := db_batches d ++ [b <| ib_ShardPath := path |>] |>);
  law_SaveRule r : writes (tx_SaveRule tx r) (λ d r' d',
    ∃ path, r' = r <| ru_ShardPath := path |> ∧ (ru_Version r ∉ ru_Version <$> db_rules d) ∧
      d' = d <| db_rules := db_rules d ++ [r'] |>);
  law_SupersedeRule v : writes (tx_SupersedeRule tx v) (λ d _ d', ∃ wall, d' = supersede_rule v wall d)
}.

(** A transaction takes effect as a whole or not at all. *)
Definition atomic (store : Store S) : Prop := ∀ A (fn : Tx S → op S derror A) s s' r,
  st_WithTx store fn s = (s', r) →
  match r with
  | Ok a => ∃ tx s1 s2, TxLaws tx ∧ tables s1 = tables s ∧ fn tx s1 = (s2, Ok a) ∧ tables s' = tables s2
  | Err _ => tables s' = tables s
  end.
Class StoreLaws `{Zone} (store : Store S) : Prop := {
  law_WithTx : atomic store;
  law_GetItem id : answers (st_GetItem store id)
    (found ErrNotFound db_items (λ row, bool_decide (ic_ID row = id)) scanItem);
  law_GetItemByExternalRef ref : answers (st_GetItemByExternalRef store ref)
    (found ErrNotFound db_items (λ row, bool_decide (ic_ExternalRef row = ref)) scanItem);
  law_ListItems filter : answers (st_ListItems store filter) (λ d r, ∃ wall,
    paged db_items (item_where filter wall) (desc_by ic_RegisteredAt) scanItem
      (item_page_size filter) (page_offset (if_PageOffset filter)) d r);
  law_FindOverdueItems now maxLevel : answers (st_FindOverdueItems store now maxLevel)
    (listed db_items (overdue_where now maxLevel) (asc_by ic_Deadline) scanItem);
  law_CountByStatus : answers (st_CountByStatus store) counted;
  law_GetRule version : answers (st_GetRule store version)
    (found ErrNoRows db_rules (λ row, bool_decide (ru_Version row = version)) scanRule);
  law_GetActiveRules at_ : answers (st_GetActiveRules store at_)
    (listed db_rules (active_rule_where at_) by_priority scanRule);
  law_GetCurrentRuleVersion : answers (st_GetCurrentRuleVersion store) newest;
  law_ListRules : answers (st_ListRules store) (listed db_rules (λ _, true) newest_first scanRule);
  law_GetAssignments id : answers (st_GetAssignments store id)
    (listed db_assignments (λ row, bool_decide (rf_ItemID row = id)) (asc_by rf_AdjudicatedAt) scanAssignment);
  law_GetCurrentAssignment id : answers (st_GetCurrentAssignment store id)
    (found ErrNotFound db_assignments (λ row, bool_decide (rf_ItemID row = id) && rf_IsCurrent row) scanAssignment);
  law_GetEscalations id : answers (st_GetEscalations store id)
    (listed db_escalations (λ row, bool_decide (es_ItemID row = id)) (asc_by es_EscalatedAt) scanEscalation);
  law_ListAudit filter : answers (st_ListAudit store filter)
    (paged db_audit (audit_where filter) (desc_by au_Timestamp) scanAudit
      (open_page_size (af_PageSize filter)) (page_offset (af_PageOffset filter)));
  law_ListFailures : answers (st_ListFailures store)
    (listed db_failures (λ row, bool_decide (pf_Status row = FailureStatusActive)) (asc_by pf_LastFailedAt) scanFailure);
  law_GetFailure id : answers (st_GetFailure store id)
    (found ErrNotFound db_failures (λ row, bool_decide (pf_ID row = id)) scanFailure);
  law_ListBatches filter : answers (st_ListBatches store filter)
    (paged db_batches (batch_where filter) (desc_by ib_BatchDate) scanBatch
      (open_page_size (bf_PageSize filter)) (page_offset (bf_PageOffset filter)));
  law_Reconcile s : tables (st_Reconcile store s).1.1 = tables s;
  law_Diagnose : answers (st_Diagnose store) unsaid;
  law_Ping : answers (st_Ping store) unsaid
}.
End laws.

(** ** The store of [internal/repo] *)

(** No scan reports that a row is not there. *)
Lemma column_never `{Zone} t e : time_column t = Err e → e = External "parsing time".
Proof. unfold time_column. repeat case_match; by intros [= <-]. Qed.
Lemma nullable_never `{Zone} t e : nullable_time_column t = Err e → e = errorf "parse nullable time" (External "parsing time").
Proof.
  unfold nullable_time_column. destruct t as [t|]; [|done]. destruct (IsZero t); [done|].
  destruct (time_column t) eqn:E; [done|]. intros [= <-]. by apply column_never in E as ->.
Qed.
Ltac scan_never := intros row Hs; repeat first
  [ progress simplify_eq
  | match goal with E : time_column _ = Err _ |- _ => apply column_never in E
                  | E : nullable_time_column _ = Err _ |- _ => apply nullable_never in E end
  | progress unfold mbind, result_bind, mret, result_ret in *
  | match type of Hs with context [match ?x with Ok _ => _ | Err _ => _ end] => destruct x eqn:? end
  | done ].
Lemma scanItem_never `{Zone} t row : scanItem row ≠ Err (Sentinel t).
Proof. revert row. unfold scanItem. scan_never. Qed.
Lemma scanRule_never `{Zone} t row : scanRule row ≠ Err (Sentinel t).
Proof. revert row. unfold scanRule. scan_never. Qed.
Lemma scanAssignment_never `{Zone} t row : scanAssignment row ≠ Err (Sentinel t).
Proof. revert row. unfold scanAssignment. scan_never. Qed.
Lemma scanFailure_never `{Zone} t row : scanFailure row ≠ Err (Sentinel t).
Proof. revert row. unfold scanFailure. scan_never. Qed.

Section repo_lawful.
Context `{Env, !Sequential H, !EnvLaws H} (writer : Writer).
Abbreviation answered := (answers w_db).

Lemma answered_row {A} (table : DB → list A) where_ scan :
  (∀ row, scan row ≠ Err (Sentinel ErrNotFound)) →
  answered (query_row table where_ scan) (found ErrNotFound table where_ scan).
Proof.
  intros Hscan w w' [x|e] Hq.
  - by apply query_row_ok in Hq.
  - split; [exact (keeps_ok _ _ _ _ (keeps_query_row table where_ scan) Hq)|].
    intros ->. by eapply query_row_none.
Qed.
(** What is answered is computed from the rows of a query. *)
Lemma answered_select {A B} wrap (table : DB → list A) where_ (f : list A → dop B) (P : DB → result derror B → Prop) :
  (∀ rows, keeps_db (f rows)) → (∀ d e, P d (Err e)) →
  (∀ rows w w' b, rows ≡ₚ List.filter where_ (table (w_db w)) → f rows w = (w', Ok b) → P (w_db w) (Ok b)) →
  answered (rows ← select wrap table where_; f rows) P.
Proof.
  intros Hk Herr Hok w w' r Hs. split.
  { refine (keeps_ok _ _ _ _ _ Hs). apply keeps_bind; [apply keeps_select|done]. }
  destruct r as [b|e]; [|done]. apply bind_ok in Hs as (w1 & rows & [Hd Hp]%select_ok & Hf).
  rewrite <- Hd. by eapply Hok; [rewrite Hd|].
Qed.
Lemma answered_listed {A} wrap (table : DB → list A) where_ order `{!∀ a b, Decision (order a b)} scan :
  answered (rows ← select wrap table where_; lift (scan_all scan (merge_sort order rows)))
    (listed table where_ order scan).
Proof.
  apply answered_select; [auto with world_db|done|]. intros rows w w' l Hp [Hl _]%lift_ok. by exists rows.
Qed.
Lemma answered_paged {A} wrap wrap' (table : DB → list A) where_ order `{!∀ a b, Decision (order a b)} scan size offset :
  answered (counted ← select wrap table where_;
            rows ← select wrap' table where_;
            l ← lift (scan_all scan (page size offset (merge_sort order rows)));
            mret (l, Z.of_nat (length counted)))
    (paged table where_ order scan size offset).
Proof.
  apply answered_select; [auto 10 with world_db|done|]. intros counted w w' [l total] Hc Hs.
  apply bind_ok in Hs as (w1 & rows & [Hd Hp]%select_ok & Hs). binds Hs. simplify_eq.
  exists rows. split_and!; [done..|by rewrite Hc].
Qed.
Lemma answered_attempt wrap : answered (attempt wrap) unsaid.
Proof. intros w w' r Ha. split; [exact (keeps_ok _ _ _ _ (keeps_attempt wrap) Ha)|done]. Qed.

Lemma count_fold (rows : list ComplianceCase) key :
  let n := Z.of_nat (length (List.filter (λ row, bool_decide (status_text (ic_Status row) = key)) rows)) in
  foldr (λ row counts, let key := status_text (ic_Status row) in
    <[key := default 0 (counts !! key) + 1]> counts) (∅ : gmap string Z) rows !! key =
  if n =? 0 then None else Some n.
Proof.
  induction rows as [|row rows IH]; [done|]. cbn [foldr List.filter]. cbv zeta in *.
  destruct (decide (status_text (ic_Status row) = key)) as [->|Hne].
  - rewrite lookup_insert_eq, bool_decide_true by done. cbn [length]. rewrite IH, Nat2Z.inj_succ.
    destruct (length _) as [|n]; [done|]. rewrite !(proj2 (Z.eqb_neq _ 0)) by lia. simpl. f_equal.
  - by rewrite lookup_insert_ne, bool_decide_false.
Qed.
Lemma answered_CountByStatus : answered CountByStatus counted.
Proof.
  apply answered_select; [auto with world_db|done|]. intros rows w w' counts Hp [= _ <-] key.
  rewrite filter_all in Hp. rewrite count_fold. cbv zeta. unfold status_count.
  by rewrite (Permutation_length (filter_perm _ _ _ Hp)).
Qed.
Lemma answered_version : answered GetCurrentRuleVersion newest.
Proof.
  apply answered_select; [auto with world_db|done|]. intros rows w w' v Hp [= _ <-].
  rewrite filter_all in Hp. unfold newest.
  destruct rows as [|r rows]; [apply Permutation_nil_l in Hp as <-; done|].
  rewrite bool_decide_false by (intros Hd; rewrite Hd in Hp; by apply Permutation_nil_r in Hp).
  rewrite <- Hp. split; [apply foldr_max_elem|]. apply foldr_max_bound.
Qed.
Lemma answered_rule version : answered (GetRule version)
  (found ErrNoRows db_rules (λ row, bool_decide (ru_Version row = version)) scanRule).
Proof.
  intros w w' r Hg. split.
  { refine (keeps_ok _ _ _ _ _ Hg). apply keeps_bind; [apply keeps_select|]. intros [|]; auto with world_db. }
  unfold GetRule, GetRuleByVersion in Hg. destruct r as [x|e].
  - apply bind_ok in Hg as (w1 & rows & [Hd Hp]%select_ok & Hg). destruct rows as [|row rows]; [done|].
    apply lift_ok in Hg as [Hscan _]. exists row.
    assert (row ∈ row :: rows) as Hin by by left. rewrite Hp, elem_of_filter_bool in Hin.
    by destruct Hin.
  - intros ->. apply bind_err in Hg as [Hg|(w1 & rows & [Hd Hp]%select_ok & Hg)].
    { unfold select, attempt, scan_rows, ask, interleave in Hg. op_cases Hg;
        by match goal with f : fault |- _ => destruct f end. }
    destruct rows as [|row rows]; [|injection Hg as _ Hg; by apply scanRule_never in Hg].
    apply Forall_forall. intros row Hrow. destruct (bool_decide _) eqn:Hw; [|done].
    assert (row ∈ List.filter (λ row, bool_decide (ru_Version row = version)) (db_rules (w_db w))) as Hin
      by by apply elem_of_filter_bool.
    rewrite <- Hp in Hin. by apply elem_of_nil in Hin.
Qed.
Lemma answered_items filter : answered (ListItems filter) (λ d r, ∃ wall,
  paged db_items (item_where filter wall) (desc_by ic_RegisteredAt) scanItem
    (item_page_size filter) (page_offset (if_PageOffset filter)) d r).
Proof.
  intros w w' r Hl. split; [exact (keeps_ok _ _ _ _ (keeps_ListItems filter) Hl)|].
  unfold ListItems in Hl. destruct r as [[l total]|e]; [|by exists zero_time].
  apply bind_ok in Hl as (w1 & wall & Hw & Hl). exists wall.
  assert (w_db w1 = w_db w) as <- by (destruct (if_OverdueOnly filter); by kept).
  by apply answered_paged in Hl as [_ ?].
Qed.
Lemma answered_report {R A} (m : rop R A) rp w :
  report_stays m → w_db (m (w, rp)).1.1 = w_db w.
Proof. intros Hm. apply (Hm (w, rp)). Qed.

(** The statements write what the laws say. *)
#[export] Instance repo_tx_lawful : TxLaws w_db (repo_tx writer).
Proof.
  split; simpl; intros; intros w w' x Hs.
  - by apply SaveItem_ok in Hs.
  - by apply UpdateItem_ok in Hs.
  - by apply SaveAssignment_ok in Hs.
  - by apply MarkSuperseded_ok in Hs.
  - by apply SaveEscalation_ok in Hs.
  - by apply SaveAudit_ok in Hs.
  - by apply SaveFailure_ok in Hs.
  - by apply UpdateFailure_ok in Hs.
  - by apply SaveBatch_ok in Hs.
  - by apply SaveRule_ok in Hs.
  - by apply SupersedeRule_ok in Hs.
Qed.
Lemma repo_atomic : atomic w_db (repo_store writer).
Proof.
  intros A fn w w' [a|e] Ht; [|by apply WithTx_err in Ht].
  apply WithTx_ok in Ht as (w1 & w2 & ? & ? & ?). by exists (repo_tx writer), w1, w2; split_and!; [apply _|..].
Qed.
#[export] Instance repo_lawful : StoreLaws w_db (repo_store writer).
Proof.
  split; simpl; intros.
  - apply repo_atomic.
  - apply answered_row, scanItem_never.
  - apply answered_row, scanItem_never.
  - apply answered_items.
  - apply answered_listed.
  - apply answered_CountByStatus.
  - apply answered_rule.
  - apply answered_listed.
  - apply answered_version.
  - apply answered_listed.
  - apply answered_listed.
  - apply answered_row, scanAssignment_never.
  - apply answered_listed.
  - apply answered_paged.
  - apply answered_listed.
  - apply answered_row, scanFailure_never.
  - apply answered_paged.
  - apply answered_report, stays_Reconcile.
  - intros w w' r Hd. destruct (Diagnose (w, [])) as [[w1 issues] r1] eqn:E. injection Hd as <- <-. split; [|done].
    pose proof (answered_report Diagnose [] w stays_Diagnose) as Hs. by rewrite E in Hs.
  - apply answered_attempt.
Qed.
End repo_lawful.

(** ** The query service over any lawful store *)

(** What the detail of a case shows: the case, its referrals and escalations
    from the first to the last, the newest hundred of its audit entries. *)
Definition detail_of `{Zone} (id : string) (d : DB)
    (detail : ComplianceCase * list Referral * list Escalation * list AuditEntry) : Prop :=
  let '(item, assignments, escalations, audit) := detail in
  (∃ row, row ∈ db_items d ∧ ic_ID row = id ∧ scanItem row = Ok item) ∧
  listed db_assignments (λ row, bool_decide (rf_ItemID row = id)) (asc_by rf_AdjudicatedAt) scanAssignment d
    (Ok assignments) ∧
  listed db_escalations (λ row, bool_decide (es_ItemID row = id)) (asc_by es_EscalatedAt) scanEscalation d
    (Ok escalations) ∧
  ∃ total, paged db_audit (λ row, bool_decide (id = "") || bool_decide (au_EntityID row = id)) (desc_by au_Timestamp)
    scanAudit 100 0 d (Ok (audit, total)).
(** The backlog: how many cases have which status, and the overdue ones. *)
Definition backlog_of `{Zone} (now : Time) (d : DB) (backlog : gmap string Z * Z * list ComplianceCase) : Prop :=
  let '(counts, overdue, items) := backlog in
  counted d (Ok counts) ∧ overdue = Z.of_nat (length items) ∧
  listed db_items (overdue_where now 999) (asc_by ic_Deadline) scanItem d (Ok items).
(** A permanent failure is marked as retried, and an audit entry says so. *)
Definition retried `{Zone} (id actor : string) (d d' : DB) : Prop :=
  ∃ row failure now uuid path, row ∈ db_failures d ∧ pf_ID row = id ∧ scanFailure row = Ok failure ∧
    (uuid ∉ au_ID <$> db_audit d) ∧
    d' = add_audit ((NewEntry uuid id "failure" ActionFailureRetry actor now "") <| au_ShardPath := path |>)
           (d <| db_failures := update_where (λ row, bool_decide (pf_ID row = id))
             (failure_update (failure <| pf_Status := FailureStatusRetried |> <| pf_ResolvedAt := Some now |>))
             (db_failures d) |>).

Lemma scanFailure_id `{Zone} row f : scanFailure row = Ok f → pf_ID f = pf_ID row.
Proof.
  unfold scanFailure, mbind, result_bind. intros Hs. repeat (case_match; [|done]). by injection Hs as <-.
Qed.
Section clients.
Context `{Zone} {S : Type} {tables : S → DB} {store : Store S} `{!StoreLaws tables store}.
Context (now : op S derror Time) (uuid : op S derror string).
Context (Hnow : answers tables now unsaid) (Huuid : answers tables uuid unsaid).

Lemma answers_impl {A} (m : op S derror A) (P Q : DB → result derror A → Prop) :
  answers tables m P → (∀ d r, P d r → Q d r) → answers tables m Q.
Proof. intros Hm HPQ s s' r Hr. apply Hm in Hr as [? ?]. auto. Qed.
Lemma answers_wrapping {A} wrap (m : op S derror A) (P : DB → A → Prop) :
  answers tables m (on_ok P) → answers tables (wrapping wrap m) (on_ok P).
Proof.
  intros Hm s s' r. unfold wrapping. destruct (m s) as [s1 [a|e]] eqn:E; intros [= <- <-]; by apply Hm in E.
Qed.
(** The steps of a query each say their part of one set of tables. *)
Lemma answers_bind {A B} (m : op S derror A) (f : A → op S derror B) (P : DB → A → Prop) (Q : DB → B → Prop) :
  answers tables m (on_ok P) → (∀ a, answers tables (f a) (on_ok (λ d b, P d a → Q d b))) →
  answers tables (m ≫= f) (on_ok Q).
Proof.
  intros Hm Hf s s' r. unfold mbind, op_bind. destruct (m s) as [s1 [a|e]] eqn:E; apply Hm in E as [Ht Ha].
  - intros [Ht' Hb]%Hf. rewrite Ht in *. split; [done|]. destruct r; simpl in *; auto.
  - by intros [= <- <-].
Qed.
Lemma answers_ret {A} (a : A) (P : DB → A → Prop) : (∀ d, P d a) → answers tables (mret a) (on_ok P).
Proof. intros HP s s' r [= <- <-]. split; [done|apply HP]. Qed.
Lemma ok_answers {A} (m : op S derror A) (P : DB → result derror A → Prop) :
  answers tables m P → answers tables m (on_ok (λ d a, P d (Ok a))).
Proof. intros Hm. eapply answers_impl; [exact Hm|]. by intros d [a|e]. Qed.

(** [law_step L]: the next step of a query, answered as the law [L] says. *)
Tactic Notation "law_step" uconstr(L) := eapply answers_bind; [eapply answers_wrapping, ok_answers, L; apply _|].
Lemma detail_exact id : answers tables (GetItemDetail store id) (on_ok (detail_of id)).
Proof.
  unfold GetItemDetail.
  law_step law_GetItem. intros item.
  law_step law_GetAssignments. intros assignments.
  law_step law_GetEscalations. intros escalations.
  law_step law_ListAudit. intros [audit total].
  apply answers_ret. intros d (rows & Hp & Hs & Ht) He Ha (row & Hrow & Hid & Hscan).
  apply bool_decide_eq_true in Hid. split_and!; [by exists row|done..|]. exists total, rows. simpl in *.
  assert (∀ l, List.filter (audit_where {| af_EntityID := id; af_EntityType := ""; af_Actor := ""; af_From := zero_stamp;
      af_To := zero_stamp; af_PageSize := 100; af_PageOffset := 0 |}) l =
    List.filter (λ row, bool_decide (id = "") || bool_decide (au_EntityID row = id)) l) as E.
  { intros l. apply List.filter_ext. intros a. unfold audit_where, in_period. simpl. by rewrite !andb_true_r. }
  by rewrite E in *.
Qed.
Lemma backlog_exact :
  answers tables (GetBacklog store now) (on_ok (λ d b, ∃ t, backlog_of t d b)).
Proof.
  unfold GetBacklog.
  law_step law_CountByStatus. intros counts.
  eapply answers_bind; [apply ok_answers, Hnow|]. intros t.
  law_step law_FindOverdueItems. intros overdue.
  apply answers_ret. intros d Ho _ Hc. exists t. by split_and!.
Qed.
Lemma retry_exact id actor s s' r : RetryFailure store now uuid id actor s = (s', r) →
  match r with
  | Ok _ => retried id actor (tables s) (tables s')
  | Err _ => tables s' = tables s
  end.
Proof.
  unfold RetryFailure. intros Hr.
  assert (answers tables (wrapping (errorf "get failure") (st_GetFailure store id)) (on_ok (λ d f,
    found ErrNotFound db_failures (λ row, bool_decide (pf_ID row = id)) scanFailure d (Ok f)))) as Hget
    by (apply answers_wrapping, ok_answers, law_GetFailure; apply _).
  destruct r as [u|e].
  2: { apply bind_err in Hr as [Hr|(s1 & f & [Ht1 _]%Hget & Hr)]; [by apply Hget in Hr as [? _]|].
       apply bind_err in Hr as [Hr|(s2 & t & [Ht2 _]%Hnow & Hr)]; [apply Hnow in Hr as [? _]; congruence|].
       apply (law_WithTx tables) in Hr. congruence. }
  apply bind_ok in Hr as (s1 & f & [Ht1 (row & Hrow & Hid & Hscan)]%Hget & Hr).
  apply bool_decide_eq_true in Hid. apply bind_ok in Hr as (s2 & t & [Ht2 _]%Hnow & Hr).
  apply (law_WithTx tables) in Hr as (tx & s3 & s4 & Htx & Ht3 & Hfn & Ht4).
  apply bind_ok in Hfn as (s5 & u1 & Hu & Hfn).
  unfold wrapping in Hu. destruct (tx_UpdateFailure tx _ s3) as [s6 [u6|e]] eqn:E6; [|done]. injection Hu as -> <-.
  apply (law_UpdateFailure tables) in E6 as [_ Ht5].
  apply bind_ok in Hfn as (s7 & id' & E7 & Hfn). apply Huuid in E7 as [Ht7 _].
  apply (law_SaveAudit tables) in Hfn as (path & Hnew & Ht8).
  exists row, f, t, id', path. simpl in *. rewrite Ht7, Ht5, Ht3, Ht2, Ht1 in *.
  rewrite (scanFailure_id _ _ Hscan), Hid in *. split_and!; try done. congruence.
Qed.
End clients.
