(* ===== verification/StoreRuns.v ===== *)
(** * Histories of the store

    What a sequence of successful writes of the store leaves in the shard
    files and in the tables: the log of the records that were appended, and
    the rows as the last record of their key. *)
From Stdlib Require Import Ascii.
From stdpp Require Import sorting.
From S2P Require Import Prelude GoErrors GoStrings GoNumbers GoTime Json JsonFacts Rfc3339 Domain.
From S2P Require Import Records RecordsFacts World Shard ShardFacts Reader Index Repo.
From S2P Require Import StoreFacts Rebuild RebuildFacts.

(** ** Writes *)

Inductive write : Type :=
| WSaveItem (i : ComplianceCase)
| WUpdateItem (i : ComplianceCase)
| WSaveAssignment (a : Referral)
| WMarkAssignmentSuperseded (itemID : string)
| WSaveEscalation (e : Escalation)
| WSaveAudit (a : AuditEntry)
| WSaveFailure (f : PermanentFailure)
| WUpdateFailure (f : PermanentFailure)
| WSaveBatch (b : ImportBatch)
| WSaveRule (r : Rule)
| WSupersedeRule (version : Z).

Section histories.
Context `{Env} (writer : Writer).

Definition discard {A} (m : dop A) : dop () := _ ← m; mret ().
Definition do_write (x : write) : dop () :=
  match x with
  | WSaveItem i => discard (SaveItem writer i)
  | WUpdateItem i => discard (Tx_UpdateItem writer i)
  | WSaveAssignment a => SaveAssignment writer a
  | WMarkAssignmentSuperseded id => Tx_MarkAssignmentSuperseded id
  | WSaveEscalation e => discard (SaveEscalation writer e)
  | WSaveAudit a => SaveAudit writer a
  | WSaveFailure f => SaveFailure writer f
  | WUpdateFailure f => Tx_UpdateFailure writer f
  | WSaveBatch b => SaveBatch writer b
  | WSaveRule r => discard (SaveRule writer r)
  | WSupersedeRule v => Tx_SupersedeRule v
  end.

(** The columns an UPDATE leaves alone. *)
Definition item_fixed (i : ComplianceCase) : string * Time * string * Time :=
  (ic_ExternalRef i, ic_RegisteredAt i, ic_RegisteredBy i, ic_CreatedAt i).
Definition failure_fixed (f : PermanentFailure) : string * string * string * Time * Z :=
  (pf_EntityType f, pf_EntityID f, pf_TaskType f, pf_FirstFailedAt f, pf_DataVersion f).
(** What the callers of the store keep to: integers of 64 bits, keys in valid
    UTF-8, time stamps of new records that are not in the future, new
    referrals that are current, updates that do not change the columns an
    UPDATE statement leaves out. *)
Definition write_ok (w : World) (x : write) : Prop :=
  match x with
  | WSaveItem i => storable_ints i ∧ utf8_valid (ic_ID i) = true ∧
      utf8_valid (ic_ExternalRef i) = true ∧ ic_RegisteredAt i ≤ env_now (w_tick w)
  | WUpdateItem i => storable_ints i ∧
      Forall (λ row, ic_ID row = ic_ID i → item_fixed row = item_fixed i) (db_items (w_db w))
  | WSaveAssignment a => storable_ints a ∧ utf8_valid (rf_ID a) = true ∧ rf_IsCurrent a = true
  | WMarkAssignmentSuperseded _ | WSupersedeRule _ => True
  | WSaveEscalation e => storable_ints e ∧ utf8_valid (es_ID e) = true
  | WSaveAudit a => storable_ints a ∧ utf8_valid (au_ID a) = true
  | WSaveFailure f => storable_ints f ∧ utf8_valid (pf_ID f) = true ∧
      pf_FirstFailedAt f ≤ env_now (w_tick w)
  | WUpdateFailure f => storable_ints f ∧
      Forall (λ row, pf_ID row = pf_ID f → failure_fixed row = failure_fixed f) (db_failures (w_db w))
  | WSaveBatch b => storable_ints b ∧ utf8_valid (ib_ID b) = true
  | WSaveRule r => storable_ints r
  end.

(** The worlds that successful writes lead to from an empty store. *)
Inductive stored : World → Prop :=
| stored_start w : w_db w = empty_db → w_fs w = ∅ → stored w
| stored_idle w w' : stored w → same w w' → (w_tick w ≤ w_tick w')%nat → stored w'
| stored_write w x w' : stored w → write_ok w x → do_write x w = (w', Ok ()) → stored w'.

(** ** The log *)

Record logged : Type := { lg_type : string; lg_time : Time; lg_data : bytes }.
Definition lg_path (e : logged) : string := shardPath writer (lg_type e) (lg_time e).
Definition at_path (path : string) (L : list logged) : list logged :=
  List.filter (λ e, bool_decide (lg_path e = path)) L.
(** The files hold the log. *)
Definition holds (fs : FS) (L : list logged) : Prop := ∀ path,
  fs !! path = match at_path path L with [] => None | es => Some (file_of (lg_data <$> es)) end.
(** The records of one kind, decoded. *)
Definition of_type (ty : string) (L : list logged) : list logged :=
  List.filter (λ e, bool_decide (lg_type e = ty)) L.
Definition decoded (R : Type) `{JsonRecord R} (L : list logged) : list R :=
  omap (λ e, Unmarshal (lg_data e)) L.

Lemma holds_path fs L path : holds fs L → default [] (fs !! path) = file_of (lg_data <$> at_path path L).
Proof. intros Hh. rewrite Hh. by destruct (at_path path L). Qed.
Lemma holds_append fs L e :
  holds fs L → holds (<[lg_path e := default [] (fs !! lg_path e) ++ lg_data e ++ [newline]]> fs) (L ++ [e]).
Proof.
  intros Hh path. unfold at_path. rewrite List.filter_app. simpl.
  destruct (decide (lg_path e = path)) as [<-|Hne].
  - rewrite lookup_insert_eq, bool_decide_true by done. rewrite (holds_path fs L) by done.
    fold (at_path (lg_path e) L). generalize (at_path (lg_path e) L) as l. intros l.
    assert (file_of (lg_data <$> l) ++ lg_data e ++ [newline] = file_of (lg_data <$> l ++ [e])) as ->.
    { rewrite fmap_app, file_of_app. unfold file_of at 3. simpl. by rewrite app_nil_r. }
    by destruct l.
  - rewrite lookup_insert_ne, bool_decide_false by done. rewrite app_nil_r. apply Hh.
Qed.

(** No file has reached the size at which the writer turns to another. *)
Definition unrotated (fs : FS) : Prop :=
  ∀ path content, fs !! path = Some content →
    maxShardSize writer ≤ 0 ∨ file_size content < maxShardSize writer.
Definition grows (fs fs' : FS) : Prop :=
  ∀ path content, fs !! path = Some content → ∃ more, fs' !! path = Some (content ++ more).
#[export] Instance grows_refl : Reflexive grows.
Proof. intros fs path content Hf. exists []. by rewrite app_nil_r. Qed.
#[export] Instance grows_trans : Transitive grows.
Proof.
  intros x y z H1 H2 path content Hf. destruct (H1 _ _ Hf) as [m1 E1]. destruct (H2 _ _ E1) as [m2 E2].
  exists (m1 ++ m2). by rewrite app_assoc.
Qed.
Lemma unrotated_before fs fs' : grows fs fs' → unrotated fs' → unrotated fs.
Proof.
  intros Hg Hu path content Hf. destruct (Hg _ _ Hf) as [more Hf']. apply Hu in Hf'.
  unfold file_size in *. rewrite length_app in Hf'. lia.
Qed.

(** Time passes. *)
Definition after (w w' : World) : Prop := same w w' ∧ (w_tick w ≤ w_tick w')%nat.
#[export] Instance after_trans : Transitive after.
Proof. intros x y z [? ?] [? ?]. split; [by transitivity y|lia]. Qed.
Lemma after_ask {A} (f : nat → A) w w' r : ask f w = (w', r) → after w w'.
Proof. intros [= <- _]. split; [done|simpl; lia]. Qed.
Lemma after_attempt wrap w w' r : attempt wrap w = (w', r) → after w w'.
Proof.
  unfold attempt, mbind, op_bind, ask. simpl.
  destruct (env_fault (w_tick w)); intros [= <- _]; (split; [done|simpl; lia]).
Qed.
Lemma after_poll w w' r : poll_ctx w = (w', r) → after w w'.
Proof.
  unfold poll_ctx, mbind, op_bind, ask. simpl.
  destruct (env_ctx (w_tick w)); intros [= <- _]; (split; [done|simpl; lia]).
Qed.

Lemma write_file_ok path before line wrap w w' u :
  write_file path before line wrap w = (w', Ok u) →
  w_db w' = w_db w ∧ w_fs w' = <[path := before ++ line]> (w_fs w) ∧ (w_tick w ≤ w_tick w')%nat.
Proof.
  unfold write_file, mbind, op_bind, ask, modify. simpl.
  destruct (env_fault _); [done|]. intros [= <- _]. simpl. split_and!; [done..|lia].
Qed.
(** Appending a record. *)
Lemma Append_ok ty t data w w' loc :
  Append writer ty t data w = (w', Ok loc) →
  w_db w' = w_db w ∧ grows (w_fs w) (w_fs w') ∧ (w_tick w ≤ w_tick w')%nat ∧
  (unrotated (w_fs w') → w_fs w' = <[shardPath writer ty t :=
      default [] (w_fs w !! shardPath writer ty t) ++ data ++ [newline]]> (w_fs w)).
Proof.
  unfold Append. set (base := shardPath writer ty t). intros Ha.
  apply bind_ok in Ha as (w1 & u1 & [[D1 F1] T1]%after_poll & Ha).
  apply bind_ok in Ha as (w2 & u2 & [[D2 F2] T2]%after_attempt & Ha).
  apply bind_ok in Ha as (w2' & fs & [-> ->]%gets_ok & Ha).
  set (target := if 0 <? maxShardSize writer then rotateIfNeeded writer (w_fs w2) base else base) in *.
  apply bind_ok in Ha as (w3 & u3 & [[D3 F3] T3]%after_attempt & Ha).
  apply bind_ok in Ha as (w4 & u4 & E4%modify_ok & Ha). subst w4.
  apply bind_ok in Ha as (w5 & u5 & [[D5 F5] T5]%after_attempt & Ha).
  apply bind_ok in Ha as (w6 & u6 & (D6 & F6 & T6)%write_file_ok & Ha).
  apply bind_ok in Ha as (w7 & u7 & Hsync & Ha).
  assert (after w6 w7) as [[D7 F7] T7].
  { destruct (syncOnWrite writer); [by eapply after_attempt|by injection Hsync as <- _]. }
  apply ret_ok in Ha as [_ ->]. simpl in *.
  assert (w_fs w7 = <[target := default [] (w_fs w !! target) ++ data ++ [newline]]> (w_fs w)) as Hfs.
  { rewrite F7, F6, F5, insert_insert_eq. by rewrite F3, F2, F1. }
  assert (grows (w_fs w) (w_fs w7)) as Hg.
  { intros path content Hc. rewrite Hfs. destruct (decide (path = target)) as [->|Hne].
    - rewrite lookup_insert_eq, Hc. by eexists.
    - rewrite lookup_insert_ne by done. exists []. by rewrite app_nil_r. }
  split_and!; [congruence|done|lia|]. intros Hu. rewrite Hfs.
  assert (target = base) as ->; [|done]. unfold target. destruct (Z.ltb_spec 0 (maxShardSize writer)); [|done].
  unfold rotateIfNeeded. rewrite F2, F1. destruct (w_fs w !! base) as [l|] eqn:Hl; [|done].
  destruct (Z.ltb_spec (file_size l) (maxShardSize writer)); [done|].
  destruct (Hg _ _ Hl) as [more Hm]. apply Hu in Hm. unfold file_size in *. rewrite length_app in Hm. lia.
Qed.

(** Statements leave the files alone. *)
Definition fs_later {A} (m : dop A) : Prop := ∀ w w' r, m w = (w', r) →
  w_fs w' = w_fs w ∧ (w_tick w ≤ w_tick w')%nat.
Lemma later_bind {A B} (m : dop A) (f : A → dop B) :
  fs_later m → (∀ a, fs_later (f a)) → fs_later (m ≫= f).
Proof.
  intros Hm Hf w w' r Hr. unfold mbind, op_bind in Hr. destruct (m w) as [w1 [a|e]] eqn:E.
  - apply Hm in E as [F1 T1]. apply Hf in Hr as [F2 T2]. split; [congruence|lia].
  - injection Hr as <- _. by apply Hm in E.
Qed.
Lemma later_pure {A} (m : dop A) : pure_op m → fs_later m.
Proof. intros Hp w w' r Hr. specialize (Hp w). rewrite Hr in Hp. simpl in Hp. by subst. Qed.
Lemma later_attempt wrap : fs_later (attempt wrap).
Proof. by intros w w' r [[_ ?] ?]%after_attempt. Qed.
Lemma later_ask {A} (f : nat → A) : fs_later (ask f).
Proof. by intros w w' r [[_ ?] ?]%after_ask. Qed.
Lemma later_set_db f : fs_later (modify (set_db f)).
Proof. by intros w w' r [= <- _]. Qed.
Lemma later_clock : fs_later clock_now.
Proof. apply later_ask. Qed.

(** ** What a write leaves in the log *)

(** The record [r] was appended to the log of its kind, and nothing else. *)
Definition logs {R} `{JsonRecord R} (ty : string) (t : Time) (r : R) (w w' : World) : Prop :=
  ∃ nil data, Marshal nil r = Ok data ∧ grows (w_fs w) (w_fs w') ∧ (w_tick w ≤ w_tick w')%nat ∧
    (unrotated (w_fs w') → w_fs w' = <[shardPath writer ty t :=
      default [] (w_fs w !! shardPath writer ty t) ++ data ++ [newline]]> (w_fs w)).

Lemma marshal_ok {R} `{JsonRecord R} what (r : R) w w' data :
  marshal what r w = (w', Ok data) → after w w' ∧ ∃ nil, Marshal nil r = Ok data.
Proof.
  unfold marshal, mbind, op_bind. destruct (ask env_nil w) as [w1 [nil|e]] eqn:E; [|done].
  apply after_ask in E. destruct (Marshal nil r) eqn:Hm; [|done]. intros [= <- <-]. eauto.
Qed.
Lemma append_logs {R B} `{JsonRecord R} nil data (r : R) f ty t (g : Location → dop B) w w' b :
  (∀ loc, fs_later (g loc)) → Marshal nil r = Ok data →
  (loc ← wrapping f (Append writer ty t data); g loc) w = (w', Ok b) → logs ty t r w w'.
Proof.
  intros Hg Hm Hs. apply bind_ok in Hs as (w1 & loc & Ha & Hs). apply wrapping_ok, Append_ok in Ha as (_ & G1 & T1 & F1).
  apply Hg in Hs as [F2 T2]. exists nil, data. rewrite F2. split_and!; [done|done|lia|done].
Qed.
Lemma save_logs {R B} `{JsonRecord R} what (r : R) f ty t (g : Location → dop B) w w' b :
  (∀ loc, fs_later (g loc)) →
  (data ← marshal what r; loc ← wrapping f (Append writer ty t data); g loc) w = (w', Ok b) →
  logs ty t r w w'.
Proof.
  intros Hg Hs. apply bind_ok in Hs as (w1 & data & ([[D F] T] & nil & Hm)%marshal_ok & Hs).
  eapply append_logs in Hs as (nil' & data' & Hm' & G & T' & Hf); [|done..].
  exists nil', data'. rewrite F in *. split_and!; [done|done|lia|done].
Qed.
Lemma update_logs {R B} `{JsonRecord R} what (r : R) f ty (g : Location → dop B) w w' b :
  (∀ loc, fs_later (g loc)) →
  (data ← marshal what r; now ← clock_now; loc ← wrapping f (Append writer ty now data); g loc) w
    = (w', Ok b) →
  ∃ k, (w_tick w ≤ k ≤ w_tick w')%nat ∧ logs ty (env_now k) r w w'.
Proof.
  intros Hg Hs. apply bind_ok in Hs as (w1 & data & ([[D F] T] & nil & Hm)%marshal_ok & Hs).
  apply bind_ok in Hs as (w2 & now & Hn & Hs). injection Hn as <- <-.
  eapply append_logs in Hs as (nil' & data' & Hm' & G & T' & Hf); [|done..]. simpl in *.
  exists (w_tick w1). split; [lia|]. exists nil', data'. rewrite F in *. split_and!; [done|done|lia|done].
Qed.
End histories.

Create HintDb later_db.
#[export] Hint Resolve later_attempt later_ask later_set_db later_clock later_pure : later_db.
#[export] Hint Resolve later_bind | 2 : later_db.
#[export] Hint Resolve pure_raise pure_ensure pure_must pure_lift pure_gets pure_ret : later_db.

(** ** The log of one kind and the rows of its table *)

Section typed.
Context {R : Type} `{JsonRecord R}.
(** The decoded records of a kind, with their times. *)
Definition typed (ty : string) (L : list logged) : list (Time * R) :=
  omap (λ e, (λ x, (lg_time e, x)) <$> Unmarshal (lg_data e)) (of_type ty L).

Lemma typed_app ty L1 L2 : typed ty (L1 ++ L2) = typed ty L1 ++ typed ty L2.
Proof. unfold typed, of_type. by rewrite List.filter_app, omap_app. Qed.
Lemma typed_other ty e : lg_type e ≠ ty → typed ty [e] = [].
Proof. intros Hne. unfold typed, of_type. simpl. by rewrite bool_decide_false. Qed.
Lemma typed_skip ty L e : lg_type e ≠ ty → typed ty (L ++ [e]) = typed ty L.
Proof. intros Hne. by rewrite typed_app, typed_other, app_nil_r. Qed.
Lemma typed_one ty e x : lg_type e = ty → Unmarshal (lg_data e) = Some x → typed ty [e] = [(lg_time e, x)].
Proof. intros Ht Hx. unfold typed, of_type. simpl. rewrite bool_decide_true by done. simpl. by rewrite Hx. Qed.
Lemma typed_snoc ty L e x :
  lg_type e = ty → Unmarshal (lg_data e) = Some x → typed ty (L ++ [e]) = typed ty L ++ [(lg_time e, x)].
Proof. intros Ht Hx. by rewrite typed_app, (typed_one ty e x). Qed.
End typed.

Section rows.
Context {R K : Type} `{EqDecision K} (key : R → K) (rel : R → R → Prop).

(** The records of one key. *)
Definition with_key (k : K) (M : list (Time * R)) : list (Time * R) :=
  List.filter (λ tx, bool_decide (key tx.2 = k)) M.
(** Every row is related to the last record of its key, every record has a
    row, keys are unique, and the records of a key are in the order of time. *)
Record rows_ok (rows : list R) (M : list (Time * R)) : Prop := {
  rows_last row : row ∈ rows → ∃ t x, last (with_key (key row) M) = Some (t, x) ∧ rel row x;
  rows_all t x : (t, x) ∈ M → key x ∈ key <$> rows;
  rows_nodup : NoDup (key <$> rows);
  rows_sorted k : StronglySorted Z.le (with_key k M).*1
}.

Lemma rows_ok_nil : rows_ok [] [].
Proof. split; try by intros * ?%elem_of_nil. - constructor. - constructor. Qed.
Lemma with_key_app k M1 M2 : with_key k (M1 ++ M2) = with_key k M1 ++ with_key k M2.
Proof. apply List.filter_app. Qed.
Lemma with_key_one k t x : with_key k [(t, x)] = if bool_decide (key x = k) then [(t, x)] else [].
Proof. done. Qed.
Lemma with_key_none k M (rows : list R) :
  (∀ t x, (t, x) ∈ M → key x ∈ key <$> rows) → (k ∉ key <$> rows) → with_key k M = [].
Proof.
  intros Hall Hk. induction M as [|[t x] M IH]; [done|]. unfold with_key. simpl.
  rewrite bool_decide_false; [apply IH; intros; eapply Hall; by right|].
  intros <-. apply Hk, (Hall t). by left.
Qed.
Lemma sorted_snoc (l : list Z) t :
  StronglySorted Z.le l → Forall (λ u, u ≤ t) l → StronglySorted Z.le (l ++ [t]).
Proof.
  induction 1 as [|u l Hl IH Hu]; intros Ht; simpl; [repeat constructor|].
  apply Forall_cons in Ht as [? Ht]. constructor; [by apply IH|]. apply Forall_app_2; [done|by constructor].
Qed.

(** A new row with its record. *)
Lemma rows_insert rows M row t x :
  rows_ok rows M → (key row ∉ key <$> rows) → key x = key row → rel row x →
  rows_ok (rows ++ [row]) (M ++ [(t, x)]).
Proof.
  intros Ho Hfresh Hkey Hrel. pose proof (with_key_none _ _ _ (rows_all _ _ Ho) Hfresh) as Hnone.
  split.
  - intros r Hr. apply elem_of_app in Hr as [Hr|Hr%list_elem_of_singleton]; [|subst r]; rewrite with_key_app, with_key_one.
    + rewrite bool_decide_false, app_nil_r; [by apply (rows_last _ _ Ho)|].
      rewrite Hkey. intros E. apply Hfresh. rewrite E. by apply list_elem_of_fmap_2.
    + rewrite Hnone, bool_decide_true by done. by exists t, x.
  - intros t' y Hy. apply elem_of_app in Hy as [Hy|Hy%list_elem_of_singleton]; rewrite fmap_app; apply elem_of_app.
    + left. by eapply rows_all.
    + right. injection Hy as -> ->. apply list_elem_of_singleton. by rewrite Hkey.
  - rewrite fmap_app. apply NoDup_app. split_and!; [apply Ho| |apply NoDup_singleton].
    intros k Hk ->%list_elem_of_singleton. done.
  - intros k. rewrite with_key_app, with_key_one, fmap_app. case_bool_decide as E.
    + subst k. rewrite Hkey, Hnone. repeat constructor.
    + rewrite app_nil_r. apply Ho.
Qed.
(** A record for a row that exists, and the update of the row. *)
Lemma rows_update rows M f k t x :
  rows_ok rows M → key x = k → k ∈ key <$> rows → (∀ row, key (f row) = key row) →
  (∀ row, row ∈ rows → key row = k → rel (f row) x) →
  (∀ t' x', (t', x') ∈ M → t' ≤ t) →
  rows_ok (update_where (λ row, bool_decide (key row = k)) f rows) (M ++ [(t, x)]).
Proof.
  intros Ho <- Hin Hf Hrel Ht.
  assert (key <$> update_where (λ row, bool_decide (key row = key x)) f rows = key <$> rows) as Hkeys
    by by apply update_where_proj.
  split; rewrite ?Hkeys.
  - intros r (row & Hrow & ->)%elem_of_update_where. rewrite with_key_app, with_key_one.
    destruct (bool_decide_reflect (key row = key x)) as [E|E].
    + rewrite Hf, bool_decide_true by done. rewrite last_snoc. eauto.
    + rewrite bool_decide_false, app_nil_r by done. by apply (rows_last _ _ Ho).
  - intros t' y Hy. apply elem_of_app in Hy as [Hy|Hy%list_elem_of_singleton]; [by eapply rows_all|].
    by injection Hy as -> ->.
  - apply Ho.
  - intros k. rewrite with_key_app, with_key_one, fmap_app. case_bool_decide as E.
    + apply sorted_snoc; [apply Ho|]. apply Forall_fmap, Forall_forall. intros [t' y] Hy.
      apply list_elem_of_In, filter_In in Hy as [Hy _]. apply list_elem_of_In in Hy. by eapply Ht.
    + rewrite app_nil_r. apply Ho.
Qed.
(** An update without a record. *)
Lemma rows_change rows M p f :
  rows_ok rows M → (∀ row, key (f row) = key row) → (∀ row x, rel row x → rel (f row) x) →
  rows_ok (update_where p f rows) M.
Proof.
  intros Ho Hf Hrel.
  assert (key <$> update_where p f rows = key <$> rows) as Hkeys by by apply update_where_proj.
  split; rewrite ?Hkeys; [|apply Ho..].
  intros r (row & Hrow & ->)%elem_of_update_where.
  destruct (rows_last _ _ Ho row Hrow) as (t & x & Hl & Hr). exists t, x.
  destruct (p row); rewrite ?Hf; eauto.
Qed.
End rows.

(** ** The invariant of a store that is only written to *)

Section invariant.
Context `{Env} (writer : Writer).
(** The clock does not go back, and stays in the range of the time format. *)
Definition steady_clock : Prop :=
  (∀ n m : nat, (n ≤ m)%nat → env_now n ≤ env_now m) ∧ (∀ n : nat, formattable (env_now n)).

Definition timed (ty : string) : Prop := ty = "items" ∨ ty = "failures".
Definition entry_ok (tick : nat) (e : logged) : Prop :=
  lg_type e ∈ shard_types ∧ lg_data e ≠ [] ∧ Forall inline (lg_data e) ∧ formattable (lg_time e) ∧
  (timed (lg_type e) → lg_time e ≤ env_now tick).
Definition files_ok (w : World) (L : list logged) : Prop :=
  holds writer (w_fs w) L ∧ Forall (entry_ok (w_tick w)) L.

(** A rule but for what [SupersedeRule] changes. *)
Definition rule_core (r : Rule) : Rule :=
  r <| ru_Status := RuleStatusDraft |> <| ru_EffectiveTo := zero_time |>.
Definition copy {R} `{JsonRecord R} (row x : R) : Prop := x = rec_clean row.
Definition referral_copy (row x : Referral) : Prop := x = (rec_clean row) <| rf_IsCurrent := true |>.
Definition rule_copy (row x : Rule) : Prop :=
  rule_core x = rule_core (rec_clean row) ∧ (ru_Status row ≠ RuleStatusSuperseded → x = rec_clean row).
Record tables_ok (d : DB) (L : list logged) : Prop := {
  ok_items : rows_ok ic_ID copy (db_items d) (typed "items" L);
  ok_rules : rows_ok ru_Version rule_copy (db_rules d) (typed "rules" L);
  ok_assignments : rows_ok rf_ID referral_copy (db_assignments d) (typed "assignments" L);
  ok_escalations : rows_ok es_ID copy (db_escalations d) (typed "escalations" L);
  ok_audit : rows_ok au_ID copy (db_audit d) (typed "audit" L);
  ok_failures : rows_ok pf_ID copy (db_failures d) (typed "failures" L);
  ok_batches : rows_ok ib_ID copy (db_batches d) (typed "batches" L);
  ok_refs : NoDup (ic_ExternalRef <$> db_items d);
  ok_refs_valid : Forall (λ i, utf8_valid (ic_ExternalRef i) = true) (db_items d);
  ok_manifest : db_manifest d = [] ∧ db_schema d = db_schema empty_db
}.

Lemma tables_ok_empty : tables_ok empty_db [].
Proof. split; first [done | apply NoDup_nil_2 | apply Forall_nil_2 | apply rows_ok_nil]. Qed.
Lemma files_ok_empty w : w_fs w = ∅ → files_ok w [].
Proof. intros Hf. split; [|done]. intros path. by rewrite Hf, lookup_empty. Qed.
Lemma entry_later n m e : steady_clock → (n ≤ m)%nat → entry_ok n e → entry_ok m e.
Proof.
  intros [Hc _] Hnm (? & ? & ? & ? & Ht). split_and!; try done. intros Hty.
  etransitivity; [by apply Ht|by apply Hc].
Qed.
Lemma files_idle w w' L : steady_clock → files_ok w L → after w w' → files_ok w' L.
Proof.
  intros Hc [Hh He] [[_ Hf] Ht]. split; [by rewrite Hf|].
  eapply Forall_impl; [exact He|]. intros e. by apply entry_later.
Qed.
Lemma files_write {R} `{JsonRecordLaws R} ty t (r : R) w w' L :
  steady_clock → files_ok w L → logs writer ty t r w w' → unrotated writer (w_fs w') →
  ty ∈ shard_types → t ∈ rec_times r ∨ formattable t → storable_ints r → (timed ty → t ≤ env_now (w_tick w')) →
  ∃ e, lg_type e = ty ∧ lg_time e = t ∧ Unmarshal (lg_data e) = Some (rec_clean r) ∧
    files_ok w' (L ++ [e]).
Proof.
  intros Hc [Hh He] (nil & data & Hm & _ & Ht & Hfs) Hu Hty Hfmt Hints Htime.
  exists {| lg_type := ty; lg_time := t; lg_data := data |}. split_and!; [done|done| |].
  { by eapply Unmarshal_Marshal. }
  split; [rewrite Hfs by done|].
  { change (shardPath writer ty t) with (lg_path writer {| lg_type := ty; lg_time := t; lg_data := data |}).
    by apply holds_append. }
  apply Forall_app_2; [eapply Forall_impl; [exact He|]; intros e; by apply entry_later|].
  apply Marshal_ok in Hm as [Htimes ->]. constructor; [|constructor].
  split_and!; [done|discriminate| | |done].
  2: { destruct Hfmt as [Hin|Hfmt]; [|done]. unfold storable_times in Htimes.
       rewrite Forall_forall in Htimes. by apply Htimes. }
  exact (print_inline _ (record_writable _ _)).
Qed.

(** A valid key is not changed by the round trip. *)
Lemma valid_clean s : utf8_valid s = true → utf8_clean s = s.
Proof. unfold utf8_valid. by rewrite String.eqb_eq. Qed.

(** The records of a kind have the times of its entries. *)
Lemma typed_time {R} `{JsonRecord R} ty tick L t (x : R) :
  timed ty → Forall (entry_ok tick) L → (t, x) ∈ typed ty L → t ≤ env_now tick.
Proof.
  intros Hty He Hin. unfold typed in Hin. apply list_elem_of_omap in Hin as (e & Hin & Hx).
  destruct (Unmarshal (lg_data e)) as [y|]; [|done]. injection Hx as <- <-.
  unfold of_type in Hin. apply list_elem_of_In, filter_In in Hin as [Hin Ht%bool_decide_eq_true].
  apply list_elem_of_In in Hin. rewrite Forall_forall in He. apply He in Hin as (_ & _ & _ & _ & Hin).
  apply Hin. by rewrite Ht.
Qed.
(** The key of a row survives the round trip. *)
Lemma copy_key {R K} `{JsonRecord R, EqDecision K} (key : R → K) rows M row :
  rows_ok key copy rows M → row ∈ rows → key (rec_clean row) = key row.
Proof.
  intros Ho Hrow. destruct (rows_last _ _ _ _ Ho row Hrow) as (t & x & Hl & ->).
  apply last_Some_elem_of, list_elem_of_In, filter_In in Hl as [_ Hk%bool_decide_eq_true]. done.
Qed.
Lemma copy_key_in {R K} `{JsonRecord R, EqDecision K} (key : R → K) (f : R → R) rows M k :
  rows_ok key copy rows M → k ∈ key <$> rows → ∃ row, row ∈ rows ∧ k = key row ∧ key (rec_clean row) = k.
Proof.
  intros Ho (row & -> & Hrow)%list_elem_of_fmap. exists row. split_and!; [done..|]. by eapply copy_key.
Qed.
End invariant.

(** ** Every write keeps the invariant *)

Section keeping.
Context `{Env} (writer : Writer) (Hclock : steady_clock).

(** The entry of a write, and the tables after it. *)
Definition kept (w' : World) (L : list logged) : Prop :=
  ∃ L', files_ok writer w' L' ∧ tables_ok (w_db w') L'.

Lemma discard_ok {A} (m : dop A) w w' : discard m w = (w', Ok ()) → ∃ a, m w = (w', Ok a).
Proof. intros Hm. apply bind_ok in Hm as (w1 & a & Hm & Hr). injection Hr as <-. eauto. Qed.
Lemma kept_entry {R} `{JsonRecordLaws R} ty t (r : R) w w' L :
  files_ok writer w L → logs writer ty t r w w' → unrotated writer (w_fs w') →
  ty ∈ shard_types → t ∈ rec_times r ∨ formattable t → storable_ints r →
  (timed ty → t ≤ env_now (w_tick w')) →
  (∀ e, lg_type e = ty → lg_time e = t → Unmarshal (lg_data e) = Some (rec_clean r) →
     tables_ok (w_db w') (L ++ [e])) →
  kept w' L.
Proof.
  intros Hf Hl Hu Hty Ht Hi Htime Hok.
  destruct (files_write writer ty t r w w' L) as (e & ? & ? & ? & ?); try done.
  exists (L ++ [e]). split; [done|]. by apply Hok.
Qed.

Lemma earlier {R} `{JsonRecord R} ty t (x : R) w L k :
  files_ok writer w L → timed ty → (w_tick w ≤ k)%nat → (t, x) ∈ typed ty L → t ≤ env_now k.
Proof.
  intros [_ He] Hty Hk Hx. transitivity (env_now (w_tick w)); [|by apply Hclock].
  exact (typed_time ty _ L t x Hty He Hx).
Qed.

(** Splits the invariant of the tables; the kinds other than that of the new
    entry are as before. *)
Ltac tables Hty :=
  match goal with Hok : tables_ok ?d ?L |- tables_ok _ (?L ++ [?e]) =>
    destruct Hok; split;
    try (rewrite typed_skip by (rewrite Hty; discriminate)); try assumption
  end.
(** The side conditions of [kept_entry]. *)
Ltac entry Hl :=
  match type of Hl with logs _ ?ty ?t ?r ?w ?w' =>
    match goal with |- kept _ ?L =>
      apply (kept_entry ty t r w w' L);
        [assumption|exact Hl|assumption|by (apply (bool_decide_eq_true_1 _); vm_compute)
        | |assumption|..]
    end end.
Ltac untimed := intros [[=]|[=]].

Lemma keep_SaveItem i w w' L :
  files_ok writer w L → tables_ok (w_db w) L → unrotated writer (w_fs w') →
  write_ok w (WSaveItem i) → do_write writer (WSaveItem i) w = (w', Ok ()) → kept w' L.
Proof.
  intros Hf Ht Hu (Hints & Hid & Href & Htime) (item' & Hs)%discard_ok.
  pose proof (SaveItem_ok _ _ _ _ _ Hs) as ((path & off & ->) & Hid' & Href' & Hdb).
  apply (save_logs writer) in Hs; [|intros; unfold InsertItem; eauto 10 with later_db nocore].
  pose proof Hs as (_ & _ & _ & _ & Htick & _). entry Hs.
  { left. by left. }
  { intros _. etransitivity; [exact Htime|]. by apply Hclock. }
  intros e Hty _ Hun. rewrite Hdb. tables Hty.
  - rewrite (typed_snoc _ _ _ _ Hty Hun). apply rows_insert; [done|done| |done].
    simpl. by rewrite valid_clean.
  - simpl. rewrite fmap_app. apply NoDup_app. split_and!; [done| |apply NoDup_singleton].
    intros x Hx ->%list_elem_of_singleton. done.
  - simpl. apply Forall_app_2; [done|]. by constructor.
Qed.
Lemma keep_UpdateItem i w w' L :
  files_ok writer w L → tables_ok (w_db w) L → unrotated writer (w_fs w') →
  write_ok w (WUpdateItem i) → do_write writer (WUpdateItem i) w = (w', Ok ()) → kept w' L.
Proof.
  intros Hf Ht Hu (Hints & Hfixed) (item' & Hs)%discard_ok.
  pose proof (UpdateItem_ok _ _ _ _ _ Hs) as ((path & off & ->) & Hin & Hdb).
  apply (update_logs writer) in Hs as (k & Hk & Hs); [|intros; unfold UpdateItem; eauto 10 with later_db nocore].
  entry Hs.
  { right. by apply Hclock. }
  { intros _. apply Hclock. lia. }
  intros e Hty Hte Hun. rewrite Hdb. tables Hty.
  - rewrite (typed_snoc _ _ _ _ Hty Hun), Hte.
    destruct (copy_key_in ic_ID id _ _ _ ok_items0 Hin) as (row & Hrow & E & Hkey).
    apply rows_update; [done| | |done| |].
    + simpl. rewrite E. exact (copy_key _ _ _ _ ok_items0 Hrow).
    + done.
    + intros row' Hrow' Hid. rewrite Forall_forall in Hfixed. pose proof (Hfixed _ Hrow' Hid) as Hfix.
      unfold item_fixed in Hfix. unfold copy. destruct i, row'. simpl in *. by simplify_eq.
    + intros t' x' Hx. by apply (earlier "items" t' x' w L k Hf); [left|lia|].
  - unfold put_item. simpl. by rewrite update_where_proj.
  - unfold put_item. simpl. apply Forall_forall. intros x (row & Hrow & ->)%elem_of_update_where.
    rewrite Forall_forall in ok_refs_valid0. apply ok_refs_valid0 in Hrow. by destruct (bool_decide _).
Qed.
Lemma keep_SaveAssignment a w w' L :
  files_ok writer w L → tables_ok (w_db w) L → unrotated writer (w_fs w') →
  write_ok w (WSaveAssignment a) → do_write writer (WSaveAssignment a) w = (w', Ok ()) → kept w' L.
Proof.
  intros Hf Ht Hu (Hints & Hid & Hcur) Hs.
  pose proof (SaveAssignment_ok _ _ _ _ _ Hs) as (path & Hid' & Hdb).
  apply (save_logs writer) in Hs; [|intros; unfold InsertAssignment; eauto 10 with later_db nocore].
  entry Hs; [left; by left|untimed|].
  intros e Hty _ Hun. rewrite Hdb. tables Hty.
  rewrite (typed_snoc _ _ _ _ Hty Hun). apply rows_insert; [done|done|simpl; by rewrite valid_clean|].
  unfold referral_copy, upd. simpl. by rewrite <- Hcur.
Qed.
Lemma keep_SaveEscalation x w w' L :
  files_ok writer w L → tables_ok (w_db w) L → unrotated writer (w_fs w') →
  write_ok w (WSaveEscalation x) → do_write writer (WSaveEscalation x) w = (w', Ok ()) → kept w' L.
Proof.
  intros Hf Ht Hu (Hints & Hid) (x' & Hs)%discard_ok.
  pose proof (SaveEscalation_ok _ _ _ _ _ Hs) as (path & -> & Hid' & Hdb).
  apply (save_logs writer) in Hs; [|intros; unfold InsertEscalation; eauto 10 with later_db nocore].
  entry Hs; [left; simpl; set_solver|untimed|].
  intros e Hty _ Hun. rewrite Hdb. tables Hty.
  rewrite (typed_snoc _ _ _ _ Hty Hun). apply rows_insert; [done|done|simpl; by rewrite valid_clean|done].
Qed.
Lemma keep_SaveAudit a w w' L :
  files_ok writer w L → tables_ok (w_db w) L → unrotated writer (w_fs w') →
  write_ok w (WSaveAudit a) → do_write writer (WSaveAudit a) w = (w', Ok ()) → kept w' L.
Proof.
  intros Hf Ht Hu (Hints & Hid) Hs.
  pose proof (SaveAudit_ok _ _ _ _ _ Hs) as (path & Hid' & Hdb).
  apply (save_logs writer) in Hs; [|intros; unfold InsertAudit; eauto 10 with later_db nocore].
  entry Hs; [left; simpl; set_solver|untimed|].
  intros e Hty _ Hun. rewrite Hdb. tables Hty.
  rewrite (typed_snoc _ _ _ _ Hty Hun). apply rows_insert; [done|done|simpl; by rewrite valid_clean|done].
Qed.
Lemma keep_SaveBatch b w w' L :
  files_ok writer w L → tables_ok (w_db w) L → unrotated writer (w_fs w') →
  write_ok w (WSaveBatch b) → do_write writer (WSaveBatch b) w = (w', Ok ()) → kept w' L.
Proof.
  intros Hf Ht Hu (Hints & Hid) Hs.
  pose proof (SaveBatch_ok _ _ _ _ _ Hs) as (path & Hid' & Hdb).
  apply (save_logs writer) in Hs; [|intros; unfold InsertBatch; eauto 10 with later_db nocore].
  entry Hs; [left; simpl; set_solver|untimed|].
  intros e Hty _ Hun. rewrite Hdb. tables Hty.
  rewrite (typed_snoc _ _ _ _ Hty Hun). apply rows_insert; [done|done|simpl; by rewrite valid_clean|done].
Qed.
Lemma keep_SaveRule r w w' L :
  files_ok writer w L → tables_ok (w_db w) L → unrotated writer (w_fs w') →
  write_ok w (WSaveRule r) → do_write writer (WSaveRule r) w = (w', Ok ()) → kept w' L.
Proof.
  intros Hf Ht Hu Hints (x' & Hs)%discard_ok.
  pose proof (SaveRule_ok _ _ _ _ _ Hs) as (path & -> & Hid' & Hdb).
  apply (save_logs writer) in Hs; [|intros; unfold InsertRule; eauto 10 with later_db nocore].
  entry Hs; [left; simpl; set_solver|untimed|].
  intros e Hty _ Hun. rewrite Hdb. tables Hty.
  rewrite (typed_snoc _ _ _ _ Hty Hun). by apply rows_insert.
Qed.
Lemma keep_SaveFailure f w w' L :
  files_ok writer w L → tables_ok (w_db w) L → unrotated writer (w_fs w') →
  write_ok w (WSaveFailure f) → do_write writer (WSaveFailure f) w = (w', Ok ()) → kept w' L.
Proof.
  intros Hf Ht Hu (Hints & Hid & Htime) Hs.
  pose proof (SaveFailure_ok _ _ _ _ _ Hs) as (Hid' & Hdb).
  apply (save_logs writer) in Hs; [|intros; unfold InsertFailure; eauto 10 with later_db nocore].
  pose proof Hs as (_ & _ & _ & _ & Htick & _). entry Hs; [left; simpl; set_solver| |].
  { intros _. etransitivity; [exact Htime|]. by apply Hclock. }
  intros e Hty _ Hun. rewrite Hdb. tables Hty.
  rewrite (typed_snoc _ _ _ _ Hty Hun). apply rows_insert; [done|done|simpl; by rewrite valid_clean|done].
Qed.
Lemma keep_UpdateFailure f w w' L :
  files_ok writer w L → tables_ok (w_db w) L → unrotated writer (w_fs w') →
  write_ok w (WUpdateFailure f) → do_write writer (WUpdateFailure f) w = (w', Ok ()) → kept w' L.
Proof.
  intros Hf Ht Hu (Hints & Hfixed) Hs.
  pose proof (UpdateFailure_ok _ _ _ _ _ Hs) as (Hin & Hdb).
  apply (update_logs writer) in Hs as (k & Hk & Hs); [|intros; unfold UpdateFailure; eauto 10 with later_db nocore].
  entry Hs; [right; by apply Hclock|intros _; apply Hclock; lia|].
  intros e Hty Hte Hun. rewrite Hdb. tables Hty.
  rewrite (typed_snoc _ _ _ _ Hty Hun), Hte.
  destruct (copy_key_in pf_ID id _ _ _ ok_failures0 Hin) as (row & Hrow & E & Hkey).
  apply rows_update; [done| |done|done| |].
  - simpl. rewrite E. exact (copy_key _ _ _ _ ok_failures0 Hrow).
  - intros row' Hrow' Hid. rewrite Forall_forall in Hfixed. pose proof (Hfixed _ Hrow' Hid) as Hfix.
    unfold failure_fixed in Hfix. unfold copy. destruct f, row'. simpl in *. by simplify_eq.
  - intros t' x' Hx. by apply (earlier "failures" t' x' w L k Hf); [right|lia|].
Qed.

(** The two writes that leave no record. *)
Lemma keep_idle w w' L :
  files_ok writer w L → w_fs w' = w_fs w → (w_tick w ≤ w_tick w')%nat →
  tables_ok (w_db w') L → kept w' L.
Proof.
  intros [Hh He] Hf Ht Hok. exists L. split; [|done]. split; [by rewrite Hf|].
  eapply Forall_impl; [exact He|]. intros e. by apply entry_later.
Qed.
Lemma keep_Mark id w w' L :
  files_ok writer w L → tables_ok (w_db w) L →
  do_write writer (WMarkAssignmentSuperseded id) w = (w', Ok ()) → kept w' L.
Proof.
  intros Hf Ht Hs. pose proof (MarkSuperseded_ok _ _ _ _ Hs) as Hdb.
  assert (fs_later (Tx_MarkAssignmentSuperseded id)) as Hl
    by (unfold Tx_MarkAssignmentSuperseded, MarkAssignmentSuperseded; eauto 10 with later_db nocore).
  apply Hl in Hs as [Hfs Htick]. apply (keep_idle w); try done. rewrite Hdb.
  destruct Ht; split; try done. by apply rows_change.
Qed.
Lemma keep_SupersedeRule v w w' L :
  files_ok writer w L → tables_ok (w_db w) L →
  do_write writer (WSupersedeRule v) w = (w', Ok ()) → kept w' L.
Proof.
  intros Hf Ht Hs. pose proof (SupersedeRule_ok _ _ _ _ Hs) as [wall Hdb].
  assert (fs_later (Tx_SupersedeRule v)) as Hl
    by (unfold Tx_SupersedeRule, SupersedeRule; eauto 10 with later_db nocore).
  apply Hl in Hs as [Hfs Htick]. apply (keep_idle w); try done. rewrite Hdb.
  destruct Ht; split; try done. apply rows_change; [done|done|]. intros row x Hx.
  destruct Hx as [Hcore _]. split; [by rewrite Hcore|done].
Qed.

Lemma later_grows {A} (m : dop A) w w' a : fs_later m → m w = (w', Ok a) → grows (w_fs w) (w_fs w').
Proof. intros Hl Hs. apply Hl in Hs as [-> _]. reflexivity. Qed.
Lemma logs_grows {R} `{JsonRecord R} ty t (r : R) w w' :
  logs writer ty t r w w' → grows (w_fs w) (w_fs w').
Proof. by intros (? & ? & _ & ? & _). Qed.
(** What a write appends only makes the files longer. *)
Ltac insert_later :=
  intros; unfold InsertItem, UpdateItem, InsertAssignment, InsertEscalation,
    InsertAudit, InsertFailure, UpdateFailure, InsertBatch, InsertRule; eauto 10 with later_db nocore.
Ltac saved Hs := apply (save_logs writer) in Hs; [exact (logs_grows _ _ _ _ _ Hs)|insert_later].
Ltac updated Hs :=
  apply (update_logs writer) in Hs as (? & _ & Hs); [exact (logs_grows _ _ _ _ _ Hs)|insert_later].
Lemma write_grows x w w' : do_write writer x w = (w', Ok ()) → grows (w_fs w) (w_fs w').
Proof.
  destruct x; cbn [do_write]; intros Hs.
  - apply discard_ok in Hs as [? Hs]. saved Hs.
  - apply discard_ok in Hs as [? Hs]. updated Hs.
  - saved Hs.
  - eapply later_grows, Hs.
    unfold Tx_MarkAssignmentSuperseded, MarkAssignmentSuperseded. eauto 10 with later_db nocore.
  - apply discard_ok in Hs as [? Hs]. saved Hs.
  - saved Hs.
  - saved Hs.
  - updated Hs.
  - saved Hs.
  - apply discard_ok in Hs as [? Hs]. saved Hs.
  - eapply later_grows, Hs. unfold Tx_SupersedeRule, SupersedeRule. eauto 10 with later_db nocore.
Qed.
Lemma keep_write x w w' L :
  files_ok writer w L → tables_ok (w_db w) L → unrotated writer (w_fs w') →
  write_ok w x → do_write writer x w = (w', Ok ()) → kept w' L.
Proof.
  destruct x; intros.
  - by eapply keep_SaveItem.
  - by eapply keep_UpdateItem.
  - by eapply keep_SaveAssignment.
  - by eapply keep_Mark.
  - by eapply keep_SaveEscalation.
  - by eapply keep_SaveAudit.
  - by eapply keep_SaveFailure.
  - by eapply keep_UpdateFailure.
  - by eapply keep_SaveBatch.
  - by eapply keep_SaveRule.
  - by eapply keep_SupersedeRule.
Qed.

(** What every history of writes leaves, as long as no file is full. *)
Lemma stored_kept w :
  stored writer w → unrotated writer (w_fs w) →
  ∃ L, files_ok writer w L ∧ tables_ok (w_db w) L.
Proof.
  induction 1 as [w Hd Hf|w w' Hs IH [Hd Hf] Ht|w x w' Hs IH Hok Hw]; intros Hu.
  - exists []. split; [by apply files_ok_empty|]. rewrite Hd. apply tables_ok_empty.
  - rewrite Hf in Hu. destruct (IH Hu) as (L & Hfiles & Htables). exists L. split.
    + by eapply files_idle.
    + by rewrite Hd.
  - destruct IH as (L & Hfiles & Htables).
    { eapply unrotated_before; [|exact Hu]. by eapply write_grows. }
    by eapply keep_write.
Qed.
End keeping.
