(* ===== verification/StoreReplay.v ===== *)
(** * Replaying the shard files

    What the collector of a rebuild holds after reading the files of a log:
    for every key the last record that was logged, whichever file it is in. *)
From Stdlib Require Import Ascii.
From stdpp Require Import sorting.
From S2P Require Import Prelude GoErrors GoStrings GoNumbers GoTime Json JsonFacts Domain.
From S2P Require Import Records RecordsFacts World Shard ShardFacts Reader Index Repo.
From S2P Require Import StoreFacts Rebuild RebuildFacts StoreRuns.

(** ** Lists in buckets *)

(** A list in the order of its buckets is the buckets in their order. *)
Lemma buckets {A P} `{EqDecision P} (R : relation P) (f : A → P) (ps : list P) (l : list A) :
  NoDup ps → StronglySorted R ps → StronglySorted (λ a b, R (f a) (f b)) l →
  Forall (λ a, f a ∈ ps) l →
  (∀ p a, p ∈ ps → a ∈ l → R p (f a) → R (f a) p → p = f a) →
  (ps ≫= λ p, List.filter (λ a, bool_decide (f a = p)) l) = l.
Proof.
  intros Hnd Hps Hl Hin Hanti. induction l as [|a l IH].
  { clear. by induction ps as [|p ps IH]. }
  apply StronglySorted_inv in Hl as [Hl Ha]. apply Forall_cons in Hin as [Hfa Hin].
  apply list_elem_of_split in Hfa as (ps1 & ps2 & ->).
  assert (∀ p, p ∈ ps1 → List.filter (λ b, bool_decide (f b = p)) (a :: l) = []) as Hnone.
  { intros p Hp. assert (R p (f a)) as Hpa by (by apply (StronglySorted_app_1_elem_of _ _ _ _ _ Hps); [|left]).
    assert (p ≠ f a) as Hne.
    { intros ->. apply NoDup_app in Hnd as (_ & Hd & _). by apply (Hd _ Hp); left. }
    assert (∀ b, b ∈ a :: l → f b ≠ p) as Hall.
    { intros b [->|Hb]%elem_of_cons <-; [done|]. rewrite Forall_forall in Ha.
      apply Hne, Hanti; [by apply elem_of_app; left|by left|done|by apply Ha]. }
    clear -Hall. induction (a :: l) as [|b l' IH]; [done|]. simpl.
    rewrite bool_decide_false by (apply Hall; by left). apply IH. intros x Hx. apply Hall. by right. }
  assert (∀ l', (∀ p, p ∈ ps1 → List.filter (λ b, bool_decide (f b = p)) l' = []) →
    (ps1 ≫= λ p, List.filter (λ b, bool_decide (f b = p)) l') = []) as Hempty.
  { clear. intros l'. induction ps1 as [|p ps1 IH]; intros Hn; [done|].
    rewrite bind_cons, Hn by (by left). apply IH. intros q Hq. apply Hn. by right. }
  rewrite bind_app, bind_cons, Hempty by done. simpl. rewrite bool_decide_true by done. simpl. f_equal.
  rewrite <- IH at 2; [|done| |].
  - rewrite bind_app, bind_cons, Hempty.
    + simpl. f_equal. apply NoDup_app in Hnd as (_ & _ & Hnd). apply NoDup_cons in Hnd as [Hnd _].
      clear -Hnd. induction ps2 as [|p ps2 IH]; [done|]. rewrite !bind_cons.
      apply not_elem_of_cons in Hnd as [Hne Hnd]. rewrite IH by done. simpl. by rewrite bool_decide_false.
    + intros p Hp. specialize (Hnone p Hp). simpl in Hnone. by destruct (bool_decide _).
  - done.
  - intros p b Hp Hb. apply Hanti; [done|by right].
Qed.

(** ** Inserting one by one *)

Section inserting.
Context {R K : Type} `{Countable K} (key : R → K).
Definition put_all (m : gmap K R) (xs : list R) : gmap K R := foldl (λ m x, <[key x := x]> m) m xs.
Lemma put_all_app m xs ys : put_all m (xs ++ ys) = put_all (put_all m xs) ys.
Proof. apply foldl_app. Qed.
(** The last one of a key stays. *)
Lemma put_all_lookup xs k :
  put_all ∅ xs !! k = last (List.filter (λ x, bool_decide (key x = k)) xs).
Proof.
  induction xs as [|x xs IH] using rev_ind; [by apply lookup_empty|].
  rewrite put_all_app, List.filter_app. simpl. case_bool_decide as E.
  - rewrite <- E, lookup_insert_eq. by rewrite last_snoc.
  - by rewrite lookup_insert_ne, app_nil_r.
Qed.
End inserting.

(** ** The names of shard files *)

Lemma prefix_app (p s : bytes) : has_prefix_bytes p (p ++ s) = true.
Proof. induction p as [|c p IH]; [done|]. simpl. by rewrite Ascii.eqb_refl. Qed.
Lemma prefix_cancel (r p s : bytes) : has_prefix_bytes (r ++ p) (r ++ s) = has_prefix_bytes p s.
Proof. induction r as [|c r IH]; [done|]. simpl. by rewrite Ascii.eqb_refl. Qed.

Section names.
Context `{Zone} (writer : Writer).

Lemma shardPath_split ty t : ∃ rest,
  shardPath writer ty t = rootDir writer +:+ "/shards/" +:+ ty +:+ "/" +:+ rest +:+ ".jsonl".
Proof.
  exists (year_month_text (zoned t) +:+ "/" +:+ date_text (zoned t)). unfold shardPath. by rewrite <- !str_app_assoc.
Qed.
(** A path belongs to the directory of its kind, and to no other. *)
Lemma shardPath_prefix ty ty' t :
  has_prefix (rootDir writer +:+ "/shards/" +:+ ty +:+ "/") (shardPath writer ty' t) =
  has_prefix_bytes (to_bytes ty ++ to_bytes "/")
    (to_bytes ty' ++ to_bytes "/" ++ to_bytes (year_month_text (zoned t) +:+ "/" +:+ date_text (zoned t) +:+ ".jsonl")).
Proof.
  unfold has_prefix, shardPath, to_bytes. rewrite !ascii_list_app, !prefix_cancel. done.
Qed.
Lemma shardPath_own ty t :
  has_prefix (rootDir writer +:+ "/shards/" +:+ ty +:+ "/") (shardPath writer ty t) = true.
Proof. rewrite shardPath_prefix, (app_assoc (to_bytes ty)). apply prefix_app. Qed.
Lemma prefix_inv (p s : bytes) : has_prefix_bytes p s = true → ∃ rest, s = p ++ rest.
Proof.
  revert s. induction p as [|c p IH]; intros s Hp; [by exists s|]. destruct s as [|d s]; [done|].
  simpl in Hp. apply andb_true_iff in Hp as [->%Ascii.eqb_eq [rest ->]%IH]. by exists rest.
Qed.
Lemma directory_type ty ty' path :
  ty ∈ shard_types → ty' ∈ shard_types →
  has_prefix (rootDir writer +:+ "/shards/" +:+ ty +:+ "/") path = true →
  has_prefix (rootDir writer +:+ "/shards/" +:+ ty' +:+ "/") path = true → ty = ty'.
Proof.
  intros Hty Hty' [rest Hp]%prefix_inv Hp'. unfold has_prefix in Hp'. rewrite Hp in Hp'.
  rewrite !ascii_list_app, <- !app_assoc, !prefix_cancel in Hp'. unfold shard_types in *.
  repeat (apply elem_of_cons in Hty as [->|Hty]; [|]); try by apply elem_of_nil in Hty.
  all: repeat (apply elem_of_cons in Hty' as [->|Hty']; [|]); try by apply elem_of_nil in Hty'.
  all: by revert Hp'; intros [=].
Qed.
Lemma shardPath_type ty ty' t :
  ty ∈ shard_types → ty' ∈ shard_types →
  has_prefix (rootDir writer +:+ "/shards/" +:+ ty +:+ "/") (shardPath writer ty' t) = true → ty = ty'.
Proof. intros Hty Hty' Hp. by eapply directory_type, shardPath_own. Qed.
Lemma shardPath_suffix ty t : HasSuffix (shardPath writer ty t) ".jsonl" = true.
Proof.
  destruct (shardPath_split ty t) as [rest ->]. rewrite !str_app_assoc. unfold HasSuffix.
  rewrite ascii_list_app, rev_app_distr. apply prefix_app.
Qed.
Lemma path_le_antisym a b : path_le a b → path_le b a → a = b.
Proof. apply String.leb_antisym. Qed.
Lemma path_le_cons c s d t :
  path_le (String c s) (String d t) ↔
  (N_of_ascii c < N_of_ascii d)%N ∨ c = d ∧ path_le s t.
Proof.
  unfold path_le, String.leb. cbn [String.compare]. unfold Ascii.compare.
  destruct (N.compare_spec (N_of_ascii c) (N_of_ascii d)) as [E|E|E].
  - apply (f_equal ascii_of_N) in E. rewrite !ascii_N_embedding in E. subst d.
    split; [by right|]. intros [Hlt|[_ Hle]]; [lia|done].
  - naive_solver.
  - split; [done|]. intros [Hlt|[-> _]]; lia.
Qed.
#[export] Instance path_le_trans : Transitive path_le.
Proof.
  intros x. induction x as [|c x IH]; intros y z; [by destruct z|].
  destruct y as [|d y]; [done|]. destruct z as [|e z]; [by intros _|]. rewrite !path_le_cons.
  intros [H1|[-> H1]] [H2|[-> H2]]; [left; lia|by left|by left|right; split; [done|by eapply IH]].
Qed.

(** The files of a kind. *)
Lemma elem_of_files (fs : FS) path ty :
  (path, ty) ∈ merge_sort by_path (all_files (rootDir writer) fs) ↔
  ty ∈ shard_types ∧ is_Some (fs !! path) ∧ HasSuffix path ".jsonl" = true ∧
  has_prefix (rootDir writer +:+ "/shards/" +:+ ty +:+ "/") path = true.
Proof.
  rewrite merge_sort_Permutation. unfold all_files. rewrite list_elem_of_bind. split.
  - intros (ty' & (path' & [= -> ->] & Hp)%list_elem_of_fmap & Hty). split; [done|].
    unfold shard_files in Hp. rewrite merge_sort_Permutation in Hp.
    apply list_elem_of_In, filter_In in Hp as [Hp [Hpre Hsuf]%andb_true_iff].
    apply list_elem_of_In, list_elem_of_fmap in Hp as ([q b] & -> & Hb).
    apply elem_of_map_to_list in Hb. split_and!; [by eexists|done..].
  - intros (Hty & [b Hb] & Hsuf & Hpre). exists ty. split; [|done]. apply list_elem_of_fmap.
    exists path. split; [done|]. unfold shard_files. rewrite merge_sort_Permutation.
    apply list_elem_of_In, filter_In. rewrite Hsuf, Hpre. split; [|done].
    apply list_elem_of_In, list_elem_of_fmap. exists (path, b). by rewrite elem_of_map_to_list.
Qed.
Lemma files_nodup (fs : FS) : NoDup (merge_sort by_path (all_files (rootDir writer) fs)).
Proof.
  rewrite merge_sort_Permutation. unfold all_files. apply NoDup_bind.
  - intros ty1 ty2 [p ty] _ _ (? & [= _ <-] & _)%list_elem_of_fmap (? & [= _ <-] & _)%list_elem_of_fmap. done.
  - intros ty _. apply NoDup_fmap_2; [by intros ?? [=]|]. unfold shard_files.
    rewrite merge_sort_Permutation. apply NoDup_ListNoDup, List.NoDup_filter, NoDup_ListNoDup, NoDup_fst_map_to_list.
  - apply (bool_decide_eq_true_1 _). by vm_compute.
Qed.
(** A file is in the directory of one kind only. *)
Lemma paths_nodup (fs : FS) : NoDup (merge_sort by_path (all_files (rootDir writer) fs)).*1.
Proof.
  apply NoDup_fmap_fst; [|apply files_nodup]. intros path ty ty' H1 H2.
  apply elem_of_files in H1 as (? & _ & _ & ?), H2 as (? & _ & _ & ?). by eapply directory_type.
Qed.
#[local] Instance by_path_trans : Transitive by_path.
Proof. intros [x ?] [y ?] [z ?]. apply path_le_trans. Qed.
#[local] Instance by_path_total : Total by_path.
Proof. intros [x ?] [y ?]. apply String.leb_total. Qed.
Lemma files_sorted (fs : FS) : StronglySorted by_path (merge_sort by_path (all_files (rootDir writer) fs)).
Proof. apply (StronglySorted_merge_sort by_path). Qed.
End names.

(** ** The collector, kind by kind *)

(** A map of the collector: the shards it is filled from and its key. *)
Class Kind (R K : Type) `{JsonRecord R, Countable K} : Type := {
  k_type : string;
  k_key : R → K;
  k_map : recordCollector → gmap K R
}.
Class KindLaws (R K : Type) `{Kind R K} : Prop := {
  k_known : k_type ∈ shard_types;
  k_new : k_map newCollector = ∅;
  k_add c ty data :
    k_map (default c (add c ty data)) =
    if bool_decide (ty = k_type)
    then match Unmarshal data with Some x => <[k_key x := x]> (k_map c) | None => k_map c end
    else k_map c
}.
#[export] Instance items_kind : Kind ComplianceCase string := {|
  k_type := "items"; k_key := ic_ID; k_map := itemsByID |}.
#[export] Instance rules_kind : Kind Rule Z := {|
  k_type := "rules"; k_key := ru_Version; k_map := rulesByVersion |}.
#[export] Instance assignments_kind : Kind Referral string := {|
  k_type := "assignments"; k_key := rf_ID; k_map := assignmentsByID |}.
#[export] Instance escalations_kind : Kind Escalation string := {|
  k_type := "escalations"; k_key := es_ID; k_map := escalationsByID |}.
#[export] Instance audit_kind : Kind AuditEntry string := {|
  k_type := "audit"; k_key := au_ID; k_map := auditByID |}.
#[export] Instance failures_kind : Kind PermanentFailure string := {|
  k_type := "failures"; k_key := pf_ID; k_map := failuresByID |}.
#[export] Instance batches_kind : Kind ImportBatch string := {|
  k_type := "batches"; k_key := ib_ID; k_map := batchesByID |}.

Ltac kind_laws :=
  split; [by apply (bool_decide_eq_true_1 _); vm_compute|done|]; intros c ty data;
  unfold add; cbn [k_type k_key k_map items_kind rules_kind assignments_kind escalations_kind
    audit_kind failures_kind batches_kind];
  repeat (case_bool_decide; subst; try done); by destruct (Unmarshal data).
#[export] Instance items_kind_laws : KindLaws ComplianceCase string.
Proof. kind_laws. Qed.
#[export] Instance rules_kind_laws : KindLaws Rule Z.
Proof. kind_laws. Qed.
#[export] Instance assignments_kind_laws : KindLaws Referral string.
Proof. kind_laws. Qed.
#[export] Instance escalations_kind_laws : KindLaws Escalation string.
Proof. kind_laws. Qed.
#[export] Instance audit_kind_laws : KindLaws AuditEntry string.
Proof. kind_laws. Qed.
#[export] Instance failures_kind_laws : KindLaws PermanentFailure string.
Proof. kind_laws. Qed.
#[export] Instance batches_kind_laws : KindLaws ImportBatch string.
Proof. kind_laws. Qed.

Section kind.
Context `{KindLaws R K, Env} (writer : Writer).

(** The entries at a path belong to the kind of the directory it is in. *)
Lemma at_path_type ty path L :
  Forall (λ e, lg_type e ∈ shard_types) L → ty ∈ shard_types →
  has_prefix (rootDir writer +:+ "/shards/" +:+ ty +:+ "/") path = true →
  Forall (λ e, lg_type e = ty) (at_path writer path L).
Proof.
  intros HL Hty Hpre. apply Forall_forall. intros e He.
  apply list_elem_of_In, filter_In in He as [He Hp%bool_decide_eq_true].
  rewrite Forall_forall in HL. apply list_elem_of_In, HL in He. subst path. symmetry.
  by eapply shardPath_type.
Qed.
Lemma map_add_all c ty es :
  Forall (λ e, lg_type e = ty) es →
  k_map (add_all c ty (lg_data <$> es)) = put_all k_key (k_map c) (typed k_type es).*2.
Proof.
  unfold add_all. revert c. induction es as [|e es IH]; intros c Hall; [done|].
  apply Forall_cons in Hall as [Hty Hall]. rewrite fmap_cons. cbn [foldl]. rewrite IH by done.
  change (e :: es) with ([e] ++ es). rewrite typed_app, fmap_app, put_all_app. f_equal.
  rewrite k_add. case_bool_decide as E.
  - unfold typed, of_type. simpl. rewrite bool_decide_true by congruence. simpl.
    by destruct (Unmarshal (lg_data e)).
  - rewrite typed_other; [done|]. congruence.
Qed.

(** The entries in the order the rebuild reads them. *)
Definition in_files (L : list logged) (files : list (string * string)) : list logged :=
  files ≫= λ sf, at_path writer sf.1 L.
Lemma map_collect fs L files c :
  holds writer fs L → Forall (λ e, lg_type e ∈ shard_types) L →
  Forall (λ e, line_ok (lg_data e)) L →
  Forall (λ sf, sf.2 ∈ shard_types ∧
    has_prefix (rootDir writer +:+ "/shards/" +:+ sf.2 +:+ "/") sf.1 = true) files →
  k_map (foldl (collect_file fs) c files) =
    put_all k_key (k_map c) (typed k_type (in_files L files)).*2.
Proof.
  intros Hh HL Hfit. revert c. induction files as [|[path ty] files IH]; intros c Hall; [done|].
  apply Forall_cons in Hall as [[Hty Hpre] Hall]. cbn [foldl]. rewrite IH by done.
  unfold in_files. rewrite bind_cons, typed_app, fmap_app, put_all_app. f_equal.
  simpl in Hty, Hpre. pose proof (at_path_type ty path L HL Hty Hpre) as Htypes.
  rewrite <- (map_add_all c ty) by done. unfold collect_file. simpl. rewrite Hh.
  assert (Forall line_ok (lg_data <$> at_path writer path L)) as Hlines.
  { apply Forall_fmap, Forall_forall. intros e He. apply list_elem_of_In, filter_In in He as [He _].
    rewrite Forall_forall in Hfit. by apply list_elem_of_In, Hfit in He. }
  assert (records_of (file_of (lg_data <$> at_path writer path L)) = Ok (lg_data <$> at_path writer path L))
    as Hrec by (unfold records_of; by rewrite scan_file, filter_nonempty).
  destruct (at_path writer path L) as [|e es]; [done|]. by rewrite Hrec.
Qed.
End kind.

Section lookup.
Context `{KindLaws R K, Env} (writer : Writer).

Lemma with_key_bind {A} k (f : A → list (Time * R)) l :
  with_key k_key k (l ≫= f) = l ≫= λ a, with_key k_key k (f a).
Proof. induction l as [|a l IH]; [done|]. rewrite !bind_cons, with_key_app. by f_equal. Qed.
Lemma typed_bind {A} ty (f : A → list logged) l :
  typed (R := R) ty (l ≫= f) = l ≫= λ a, typed ty (f a).
Proof. induction l as [|a l IH]; [done|]. rewrite !bind_cons, typed_app. by f_equal. Qed.
Lemma filter_comm {A} (p q : A → bool) l : List.filter p (List.filter q l) = List.filter q (List.filter p l).
Proof.
  induction l as [|a l IH]; [done|]. simpl.
  destruct (p a) eqn:Hp, (q a) eqn:Hq; simpl; rewrite ?Hp, ?Hq, ?IH; done.
Qed.
(** Looking at one path of a kind is looking at the times that lead there. *)
Lemma typed_at_path ty path L :
  typed (R := R) ty (at_path writer path L) =
  List.filter (λ tx, bool_decide (shardPath writer ty tx.1 = path)) (typed ty L).
Proof.
  unfold typed, of_type, at_path. rewrite filter_comm. induction L as [|e L IH]; [done|]. simpl.
  destruct (bool_decide_reflect (lg_type e = ty)) as [E|E]; [|done]. simpl.
  assert (lg_path writer e = shardPath writer ty (lg_time e)) as -> by (unfold lg_path; by rewrite E).
  destruct (bool_decide (shardPath writer ty (lg_time e) = path)) eqn:Hb; simpl;
    destruct (Unmarshal (lg_data e)) as [x|]; simpl; rewrite ?Hb; [f_equal; exact IH|exact IH..].
Qed.

Lemma typed_entry ty L t (x : R) :
  (t, x) ∈ typed ty L → ∃ e, e ∈ L ∧ lg_type e = ty ∧ lg_time e = t ∧ Unmarshal (lg_data e) = Some x.
Proof.
  unfold typed, of_type. intros (e & He & Hx)%list_elem_of_omap.
  apply list_elem_of_In, filter_In in He as [He Hty%bool_decide_eq_true]. apply list_elem_of_In in He.
  destruct (Unmarshal (lg_data e)) as [y|] eqn:E; [|done]. injection Hx as <- <-. by exists e.
Qed.

(** The records of a key are read in the order they were logged. *)
Lemma with_key_in_files fs L tick k :
  holds writer fs L → Forall (entry_ok tick) L →
  StronglySorted Z.le (with_key k_key k (typed k_type L)).*1 →
  with_key k_key k (typed (R := R) k_type
    (in_files writer L (merge_sort by_path (all_files (rootDir writer) fs)))) =
  with_key k_key k (typed k_type L).
Proof.
  intros Hh HL Hsorted. unfold in_files. rewrite typed_bind, with_key_bind.
  set (files := merge_sort by_path (all_files (rootDir writer) fs)).
  set (M := with_key k_key k (typed k_type L)) in *.
  set (f := λ tx : Time * R, (shardPath writer k_type tx.1, k_type : string)).
  assert (∀ tx, tx ∈ M → formattable tx.1 ∧ f tx ∈ files) as HM.
  { intros [t x] Hx. apply list_elem_of_In, filter_In in Hx as [Hx _]. apply list_elem_of_In in Hx.
    apply typed_entry in Hx as (e & He & Hty & <- & _). rewrite Forall_forall in HL.
    pose proof (HL _ He) as (Hin & _ & _ & Hfmt & _). split; [done|]. apply elem_of_files.
    unfold f. simpl. rewrite <- Hty. split_and!; [done| |apply shardPath_suffix|apply shardPath_own].
    fold (lg_path writer e). specialize (Hh (lg_path writer e)). rewrite Hh.
    assert (e ∈ at_path writer (lg_path writer e) L) as Hat.
    { apply list_elem_of_In, filter_In. rewrite bool_decide_true by done. by rewrite <- list_elem_of_In. }
    destruct (at_path writer (lg_path writer e) L); [by apply elem_of_nil in Hat|by eexists]. }
  transitivity (files ≫= λ sf, List.filter (λ tx, bool_decide (f tx = sf)) M).
  - apply Forall_bind_ext, Forall_forall. intros [path ty] Hsf. simpl.
    apply elem_of_files in Hsf as (Hty & _ & _ & Hpre).
    rewrite typed_at_path. unfold with_key at 1. rewrite filter_comm. fold (with_key k_key k (typed (R := R) k_type L)).
    fold M. apply filter_ext_in. intros tx _. apply bool_decide_ext. unfold f.
    split; [|by intros [= -> _]]. intros <-. f_equal. symmetry.
    apply (shardPath_type writer _ _ tx.1); [done|apply k_known|done].
  - apply (buckets by_path); [apply files_nodup|apply files_sorted| | |].
    + clear -Hsorted HM. induction M as [|[t x] M IH]; [constructor|]. rewrite fmap_cons in Hsorted.
      apply StronglySorted_inv in Hsorted as [Hs Ht]. constructor.
      * apply IH; [done|]. intros tx Htx. apply HM. by right.
      * apply Forall_forall. intros [u y] Hu. apply shardPath_mono.
        -- by apply (HM (t, x)); left.
        -- by apply (HM (u, y)); right.
        -- rewrite Forall_forall in Ht. apply Ht, list_elem_of_fmap. by exists (u, y).
    + apply Forall_forall. intros tx Htx. by apply HM.
    + intros [p ty] tx Hp Htx Hle1 Hle2. apply elem_of_files in Hp as (Hty & _ & _ & Hpre).
      pose proof (path_le_antisym _ _ Hle1 Hle2) as E. simpl in E. subst p. unfold f. f_equal.
      apply (shardPath_type writer _ _ tx.1); [done|apply k_known|done].
Qed.

(** A rebuild from the files of a log finds the last record of every key. *)
Lemma collected_last fs L tick k :
  holds writer fs L → Forall (entry_ok tick) L → Forall (λ e, line_ok (lg_data e)) L →
  StronglySorted Z.le (with_key k_key k (typed k_type L)).*1 →
  k_map (collect (rootDir writer) fs) !! k = snd <$> last (with_key k_key k (typed (R := R) k_type L)).
Proof.
  intros Hh HL Hfit Hsorted. unfold collect. rewrite (map_collect writer fs L); [|done| |done|].
  - rewrite k_new, put_all_lookup, <- (with_key_in_files fs L tick k) by done.
    rewrite <- fmap_last. f_equal. generalize (typed (R := R) k_type
      (in_files writer L (merge_sort by_path (all_files (rootDir writer) fs)))) as l.
    intros l. unfold with_key. induction l as [|[t x] l IH]; [done|]. simpl.
    destruct (bool_decide (k_key x = k)); simpl; [f_equal|]; exact IH.
  - eapply Forall_impl; [exact HL|]. by intros e (? & _).
  - apply Forall_forall. intros [path ty] Hsf. by apply elem_of_files in Hsf as (? & _ & _ & ?).
Qed.
End lookup.

(** ** The rows of a table and the map of the collector *)

Section recovered.
Context `{KindLaws R K, Env} (writer : Writer).

Lemma Forall2_choose {A B} (P : A → B → Prop) (l : list A) :
  (∀ a, a ∈ l → ∃ b, P a b) → ∃ l', Forall2 P l l'.
Proof.
  induction l as [|a l IH]; intros HP; [by exists []|].
  destruct (HP a) as [b Hb]; [by left|]. destruct IH as [l' Hl']; [intros; apply HP; by right|].
  exists (b :: l'). by constructor.
Qed.

(** The map holds exactly the records of the rows. *)
Lemma values_rows (m : gmap K R) (rel : R → R → Prop) rows M :
  rows_ok k_key rel rows M → (∀ k, m !! k = snd <$> last (with_key k_key k M)) →
  ∃ xs, values m ≡ₚ xs ∧ Forall2 (λ row x, k_key x = k_key row ∧ rel row x) rows xs.
Proof.
  intros Hok Hm.
  destruct (Forall2_choose (λ row x, m !! k_key row = Some x ∧ k_key x = k_key row ∧ rel row x) rows)
    as [xs Hxs].
  { intros row Hrow. destruct (rows_last _ _ _ _ Hok row Hrow) as (t & x & Hl & Hr). exists x.
    rewrite Hm, Hl. split_and!; [done| |done].
    apply last_Some_elem_of, list_elem_of_In, filter_In in Hl as [_ Hk%bool_decide_eq_true]. done. }
  exists xs. split; [|by eapply Forall2_impl; [exact Hxs|naive_solver]].
  assert (m = list_to_map (zip (k_key <$> rows) xs)) as ->.
  { apply map_eq. intros k. destruct (decide (k ∈ k_key <$> rows)) as [Hk|Hk].
    - symmetry. apply list_elem_of_fmap in Hk as (row & -> & Hrow).
      apply list_elem_of_lookup in Hrow as [i Hi]. destruct (Forall2_lookup_l _ _ _ _ _ Hxs Hi) as (x & Hx & Hmx & _).
      rewrite Hmx. apply elem_of_list_to_map.
      + rewrite fst_zip; [apply Hok|]. rewrite length_fmap. by rewrite (Forall2_length _ _ _ Hxs).
      + apply list_elem_of_lookup. exists i. apply lookup_zip_Some. by rewrite list_lookup_fmap, Hi.
    - rewrite Hm, (with_key_none _ _ _ _ (rows_all _ _ _ _ Hok) Hk). symmetry.
      apply not_elem_of_list_to_map. by rewrite fst_zip by (rewrite length_fmap; by rewrite (Forall2_length _ _ _ Hxs)). }
  unfold values. rewrite map_to_list_to_map.
  - rewrite snd_zip; [done|]. rewrite length_fmap. by rewrite (Forall2_length _ _ _ Hxs).
  - rewrite fst_zip; [apply Hok|]. rewrite length_fmap. by rewrite (Forall2_length _ _ _ Hxs).
Qed.
(** The same for the rows that come back as copies. *)
Lemma Forall2_copies (f : R → R) rows xs :
  Forall2 (λ row x, k_key x = k_key row ∧ x = f row) rows xs → xs = f <$> rows.
Proof. induction 1 as [|row x rows xs [_ ->] _ IH]; [done|]. by rewrite fmap_cons, IH. Qed.

(** The entries of a log in files that can be read. *)
Definition legible (fs : FS) : Prop :=
  ∀ path content, fs !! path = Some content → result_is_ok (records_of content) = true.
Lemma legible_lines fs L tick :
  holds writer fs L → Forall (entry_ok tick) L → legible fs → Forall (λ e, line_ok (lg_data e)) L.
Proof.
  intros Hh HL Hleg. apply Forall_forall. intros e He. rewrite Forall_forall in HL.
  pose proof (HL _ He) as (_ & Hne & Hinl & _). split_and!; [done|done|].
  specialize (Hh (lg_path writer e)).
  assert (e ∈ at_path writer (lg_path writer e) L) as Hat.
  { apply list_elem_of_In, filter_In. rewrite bool_decide_true by done. by rewrite <- list_elem_of_In. }
  assert (fs !! lg_path writer e = Some (file_of (lg_data <$> at_path writer (lg_path writer e) L))) as Hf.
  { rewrite Hh. by destruct (at_path writer (lg_path writer e) L); [apply elem_of_nil in Hat|]. }
  apply Hleg in Hf. unfold records_of in Hf. destruct (scan_lines _) as [lines|] eqn:Hs; [|done].
  apply scan_fits in Hs.
  - rewrite Forall_forall in Hs. apply Hs, list_elem_of_fmap. by exists e.
  - apply Forall_fmap, Forall_forall. intros e' He'. apply list_elem_of_In, filter_In in He' as [He' _].
    apply list_elem_of_In, HL in He' as (_ & _ & Hi & _). exact Hi.
Qed.

Lemma collected_rows (rel : R → R → Prop) rows fs L tick :
  holds writer fs L → Forall (entry_ok tick) L → legible fs → rows_ok k_key rel rows (typed k_type L) →
  ∃ xs, values (k_map (collect (rootDir writer) fs)) ≡ₚ xs ∧
    Forall2 (λ row x, k_key x = k_key row ∧ rel row x) rows xs.
Proof.
  intros Hh HL Hleg Hok. eapply values_rows; [exact Hok|]. intros k.
  eapply collected_last; [done|done|by eapply legible_lines|apply Hok].
Qed.
Lemma collected_copies (f : R → R) rows fs L tick :
  holds writer fs L → Forall (entry_ok tick) L → legible fs →
  rows_ok k_key (λ row x, x = f row) rows (typed k_type L) →
  values (k_map (collect (rootDir writer) fs)) ≡ₚ f <$> rows.
Proof.
  intros Hh HL Hleg Hok. destruct (collected_rows _ rows fs L tick Hh HL Hleg Hok) as (xs & Hp & Hxs).
  apply Forall2_copies in Hxs. by subst xs.
Qed.
End recovered.
