(* ===== verification/CodecClaims.v ===== *)
(** * The shard files as a code: theorems

    Records that were appended are read back, by a scan of the file and by
    their location; time stamps survive their text. *)
From stdpp Require Import relations.
From S2P Require Import Prelude GoErrors GoStrings GoNumbers GoTime Json JsonFacts Rfc3339 Domain Records.
From S2P Require Import RecordsFacts World Shard Reader Index StoreFacts Rebuild RebuildFacts StoreRuns.

(** C34: a file of marshalled records, of any of the seven kinds, is read back
    record by record: the scanner finds exactly the lines that were written,
    and each decodes to its record, whatever time zone it was written in (the
    instants are those of before), up to what JSON cannot carry (fields
    without a tag, bytes that are not UTF-8, sub-second digits past the
    ninth). The records must hold 64-bit integers and fit the scanner's
    buffer. *)
Theorem shard_file_roundtrip {R} `{JsonRecordLaws R} (nil : string → bool) (rs : list R) (bs : list bytes) :
  Forall2 (λ r b, ∃ zone : Zone, Marshal nil r = Ok b) rs bs →
  Forall storable_ints rs → Forall (λ b, fits b = true) bs →
  ∃ lines, records_of (file_of bs) = Ok lines ∧
    Unmarshal <$> lines = (λ r, Some (rec_clean r)) <$> rs.
Proof.
  intros Hm Hi Hf.
  assert (Forall line_ok bs) as Hlines.
  { clear Hi. induction Hm as [|r b rs bs [zone [_ ->]%Marshal_ok] _ IH]; [constructor|].
    apply Forall_cons in Hf as [Hf1 Hf]. constructor; [|by apply IH].
    split_and!; [discriminate|exact (print_inline _ (record_writable _ _))|done]. }
  exists bs. split; [by unfold records_of; rewrite scan_file, filter_nonempty|].
  clear Hf Hlines. induction Hm as [|r b rs bs [zone Hr] _ IH]; [done|]. apply Forall_cons in Hi as [Hi1 Hi].
  rewrite !fmap_cons, IH by done. f_equal. by eapply Unmarshal_Marshal.
Qed.

Section locations.
Context `{Env} (writer : Writer).

(** ** Files only grow *)

Lemma grows_put (fs : FS) path content more :
  default [] (fs !! path) = content → grows fs (<[path := content ++ more]> fs).
Proof.
  intros <- p c Hc. destruct (decide (p = path)) as [->|Hne].
  - rewrite lookup_insert_eq, Hc. by eexists.
  - rewrite lookup_insert_ne by done. exists []. by rewrite app_nil_r.
Qed.
(** [m], started with the files [fs], leaves every file at least as long as it
    was, whatever happens. *)
Definition extends {A} (fs : FS) (m : dop A) : Prop :=
  ∀ w, w_fs w = fs → grows fs (w_fs (fst (m w))).
Lemma extends_stays {A} fs (m : dop A) : stays m → extends fs m.
Proof. intros Hs w <-. destruct (Hs w) as [_ ->]. reflexivity. Qed.
Lemma extends_bind {A B} fs (m : dop A) (f : A → dop B) :
  stays m → (∀ a, extends fs (f a)) → extends fs (m ≫= f).
Proof.
  intros Hm Hf w <-. unfold mbind, op_bind. destruct (m w) as [w' [a|e]] eqn:E;
    apply (stays_ok _ _ _ _ Hm) in E as [_ E]; [|simpl; by rewrite E]. by apply Hf.
Qed.
Lemma extends_gets {B} fs (f : FS → dop B) : extends fs (f fs) → extends fs (fs0 ← gets w_fs; f fs0).
Proof. intros Hf w Hw. unfold mbind, op_bind, gets. rewrite Hw. by apply Hf. Qed.
Lemma extends_put {B} fs path content (f : () → dop B) :
  grows fs (<[path := content]> fs) → extends (<[path := content]> fs) (f ()) →
  extends fs (u ← modify (put_file path content); f u).
Proof.
  intros Hg Hf w Hw. unfold mbind, op_bind, modify. etransitivity; [exact Hg|]. apply Hf. simpl. by rewrite Hw.
Qed.
Lemma stays_poll : stays poll_ctx.
Proof. unfold poll_ctx. apply stays_bind; [apply stays_ask|]. by intros [c|]. Qed.

Lemma extends_write {B} fs path before line wrap (f : () → dop B) :
  default [] (fs !! path) = before → (∀ u fs', extends fs' (f u)) →
  extends fs (u ← write_file path before line wrap; f u).
Proof.
  intros Hb Hf w Hw. unfold write_file, mbind, op_bind, ask, modify. simpl.
  destruct (env_fault _); simpl; rewrite ?Hw; [by apply grows_put|].
  etransitivity; [by apply (grows_put _ path before line)|]. apply Hf. simpl. by rewrite Hw.
Qed.
Lemma Append_extends fs ty t data : extends fs (Append writer ty t data).
Proof.
  unfold Append. set (base := shardPath writer ty t).
  apply extends_bind; [apply stays_poll|intros _]. apply extends_bind; [apply stays_attempt|intros _].
  apply extends_gets. set (target := if 0 <? maxShardSize writer then _ else _).
  apply extends_bind; [apply stays_attempt|intros _]. apply extends_put.
  { rewrite <- (app_nil_r (default [] (fs !! target))). by apply grows_put. }
  apply extends_bind; [apply stays_attempt|intros _].
  apply extends_write; [by rewrite lookup_insert_eq|]. intros _ fs'. apply extends_stays.
  destruct (syncOnWrite writer); apply stays_bind; auto with stays_db.
Qed.

(** What any later appends, failed ones included, make of the store. *)
Definition append_step (w w' : World) : Prop :=
  ∃ ty t data, w' = fst (Append writer ty t data w).
Lemma append_steps_grow w w' : rtc append_step w w' → grows (w_fs w) (w_fs w').
Proof.
  induction 1 as [w|w w1 w2 (ty & t & data & ->) _ IH]; [reflexivity|].
  etransitivity; [by apply (Append_extends (w_fs w))|exact IH].
Qed.

(** Where a successful append put its line. *)
Lemma Append_location ty t data w w' loc :
  Append writer ty t data w = (w', Ok loc) → ∃ before,
    w_fs w' !! loc_Path loc = Some (before ++ data ++ [newline]) ∧
    loc_Offset loc = Z.of_nat (length before) ∧ loc_Size loc = Z.of_nat (length (data ++ [newline])).
Proof.
  unfold Append. set (base := shardPath writer ty t). intros Ha.
  apply bind_ok in Ha as (w1 & u1 & _ & Ha). apply bind_ok in Ha as (w2 & u2 & _ & Ha).
  apply bind_ok in Ha as (w2' & fs & [-> ->]%gets_ok & Ha).
  set (target := if 0 <? maxShardSize writer then rotateIfNeeded writer (w_fs w2) base else base) in *.
  apply bind_ok in Ha as (w3 & u3 & _ & Ha). apply bind_ok in Ha as (w4 & u4 & _ & Ha).
  apply bind_ok in Ha as (w5 & u5 & _ & Ha).
  apply bind_ok in Ha as (w6 & u6 & (_ & F6 & _)%write_file_ok & Ha).
  apply bind_ok in Ha as (w7 & u7 & Hsync & Ha). apply ret_ok in Ha as [-> ->].
  assert (w_fs w7 = w_fs w6) as F7.
  { destruct (syncOnWrite writer); [by apply attempt_same in Hsync as [_ ?]|by injection Hsync as <- _]. }
  exists (default [] (w_fs w2 !! target)). simpl. rewrite F7, F6, lookup_insert_eq. done.
Qed.

(** The location an append returns stays valid. Whatever is appended
    later, with or without success and torn writes included, reading at that
    path and offset yields the record and its newline. *)
Theorem location_stays_valid ty t data w w1 w2 w3 loc b :
  Append writer ty t data w = (w1, Ok loc) → rtc append_step w1 w2 →
  ReadAt (loc_Path loc) (loc_Offset loc) (loc_Size loc) w2 = (w3, Ok b) →
  b = data ++ [newline].
Proof.
  intros (before & Hf & Ho & Hs)%Append_location Hsteps%append_steps_grow Hread.
  destruct (Hsteps _ _ Hf) as [more Hf2]. unfold ReadAt in Hread.
  apply bind_ok in Hread as (w4 & content & Hopen & Hread).
  apply bind_ok in Hopen as (w5 & u5 & [_ F5]%attempt_same & Hopen).
  apply bind_ok in Hopen as (w6 & fs & [-> ->]%gets_ok & Hopen).
  rewrite F5, Hf2 in Hopen. injection Hopen as _ <-. binds Hread.
  rewrite Ho, Hs, !Nat2Z.id, <- app_assoc, drop_app_length. by rewrite take_app_length.
Qed.
End locations.

(** ** Concrete files *)

Definition ex_records : list ComplianceCase := [
  zero_item <| ic_ID := "c1" |> <| ic_Title := "light & x" |> <| ic_Materials := ["a"; "b"] |>;
  zero_item <| ic_ID := "c2" |> <| ic_Status := StatusCompleted |> <| ic_CompletedAt := Some ex_epoch |>].
(** The first is written in Shenzhen, the second in UTC. *)
Definition ex_line (zone : Zone) (r : ComplianceCase) : bytes :=
  match Marshal (λ _, true) r with Ok b => b | Err _ => [] end.
Definition ex_lines : list bytes := Eval vm_compute in zip_with ex_line [shenzhen; utc] ex_records.
Lemma shard_file_roundtrip_witness : ∃ lines,
  records_of (file_of ex_lines) = Ok lines ∧
  Unmarshal <$> lines = (λ r, Some (rec_clean r)) <$> ex_records.
Proof.
  apply (shard_file_roundtrip (λ _, true) ex_records ex_lines).
  - constructor; [exists shenzhen; vm_compute; reflexivity|].
    constructor; [exists utc; vm_compute; reflexivity|constructor].
  - unfold storable_ints, is_i64. apply (bool_decide_eq_true_1 _). vm_compute. reflexivity.
  - apply (bool_decide_eq_true_1 _). vm_compute. reflexivity.
Defined.

Definition ex_files : Writer := {| rootDir := "/data"; maxShardSize := 20; syncOnWrite := true |}.
Definition ex_put (data : string) (w : World) : World * result derror Location :=
  Append (H := frozen) ex_files "items" ex_epoch (to_bytes data) w.
Definition ex_first : World * result derror Location := Eval vm_compute in
  ex_put "{1}" {| w_db := empty_db; w_fs := ∅; w_tick := 0 |}.
Definition ex_location : Location := Eval vm_compute in
  match snd ex_first with Ok loc => loc | Err _ => {| loc_Path := ""; loc_Offset := 0; loc_Size := 0 |} end.
(** Two more lines, the second in a rotated file. *)
Lemma location_stays_valid_witness :
  let w2 := fst (ex_put "{3}" (fst (ex_put "{a longer record}" (fst ex_first)))) in
  snd (ReadAt (H := frozen) (loc_Path ex_location) (loc_Offset ex_location) (loc_Size ex_location) w2)
    = Ok (to_bytes "{1}" ++ [newline]).
Proof.
  intros w2. destruct (ReadAt (H := frozen) (loc_Path ex_location) (loc_Offset ex_location)
    (loc_Size ex_location) w2) as [w3 r] eqn:Hr.
  assert (∃ b, r = Ok b) as [b ->].
  { revert Hr. vm_compute. intros [= _ <-]. by eexists. }
  simpl. f_equal. eapply (location_stays_valid (H := frozen) ex_files "items" ex_epoch (to_bytes "{1}")
    {| w_db := empty_db; w_fs := ∅; w_tick := 0 |} (fst ex_first) w2 w3 ex_location b); [|  |exact Hr].
  - vm_compute. reflexivity.
  - eapply rtc_l; [by exists "items", ex_epoch, (to_bytes "{a longer record}")|].
    eapply rtc_l; [by exists "items", ex_epoch, (to_bytes "{3}")|]. apply rtc_refl.
Defined.
