(* ===== verification/RebuildClaims.v ===== *)
(** * Rebuilding the index: theorems

    The outcome of a rebuild in every environment and in one where nothing
    fails; what reconciliation reports of a rebuilt index and of one that was
    only written to. *)
From stdpp Require Import sorting.
From S2P Require Import Prelude GoErrors GoStrings GoNumbers GoTime Json Domain Records Sha256.
From S2P Require Import RecordsFacts World Shard Reader Index Repo StoreFacts Rebuild RebuildFacts.
From S2P Require Import StoreRuns StoreReplay.

Section outcome.
Context `{Env, !EnvLaws H, !Sequential H} (root : string).

Lemma rollback_err {R A} (m : rop R A) w rp w' rp' e :
  rollback_on_error m (w, rp) = ((w', rp'), Err e) → w_db w' = w_db w.
Proof.
  unfold rollback_on_error. destruct (m (w, rp)) as [[w1 rp1] [a|e1]]; [done|]. by intros [= <- _ _].
Qed.
Lemma rollback_ok {R A} (m : rop R A) w rp s a :
  rollback_on_error m (w, rp) = (s, Ok a) → m (w, rp) = (s, Ok a).
Proof. unfold rollback_on_error. by destruct (m (w, rp)) as [[w1 rp1] [b|e1]]. Qed.

(** C10: a rebuild of the index replaces all tables or none, whatever fails on
    the way. When it reports success, the tables hold exactly one row per key
    found in the shards it could read, with the last record of that key, and
    the report counts them; the versions of the rules that the index held
    before and those found in the shards were all different. When it reports
    an error the tables are as they were. The shards are never changed. *)
Theorem rebuild_all_or_nothing w w' rp' r :
  RebuildIndex root (w, empty_rebuild) = ((w', rp'), r) → NoDup (ru_Version <$> db_rules (w_db w)) →
  match r with
  | Err _ => w_db w' = w_db w
  | Ok _ => ∃ read, read `sublist_of` merge_sort by_path (all_files root (w_fs w)) ∧
      rr_IndexedShards rp' = Z.of_nat (length read) ∧
      rr_SkippedShards rp' = rr_TotalShards rp' - rr_IndexedShards rp' ∧
      let c := foldl (collect_file (w_fs w)) newCollector read in
      rebuilt c (w_db w) (w_db w') ∧ rebuildable c (w_db w) ∧
      rr_TotalRecords rp' = Z.of_nat (collected c) ∧ w_fs w' = w_fs w
  end.
Proof.
  intros Hr Hrules. unfold RebuildIndex, mbind, op_bind in Hr. unfold on_world at 1 in Hr.
  destruct (wrapping _ (scan_shards root shard_types) w) as [w1 [files|e]] eqn:Hs;
    pose proof (stays_ok _ _ _ _ (stays_wrapping _ _ (stays_scan_shards _ _)) Hs) as [Hd1 Hf1];
    [|by injection Hr as <- _ <-].
  apply wrapping_ok, scan_shards_ok in Hs as ->. fold (all_files root (w_fs w)) in Hr.
  unfold report in Hr. set (files := merge_sort by_path (all_files root (w_fs w))) in *.
  destruct (read_shards files newCollector _) as [[w2 rp2] r2] eqn:Hread.
  apply read_shards_ok in Hread as ([Hd2 Hf2] & Ht & Htot & read & Hsub & -> & Hi & Hk).
  rewrite Hf1 in *. set (c := foldl (collect_file (w_fs w)) newCollector read) in *.
  unfold on_world at 1 in Hr. destruct (interleave w2) as [w3 [u3|e3]] eqn:H3; [|done].
  pose proof (stays_ok _ _ _ _ stays_interleave H3) as [Hd3 Hf3].
  unfold on_world in Hr. destruct (attempt _ w3) as [w4 [u4|e4]] eqn:H4;
    apply attempt_same in H4 as [Hd4 Hf4]; [|injection Hr as <- _ <-; congruence].
  destruct r as [u|e]; [|apply rollback_err in Hr; congruence].
  apply rollback_ok, replace_tables_ok in Hr as (Hreb & Hable & Hfs & ->);
    [|by rewrite Hd4, Hd3, Hd2, Hd1].
  assert (w_db w4 = w_db w) as Hd by congruence. rewrite Hd in *.
  exists read. pose proof (sublist_length _ _ Hsub).
  change (rr_TotalShards (count_more (collected c) rp2)) with (rr_TotalShards rp2).
  change (rr_IndexedShards (count_more (collected c) rp2)) with (rr_IndexedShards rp2).
  change (rr_SkippedShards (count_more (collected c) rp2)) with (rr_SkippedShards rp2).
  rewrite Hi, Hk, Htot. simpl. split_and!; try done; try lia; try congruence.
  rewrite Ht. fold c. simpl. lia.
Qed.

(** What the report of a rebuild in which nothing fails says. *)
Definition full_report (fs : FS) (rp : RebuildReport) : Prop :=
  let files := merge_sort by_path (all_files root fs) in
  rr_TotalShards rp = Z.of_nat (length files) ∧
  rr_IndexedShards rp = Z.of_nat (length (List.filter (readable fs) files)) ∧
  rr_SkippedShards rp = Z.of_nat (length (List.filter (λ f, negb (readable fs f)) files)) ∧
  cs_Path <$> rr_CorruptedShards rp = (List.filter (λ f, negb (readable fs f)) files).*1.

(** The part of a rebuild before its transaction. *)
Definition read_phase : rop RebuildReport (recordCollector * list (string * string)) :=
  files ← on_world (wrapping (errorf "scan shards") (scan_shards root shard_types));
  _ ← report (λ rp, rp <| rr_TotalShards := Z.of_nat (length (merge_sort by_path files)) |>);
  c ← read_shards (merge_sort by_path files) newCollector;
  _ ← on_world interleave;
  _ ← on_world (attempt (λ e, errorf "begin tx" (errorf "begin tx" e)));
  mret (c, merge_sort by_path files).
Lemma RebuildIndex_phases s :
  RebuildIndex root s =
  (read_phase ≫= λ cf, rollback_on_error (replace_tables cf.1 cf.2)) s.
Proof.
  unfold RebuildIndex, read_phase, mbind, op_bind.
  repeat match goal with |- context [match ?m with (_, _) => _ end] =>
    lazymatch m with
    | (_, _) => fail
    | _ => destruct m as [? [?|?]] eqn:?; simplify_eq; try done
    end end.
Qed.
Lemma read_phase_ok `{!Faultless H} w : ∃ w' rp,
  read_phase (w, empty_rebuild) =
    ((w', rp), Ok (collect root (w_fs w), merge_sort by_path (all_files root (w_fs w)))) ∧
  same w w' ∧ full_report (w_fs w) rp ∧ rr_TotalRecords rp = 0.
Proof.
  assert (wp read_phase (w, empty_rebuild) (λ cf s,
    cf = (collect root (w_fs w), merge_sort by_path (all_files root (w_fs w))) ∧
    same w s.1 ∧ full_report (w_fs w) s.2 ∧ rr_TotalRecords s.2 = 0))
    as ([w' rp] & cf & Hr & -> & Hpost); [|by exists w', rp].
  apply wp_bind, wp_on_world, wp_wrapping, wp_scan_shards. intros w1 [Hd1 Hf1].
  fold (all_files root (w_fs w)). apply wp_bind, wp_report.
  apply wp_bind, wp_read_shards; rewrite Hf1; [apply sorted_files_exist|].
  intros w2 rp [Hd2 Hf2] (Ht & Hr & Hi & Hs & Hc).
  apply wp_bind, wp_on_world, wp_interleave. intros w3 [Hd3 Hf3].
  apply wp_bind, wp_on_world, wp_attempt. intros w4 [Hd4 Hf4].
  apply wp_ret. split_and!; [done|split; simpl; congruence| |done].
  unfold full_report. simpl in *. split_and!; done || lia.
Qed.

(** The run of a rebuild in which nothing fails is its reading phase and its
    transaction. *)
Lemma rebuild_run `{!Faultless H} w :
  let c := collect root (w_fs w) in
  let files := merge_sort by_path (all_files root (w_fs w)) in
  ∃ w1 rp, same w w1 ∧ full_report (w_fs w) rp ∧ rr_TotalRecords rp = 0 ∧
    RebuildIndex root (w, empty_rebuild) = rollback_on_error (replace_tables c files) (w1, rp).
Proof.
  intros c files. destruct (read_phase_ok w) as (w1 & rp & Hread & Hw & Hrep & Htot).
  exists w1, rp. split_and!; [done..|]. rewrite RebuildIndex_phases. unfold mbind, op_bind. by rewrite Hread.
Qed.
Lemma rebuild_succeeds `{!Faultless H} w :
  rebuildable (collect root (w_fs w)) (w_db w) →
  ∃ w' rp now, RebuildIndex root (w, empty_rebuild) = ((w', rp), Ok ()) ∧
    rebuilt (collect root (w_fs w)) (w_db w) (w_db w') ∧ w_fs w' = w_fs w ∧
    db_manifest (w_db w') =
      manifest_of now (w_fs w) (merge_sort by_path (all_files root (w_fs w))) [] ∧
    full_report (w_fs w) rp ∧ rr_TotalRecords rp = Z.of_nat (collected (collect root (w_fs w))).
Proof.
  intros Hable. destruct (rebuild_run w) as (w1 & rp & [Hd Hf] & Hrep & Htot & Hrun).
  set (files := merge_sort by_path (all_files root (w_fs w))) in *.
  set (c := collect root (w_fs w)) in *.
  destruct (wp_replace_tables c files w1 rp (λ _ s, ∃ now,
    rebuilt c (w_db w) (w_db s.1) ∧ w_fs s.1 = w_fs w ∧
    db_manifest (w_db s.1) = manifest_of now (w_fs w) files [] ∧
    full_report (w_fs w) s.2 ∧ rr_TotalRecords s.2 = Z.of_nat (collected c)))
    as ([w2 rp2] & [] & Htx & now & Hpost).
  - apply keyed_collect_files, keyed_new.
  - by rewrite Hd.
  - rewrite Hf. apply sorted_files_exist.
  - intros w' now Hfs Hreb Hman. exists now. rewrite Hd, Hf in *. split_and!; try done.
    simpl. rewrite Htot. lia.
  - exists w2, rp2, now. split; [|done]. rewrite Hrun. unfold rollback_on_error. by rewrite Htx.
Qed.

(** C35: when nothing fails from the outside, a rebuild succeeds exactly if no
    rule in the index has a version that a rule in the shards has, and no two
    cases in the shards have the same external reference; it then leaves the
    last record of every key, whatever the order in which Go iterates its
    maps, reports every shard as indexed or corrupted, and lists every shard in
    the manifest. Otherwise it fails and the tables stay as they were. *)
Theorem rebuild_outcome `{!Faultless H} w :
  NoDup (ru_Version <$> db_rules (w_db w)) →
  let c := collect root (w_fs w) in
  (rebuildable c (w_db w) →
   ∃ w' rp now, RebuildIndex root (w, empty_rebuild) = ((w', rp), Ok ()) ∧
     rebuilt c (w_db w) (w_db w') ∧ w_fs w' = w_fs w ∧
     db_manifest (w_db w') =
       manifest_of now (w_fs w) (merge_sort by_path (all_files root (w_fs w))) [] ∧
     full_report (w_fs w) rp ∧ rr_TotalRecords rp = Z.of_nat (collected c)) ∧
  (¬ rebuildable c (w_db w) →
   ∃ w' rp e, RebuildIndex root (w, empty_rebuild) = ((w', rp), Err e) ∧ w_db w' = w_db w).
Proof.
  intros Hrules c. split; intros Hable; [by apply rebuild_succeeds|].
  destruct (rebuild_run w) as (w1 & rp & [Hd Hf] & _ & _ & Hrun).
  destruct (rollback_on_error (replace_tables c (merge_sort by_path (all_files root (w_fs w))))
    (w1, rp)) as [[w2 rp2] [u|e]] eqn:Htx.
  - destruct Hable. apply rollback_ok, replace_tables_ok in Htx as (_ & Hable & _); [|by rewrite Hd].
    by rewrite Hd in Hable.
  - exists w2, rp2, e. split; [by rewrite Hrun|]. apply rollback_err in Htx. congruence.
Qed.
End outcome.

(** ** A lost index *)

(** A referral after the rebuild: current unless its case was escalated. *)
Definition rebuilt_referral (d : DB) (row : Referral) : Referral :=
  (rec_clean row) <| rf_IsCurrent :=
    negb (bool_decide (rf_ItemID (rec_clean row) ∈ es_ItemID <$> (rec_clean <$> db_escalations d))) |>.
(** A rule after the rebuild: superseded if the audit log says so; the end of
    its validity is lost if it was superseded. *)
Definition rebuilt_rule (d' : DB) (row x : Rule) : Prop :=
  rule_core x = rule_core (rec_clean row) ∧
  (superseded_version d' (ru_Version row) = true → ru_Status x = RuleStatusSuperseded) ∧
  (superseded_version d' (ru_Version row) = false → ru_Status row ≠ RuleStatusSuperseded →
     x = rec_clean row).
(** The tables a rebuild makes of the shards of the tables [d]. *)
Definition recovered (d d' : DB) : Prop :=
  db_items d' ≡ₚ rec_clean <$> db_items d ∧
  db_escalations d' ≡ₚ rec_clean <$> db_escalations d ∧
  db_audit d' ≡ₚ rec_clean <$> db_audit d ∧
  db_failures d' ≡ₚ rec_clean <$> db_failures d ∧
  db_batches d' ≡ₚ rec_clean <$> db_batches d ∧
  db_assignments d' ≡ₚ rebuilt_referral d <$> db_assignments d ∧
  ∃ rules, db_rules d' ≡ₚ rules ∧ Forall2 (rebuilt_rule d') (db_rules d) rules.

Section lost.
Context `{Env, !EnvLaws H, !Sequential H, !Faultless H} (writer : Writer).

(** What the collector of the shards of a history holds. *)
Definition collects (c : recordCollector) (d : DB) : Prop :=
  values (itemsByID c) ≡ₚ rec_clean <$> db_items d ∧
  values (escalationsByID c) ≡ₚ rec_clean <$> db_escalations d ∧
  values (auditByID c) ≡ₚ rec_clean <$> db_audit d ∧
  values (failuresByID c) ≡ₚ rec_clean <$> db_failures d ∧
  values (batchesByID c) ≡ₚ rec_clean <$> db_batches d ∧
  values (assignmentsByID c) ≡ₚ (λ r, (rec_clean r) <| rf_IsCurrent := true |>) <$> db_assignments d ∧
  ∃ rules, values (rulesByVersion c) ≡ₚ rules ∧
    Forall2 (λ row x, ru_Version x = ru_Version row ∧ rule_copy row x) (db_rules d) rules.
Lemma stored_collects L tick d (fs : FS) :
  holds writer fs L → Forall (entry_ok tick) L → legible fs → tables_ok d L →
  collects (collect (rootDir writer) fs) d.
Proof.
  intros Hh HL Hleg []. unfold collects. split_and!.
  - exact (collected_copies (R := ComplianceCase) (K := string) writer rec_clean _ fs L tick Hh HL Hleg ok_items).
  - exact (collected_copies (R := Escalation) (K := string) writer rec_clean _ fs L tick Hh HL Hleg ok_escalations).
  - exact (collected_copies (R := AuditEntry) (K := string) writer rec_clean _ fs L tick Hh HL Hleg ok_audit).
  - exact (collected_copies (R := PermanentFailure) (K := string) writer rec_clean _ fs L tick Hh HL Hleg ok_failures).
  - exact (collected_copies (R := ImportBatch) (K := string) writer rec_clean _ fs L tick Hh HL Hleg ok_batches).
  - exact (collected_copies (R := Referral) (K := string) writer
      (λ r, (rec_clean r) <| rf_IsCurrent := true |>) _ fs L tick Hh HL Hleg ok_assignments).
  - exact (collected_rows (R := Rule) (K := Z) writer rule_copy _ fs L tick Hh HL Hleg ok_rules).
Qed.

(** The external references and the versions of a history do not clash. *)
Lemma clean_refs rows :
  Forall (λ i, utf8_valid (ic_ExternalRef i) = true) rows →
  ic_ExternalRef <$> (rec_clean <$> rows) = ic_ExternalRef <$> rows.
Proof.
  induction 1 as [|i rows Hi _ IH]; [done|]. rewrite !fmap_cons, IH. f_equal. by apply valid_clean.
Qed.
Lemma collects_rebuildable c d old :
  collects c d → NoDup (ic_ExternalRef <$> db_items d) → NoDup (ru_Version <$> db_rules d) →
  Forall (λ i, utf8_valid (ic_ExternalRef i) = true) (db_items d) → db_rules old = [] →
  rebuildable c old.
Proof.
  intros (Hi & _ & _ & _ & _ & _ & rules & Hr & Hrules) Hrefs Hvers Hvalid Hold. split.
  - rewrite Hi. by rewrite clean_refs.
  - rewrite Hold, app_nil_l, Hr.
    assert (ru_Version <$> rules = ru_Version <$> db_rules d) as ->; [|done].
    clear -Hrules. induction Hrules as [|row x rows xs [Hv _] _ IH]; [done|]. by rewrite !fmap_cons, Hv, IH.
Qed.
(** What the transaction makes of them. *)
Lemma collects_recovered c d old d' :
  collects c d → db_rules old = [] → rebuilt c old d' → recovered d d'.
Proof.
  intros (Hi & He & Ha & Hf & Hb & Hr & rules & Hru & Hrules) Hold
    (items & rules' & assignments & escalations & audit & failures & batches & manifest
      & P1 & P2 & P3 & P4 & P5 & P6 & P7 & Hd').
  rewrite Hold, app_nil_l in Hd'.
  assert (db_rules d' = update_where (λ row, superseded_version d' (ru_Version row))
    (λ row, row <| ru_Status := RuleStatusSuperseded |>) rules') as Hdr by by rewrite Hd'.
  assert (db_assignments d' = update_where (λ row, bool_decide (rf_ItemID row ∈ es_ItemID <$> escalations))
    (λ row, row <| rf_IsCurrent := false |>) assignments) as Hda by by rewrite Hd'.
  unfold recovered. rewrite Hdr, Hda.
  split_and!; [by rewrite Hd', <- Hi|by rewrite Hd', <- He|by rewrite Hd', <- Ha|by rewrite Hd', <- Hf
    |by rewrite Hd', <- Hb| |]; clear Hd'.
  - rewrite He in P4. rewrite Hr in P3. rewrite P3. unfold update_where. rewrite <- list_fmap_compose.
    apply reflexive_eq, list_fmap_ext. intros _ row _. unfold rebuilt_referral. cbn [compose].
    assert (bool_decide (rf_ItemID ((rec_clean row) <| rf_IsCurrent := true |>) ∈ es_ItemID <$> escalations)
      = bool_decide (rf_ItemID (rec_clean row) ∈ es_ItemID <$> (rec_clean <$> db_escalations d))) as ->
      by (apply bool_decide_ext; by rewrite P4).
    by case_bool_decide.
  - rewrite Hru in P2.
    exists (update_where (λ row, superseded_version d' (ru_Version row))
      (λ row, row <| ru_Status := RuleStatusSuperseded |>) rules). split; [by rewrite P2|].
    clear -Hrules. unfold update_where.
    induction Hrules as [|row x rows xs (Hv & Hcore & Hcopy) _ IH]; [constructor|].
    rewrite fmap_cons. constructor; [|done]. unfold rebuilt_rule. rewrite Hv.
    destruct (superseded_version d' (ru_Version row)); (split_and!; try done); intros _; by apply Hcopy.
Qed.

(** After any history of successful writes from an empty store, an index that is
    lost can be rebuilt from the shards: every table but two holds what it
    held, as JSON carries it, whichever of the day's files the updates went to.
    The two exceptions are the columns the index alone keeps: of the referrals,
    those of escalated cases come back as superseded and all others as current,
    and the end of a rule's validity is lost. *)
Lemma rebuild_recovers w lost :
  steady_clock → stored writer w → unrotated writer (w_fs w) → legible (w_fs w) →
  db_rules (w_db lost) = [] → w_fs lost = w_fs w →
  ∃ w' rp, RebuildIndex (rootDir writer) (lost, empty_rebuild) = ((w', rp), Ok ()) ∧
    w_fs w' = w_fs w ∧ rr_SkippedShards rp = 0 ∧ recovered (w_db w) (w_db w').
Proof.
  intros Hclock Hs Hu Hleg Hdb Hfs.
  destruct (stored_kept writer Hclock w Hs Hu) as (L & [Hh HL] & Htables).
  pose proof (stored_collects L _ _ _ Hh HL Hleg Htables) as Hc. rewrite <- Hfs in Hc.
  destruct (rebuild_succeeds (rootDir writer) lost) as (w' & rp & now & Hrun & Hreb & Hf & _ & Hrep & _).
  { eapply collects_rebuildable; [exact Hc|apply Htables|apply (ok_rules _ _ Htables)|apply Htables|exact Hdb]. }
  exists w', rp. split_and!; [done|congruence| |].
  - destruct Hrep as (_ & _ & -> & _). rewrite Hfs.
    assert (List.filter (λ f, negb (readable (w_fs w) f))
      (merge_sort by_path (all_files (rootDir writer) (w_fs w))) = []) as ->; [|done].
    pose proof (sorted_files_exist (rootDir writer) (w_fs w)) as Hall. revert Hall Hleg.
    generalize (merge_sort by_path (all_files (rootDir writer) (w_fs w))) as files.
    induction 1 as [|f files [b Hb] _ IH]; intros Hl; [done|]. simpl. unfold readable at 1. rewrite Hb.
    rewrite (Hl _ _ Hb). by apply IH.
  - by eapply collects_recovered; [exact Hc| |exact Hreb].
Qed.
End lost.

(** ** A concrete history *)

Definition ex_shards : Writer := {| rootDir := "/data"; maxShardSize := 0; syncOnWrite := true |}.
Definition ex_case : ComplianceCase :=
  zero_item <| ic_ID := "c1" |> <| ic_ExternalRef := "R-1" |> <| ic_RegisteredAt := ex_epoch - Day |>
            <| ic_Materials := ["photo"] |>.
Definition ex_done : ComplianceCase := ex_case <| ic_Status := StatusCompleted |>.
Definition ex_writes : list write := [
  WSaveRule (zero_rule <| ru_Version := 1 |> <| ru_Status := RuleStatusActive |>);
  WSaveItem ex_case;
  WSaveAssignment (zero_referral <| rf_ID := "r1" |> <| rf_ItemID := "c1" |> <| rf_IsCurrent := true |>);
  WSaveAudit (zero_audit <| au_ID := "a1" |>);
  WUpdateItem ex_done].
Definition do_writes (ws : list write) (w : World) : World :=
  foldl (λ w x, (do_write (H := frozen) ex_shards x w).1) w ws.
Definition ex_nothing : World := {| w_db := empty_db; w_fs := ∅; w_tick := 0 |}.
Definition ex_stored : World := Eval vm_compute in do_writes ex_writes ex_nothing.
Definition ex_lost : World := ex_stored <| w_db := empty_db |>.
Definition ex_rebuilt : World := Eval vm_compute in
  (RebuildIndex (H := frozen) "/data" (ex_lost, empty_rebuild)).1.1.

(** Writes that succeed one after the other. *)
Fixpoint all_written (ws : list write) (w : World) : Prop :=
  match ws with
  | [] => True
  | x :: ws => write_ok (H := frozen) w x ∧ snd (do_write (H := frozen) ex_shards x w) = Ok () ∧
      all_written ws (fst (do_write (H := frozen) ex_shards x w))
  end.
#[export] Instance write_ok_dec w x : Decision (write_ok (H := frozen) w x).
Proof. destruct x; cbn [write_ok]; unfold storable_ints, is_i64; apply _. Defined.
#[export] Instance all_written_dec ws w : Decision (all_written ws w).
Proof. revert w. induction ws as [|x ws IH]; intros w; cbn [all_written]; apply _. Defined.
Lemma stored_writes ws w :
  stored (H := frozen) ex_shards w → all_written ws w → stored (H := frozen) ex_shards (do_writes ws w).
Proof.
  revert w. induction ws as [|x ws IH]; intros w Hw Hall; [done|]. destruct Hall as (Hok & Hr & Hall).
  apply IH; [|done]. eapply stored_write; [exact Hw|exact Hok|].
  destruct (do_write (H := frozen) ex_shards x w) as [w' r]. simpl in *. by subst.
Qed.
Lemma ex_stored_history : stored (H := frozen) ex_shards ex_stored.
Proof.
  apply (stored_writes ex_writes ex_nothing); [by apply stored_start|].
  apply (bool_decide_eq_true_1 _). vm_compute. reflexivity.
Qed.
#[export] Instance rebuildable_dec c old : Decision (rebuildable c old).
Proof. unfold rebuildable. apply _. Defined.

Lemma rebuild_all_or_nothing_witness : ∃ read,
  read `sublist_of` merge_sort by_path (all_files "/data" (w_fs ex_lost)) ∧
  rebuilt (foldl (collect_file (w_fs ex_lost)) newCollector read) empty_db (w_db ex_rebuilt).
Proof.
  pose proof (rebuild_all_or_nothing (H := frozen) "/data" ex_lost
    (RebuildIndex (H := frozen) "/data" (ex_lost, empty_rebuild)).1.1
    (RebuildIndex (H := frozen) "/data" (ex_lost, empty_rebuild)).1.2 (Ok ())
    ltac:(vm_compute; reflexivity) ltac:(constructor)) as (read & Hsub & _ & _ & Hreb & _).
  exists read. split; [exact Hsub|]. exact Hreb.
Defined.
(** The index that was lost can be rebuilt, the live one cannot: it holds the
    rule that the shards hold. *)
Lemma rebuild_outcome_witness :
  (∃ w' rp, RebuildIndex (H := frozen) "/data" (ex_lost, empty_rebuild) = ((w', rp), Ok ())) ∧
  (∃ w' rp e, RebuildIndex (H := frozen) "/data" (ex_stored, empty_rebuild) = ((w', rp), Err e) ∧
     w_db w' = w_db ex_stored).
Proof.
  split.
  - destruct (proj1 (rebuild_outcome (H := frozen) "/data" ex_lost ltac:(constructor))) as (w' & rp & now & Hr & _).
    { apply (bool_decide_eq_true_1 _). vm_compute. reflexivity. }
    by exists w', rp.
  - apply (rebuild_outcome (H := frozen) "/data" ex_stored).
    + apply (bool_decide_eq_true_1 _). vm_compute. reflexivity.
    + apply (bool_decide_eq_false_1 _). vm_compute. reflexivity.
Defined.

(** A case whose transaction was rolled back is in the shards all the same,
    and comes back with the next rebuild. *)
Definition no_commit : Env := {|
  env_zone := shenzhen;
  env_now _ := ex_epoch;
  env_uuid n := "u" +:+ pretty (N.of_nat n);
  env_fault n := if bool_decide (n = 11)%nat then Some (FaultText "disk full") else None;
  env_ctx _ := None;
  env_others _ d := d;
  env_scan A _ l := l;
  env_short _ := 0%nat;
  env_nil _ _ := true |}.
Definition rolled_back : World * result derror ComplianceCase := Eval vm_compute in
  Repo.WithTx (H := no_commit) (SaveItem (H := no_commit) ex_shards ex_case) ex_nothing.
Example phantom_case :
  result_is_ok (snd rolled_back) = false ∧ db_items (w_db (fst rolled_back)) = [] ∧
  ic_ID <$> db_items (w_db (RebuildIndex (H := frozen) "/data" (fst rolled_back, empty_rebuild)).1.1) = ["c1"].
Proof. vm_compute. done. Qed.
