(* ===== verification/ReconcileClaims.v ===== *)
(** * Reconciling the index with the shards

    What [Reconcile] reports when nothing fails from the outside: it is
    silent exactly when the manifest agrees with every shard. *)
From stdpp Require Import sorting.
From S2P Require Import Prelude GoErrors GoStrings GoNumbers GoTime Json Domain Records Sha256.
From S2P Require Import World Shard Reader Index StoreFacts Rebuild RebuildFacts StoreRuns StoreReplay.
From S2P Require Import RebuildClaims.

Section reconcile.
Context `{Env, !EnvLaws H, !Sequential H, !Faultless H} (root : string).

(** What is added to the report for one shard. *)
Definition shard_report (manifest : gmap string ManifestEntry) (fs : FS) (path : string)
    (rp : ReconcileReport) : ReconcileReport :=
  let content := default [] (fs !! path) in
  match records_of content with
  | Err e => rp <| rc_Details := rc_Details rp ++
      ["corrupted shard " +:+ path +:+ ": " +:+
         error_text domain_error_text (errorf ("scan shard " +:+ path) e)] |>
  | Ok records =>
      let count := Z.of_nat (length records) in
      match manifest !! path with
      | None => rp
          <| rc_OrphanedInShard := rc_OrphanedInShard rp + count |>
          <| rc_Details := rc_Details rp ++ ["shard " +:+ path +:+
               " not in manifest (records: " +:+ pretty count +:+ ")"] |>
      | Some m =>
          let diff := count - me_RecordCount m in
          let rp := if diff =? 0 then rp else rp
            <| rc_OrphanedInShard := rc_OrphanedInShard rp + Z.max 0 diff |>
            <| rc_MissingInShard := rc_MissingInShard rp + Z.max 0 (- diff) |>
            <| rc_Details := rc_Details rp ++ ["count mismatch " +:+ path +:+ ": shard=" +:+
                 pretty count +:+ " manifest=" +:+ pretty (me_RecordCount m)] |> in
          let rp :=
            if bool_decide (me_Checksum m = "") || bool_decide (me_Checksum m = sha256_hex content)
            then rp
            else rp <| rc_ChecksumMismatches := rc_ChecksumMismatches rp + 1 |>
                    <| rc_Details := rc_Details rp ++ ["checksum mismatch " +:+ path] |> in
          rp <| rc_IndexCount := rc_IndexCount rp + me_RecordCount m |>
      end
  end.

Lemma wp_reconcile_shard manifest path w rp Q :
  is_Some (w_fs w !! path) →
  (∀ w', same w w' → Q () (w', shard_report manifest (w_fs w) path rp)) →
  wp (reconcile_shard manifest path) (w, rp) Q.
Proof.
  intros [content Hc] HQ. unfold shard_report in HQ. rewrite Hc in HQ. cbn [default from_option id] in HQ.
  destruct (ReadAll_spec path w content Hc) as (w1 & Hw1 & Hr). pose proof Hw1 as [Hd1 Hf1].
  unfold reconcile_shard. destruct (records_of content) as [records|e].
  2: { unfold on_result, on_world, wp. rewrite Hr. eexists _, _. split; [reflexivity|]. by apply HQ. }
  apply wp_on_result, wp_on_world. exists w1, records. split; [done|].
  destruct (manifest !! path) as [m|]; [|by apply wp_report, HQ]. cbv zeta in *.
  apply wp_bind. set (diff := Z.of_nat (length records) - me_RecordCount m) in *.
  destruct (diff =? 0); [apply wp_ret|apply wp_report];
    (apply wp_bind, wp_on_result, wp_on_world, (wp_Checksum path w1 content); [by rewrite Hf1|];
     intros w2 Hw2; destruct (_ || _); [apply wp_ret|apply wp_report]; apply wp_report, HQ;
     by transitivity w1).
Qed.
Lemma wp_reconcile_files manifest (files : list (string * string)) w rp Q :
  Forall (λ f, is_Some (w_fs w !! f.1)) files →
  (∀ w', same w w' → Q () (w', foldl (λ rp sf, shard_report manifest (w_fs w) sf.1 rp) rp files)) →
  wp (for_each files (λ sf, reconcile_shard manifest sf.1)) (w, rp) Q.
Proof.
  revert w rp. induction files as [|sf files IH]; intros w rp Hall HQ; [by apply wp_ret, HQ|].
  apply Forall_cons in Hall as [Hsf Hall]. cbn [for_each]. apply wp_bind, wp_reconcile_shard; [done|].
  intros w1 [Hd1 Hf1]. apply IH; rewrite Hf1; [done|]. intros w2 [Hd2 Hf2]. apply HQ.
  split; congruence.
Qed.

(** The manifest by path. *)
Definition manifest_map (l : list ManifestEntry) : gmap string ManifestEntry :=
  foldl (λ acc m, <[me_ShardPath m := m]> acc) ∅ l.
Lemma manifest_map_lookup l m :
  NoDup (me_ShardPath <$> l) → m ∈ l → manifest_map l !! me_ShardPath m = Some m.
Proof.
  unfold manifest_map. induction l as [|m' l IH] using rev_ind; intros Hnd Hm; [by apply elem_of_nil in Hm|].
  rewrite foldl_app. simpl. rewrite fmap_app in Hnd. apply NoDup_app in Hnd as (Hnd & Hd & _).
  apply elem_of_app in Hm as [Hm|Hm%list_elem_of_singleton]; [|by subst; rewrite lookup_insert_eq].
  rewrite lookup_insert_ne; [by apply IH|]. intros E. apply (Hd (me_ShardPath m)).
  - apply list_elem_of_fmap. by exists m.
  - apply list_elem_of_singleton. by rewrite E.
Qed.
Lemma manifest_map_elem l path m :
  manifest_map l !! path = Some m → m ∈ l ∧ me_ShardPath m = path.
Proof.
  unfold manifest_map. induction l as [|m' l IH] using rev_ind; [cbn [foldl]; by rewrite lookup_empty|].
  rewrite foldl_app. simpl. intros [[<- <-]|[_ Hm]]%lookup_insert_Some.
  - split; [apply elem_of_app; right; by left|done].
  - apply IH in Hm as [??]. split; [apply elem_of_app; by left|done].
Qed.

(** The manifest agrees with a shard. *)
Definition up_to_date (d : DB) (fs : FS) (path : string) : Prop :=
  ∃ content records m, fs !! path = Some content ∧ records_of content = Ok records ∧
    m ∈ db_manifest d ∧ me_ShardPath m = path ∧ me_RecordCount m = Z.of_nat (length records) ∧
    (me_Checksum m = "" ∨ me_Checksum m = sha256_hex content).
Lemma shard_report_details d l fs path rp :
  l ≡ₚ db_manifest d → NoDup (me_ShardPath <$> l) → is_Some (fs !! path) →
  ∃ more, rc_Details (shard_report (manifest_map l) fs path rp) = rc_Details rp ++ more ∧
    (more = [] ↔ up_to_date d fs path).
Proof.
  intros Hl Hnd [content Hc]. unfold shard_report, up_to_date. rewrite Hc. cbn [default from_option id].
  destruct (records_of content) as [records|e] eqn:Hrec.
  2: { eexists. split; [reflexivity|]. split; [done|]. intros (? & ? & ? & [= <-] & ? & _). congruence. }
  destruct (manifest_map l !! path) as [m|] eqn:Hm; cbv zeta.
  2: { eexists. split; [reflexivity|]. split; [done|].
       intros (? & ? & m & [= <-] & _ & Hin & <- & _). rewrite <- Hl in Hin.
       by rewrite (manifest_map_lookup l m) in Hm. }
  pose proof (manifest_map_elem _ _ _ Hm) as [Hin Hpath]. rewrite Hl in Hin.
  set (diff := Z.of_nat (length records) - me_RecordCount m).
  assert ((∃ content0 records0 m0, Some content = Some content0 ∧ records_of content0 = Ok records0 ∧
      m0 ∈ db_manifest d ∧ me_ShardPath m0 = path ∧ me_RecordCount m0 = Z.of_nat (length records0) ∧
      (me_Checksum m0 = "" ∨ me_Checksum m0 = sha256_hex content0)) ↔
    (diff =? 0) = true ∧ (bool_decide (me_Checksum m = "") || bool_decide (me_Checksum m = sha256_hex content)) = true) as Hiff.
  { rewrite Z.eqb_eq, orb_true_iff, !bool_decide_eq_true. unfold diff. split.
    - intros (? & ? & m0 & [= <-] & Hr & Hin0 & Hp0 & Hcount & Hsum). rewrite Hrec in Hr. injection Hr as <-.
      rewrite <- Hl in Hin0. apply (manifest_map_lookup l m0) in Hin0; [|done].
      rewrite Hp0, Hm in Hin0. injection Hin0 as ->. split; [lia|done].
    - intros [Hd Hsum]. exists content, records, m. split_and!; [done..|lia|done]. }
  destruct (diff =? 0), (_ || _); simpl.
  - exists []. rewrite app_nil_r. by rewrite Hiff.
  - eexists. split; [reflexivity|]. rewrite Hiff. naive_solver.
  - eexists. split; [reflexivity|]. rewrite Hiff. naive_solver.
  - rewrite <- app_assoc. eexists. split; [reflexivity|]. rewrite Hiff. naive_solver.
Qed.
Lemma report_details d l fs (files : list (string * string)) rp :
  l ≡ₚ db_manifest d → NoDup (me_ShardPath <$> l) → Forall (λ f, is_Some (fs !! f.1)) files →
  ∃ more, rc_Details (foldl (λ rp sf, shard_report (manifest_map l) fs sf.1 rp) rp files)
      = rc_Details rp ++ more ∧ (more = [] ↔ Forall (λ sf, up_to_date d fs sf.1) files).
Proof.
  intros Hl Hnd Hall. revert rp. induction Hall as [|sf files Hsf Hall IH]; intros rp.
  { exists []. rewrite app_nil_r. split; [done|]. by split. }
  cbn [foldl]. destruct (IH (shard_report (manifest_map l) fs sf.1 rp)) as (m2 & -> & H2).
  destruct (shard_report_details d l fs sf.1 rp) as (m1 & -> & H1); [done..|].
  exists (m1 ++ m2). rewrite app_assoc. split; [done|]. rewrite app_nil, Forall_cons. by rewrite H1, H2.
Qed.

(** How many records the shards hold. *)
Definition record_count (fs : FS) (path : string) : Z :=
  match records_of (default [] (fs !! path)) with Ok l => Z.of_nat (length l) | Err _ => 0 end.
Definition records_in (fs : FS) (files : list (string * string)) : Z :=
  foldr (λ sf n, record_count fs sf.1 + n) 0 files.
Lemma records_in_cons fs sf files :
  records_in fs (sf :: files) = record_count fs sf.1 + records_in fs files.
Proof. done. Qed.
(** With an empty manifest every record is an orphan. *)
Lemma report_orphans fs (files : list (string * string)) rp :
  let rp' := foldl (λ rp sf, shard_report ∅ fs sf.1 rp) rp files in
  rc_OrphanedInShard rp' = rc_OrphanedInShard rp + records_in fs files ∧
  rc_IndexCount rp' = rc_IndexCount rp ∧ rc_MissingInShard rp' = rc_MissingInShard rp ∧
  rc_ChecksumMismatches rp' = rc_ChecksumMismatches rp.
Proof.
  revert rp. induction files as [|sf files IH]; intros rp; cbn [foldl]; [split_and!; cbn; lia|].
  rewrite records_in_cons. destruct (IH (shard_report ∅ fs sf.1 rp)) as (-> & -> & -> & ->).
  unfold shard_report, record_count. destruct (records_of _); rewrite ?lookup_empty;
    cbn [rc_OrphanedInShard rc_IndexCount rc_MissingInShard rc_ChecksumMismatches upd]; split_and!; try done; lia.
Qed.
(** When the manifest agrees, the index counts every record. *)
Lemma report_counts d l fs (files : list (string * string)) rp :
  l ≡ₚ db_manifest d → NoDup (me_ShardPath <$> l) → Forall (λ sf, up_to_date d fs sf.1) files →
  let rp' := foldl (λ rp sf, shard_report (manifest_map l) fs sf.1 rp) rp files in
  rc_IndexCount rp' = rc_IndexCount rp + records_in fs files ∧
  rc_OrphanedInShard rp' = rc_OrphanedInShard rp ∧ rc_MissingInShard rp' = rc_MissingInShard rp ∧
  rc_ChecksumMismatches rp' = rc_ChecksumMismatches rp.
Proof.
  intros Hl Hnd Hall. revert rp. induction Hall as [|sf files Hsf Hall IH]; intros rp; cbn [foldl]; [split_and!; cbn; lia|].
  rewrite records_in_cons. destruct (IH (shard_report (manifest_map l) fs sf.1 rp)) as (-> & -> & -> & ->).
  destruct Hsf as (content & records & m & Hc & Hr & Hin & Hp & Hn & Hsum).
  rewrite <- Hl in Hin. apply manifest_map_lookup in Hin; [|done]. rewrite Hp in Hin.
  unfold shard_report, record_count. rewrite Hc. cbn [default from_option id]. rewrite Hr, Hin.
  cbv zeta. rewrite Hn, Z.sub_diag. cbn [Z.eqb].
  assert (bool_decide (me_Checksum m = "") || bool_decide (me_Checksum m = sha256_hex content) = true) as ->
    by (by rewrite orb_true_iff, !bool_decide_eq_true).
  cbn [rc_OrphanedInShard rc_IndexCount rc_MissingInShard rc_ChecksumMismatches upd]. split_and!; try done; lia.
Qed.
Lemma report_count_kept m fs (files : list (string * string)) rp :
  rc_ShardCount (foldl (λ rp sf, shard_report m fs sf.1 rp) rp files) = rc_ShardCount rp.
Proof.
  revert rp. induction files as [|sf files IH]; intros rp; cbn [foldl]; [done|]. rewrite IH.
  unfold shard_report. destruct (records_of _); [|done]. destruct (m !! sf.1); [|done].
  cbv zeta. by destruct (_ =? 0), (_ || _).
Qed.

(** A run of [Reconcile]. *)
Lemma reconcile_run w : ∃ w' l,
  l ≡ₚ db_manifest (w_db w) ∧ same w w' ∧
  Reconcile root (w, empty_reconcile) = ((w',
    foldl (λ rp sf, shard_report (manifest_map l) (w_fs w) sf.1 rp)
      (empty_reconcile <| rc_ShardCount := Z.of_nat (length (all_files root (w_fs w))) |>)
      (all_files root (w_fs w))), Ok ()).
Proof.
  assert (wp (Reconcile root) (w, empty_reconcile) (λ _ s, ∃ l,
    l ≡ₚ db_manifest (w_db w) ∧ same w s.1 ∧
    s.2 = foldl (λ rp sf, shard_report (manifest_map l) (w_fs w) sf.1 rp)
      (empty_reconcile <| rc_ShardCount := Z.of_nat (length (all_files root (w_fs w))) |>)
      (all_files root (w_fs w)))) as ([w' rp] & [] & Hr & l & Hl & Hw & Hrp).
  2: { exists w', l. simpl in *. subst rp. done. }
  apply wp_bind, wp_on_world, wp_scan_shards. intros w1 [Hd1 Hf1]. fold (all_files root (w_fs w)).
  apply wp_bind, wp_report. apply wp_bind, wp_on_world. unfold ListManifest, select.
  apply wp_bind, wp_bind, wp_interleave. intros w2 [Hd2 Hf2].
  apply wp_bind, wp_attempt. intros w3 [Hd3 Hf3]. apply wp_bind, wp_gets, wp_scan.
  intros rows w4 Hrows [Hd4 Hf4]. apply wp_ret. cbv zeta.
  assert (w_fs w4 = w_fs w) as Hf by congruence.
  apply wp_reconcile_files; rewrite Hf; [apply all_files_exist|]. intros w5 [Hd5 Hf5].
  exists (merge_sort manifest_order rows). split_and!; [|split; simpl; congruence|done].
  rewrite merge_sort_Permutation, Hrows, Hd3, Hd2, Hd1. apply reflexive_eq.
  induction (db_manifest (w_db w)) as [|m ms IH]; [done|]. simpl. by rewrite IH.
Qed.

(** C11: when nothing fails from the outside, a reconciliation never fails and
    changes nothing. Its report is silent exactly when every shard can be
    read and the manifest has an entry for it with its number of records and
    its checksum; the number of shards is always right. While the manifest is
    empty (and only a rebuild ever writes it) every record of every shard is
    reported as orphaned. *)
Theorem reconcile_exact w :
  NoDup (me_ShardPath <$> db_manifest (w_db w)) →
  let files := all_files root (w_fs w) in
  ∃ w' rp, Reconcile root (w, empty_reconcile) = ((w', rp), Ok ()) ∧ same w w' ∧
    rc_ShardCount rp = Z.of_nat (length files) ∧
    (rc_Details rp = [] ↔ Forall (λ sf, up_to_date (w_db w) (w_fs w) sf.1) files) ∧
    (db_manifest (w_db w) = [] →
       rc_OrphanedInShard rp = records_in (w_fs w) files ∧ rc_IndexCount rp = 0).
Proof.
  intros Hnd files. destruct (reconcile_run w) as (w' & l & Hl & Hw & Hr). fold files in Hr. eexists w', _.
  assert (NoDup (me_ShardPath <$> l)) as Hndl by by rewrite Hl.
  split_and!; [exact Hr|done|by rewrite report_count_kept| |].
  - destruct (report_details (w_db w) l (w_fs w) files
      (empty_reconcile <| rc_ShardCount := Z.of_nat (length files) |>) Hl Hndl (all_files_exist root (w_fs w)))
      as (more & -> & Hmore). exact Hmore.
  - intros Hempty. rewrite Hempty in Hl. apply Permutation_nil_r in Hl. subst l.
    destruct (report_orphans (w_fs w) files
      (empty_reconcile <| rc_ShardCount := Z.of_nat (length files) |>)) as (Ho & Hi & _).
    change (manifest_map []) with (∅ : gmap string ManifestEntry). rewrite Ho, Hi. done.
Qed.

(** ** Reconciling a rebuilt index *)

Definition shard_id (sf : string * string) : string := sf.2 +:+ ":" +:+ Base sf.1.
Lemma file_entry_id now fs sf : me_ShardID (file_entry now fs sf) = shard_id sf.
Proof. done. Qed.
Lemma manifest_of_entries now fs files l :
  NoDup ((me_ShardID <$> l) ++ (shard_id <$> files)) →
  manifest_of now fs files l = l ++ (file_entry now fs <$> files).
Proof.
  revert l. induction files as [|sf files IH]; intros l Hnd; [by rewrite app_nil_r|].
  change (manifest_of now fs (sf :: files) l) with (manifest_of now fs files (upsert (file_entry now fs sf) l)).
  assert (upsert (file_entry now fs sf) l = l ++ [file_entry now fs sf]) as ->.
  { unfold upsert. rewrite bool_decide_false; [done|]. rewrite file_entry_id. intros Hin.
    apply NoDup_app in Hnd as (_ & Hd & _). apply (Hd _ Hin). by left. }
  rewrite IH; rewrite ?fmap_app, <- app_assoc; done.
Qed.
Lemma legible_up_to_date now d fs sf (files : list (string * string)) :
  db_manifest d = file_entry now fs <$> files → sf ∈ files → legible fs → is_Some (fs !! sf.1) →
  up_to_date d fs sf.1.
Proof.
  intros Hd Hin Hleg [content Hc]. pose proof (Hleg _ _ Hc) as Hok.
  destruct (records_of content) as [records|] eqn:Hr; [|done].
  exists content, records, (file_entry now fs sf). unfold file_entry. rewrite Hc. cbn [default from_option id].
  rewrite Hr. split_and!; [done..| |done|done|by right]. rewrite Hd. apply list_elem_of_fmap.
  exists sf. split; [|done]. unfold file_entry. rewrite Hc. cbn [default from_option id]. by rewrite Hr.
Qed.

(** The reconciliation after a rebuild finds nothing to complain about: if
    every shard can be read and no two shards of a kind have the same file
    name, a rebuild that is possible is followed by a report without details,
    orphans, missing records or checksum mismatches, in which the index
    counts every record of the shards. *)
Theorem rebuild_then_reconcile w :
  let files := merge_sort by_path (all_files root (w_fs w)) in
  rebuildable (collect root (w_fs w)) (w_db w) → legible (w_fs w) → NoDup (shard_id <$> files) →
  ∃ w' rp w'' rc, RebuildIndex root (w, empty_rebuild) = ((w', rp), Ok ()) ∧
    Reconcile root (w', empty_reconcile) = ((w'', rc), Ok ()) ∧ same w' w'' ∧
    rc_Details rc = [] ∧ rc_OrphanedInShard rc = 0 ∧ rc_MissingInShard rc = 0 ∧
    rc_ChecksumMismatches rc = 0 ∧ rc_IndexCount rc = records_in (w_fs w) (all_files root (w_fs w)).
Proof.
  intros files Hable Hleg Hids.
  destruct (rebuild_succeeds root w Hable) as (w' & rp & now & Hr & _ & Hf & Hman & _).
  fold files in Hman. rewrite manifest_of_entries in Hman by done. rewrite app_nil_l in Hman.
  destruct (reconcile_run w') as (w'' & l & Hl & Hw & Hrec).
  set (writer := {| rootDir := root; maxShardSize := 0; syncOnWrite := true |}).
  assert (NoDup (me_ShardPath <$> l)) as Hnd.
  { rewrite Hl, Hman, <- list_fmap_compose. exact (paths_nodup writer (w_fs w)). }
  assert (Forall (λ sf, up_to_date (w_db w') (w_fs w') sf.1) (all_files root (w_fs w'))) as Hall.
  { rewrite Hf. apply Forall_forall. intros sf Hin. eapply legible_up_to_date; [exact Hman| |done|].
    - unfold files. by rewrite merge_sort_Permutation.
    - pose proof (all_files_exist root (w_fs w)) as He. rewrite Forall_forall in He. by apply He. }
  set (rp0 := empty_reconcile <| rc_ShardCount := Z.of_nat (length (all_files root (w_fs w'))) |>) in *.
  destruct (report_counts (w_db w') l (w_fs w') _ rp0 Hl Hnd Hall) as (Hi & Ho & Hm & Hc).
  destruct (report_details (w_db w') l (w_fs w') _ rp0 Hl Hnd (all_files_exist root (w_fs w')))
    as (more & Hd & Hmore). apply Hmore in Hall. subst more.
  eexists w', rp, w'', _. split_and!; [exact Hr|exact Hrec|done|by rewrite Hd|by rewrite Ho
    |by rewrite Hm|by rewrite Hc|]. rewrite Hi, Hf. done.
Qed.
End reconcile.

(** ** Concrete runs *)

(** The history of [RebuildClaims]: nothing of it is in the manifest. *)
Lemma reconcile_exact_witness : ∃ w' rp,
  Reconcile (H := frozen) "/data" (ex_stored, empty_reconcile) = ((w', rp), Ok ()) ∧
  rc_OrphanedInShard rp = 5 ∧ rc_IndexCount rp = 0.
Proof.
  destruct (reconcile_exact (H := frozen) "/data" ex_stored ltac:(constructor))
    as (w' & rp & Hr & _ & _ & _ & Ho).
  exists w', rp. split; [exact Hr|]. destruct (Ho eq_refl) as [Horph Hidx].
  split; [|exact Hidx]. rewrite Horph. vm_compute. reflexivity.
Defined.
Lemma rebuild_then_reconcile_witness : ∃ w' rp w'' rc,
  RebuildIndex (H := frozen) "/data" (ex_lost, empty_rebuild) = ((w', rp), Ok ()) ∧
  Reconcile (H := frozen) "/data" (w', empty_reconcile) = ((w'', rc), Ok ()) ∧
  rc_Details rc = [] ∧ rc_IndexCount rc = 5.
Proof.
  destruct (rebuild_then_reconcile (H := frozen) "/data" ex_lost)
    as (w' & rp & w'' & rc & Hr & Hc & _ & Hd & _ & _ & _ & Hi).
  - apply (bool_decide_eq_true_1 _). vm_compute. reflexivity.
  - change (map_Forall (λ _ content, result_is_ok (records_of content) = true) (w_fs ex_lost)).
    apply (bool_decide_eq_true_1 _). vm_compute. reflexivity.
  - apply (bool_decide_eq_true_1 _). vm_compute. reflexivity.
  - exists w', rp, w'', rc. split_and!; [exact Hr|exact Hc|exact Hd|]. rewrite Hi. vm_compute. reflexivity.
Defined.
