(* ===== verification/ServiceSpec.v ===== *)
(** * The compliance services: specification and refinement

    [db_step d l d'] says what a committed transaction of the services does to
    the tables. The refinement lemmas say that, when no other goroutine
    writes, a service call either commits one such step or leaves the tables
    alone, whatever else fails; the loops (batch import, escalation check,
    re-evaluation sweep) are sequences of such steps. *)
From stdpp Require Import relations.
From S2P Require Import Prelude GoErrors GoStrings GoTime Domain Dispatch World Shard.
From S2P Require Import Index Repo AuditLog StoreApi QueryFacts Services Worker StoreFacts.

(** ** Calls *)

Inductive svc_call : Type :=
| SvcRegister (deadline : Duration) (req : RegisterItemRequest)
| SvcStart (id actor : string)
| SvcModify (id : string) (req : ModifyItemRequest)
| SvcReturn (id reason actor : string)
| SvcResubmit (id actor : string)
| SvcCancel (id reason actor : string)
| SvcComplete (id actor : string)
| SvcCreateRule (req : CreateRuleRequest)
| SvcRetryFailure (id actor : string).

Definition unit_of {A} (m : dop A) : dop () := _ ← m; mret ().

Definition exec_svc `{Env} (writer : Writer) (c : svc_call) : dop () :=
  match c with
  | SvcRegister dl req => unit_of (Register writer dl req)
  | SvcStart id actor => unit_of (StartProcessing writer id actor)
  | SvcModify id req => unit_of (Modify writer id req)
  | SvcReturn id reason actor => unit_of (ReturnForCorrection writer id reason actor)
  | SvcResubmit id actor => unit_of (Resubmit writer id actor)
  | SvcCancel id reason actor => unit_of (Cancel writer id reason actor)
  | SvcComplete id actor => unit_of (Complete writer id actor)
  | SvcCreateRule req => unit_of (CreateRule writer req)
  | SvcRetryFailure id actor => RetryFailure writer id actor
  end.

(** ** Effects *)

(** A status change [TransitionTo] allows. *)
Definition may (from to : ItemStatus) : Prop := from = to ∨ case_step from to.

(** The columns no update of a service call touches. *)
Definition same_routing (row item : ComplianceCase) : Prop :=
  ic_ID item = ic_ID row ∧ ic_ExternalRef item = ic_ExternalRef row ∧
  ic_LeadDepartment item = ic_LeadDepartment row ∧ ic_RuleVersion item = ic_RuleVersion row ∧
  ic_EscalationLevel item = ic_EscalationLevel row ∧ ic_Deadline item = ic_Deadline row ∧
  ic_RegisteredAt item = ic_RegisteredAt row.

(** What a call changes on the case it is about, and its audit entry. *)
Definition case_change (c : svc_call) (row item : ComplianceCase) (audit : AuditEntry) : Prop :=
  same_routing row item ∧ au_EntityID audit = ic_ID row ∧ au_EntityType audit = "item" ∧
  match c with
  | SvcStart id actor =>
      ic_ID row = id ∧ may (ic_Status row) StatusInProgress ∧ ic_Status item = StatusInProgress ∧
      au_Action audit = ActionStartProcessing ∧ au_Actor audit = actor
  | SvcModify id req =>
      ic_ID row = id ∧ IsTerminal (ic_Status row) = false ∧ ic_Status item = ic_Status row ∧
      ic_Title item = override (mq_Title req) (ic_Title row) ∧
      ic_Description item = override (mq_Description req) (ic_Description row) ∧
      ic_OperatorName item = override (mq_OperatorName req) (ic_OperatorName row) ∧
      ic_OperatorContact item = override (mq_OperatorContact req) (ic_OperatorContact row) ∧
      ic_Category item = override (mq_Category req) (ic_Category row) ∧
      au_Action audit = ActionModify ∧ au_Actor audit = mq_Actor req
  | SvcReturn id reason actor =>
      ic_ID row = id ∧ may (ic_Status row) StatusReturned ∧ ic_Status item = StatusReturned ∧
      au_Action audit = ActionReturn ∧ au_Actor audit = actor ∧ au_Details audit = reason
  | SvcResubmit id actor =>
      ic_ID row = id ∧ may (ic_Status row) StatusRegistered ∧ ic_Status item = StatusAdjudicated ∧
      au_Action audit = ActionResubmit ∧ au_Actor audit = actor
  | SvcCancel id reason actor =>
      ic_ID row = id ∧ may (ic_Status row) StatusCancelled ∧ ic_Status item = StatusCancelled ∧
      ic_CancelReason item = reason ∧ is_Some (ic_CancelledAt item) ∧
      au_Action audit = ActionCancel ∧ au_Actor audit = actor ∧ au_Details audit = reason
  | SvcComplete id actor =>
      ic_ID row = id ∧ may (ic_Status row) StatusCompleted ∧ ic_Status item = StatusCompleted ∧
      is_Some (ic_CompletedAt item) ∧
      au_Action audit = ActionComplete ∧ au_Actor audit = actor
  | _ => False
  end.

(** A referral that routes a case: it is current, and it names the department
    and the rule version of the case. *)
Definition routes (r : Referral) (item : ComplianceCase) : Prop :=
  rf_ItemID r = ic_ID item ∧ rf_IsCurrent r = true ∧
  rf_LeadDepartment r = ic_LeadDepartment item ∧ rf_RuleVersion r = ic_RuleVersion item.

(** The case is routed as an active rule of the tables says, one that was in
    force when the case was registered. *)
Definition routed_by_rule (d : DB) (item : ComplianceCase) : Prop :=
  ∃ rule, rule ∈ db_rules d ∧ ru_Version rule = ic_RuleVersion item ∧
    ru_LeadDepartment rule = ic_LeadDepartment item ∧ ru_Status rule = RuleStatusActive ∧
    ru_EffectiveFrom rule ≤ ic_RegisteredAt item.

Inductive db_label : Type :=
| LCall (c : svc_call)
| LEscalate (id : string)
| LReroute (id : string)
| LFailure
| LTaskFailure
| LBatch.

Inductive db_step (d : DB) : db_label → DB → Prop :=
| ds_register dl req item referral audit :
    rq_ExternalRef req ≠ "" → rq_Title req ≠ "" → rq_RegisteredBy req ≠ "" →
    ic_ExternalRef item = rq_ExternalRef req → ic_Title item = rq_Title req →
    ic_RegisteredBy item = rq_RegisteredBy req → ic_Status item = StatusAdjudicated →
    ic_EscalationLevel item = 0 → ic_Deadline item = Add (ic_RegisteredAt item) dl →
    (ic_ID item ∉ ic_ID <$> db_items d) → (ic_ExternalRef item ∉ ic_ExternalRef <$> db_items d) →
    (rf_ID referral ∉ rf_ID <$> db_assignments d) → routes referral item →
    routed_by_rule d item →
    au_EntityID audit = ic_ID item → au_Action audit = ActionRegister →
    au_Actor audit = rq_RegisteredBy req →
    db_step d (LCall (SvcRegister dl req))
      (add_audit audit (add_referral referral (d <| db_items := db_items d ++ [item] |>)))
| ds_update c row item audit :
    row ∈ db_items d → case_change c row item audit →
    db_step d (LCall c) (add_audit audit (put_item item d))
| ds_rule req rule audit :
    cr_Name req ≠ "" → cr_LeadDepartment req ≠ "" → cr_CreatedBy req ≠ "" →
    cr_SupersedeVersion req ≤ 0 →
    ru_Name rule = cr_Name req → ru_LeadDepartment rule = cr_LeadDepartment req →
    ru_Status rule = RuleStatusActive → (ru_Version rule ∉ ru_Version <$> db_rules d) →
    au_Action audit = ActionRuleCreate →
    db_step d (LCall (SvcCreateRule req))
      (add_audit audit (d <| db_rules := db_rules d ++ [rule] |>))
| ds_rule_supersede req rule audit1 audit wall :
    cr_Name req ≠ "" → cr_LeadDepartment req ≠ "" → cr_CreatedBy req ≠ "" →
    0 < cr_SupersedeVersion req →
    ru_Name rule = cr_Name req → ru_LeadDepartment rule = cr_LeadDepartment req →
    ru_Status rule = RuleStatusActive → (ru_Version rule ∉ ru_Version <$> db_rules d) →
    au_Action audit1 = ActionRuleSupersede → au_Action audit = ActionRuleCreate →
    let d1 := add_audit audit1 (supersede_rule (cr_SupersedeVersion req) wall d) in
    db_step d (LCall (SvcCreateRule req))
      (add_audit audit (d1 <| db_rules := db_rules d1 ++ [rule] |>))
| ds_retry id actor f audit :
    pf_ID f = id → pf_ID f ∈ pf_ID <$> db_failures d → pf_Status f = FailureStatusRetried →
    is_Some (pf_ResolvedAt f) →
    au_EntityID audit = id → au_Action audit = ActionFailureRetry → au_Actor audit = actor →
    db_step d (LCall (SvcRetryFailure id actor))
      (add_audit audit (d <| db_failures :=
         update_where (λ row, bool_decide (pf_ID row = pf_ID f)) (failure_update f)
           (db_failures d) |>))
| ds_escalate row item esc referral audit maxLevel :
    row ∈ db_items d →
    ic_ID item = ic_ID row → ic_ExternalRef item = ic_ExternalRef row →
    may (ic_Status row) StatusEscalated → ic_Status item = StatusEscalated →
    ic_EscalationLevel item = ic_EscalationLevel row +ᵢ 1 → ic_EscalationLevel item ≤ maxLevel →
    ic_LeadDepartment item =
      EscalationDepartmentName (ic_LeadDepartment row) (ic_EscalationLevel item) →
    ic_RuleVersion item = ic_RuleVersion row → ic_RegisteredAt item = ic_RegisteredAt row →
    es_ItemID esc = ic_ID row → es_FromLevel esc = ic_EscalationLevel row →
    es_ToLevel esc = ic_EscalationLevel item → es_NewDeadline esc = ic_Deadline item →
    (rf_ID referral ∉ rf_ID <$> db_assignments d) → routes referral item →
    au_EntityID audit = ic_ID row → au_Action audit = ActionEscalate →
    db_step d (LEscalate (ic_ID row))
      (add_audit audit (put_item item (add_referral referral (supersede (ic_ID row)
         (add_escalation esc d)))))
| ds_reroute row item referral audit :
    row ∈ db_items d →
    ic_ID item = ic_ID row → ic_ExternalRef item = ic_ExternalRef row →
    isReevaluable (ic_Status row) = true → ic_Status item = StatusAdjudicated →
    ic_EscalationLevel item = ic_EscalationLevel row → ic_Deadline item = ic_Deadline row →
    ic_RegisteredAt item = ic_RegisteredAt row →
    (rf_ID referral ∉ rf_ID <$> db_assignments d) → routes referral item →
    routed_by_rule d item →
    au_EntityID audit = ic_ID row → au_Action audit = ActionRuleReevaluated →
    db_step d (LReroute (ic_ID row))
      (add_audit audit (put_item item (add_referral referral (supersede (ic_ID row) d))))
| ds_failure f audit :
    pf_Status f = FailureStatusActive →
    db_step d LFailure (add_audit audit (d <| db_failures := db_failures d ++ [f] |>))
| ds_task_failure f :
    pf_Status f = FailureStatusActive → (pf_ID f ∉ pf_ID <$> db_failures d) →
    db_step d LTaskFailure (d <| db_failures := db_failures d ++ [f] |>)
| ds_batch b audit :
    au_EntityID audit = ib_ID b → au_Action audit = ActionBatchImport →
    db_step d LBatch (add_audit audit (d <| db_batches := db_batches d ++ [b] |>)).

Definition db_steps (d d' : DB) : Prop := ∃ ls, steps db_step d ls d'.

(** ** Failed calls *)

Definition err_keeps_db {A} (m : dop A) : Prop :=
  ∀ w w' e, m w = (w', Err e) → w_db w' = w_db w.

Section failed.
Context `{Env, !Sequential H} (writer : Writer).

Lemma err_keeps_keeps {A} (m : dop A) : keeps_db m → err_keeps_db m.
Proof. intros Hk w w' e Hm. by eapply keeps_ok. Qed.
Lemma err_keeps_bind {A B} (m : dop A) (f : A → dop B) :
  keeps_db m → (∀ a, err_keeps_db (f a)) → err_keeps_db (m ≫= f).
Proof.
  intros Hk Hf w w' e [Hm|(w1 & a & Hm & Hfa)]%bind_err; [by eapply keeps_ok|].
  rewrite (Hf _ _ _ _ Hfa). by eapply keeps_ok.
Qed.
Lemma err_keeps_wrapping {A} f (m : dop A) : err_keeps_db m → err_keeps_db (wrapping f m).
Proof. intros Hm w w' e (e0 & He & _)%wrapping_err. by eapply Hm. Qed.
Lemma err_keeps_WithTx {A} (fn : dop A) : err_keeps_db (WithTx fn).
Proof. intros w w' e He. by eapply WithTx_err. Qed.
(** Nothing after the transaction can fail. *)
Lemma err_keeps_unit {A} (m : dop A) : err_keeps_db m → err_keeps_db (unit_of m).
Proof. intros Hm w w' e [He|(w1 & a & _ & He)]%bind_err; [by eapply Hm|done]. Qed.
Lemma err_keeps_ret_after {A B} (m : dop A) (b : A → B) :
  err_keeps_db m → err_keeps_db (m ≫= λ a, mret (b a)).
Proof. intros Hm w w' e [He|(w1 & a & _ & He)]%bind_err; [by eapply Hm|done]. Qed.
End failed.

Create HintDb svc_db.
#[export] Hint Resolve err_keeps_wrapping err_keeps_WithTx err_keeps_unit : svc_db.
#[export] Hint Resolve err_keeps_ret_after | 1 : svc_db.
#[export] Hint Resolve err_keeps_bind | 2 : svc_db.
#[export] Hint Resolve err_keeps_keeps | 3 : svc_db.

Section failed_calls.
Context `{Env, !Sequential H} (writer : Writer).

Lemma keeps_find_existing ref : keeps_db (find_existing ref).
Proof.
  intros w. unfold find_existing, on_result.
  pose proof (keeps_GetItemByExternalRef ref w) as Hk.
  destruct (GetItemByExternalRef ref w) as [w1 [i|e]]; simpl in *; [done|].
  by destruct (errors_is e ErrNotFound).
Qed.
Lemma keeps_adjudicate item rules : keeps_db (adjudicate item rules).
Proof. unfold adjudicate. auto 10 with world_db nocore. Qed.
#[local] Hint Resolve keeps_find_existing keeps_adjudicate : world_db.

Lemma err_keeps_update item actor action details :
  err_keeps_db (updateItemWithAudit writer item actor action details).
Proof. unfold updateItemWithAudit. auto with svc_db world_db nocore. Qed.
#[local] Hint Resolve err_keeps_update : svc_db.

Lemma err_keeps_Register dl req : err_keeps_db (Register writer dl req).
Proof.
  unfold Register. do 4 (apply err_keeps_bind; [auto with world_db nocore|intros]).
  match goal with |- err_keeps_db (match ?o with _ => _ end) => destruct o end;
    auto 20 with svc_db world_db nocore.
Qed.

(** A service call that fails leaves the tables as they were, whatever
    statement, system call or check failed. *)
Lemma exec_svc_err c : err_keeps_db (exec_svc writer c).
Proof.
  destruct c; unfold exec_svc; try apply err_keeps_unit;
    [apply err_keeps_Register|unfold StartProcessing|unfold Modify|unfold ReturnForCorrection
    |unfold Resubmit|unfold Cancel|unfold Complete|unfold CreateRule|unfold RetryFailure, QueryService.RetryFailure; simpl];
    auto 20 with svc_db world_db nocore.
Qed.
End failed_calls.
#[export] Hint Resolve keeps_find_existing keeps_adjudicate : world_db.

(** ** Successful calls *)

Section successful.
Context `{Env, !Sequential H, !EnvLaws H} (writer : Writer).

Lemma save_audit_ok eid ety action actor at_ details w w' u :
  save_audit writer eid ety action actor at_ details w = (w', Ok u) →
  ∃ a, au_EntityID a = eid ∧ au_EntityType a = ety ∧ au_Action a = action ∧
    au_Actor a = actor ∧ au_Details a = details ∧ w_db w' = add_audit a (w_db w).
Proof.
  unfold save_audit. intros (w1 & uuid & Hu & Ha)%bind_ok.
  apply SaveAudit_ok in Ha as (path & _ & Hdb). kept.
  eexists _. by split_and!; [..|exact Hdb].
Qed.

Lemma GetItem_ok id w w' item :
  GetItem id w = (w', Ok item) →
  w_db w' = w_db w ∧ ∃ row, row ∈ db_items (w_db w) ∧ ic_ID row = id ∧ scanItem row = Ok item.
Proof.
  intros (Hdb & row & Hrow & Hid & Hscan)%query_row_ok. split; [done|].
  apply bool_decide_eq_true in Hid. eauto.
Qed.

Lemma updateItem_ok item actor action details w w' item' :
  updateItemWithAudit writer item actor action details w = (w', Ok item') →
  ∃ audit, au_EntityID audit = ic_ID item ∧ au_EntityType audit = "item" ∧
    au_Action audit = action ∧ au_Actor audit = actor ∧ au_Details audit = details ∧
    w_db w' = add_audit audit (put_item item (w_db w)).
Proof.
  unfold updateItemWithAudit. intros Hu. binds Hu.
  apply WithTx_ok in Hu as (w1 & w2 & Hw1 & Htx & Hw2). binds Htx.
  match goal with Hs : Tx_UpdateItem _ _ _ = _ |- _ =>
    apply UpdateItem_ok in Hs as ((path & off & ->) & Hin & Hdb1) end.
  match goal with Hs : save_audit _ _ _ _ _ _ _ _ = _ |- _ =>
    apply save_audit_ok in Hs as (a & ? & ? & ? & ? & ? & Hdb2) end.
  exists a. split_and!; try done. kept. by rewrite Hw2, Hdb2, Hdb1, Hw1.
Qed.

(** [update_call H]: the case was read, changed and written back with an
    audit entry. *)
Ltac update_call Hs :=
  unfold exec_svc, unit_of in Hs; binds Hs;
  match goal with Hg : GetItem _ _ = _ |- _ =>
    apply GetItem_ok in Hg as (Hdb0 & row & Hrow & Hid & Hscan);
    apply scanItem_inv in Hscan as
      (? & ? & Hstatus & ? & ? & ? & ? & ? & (Htitle & Hdesc & Hname & Hcontact & Hcat) & _) end;
  repeat match goal with Ht : TransitionTo _ _ = Ok _ |- _ =>
    apply TransitionTo_ok in Ht as [? ->] end;
  match goal with Hu : updateItemWithAudit _ _ _ _ _ _ = _ |- _ =>
    apply updateItem_ok in Hu as (audit & ? & ? & ? & ? & ? & Hdb1) end;
  kept; guards; simpl in *;
  match goal with
  | Hrow : ?row ∈ db_items _, Hstatus : ic_Status _ = ic_Status ?row,
    Hdb1 : w_db _ = add_audit ?audit (put_item ?item _) |- _ =>
      rewrite Hdb1;
      repeat match goal with E : w_db ?x = w_db _ |- context [w_db ?x] => rewrite E end;
      refine (ds_update _ _ row item audit Hrow _);
      unfold case_change, same_routing, may; simpl; rewrite <- ?Hstatus
  end; split_and!; try done; try congruence.

Lemma exec_svc_update c w w' :
  match c with SvcRegister _ _ | SvcCreateRule _ | SvcRetryFailure _ _ => False | _ => True end →
  exec_svc writer c w = (w', Ok ()) → db_step (w_db w) (LCall c) (w_db w').
Proof.
  destruct c; intros Hc Hs; try done.
  - unfold exec_svc, StartProcessing in Hs. update_call Hs.
  - unfold exec_svc, Modify in Hs. update_call Hs.
    all: by f_equal.
  - unfold exec_svc, ReturnForCorrection in Hs. update_call Hs.
  - unfold exec_svc, Resubmit in Hs. update_call Hs.
  - unfold exec_svc, Cancel in Hs. update_call Hs.
  - unfold exec_svc, Complete in Hs. update_call Hs.
Qed.

Lemma scanRule_inv row r :
  scanRule row = Ok r →
  ru_Version r = ru_Version row ∧ ru_LeadDepartment r = ru_LeadDepartment row ∧
  ru_Status r = ru_Status row ∧ ru_Priority r = ru_Priority row ∧
  ru_EffectiveFrom r = ru_EffectiveFrom row ∧ ru_EffectiveTo r = ru_EffectiveTo row.
Proof.
  unfold scanRule, mbind, result_bind. intros Hs.
  repeat match type of Hs with match time_column ?t with _ => _ end = _ =>
    let E := fresh in destruct (time_column t) eqn:E; [apply time_column_inv in E|done] end.
  injection Hs as <-. by subst.
Qed.

Lemma GetActiveRules_ok at_ w w' rules :
  GetActiveRules at_ w = (w', Ok rules) →
  w_db w' = w_db w ∧
  ∀ r, r ∈ rules → ∃ row, row ∈ db_rules (w_db w) ∧ active_rule_where at_ row = true ∧
    scanRule row = Ok r.
Proof.
  intros Hg. split; [exact (keeps_ok _ _ _ _ (keeps_GetActiveRules at_) Hg)|].
  unfold GetActiveRules in Hg. binds Hg.
  match goal with Hs : select _ _ _ _ = _ |- _ => apply select_ok in Hs as [Hdb Hperm] end.
  intros r Hr. destruct (scan_all_elem _ _ _ _ Hg Hr) as (row & Hrow & Hscan).
  rewrite merge_sort_Permutation, Hperm in Hrow.
  apply list_elem_of_In, filter_In in Hrow as [Hrow Hw]. rewrite <- list_elem_of_In in Hrow. eauto.
Qed.

Lemma active_rule_status at_ row :
  active_rule_where at_ row = true → ru_Status row = RuleStatusActive.
Proof. unfold active_rule_where. intros Hw. by guards. Qed.

Lemma find_existing_ok ref w w' item :
  find_existing ref w = (w', Ok (Some item)) →
  ∃ row, row ∈ db_items (w_db w) ∧ ic_ExternalRef row = ref ∧ scanItem row = Ok item ∧
    w_db w' = w_db w.
Proof.
  unfold find_existing, on_result. intros Hf.
  destruct (GetItemByExternalRef ref w) as [w1 [i|e]] eqn:Hg;
    [|by destruct (errors_is e ErrNotFound)].
  injection Hf as <- <-. apply query_row_ok in Hg as (Hdb & row & Hrow & Hw & Hscan).
  apply bool_decide_eq_true in Hw. eauto 10.
Qed.

Lemma adjudicate_ok item rules w w' referral :
  adjudicate item rules w = (w', Ok referral) →
  w_db w' = w_db w ∧ ∃ chosen, adjudicated_by item rules chosen referral.
Proof.
  intros Ha. split; [exact (keeps_ok _ _ _ _ (keeps_adjudicate item rules) Ha)|].
  unfold adjudicate in Ha. binds Ha. by apply Adjudicate_ok in Ha as [_ ?].
Qed.

Lemma register_tx_ok item referral by_ now w w' item' :
  WithTx (
    item ← wrapping (errorf "save item") (SaveItem writer item);
    _ ← wrapping (errorf "save referral") (SaveAssignment writer referral);
    _ ← wrapping (errorf "save audit")
          (save_audit writer (ic_ID item) "item" ActionRegister by_ now "");
    mret item) w = (w', Ok item') →
  (∃ path off, item' = item <| ic_ShardPath := path |> <| ic_ShardOffset := off |>) ∧
  (ic_ID item ∉ ic_ID <$> db_items (w_db w)) ∧
  (ic_ExternalRef item ∉ ic_ExternalRef <$> db_items (w_db w)) ∧
  (rf_ID referral ∉ rf_ID <$> db_assignments (w_db w)) ∧
  ∃ audit path, au_EntityID audit = ic_ID item ∧ au_Action audit = ActionRegister ∧
    au_Actor audit = by_ ∧
    w_db w' = add_audit audit (add_referral (referral <| rf_ShardPath := path |>)
                ((w_db w) <| db_items := db_items (w_db w) ++ [item'] |>)).
Proof.
  intros (w1 & w2 & Hw1 & Htx & Hw2)%WithTx_ok. binds Htx.
  match goal with Hs : SaveItem _ _ _ = _ |- _ =>
    apply SaveItem_ok in Hs as (Hi & Hid & Href & Hdb1) end.
  match goal with Hs : SaveAssignment _ _ _ = _ |- _ =>
    apply SaveAssignment_ok in Hs as (path & Hrf & Hdb2) end.
  match goal with Hs : save_audit _ _ _ _ _ _ _ _ = _ |- _ =>
    apply save_audit_ok in Hs as (a & Ha1 & ? & ? & ? & ? & Hdb3) end.
  rewrite Hdb1 in *. simpl in *. rewrite Hw1 in *. split_and!; try done.
  exists a, path. split_and!; try done.
  - destruct Hi as (? & ? & ->). done.
  - by rewrite Hw2, Hdb3, Hdb2.
Qed.

Lemma Register_ok dl req w w' item :
  Register writer dl req w = (w', Ok item) →
  (∃ row, row ∈ db_items (w_db w) ∧ ic_ExternalRef row = rq_ExternalRef req ∧
     scanItem row = Ok item ∧ w_db w' = w_db w) ∨
  db_step (w_db w) (LCall (SvcRegister dl req)) (w_db w') ∧
  ic_ExternalRef item = rq_ExternalRef req ∧ item ∈ db_items (w_db w').
Proof.
  unfold Register. intros Hr. binds Hr. guards.
  match goal with Hf : find_existing _ _ = (?x, Ok ?o) |- _ => destruct o as [row|] end.
  { left. apply ret_ok in Hr as [-> ->]. by apply find_existing_ok. }
  right. binds Hr.
  match goal with Hg : GetActiveRules _ _ = _ |- _ => apply GetActiveRules_ok in Hg as [Hd1 Hrules] end.
  match goal with Ha : adjudicate _ _ _ = _ |- _ =>
    apply adjudicate_ok in Ha as (Hd2 & chosen & Hin & Happ & _ & Hid & Hlead & Hco & Hver & Hcur) end.
  apply register_tx_ok in Hr as ((path & off & ->) & Hfresh & Href & Hrf & a & rpath & Ha1 & Ha2 & Ha3 & Hdb).
  destruct (Hrules _ Hin) as (rrow & Hrrow & Hact & (Hv & Hl & _ & _ & Hfrom & _)%scanRule_inv).
  destruct Happ as [(_ & Hact0 & _)%IsActiveAt_spec _].
  apply active_rule_status in Hact. kept. simpl in *.
  repeat match goal with E : w_db ?x = w_db _ |- _ => rewrite E in *; clear E end.
  rewrite Hdb. split_and!; [|done|simpl; set_solver].
  refine (ds_register _ dl req _ _ a _ _ _ _ _ _ _ _ _ _ _ _ _ _ _ _ _); try done.
  exists rrow. split_and!; simpl in *; [congruence..|]. by rewrite <- Hfrom.
Qed.

Lemma CreateRule_ok req w w' rule :
  CreateRule writer req w = (w', Ok rule) →
  db_step (w_db w) (LCall (SvcCreateRule req)) (w_db w').
Proof.
  unfold CreateRule. intros Hc. binds Hc. guards.
  apply WithTx_ok in Hc as (w1 & w2 & Hw1 & Htx & Hw2).
  kept. apply bind_ok in Htx as (w3 & u & Hsup & Htx). binds Htx.
  match goal with Hs : SaveRule _ _ _ = _ |- _ =>
    apply SaveRule_ok in Hs as (path & -> & Hnew & Hdb1) end.
  match goal with Hs : save_audit _ _ _ _ _ _ _ _ = _ |- _ =>
    apply save_audit_ok in Hs as (a & Ha1 & ? & Ha3 & ? & ? & Hdb2) end.
  destruct (Z.ltb_spec 0 (cr_SupersedeVersion req)) as [Hpos|Hpos].
  - binds Hsup.
    match goal with Hs : Tx_SupersedeRule _ _ = _ |- _ =>
      apply SupersedeRule_ok in Hs as (wall & Hdb3) end.
    match goal with Hs : save_audit _ _ _ _ _ _ _ _ = _ |- _ =>
      apply save_audit_ok in Hs as (a1 & ? & ? & Ha4 & ? & ? & Hdb4) end.
    rewrite Hw2, Hdb2, Hdb1. rewrite Hdb4, Hdb3, Hw1 in *.
    repeat match goal with E : w_db ?x = w_db _ |- _ => rewrite E in *; clear E end.
    refine (ds_rule_supersede (w_db w) req _ a1 a wall _ _ _ _ _ _ _ _ _ _); try done.
    simpl in *. by rewrite update_where_proj in Hnew.
  - apply ret_ok in Hsup as [_ ->].
    rewrite Hw2, Hdb2, Hdb1, Hw1 in *.
    repeat match goal with E : w_db ?x = w_db _ |- _ => rewrite E in *; clear E end.
    by refine (ds_rule (w_db w) req _ a _ _ _ _ _ _ _ _ _).
Qed.

Lemma RetryFailure_ok id actor w w' u :
  RetryFailure writer id actor w = (w', Ok u) →
  db_step (w_db w) (LCall (SvcRetryFailure id actor)) (w_db w').
Proof.
  unfold RetryFailure. intros Hc. apply (retry_exact (tables := w_db)) in Hc; [|by split; [kept|]..].
  destruct Hc as (row & f & now & uuid & path & Hrow & Hid & Hscan & _ & ->).
  apply scanFailure_id in Hscan. rewrite Hid in Hscan.
  match goal with |- db_step _ _ (add_audit ?a (_ <| db_failures := update_where _ (failure_update ?g) _ |>)) =>
    pose proof (ds_retry (w_db w) id actor g a) as Hstep; assert (pf_ID g = id) as Hg by done end.
  rewrite Hg in Hstep. apply Hstep; try done. rewrite <- Hid. by apply list_elem_of_fmap_2.
Qed.

(** Every service call commits one step of the specification or leaves the
    tables alone; if it fails it leaves them alone. *)
Lemma exec_svc_refines c w :
  match exec_svc writer c w with
  | (w', Ok _) =>
      db_step (w_db w) (LCall c) (w_db w') ∨
      w_db w' = w_db w ∧ ∃ dl req row, c = SvcRegister dl req ∧ row ∈ db_items (w_db w) ∧
        ic_ExternalRef row = rq_ExternalRef req
  | (w', Err _) => w_db w' = w_db w
  end.
Proof.
  destruct (exec_svc writer c w) as [w' [[]|e]] eqn:Hc; [|by eapply exec_svc_err].
  destruct c; try (by left; apply exec_svc_update).
  - unfold exec_svc, unit_of in Hc. binds Hc. injection Hc as <-.
    match goal with Hs : Register _ _ _ _ = _ |- _ =>
      apply Register_ok in Hs as [(row & ? & ? & _ & ?)|(? & _)] end; [right|by left].
    split; [done|]. eauto 10.
  - left. unfold exec_svc, unit_of in Hc. binds Hc. injection Hc as <-.
    match goal with Hs : CreateRule _ _ _ = _ |- _ => by apply CreateRule_ok in Hs end.
  - left. by apply RetryFailure_ok in Hc.
Qed.
End successful.

(** ** The loops *)

Section loops.
Context `{Env, !Sequential H, !EnvLaws H} (writer : Writer).

(** [item] is what a query read from a row of the tables. *)
Definition read_from (d : DB) (item : ComplianceCase) : Prop :=
  ∃ row, row ∈ db_items d ∧ scanItem row = Ok item.

Lemma escalateItem_ok ext maxLevel item now w w' esc :
  read_from (w_db w) item → escalateItem writer ext maxLevel item now w = (w', Ok esc) →
  db_step (w_db w) (LEscalate (ic_ID item)) (w_db w') ∧ es_ItemID esc = ic_ID item.
Proof.
  intros (row & Hrow & Hscan) He. unfold escalateItem in He. binds He. guards.
  apply scanItem_inv in Hscan as (Hid & Href & Hst & Hlead & Hver & Hlvl & _ & Hreg & _).
  match goal with Ht : TransitionTo _ _ = Ok _ |- _ => apply TransitionTo_ok in Ht as [Hmay ->] end.
  apply WithTx_ok in He as (w1 & w2 & Hw1 & Htx & Hw2). binds Htx. simpl in *.
  match goal with Hs : SaveEscalation _ _ _ = _ |- _ =>
    apply SaveEscalation_ok in Hs as (p1 & -> & _ & Hdb1) end.
  match goal with Hs : Tx_MarkAssignmentSuperseded _ _ = _ |- _ =>
    apply MarkSuperseded_ok in Hs as Hdb2 end.
  match goal with Hs : SaveAssignment _ _ _ = _ |- _ =>
    apply SaveAssignment_ok in Hs as (p2 & Hrf & Hdb3) end.
  match goal with Hs : Tx_UpdateItem _ _ _ = _ |- _ =>
    apply UpdateItem_ok in Hs as ((p3 & off & ->) & _ & Hdb4) end.
  match goal with Hs : save_audit _ _ _ _ _ _ _ _ = _ |- _ =>
    apply save_audit_ok in Hs as (a & Ha1 & _ & Ha3 & _ & _ & Hdb5) end.
  rewrite Hdb2, Hdb1 in Hrf. simpl in Hrf. rewrite update_where_proj in Hrf by (by intros []).
  rewrite Hw2, Hdb5, Hdb4, Hdb3, Hdb2, Hdb1. kept. rewrite Hw1 in *.
  repeat match goal with E : w_db ?x = w_db _ |- _ => rewrite E in *; clear E end.
  rewrite Hid in *. simpl in *. split; [|done].
  refine (ds_escalate (w_db w) row _ _ _ a maxLevel Hrow _ _ _ _ _ _ _ _ _ _ _ _ _ _ _ _ _);
    simpl; try done; unfold may; rewrite <- ?Hst, <- ?Hlvl, <- ?Hlead; first [done|congruence].
Qed.

Lemma escalateItem_err ext maxLevel item now : err_keeps_db (escalateItem writer ext maxLevel item now).
Proof. unfold escalateItem. auto 20 with svc_db world_db nocore. Qed.

(** A step about one case leaves the rows of the others alone. *)
Lemma put_item_other item row d :
  row ∈ db_items d → ic_ID row ≠ ic_ID item → row ∈ db_items (put_item item d).
Proof.
  intros Hrow Hne. simpl. apply elem_of_update_where. exists row. split; [done|].
  by rewrite bool_decide_false.
Qed.
Lemma escalate_frame d id d' row :
  db_step d (LEscalate id) d' → row ∈ db_items d → ic_ID row ≠ id → row ∈ db_items d'.
Proof.
  intros Hs Hrow Hne. inversion Hs; subst. apply (put_item_other _ _ _ Hrow). congruence.
Qed.

Lemma recordPermanentFailure_ok maxLevel item now cause w w' u :
  recordPermanentFailure writer maxLevel item now cause w = (w', Ok u) →
  db_step (w_db w) LFailure (w_db w').
Proof.
  unfold recordPermanentFailure. intros Hr. binds Hr.
  apply WithTx_ok in Hr as (w1 & w2 & Hw1 & Htx & Hw2). binds Htx.
  match goal with Hs : SaveFailure _ _ _ = _ |- _ => apply SaveFailure_ok in Hs as (_ & Hdb1) end.
  match goal with Hs : save_audit _ _ _ _ _ _ _ _ = _ |- _ =>
    apply save_audit_ok in Hs as (a & _ & _ & _ & _ & _ & Hdb2) end.
  kept. rewrite Hw2, Hdb2, Hdb1, Hw1.
  repeat match goal with E : w_db ?x = w_db _ |- context [w_db ?x] => rewrite E end.
  by apply ds_failure.
Qed.
Lemma recordPermanentFailure_err maxLevel item now cause :
  err_keeps_db (recordPermanentFailure writer maxLevel item now cause).
Proof. unfold recordPermanentFailure. auto 20 with svc_db world_db nocore. Qed.
End loops.
