(* ===== verification/ServiceInv.v ===== *)
(** * The compliance tables: invariant and history

    What every sequence of committed transactions ([db_step]) maintains, and
    what it never changes or takes away. *)
From stdpp Require Import relations.
From S2P Require Import Prelude GoErrors GoStrings GoTime Domain Dispatch World Shard.
From S2P Require Import Index Repo AuditLog Services Worker StoreFacts ServiceSpec.

(** ** The invariant *)

(** The current referrals of a case. *)
Definition current_for (id : string) (d : DB) : list Referral :=
  List.filter (λ r, bool_decide (rf_ItemID r = id) && rf_IsCurrent r) (db_assignments d).

(** A terminal status has its time stamp, the level is an [int]. *)
Definition row_ok (row : ComplianceCase) : Prop :=
  (ic_Status row = StatusCompleted → is_Some (ic_CompletedAt row)) ∧
  (ic_Status row = StatusCancelled → is_Some (ic_CancelledAt row)) ∧
  is_i64 (ic_EscalationLevel row).

(** A rule of the tables that was in force at [t]. *)
Definition rule_since (d : DB) (version : Z) (t : Time) : Prop :=
  ∃ rule, rule ∈ db_rules d ∧ ru_Version rule = version ∧ ru_EffectiveFrom rule ≤ t.

Record db_inv (d : DB) : Prop := {
  inv_ids : NoDup (ic_ID <$> db_items d);
  inv_refs : NoDup (ic_ExternalRef <$> db_items d);
  inv_versions : NoDup (ru_Version <$> db_rules d);
  inv_referral_ids : NoDup (rf_ID <$> db_assignments d);
  (** every referral is about a case *)
  inv_owner : ∀ r, r ∈ db_assignments d → rf_ItemID r ∈ ic_ID <$> db_items d;
  (** every case has one current referral, which says where it is routed *)
  inv_current : ∀ row, row ∈ db_items d → ∃ r, current_for (ic_ID row) d = [r] ∧ routes r row;
  inv_row_ok : ∀ row, row ∈ db_items d → row_ok row;
  (** no case is routed under a rule younger than itself *)
  inv_rule : ∀ row, row ∈ db_items d →
    rule_since d (ic_RuleVersion row) (ic_RegisteredAt row);
  inv_audited : ∀ row, row ∈ db_items d →
    ∃ a, a ∈ db_audit d ∧ au_EntityID a = ic_ID row ∧ au_Action a = ActionRegister
}.

(** ** Rows *)

Lemma NoDup_snoc {A} (l : list A) x : NoDup l → x ∉ l → NoDup (l ++ [x]).
Proof.
  intros Hl Hx. apply NoDup_app. split_and!; [done| |apply NoDup_singleton].
  intros y Hy. rewrite list_elem_of_singleton. by intros ->.
Qed.
Lemma NoDup_proj_eq {A B} (f : A → B) (l : list A) x y :
  NoDup (f <$> l) → x ∈ l → y ∈ l → f x = f y → x = y.
Proof.
  induction l as [|z l IH]; simpl; intros Hnd Hx Hy Hf; [by apply elem_of_nil in Hx|].
  apply NoDup_cons in Hnd as [Hz Hnd].
  apply elem_of_cons in Hx, Hy. destruct Hx as [->|Hx], Hy as [->|Hy]; try done.
  - destruct Hz. rewrite Hf. by apply list_elem_of_fmap_2.
  - destruct Hz. rewrite <- Hf. by apply list_elem_of_fmap_2.
  - by apply IH.
Qed.

Lemma put_item_ids item d : ic_ID <$> db_items (put_item item d) = ic_ID <$> db_items d.
Proof. by apply update_where_proj; intros []. Qed.
Lemma put_item_refs item d :
  ic_ExternalRef <$> db_items (put_item item d) = ic_ExternalRef <$> db_items d.
Proof. by apply update_where_proj; intros []. Qed.

(** The rows after an update: the case's own row, rewritten, and the others. *)
Lemma put_item_rows item row d x :
  NoDup (ic_ID <$> db_items d) → row ∈ db_items d → ic_ID item = ic_ID row →
  x ∈ db_items (put_item item d) →
  x = item_update item row ∨ x ∈ db_items d ∧ ic_ID x ≠ ic_ID row.
Proof.
  intros Hnd Hrow Hid (row' & Hrow' & ->)%elem_of_update_where. case_bool_decide as Heq.
  - left. f_equal. by apply (NoDup_proj_eq ic_ID (db_items d)); [..|congruence].
  - right. split; [done|congruence].
Qed.
Lemma put_item_row item row d :
  row ∈ db_items d → ic_ID item = ic_ID row → item_update item row ∈ db_items (put_item item d).
Proof.
  intros Hrow Hid. apply elem_of_update_where. exists row. split; [done|].
  by rewrite bool_decide_true.
Qed.

(** The current referrals after a change of routing. *)
Lemma filter_none {A} (f : A → bool) l : (∀ x, x ∈ l → f x = false) → List.filter f l = [].
Proof.
  induction l as [|x l IH]; intros Hf; [done|]. simpl.
  rewrite (Hf x) by by left. apply IH. intros y Hy. apply Hf. by right.
Qed.
Lemma current_supersede id id' d :
  current_for id' (supersede id d) = if bool_decide (id' = id) then [] else current_for id' d.
Proof.
  unfold current_for, supersede, update_where, fmap. simpl.
  induction (db_assignments d) as [|r l IH]; simpl; [by case_bool_decide|].
  destruct (decide (id' = id)) as [->|Hne];
    [rewrite (bool_decide_true (id = id)) in IH |- * by done
    |rewrite (bool_decide_false (id' = id)) in IH |- * by done];
    destruct (decide (rf_ItemID r = id)) as [Hr|Hr], (rf_IsCurrent r) eqn:Hcur;
    rewrite ?(bool_decide_true _ Hr), ?(bool_decide_false _ Hr); simpl;
    rewrite ?Hcur, ?andb_false_r, ?andb_true_r, ?IH; try done; case_bool_decide; congruence.
Qed.
Lemma current_add_referral r id d :
  current_for id (add_referral r d) =
  current_for id d ++ (if bool_decide (rf_ItemID r = id) && rf_IsCurrent r then [r] else []).
Proof. unfold current_for, add_referral. simpl. rewrite List.filter_app. simpl. by case_match. Qed.

(** ** Preservation *)

(** The item of a committed update carries the stamp of its status. *)
Lemma case_change_row_ok c row item audit :
  row_ok row → case_change c row item audit → row_ok item.
Proof.
  intros (_ & _ & Hlvl) ((_ & _ & _ & _ & Hl & _) & _ & _ & Hc). rewrite <- Hl in Hlvl.
  destruct c; try done; destruct_and!; split_and!; intros; try done; try congruence.
  all: exfalso;
    match goal with Ht : IsTerminal _ = false, Hs : ic_Status _ = ic_Status _ |- _ =>
      rewrite <- Hs in Ht end.
  all: match goal with Ht : IsTerminal ?s = false, Hs : ?s = _ |- _ => by rewrite Hs in Ht end.
Qed.

(** An update of a case row, its routing unchanged or a new referral added. *)
Lemma inv_put_item d d1 item row :
  db_inv d → row ∈ db_items d → ic_ID item = ic_ID row → row_ok item →
  rule_since d (ic_RuleVersion item) (ic_RegisteredAt row) →
  db_items d1 = db_items d → db_rules d1 = db_rules d → db_audit d1 = db_audit d →
  NoDup (rf_ID <$> db_assignments d1) →
  (∀ r, r ∈ db_assignments d1 → rf_ItemID r ∈ ic_ID <$> db_items d) →
  (∀ id, id ≠ ic_ID row → current_for id d1 = current_for id d) →
  (∃ r, current_for (ic_ID row) d1 = [r] ∧ routes r item) →
  db_inv (put_item item d1).
Proof.
  intros Hinv Hrow Hid Hst Hsince Hi Hr Ha Hrf Hown Hother (r & Hcur & Hroutes).
  assert (∀ x, x ∈ db_items (put_item item d1) →
    x = item_update item row ∨ x ∈ db_items d ∧ ic_ID x ≠ ic_ID row) as Hrows.
  { intros x Hx. apply put_item_rows; [apply Hinv|done..|]. revert Hx. simpl. by rewrite Hi. }
  simpl in Hrows. rewrite Hi in Hrows.
  split; rewrite ?put_item_ids, ?put_item_refs; simpl; rewrite ?Hi, ?Hr; try apply Hinv; try done.
  - intros x [->|[Hx Hne]]%Hrows.
    + exists r. split; [done|]. destruct Hroutes as (? & ? & ? & ?). split_and!; simpl; congruence.
    + destruct (inv_current _ Hinv x Hx) as (r' & Hc & ?). exists r'. split; [|done].
      rewrite <- Hc. by apply Hother.
  - intros x [->|[Hx Hne]]%Hrows; [exact Hst|by apply Hinv].
  - unfold rule_since. simpl. rewrite Hr. intros x [->|[Hx Hne]]%Hrows; [exact Hsince|by apply Hinv].
  - rewrite Ha. intros x [->|[Hx Hne]]%Hrows; [exact (inv_audited _ Hinv row Hrow)|by apply Hinv].
Qed.

(** Re-routing a case: its referrals are superseded, a new one is added. *)
Lemma inv_reroute d d1 item row r :
  db_inv d → row ∈ db_items d → ic_ID item = ic_ID row → row_ok item →
  rule_since d (ic_RuleVersion item) (ic_RegisteredAt row) →
  db_items d1 = db_items d → db_rules d1 = db_rules d → db_audit d1 = db_audit d →
  db_assignments d1 = db_assignments d → (rf_ID r ∉ rf_ID <$> db_assignments d) → routes r item →
  db_inv (put_item item (add_referral r (supersede (ic_ID row) d1))).
Proof.
  intros Hinv Hrow Hid Hst Hsince Hi Hr Ha Has Hfresh Hroutes.
  assert (∀ id, current_for id d1 = current_for id d) as Hcur
    by (intros; unfold current_for; by rewrite Has).
  pose proof Hroutes as (Hr1 & Hr2 & _).
  apply (inv_put_item d _ item row); try done; simpl; rewrite ?Has.
  - rewrite fmap_app, update_where_proj by (by intros []).
    apply NoDup_snoc; [apply Hinv|done].
  - intros x. rewrite elem_of_app, list_elem_of_singleton, elem_of_update_where.
    intros [(x0 & Hx0 & ->)| ->].
    + apply inv_owner in Hx0; [|done]. by case_match.
    + rewrite Hr1, Hid. by apply list_elem_of_fmap_2.
  - intros id Hne. rewrite current_add_referral, current_supersede, Hr1, Hid, Hcur.
    rewrite !bool_decide_false by congruence. simpl. apply app_nil_r.
  - exists r. split; [|done]. rewrite current_add_referral, current_supersede, Hr1, Hid, Hr2.
    by rewrite !bool_decide_true.
Qed.

(** Entries of the other tables do not matter. *)
Lemma inv_add_audit a d : db_inv d → db_inv (add_audit a d).
Proof.
  intros Hinv. split; try apply Hinv. intros row Hrow.
  destruct (inv_audited _ Hinv row Hrow) as (x & Hx & ?). exists x. split; [|done].
  simpl. set_solver.
Qed.
Lemma inv_same d d' :
  db_inv d → db_items d' = db_items d → db_rules d' = db_rules d →
  db_assignments d' = db_assignments d → db_audit d' = db_audit d → db_inv d'.
Proof.
  intros Hinv Hi Hr Ha Hau.
  split; unfold current_for, rule_since; rewrite ?Hi, ?Hr, ?Ha, ?Hau; apply Hinv.
Qed.
Lemma inv_rules d d' :
  db_inv d → (∀ v t, rule_since d v t → rule_since d' v t) → db_items d' = db_items d → db_assignments d' = db_assignments d →
  db_audit d' = db_audit d → NoDup (ru_Version <$> db_rules d') → db_inv d'.
Proof.
  intros Hinv Hs Hi Ha Hau Hr.
  split; unfold current_for; rewrite ?Hi, ?Ha, ?Hau; try done; try apply Hinv.
  intros row Hrow. by apply Hs, Hinv.
Qed.

Lemma inv_register d item referral audit :
  db_inv d → row_ok item →
  (ic_ID item ∉ ic_ID <$> db_items d) → (ic_ExternalRef item ∉ ic_ExternalRef <$> db_items d) →
  (rf_ID referral ∉ rf_ID <$> db_assignments d) → routes referral item →
  rule_since d (ic_RuleVersion item) (ic_RegisteredAt item) →
  au_EntityID audit = ic_ID item → au_Action audit = ActionRegister →
  db_inv (add_audit audit (add_referral referral (d <| db_items := db_items d ++ [item] |>))).
Proof.
  intros Hinv Hst Hid Href Hrf Hroutes Hsince Ha1 Ha2. pose proof Hroutes as (Hr1 & Hr2 & _).
  assert (∀ row, row ∈ db_items d → ic_ID row ≠ ic_ID item) as Hne.
  { intros row Hrow Heq. destruct Hid. rewrite <- Heq. by apply list_elem_of_fmap_2. }
  split; simpl; rewrite ?fmap_app; simpl; try (apply NoDup_snoc; [apply Hinv|done]); try apply Hinv.
  - intros r. rewrite !elem_of_app, !list_elem_of_singleton. intros [Hr| ->]; [|by right].
    left. by apply (inv_owner _ Hinv).
  - intros row [Hrow| ->%list_elem_of_singleton]%elem_of_app.
    + destruct (inv_current _ Hinv row Hrow) as (r & Hc & ?). exists r. split; [|done].
      change (current_for (ic_ID row) (add_referral referral d) = [r]).
      rewrite current_add_referral, Hr1, bool_decide_false by (intros Heq; by apply (Hne row)).
      by rewrite Hc.
    + exists referral. split; [|done].
      change (current_for (ic_ID item) (add_referral referral d) = [referral]).
      rewrite current_add_referral, Hr1, Hr2, bool_decide_true by done.
      unfold current_for. rewrite filter_none; [done|]. intros r Hr.
      rewrite bool_decide_false; [done|]. intros Heq. apply Hid. rewrite <- Heq.
      by apply (inv_owner _ Hinv).
  - intros row [Hrow| ->%list_elem_of_singleton]%elem_of_app; [by apply Hinv|done].
  - intros row [Hrow| ->%list_elem_of_singleton]%elem_of_app; [by apply Hinv|done].
  - intros row [Hrow| ->%list_elem_of_singleton]%elem_of_app; [|exists audit; set_solver].
    destruct (inv_audited _ Hinv row Hrow) as (x & Hx & ?). exists x. split; [|done].
    set_solver.
Qed.

Lemma routed_since d item :
  routed_by_rule d item → rule_since d (ic_RuleVersion item) (ic_RegisteredAt item).
Proof. intros (rule & ? & ? & _ & _ & ?). by exists rule. Qed.
Lemma since_add rule d v t :
  rule_since d v t → rule_since (d <| db_rules := db_rules d ++ [rule] |>) v t.
Proof. intros (x & Hx & ?). exists x. split; [simpl; set_solver|done]. Qed.
Lemma since_supersede version wall d v t :
  rule_since d v t → rule_since (supersede_rule version wall d) v t.
Proof.
  intros (x & Hx & ?). eexists. split; [apply elem_of_update_where; by exists x|]. by case_match.
Qed.

(** Every committed transaction keeps the invariant. *)
Lemma db_step_inv d l d' : db_inv d → db_step d l d' → db_inv d'.
Proof.
  intros Hinv Hs. destruct Hs.
  - apply inv_register; try done; [|by eapply routed_since]. split_and!; [congruence..|].
    match goal with E : ic_EscalationLevel _ = 0 |- _ => by rewrite E end.
  - apply inv_add_audit.
    match goal with Hc : case_change _ _ _ _ |- _ =>
      pose proof (case_change_row_ok _ _ _ _ (inv_row_ok _ Hinv row ltac:(done)) Hc); destruct Hc as ((Hid & _ & Hl & Hv & _ & _ & Hreg) & _) end.
    apply (inv_put_item d d item row); try done; try apply Hinv.
    { rewrite Hv. by apply Hinv. }
    destruct (inv_current _ Hinv row) as (r & Hc & Hr); [done|]. exists r. split; [done|].
    destruct Hr as (? & ? & ? & ?). split_and!; congruence.
  - apply inv_add_audit, (inv_rules d); try done; [by apply since_add|]. simpl. rewrite fmap_app.
    apply NoDup_snoc; [apply Hinv|done].
  - apply inv_add_audit. subst d1. apply (inv_rules (add_audit audit1 d)); try done;
      [by apply inv_add_audit|by intros v t Hs; apply since_add, since_supersede|]. simpl. rewrite fmap_app, update_where_proj by (by intros []).
    apply NoDup_snoc; [apply Hinv|done].
  - by apply inv_add_audit, (inv_same d).
  - apply inv_add_audit, (inv_reroute d); try done.
    + split_and!; [congruence..|].
      match goal with E : ic_EscalationLevel _ = _ +ᵢ 1 |- _ => by rewrite E end.
    + match goal with E : ic_RuleVersion item = _ |- _ => rewrite E end. by apply Hinv.
  - apply inv_add_audit, (inv_reroute d); try done.
    + split_and!; [congruence..|].
      match goal with E : ic_EscalationLevel item = ic_EscalationLevel _ |- _ => rewrite E end.
      by apply Hinv.
    + match goal with E : ic_RegisteredAt item = _ |- _ => rewrite <- E end. by apply routed_since.
  - by apply inv_add_audit, (inv_same d).
  - by apply (inv_same d).
  - by apply inv_add_audit, (inv_same d).
Qed.
Lemma empty_inv : db_inv empty_db.
Proof. split; simpl; try apply NoDup_nil_2; set_solver. Qed.

(** ** History *)

(** What later transactions leave of the tables: every case is still there
    under its ID and reference, its status has only moved along the status
    machine; the logs are append-only; a referral is never changed but for
    being superseded. *)
Record later (d d' : DB) : Prop := {
  later_cases : ∀ row, row ∈ db_items d → ∃ row', row' ∈ db_items d' ∧
    ic_ID row' = ic_ID row ∧ ic_ExternalRef row' = ic_ExternalRef row ∧
    ic_RegisteredAt row' = ic_RegisteredAt row ∧ ic_RegisteredBy row' = ic_RegisteredBy row ∧
    rtc case_step (ic_Status row) (ic_Status row');
  later_audit : db_audit d `prefix_of` db_audit d';
  later_escalations : db_escalations d `prefix_of` db_escalations d';
  later_batches : db_batches d `prefix_of` db_batches d';
  later_referrals :
    (λ r, r <| rf_IsCurrent := false |>) <$> db_assignments d `prefix_of`
    (λ r, r <| rf_IsCurrent := false |>) <$> db_assignments d';
  later_rules : ru_Version <$> db_rules d `prefix_of` ru_Version <$> db_rules d';
  later_failures : pf_ID <$> db_failures d `prefix_of` pf_ID <$> db_failures d'
}.

#[export] Instance later_refl : Reflexive later.
Proof. intros d. split; try done. intros row Hrow. exists row. split_and!; done. Qed.
#[export] Instance later_trans : Transitive later.
Proof.
  intros d1 d2 d3 H1 H2. split;
    try (etransitivity; [apply H1|apply H2]).
  intros row Hrow. destruct (later_cases _ _ H1 row Hrow) as (r1 & Hr1 & ? & ? & ? & ? & ?).
  destruct (later_cases _ _ H2 r1 Hr1) as (r2 & Hr2 & ? & ? & ? & ? & ?).
  exists r2. split_and!; try done; try congruence. by etransitivity.
Qed.

Lemma may_rtc from to : may from to → rtc case_step from to.
Proof. intros [->|Hs]; [done|by apply rtc_once]. Qed.

Lemma case_change_status c row item audit :
  case_change c row item audit → rtc case_step (ic_Status row) (ic_Status item).
Proof.
  intros (_ & _ & _ & Hc). destruct c; try done; destruct_and!;
    match goal with E : ic_Status item = _ |- _ => rewrite E end; try done;
    try by apply may_rtc.
  etransitivity; [by apply may_rtc|]. by apply rtc_once.
Qed.
Lemma reevaluable_rtc s : isReevaluable s = true → rtc case_step s StatusAdjudicated.
Proof.
  unfold isReevaluable, reevaluableStatuses. simpl. intros Hs. guards.
  destruct Hs as [->|[->|?]]; [by apply rtc_once|done|done].
Qed.

Lemma later_put_item item row d row0 :
  NoDup (ic_ID <$> db_items d) → row ∈ db_items d → ic_ID item = ic_ID row →
  rtc case_step (ic_Status row) (ic_Status item) → row0 ∈ db_items d →
  ∃ row', row' ∈ db_items (put_item item d) ∧
    ic_ID row' = ic_ID row0 ∧ ic_ExternalRef row' = ic_ExternalRef row0 ∧
    ic_RegisteredAt row' = ic_RegisteredAt row0 ∧ ic_RegisteredBy row' = ic_RegisteredBy row0 ∧
    rtc case_step (ic_Status row0) (ic_Status row').
Proof.
  intros Hnd Hrow Hid Hst Hrow0. destruct (decide (ic_ID row0 = ic_ID row)) as [Heq|Hne].
  - assert (row0 = row) as -> by by apply (NoDup_proj_eq ic_ID (db_items d)).
    exists (item_update item row). split; [by apply put_item_row|done].
  - exists row0. split; [|done]. apply put_item_other; [done|congruence].
Qed.

Lemma later_case_same d d' row :
  db_items d' = db_items d → row ∈ db_items d → ∃ row', row' ∈ db_items d' ∧
    ic_ID row' = ic_ID row ∧ ic_ExternalRef row' = ic_ExternalRef row ∧
    ic_RegisteredAt row' = ic_RegisteredAt row ∧ ic_RegisteredBy row' = ic_RegisteredBy row ∧
    rtc case_step (ic_Status row) (ic_Status row').
Proof. intros -> Hrow. by exists row. Qed.

Lemma db_step_later d l d' : db_inv d → db_step d l d' → later d d'.
Proof.
  intros Hinv Hs. pose proof (inv_ids _ Hinv) as Hnd.
  destruct Hs; split; simpl; rewrite ?fmap_app, ?update_where_proj by (by intros []);
    try done; try (by rewrite <- ?app_assoc; apply prefix_app_r); intros row0 Hrow0;
    try by apply (later_case_same d).
  - exists row0. split_and!; try done. set_solver.
  - match goal with Hc : case_change _ _ _ _ |- _ =>
      pose proof (case_change_status _ _ _ _ Hc); destruct Hc as ((Hid & _) & _) end.
    by apply (later_put_item item row d).
  - apply (later_put_item item row d); try done.
    match goal with E : ic_Status item = _ |- _ => rewrite E end. by apply may_rtc.
  - apply (later_put_item item row d); try done.
    match goal with E : ic_Status item = _ |- _ => rewrite E end. by apply reevaluable_rtc.
Qed.

Lemma steps_inv d ls d' : db_inv d → steps db_step d ls d' → db_inv d'.
Proof. intros Hinv Hs. eapply steps_invariant; [apply db_step_inv|done..]. Qed.
Lemma steps_later d ls d' : db_inv d → steps db_step d ls d' → later d d'.
Proof.
  intros Hinv Hs. induction Hs as [|d1 l d2 ls d3 Hs _ IH]; [done|].
  transitivity d2; [by eapply db_step_later|]. by eapply IH, db_step_inv.
Qed.
