(* ===== verification/ServiceLoops.v ===== *)
(** * The loops of the compliance services

    The escalation check, the batch import and the re-evaluation sweep as
    sequences of committed transactions. *)
From stdpp Require Import sorting relations.
From S2P Require Import Prelude GoErrors GoStrings GoTime Domain Dispatch World Shard.
From S2P Require Import Records Index Repo AuditLog Services Worker StoreFacts ServiceSpec ServiceInv.

(** ** Which errors an operation can end with *)

Definition never_is {St A} (t : domain_error) (m : op St derror A) : Prop :=
  ∀ s s' e, m s = (s', Err e) → errors_is e t = false.

Create HintDb err_db.

Section never.
Context `{Env} (t : domain_error).

Lemma never_bind {A B} (m : dop A) (f : A → dop B) :
  never_is t m → (∀ a, never_is t (f a)) → never_is t (m ≫= f).
Proof. intros Hm Hf w w' e [He|(w1 & a & _ & He)]%bind_err; [by eapply Hm|by eapply Hf]. Qed.
Lemma never_wrapping {A} what (m : dop A) : never_is t m → never_is t (wrapping (errorf what) m).
Proof. intros Hm w w' e (e0 & He & ->)%wrapping_err. by apply Hm in He. Qed.
Lemma never_ret {A} (a : A) : never_is t (mret a : dop A).
Proof. by intros w w' e [=]. Qed.
Lemma never_modify f : never_is t (modify f : dop ()).
Proof. by intros w w' e [=]. Qed.
Lemma never_gets {A} (f : World → A) : never_is t (gets f : dop A).
Proof. by intros w w' e [=]. Qed.
Lemma never_ask {A} (f : nat → A) : never_is t (ask f).
Proof. by intros w w' e [=]. Qed.
Lemma never_uuid : never_is t new_uuid.
Proof. apply never_ask. Qed.
Lemma never_clock : never_is t clock_now.
Proof. apply never_ask. Qed.
Lemma never_interleave : never_is t interleave.
Proof. by intros w w' e [=]. Qed.
Lemma never_poll : never_is t poll_ctx.
Proof. apply never_bind; [apply never_ask|]. by intros [c|] w w' e [= <- <-]. Qed.
Lemma never_attempt what : never_is t (attempt (errorf what)).
Proof. apply never_bind; [apply never_ask|]. by intros [[x|x]|] w w' e [= <- <-]. Qed.
Lemma never_begin : never_is t (attempt (λ e, errorf "begin index tx" (errorf "begin tx" e))).
Proof. apply never_bind; [apply never_ask|]. by intros [[x|x]|] w w' e [= <- <-]. Qed.
Lemma never_unique b what column : never_is t (ensure b (unique_violation what column) : dop ()).
Proof. intros w w' e He. unfold ensure in He. destruct b; [done|]. by injection He as <- <-. Qed.
Lemma never_ensure b s : s ≠ t → never_is t (ensure b (Sentinel s) : dop ()).
Proof.
  intros Hne w w' e He. unfold ensure in He. destruct b; [done|]. injection He as <- <-. simpl.
  by apply bool_decide_false.
Qed.
Lemma never_transition i to :
  ErrInvalidTransition ≠ t → never_is t (lift (TransitionTo i to) : dop ComplianceCase).
Proof.
  intros Hne w w' e He. injection He as _ He. revert He.
  unfold TransitionTo, ValidateTransition. repeat case_bool_decide; try done;
    destruct (CanTransition _ _); try done; intros [= <-]; simpl; by apply bool_decide_false.
Qed.
Lemma never_WithTx {A} (fn : dop A) : never_is t fn → never_is t (WithTx fn).
Proof.
  intros Hfn. apply never_bind; [apply never_interleave|intros _].
  apply never_bind; [apply never_begin|intros _]. intros w w' e He. unfold in_tx in He.
  destruct (fn w) as [w1 [a|e1]] eqn:Hf; [|injection He as _ <-; by eapply Hfn].
  destruct (attempt _ w1) as [w2 [u|e2]] eqn:Ha; [done|]. injection He as _ <-.
  by eapply never_attempt.
Qed.
End never.

#[export] Hint Resolve never_wrapping never_ret never_modify never_gets never_ask never_uuid never_clock
  never_interleave never_poll never_attempt never_unique never_WithTx : err_db.
#[export] Hint Resolve never_bind | 2 : err_db.
#[export] Hint Extern 1 (never_is _ (lift (TransitionTo _ _))) =>
  by apply never_transition : err_db.
#[export] Hint Extern 1 (never_is _ (ensure _ (Sentinel _))) => by apply never_ensure : err_db.

Section never_store.
Context `{Env} (writer : Writer) (t : domain_error).

Lemma never_write_file path before line what :
  never_is t (write_file path before line (errorf what)).
Proof.
  apply never_bind; [apply never_ask|intros short]. apply never_bind; [apply never_ask|].
  by intros [[x|x]|] w w' e [= <- <-].
Qed.
Lemma never_marshal {R} `{JsonRecord R} what (r : R) : never_is t (marshal what r).
Proof.
  apply never_bind; [apply never_ask|intros nil].
  by destruct (Marshal nil r) as [b|text]; intros w w' e [= <- <-].
Qed.
#[local] Hint Resolve never_write_file never_marshal : err_db.
Lemma never_Append ty at_ data : never_is t (Append writer ty at_ data).
Proof. unfold Append. destruct (syncOnWrite writer); auto 20 with err_db nocore. Qed.
#[local] Hint Resolve never_Append : err_db.
Lemma never_save_audit eid ety action actor at_ details :
  never_is t (save_audit writer eid ety action actor at_ details).
Proof. unfold save_audit, SaveAudit, InsertAudit. auto 20 with err_db nocore. Qed.
Lemma never_SaveAssignment a : never_is t (SaveAssignment writer a).
Proof. unfold SaveAssignment, InsertAssignment. auto 20 with err_db nocore. Qed.
Lemma never_SaveEscalation e : never_is t (SaveEscalation writer e).
Proof. unfold SaveEscalation, InsertEscalation. auto 20 with err_db nocore. Qed.
Lemma never_MarkSuperseded i : never_is t (Tx_MarkAssignmentSuperseded i).
Proof. unfold Tx_MarkAssignmentSuperseded, MarkAssignmentSuperseded. auto with err_db nocore. Qed.
Lemma never_UpdateItem item : ErrNotFound ≠ t → never_is t (Tx_UpdateItem writer item).
Proof. intros Ht. unfold Tx_UpdateItem, UpdateItem. auto 20 with err_db nocore. Qed.
End never_store.
#[export] Hint Resolve never_Append never_marshal never_save_audit never_SaveAssignment never_SaveEscalation
  never_MarkSuperseded : err_db.
#[export] Hint Extern 1 (never_is _ (Tx_UpdateItem _ _)) => by apply never_UpdateItem : err_db.

(** ** The escalation check *)

Section scans.
Lemma scan_all_proj {A B} (proj : A → B) (scan : A → result derror A) rows xs :
  (∀ row x, scan row = Ok x → proj x = proj row) →
  scan_all scan rows = Ok xs → proj <$> xs = proj <$> rows.
Proof.
  intros Hp. revert xs. induction rows as [|row rows IH]; intros xs Hs; simpl in Hs.
  - by injection Hs as <-.
  - unfold mbind, result_bind in Hs. destruct (scan row) as [y|] eqn:Hrow; [|done].
    destruct (scan_all scan rows) as [ys|]; [|done]. injection Hs as <-.
    rewrite !fmap_cons. f_equal; [by apply Hp|by apply IH].
Qed.
Lemma scan_item_ids `{Zone} rows xs : scan_all scanItem rows = Ok xs → ic_ID <$> xs = ic_ID <$> rows.
Proof. apply scan_all_proj. by intros row x (? & _)%scanItem_inv. Qed.
Lemma NoDup_filter_proj {A B} (proj : A → B) (f : A → bool) l :
  NoDup (proj <$> l) → NoDup (proj <$> List.filter f l).
Proof.
  induction l as [|x l IH]; [done|]. rewrite fmap_cons. intros [Hx Hl]%NoDup_cons. simpl.
  destruct (f x); [|by apply IH]. rewrite fmap_cons. apply NoDup_cons. split; [|by apply IH].
  intros (y & Heq & Hy)%list_elem_of_fmap. apply list_elem_of_In, filter_In in Hy as [Hy _].
  apply Hx. rewrite Heq. apply list_elem_of_fmap_2. by apply list_elem_of_In.
Qed.
End scans.

Section escalation.
Context `{Env, !Sequential H, !EnvLaws H} (writer : Writer) (ext : Duration) (maxLevel : Z).

Lemma FindOverdueItems_ok now w w' overdue :
  FindOverdueItems now maxLevel w = (w', Ok overdue) →
  ∃ rows, rows ≡ₚ List.filter (overdue_where now maxLevel) (db_items (w_db w)) ∧
    scan_all scanItem (merge_sort (asc_by ic_Deadline) rows) = Ok overdue ∧ w_db w' = w_db w.
Proof.
  unfold FindOverdueItems. intros Hf. binds Hf.
  match goal with Hs : select _ _ _ _ = _ |- _ => apply select_ok in Hs as [Hdb Hp] end. eauto.
Qed.

(** The items of the check. *)
Lemma overdue_items now w w' overdue :
  FindOverdueItems now maxLevel w = (w', Ok overdue) → NoDup (ic_ID <$> db_items (w_db w)) →
  ic_ID <$> overdue ≡ₚ ic_ID <$> List.filter (overdue_where now maxLevel) (db_items (w_db w)) ∧
  NoDup (ic_ID <$> overdue) ∧
  Forall (λ item, ∃ row, row ∈ db_items (w_db w) ∧ scanItem row = Ok item ∧
    overdue_where now maxLevel row = true) overdue.
Proof.
  intros (rows & Hp & Hs & _)%FindOverdueItems_ok Hnd.
  assert (ic_ID <$> overdue ≡ₚ
    ic_ID <$> List.filter (overdue_where now maxLevel) (db_items (w_db w))) as Hids.
  { by rewrite (scan_item_ids _ _ Hs), merge_sort_Permutation, Hp. }
  split_and!; [done| |].
  - rewrite Hids. by apply NoDup_filter_proj.
  - apply Forall_forall. intros item Hi.
    destruct (scan_all_elem _ _ _ _ Hs Hi) as (row & Hrow & Hsc).
    rewrite merge_sort_Permutation, Hp, elem_of_filter_bool in Hrow. naive_solver.
Qed.

(** Below the maximum level the escalation of an item never ends with
    [ErrMaxEscalationReached]. *)
Lemma escalateItem_below item now w w' e :
  is_i64 maxLevel → is_i64 (ic_EscalationLevel item) → ic_EscalationLevel item < maxLevel →
  escalateItem writer ext maxLevel item now w = (w', Err e) →
  errors_is e ErrMaxEscalationReached = false.
Proof.
  intros Hm Hl Hlt. assert (ic_EscalationLevel item +ᵢ 1 ≤ maxLevel) as Hle.
  { rewrite i64_id; [lia|]. unfold is_i64 in *. lia. }
  unfold escalateItem. intros [He|(w1 & u & _ & He)]%bind_err.
  { unfold ensure in He. rewrite (proj2 (Z.ltb_ge _ _)) in He by lia. done. }
  revert w1 w' e He. match goal with |- ∀ w w' e, ?m w = _ → _ =>
    enough (never_is ErrMaxEscalationReached m) by done end.
  auto 30 with err_db nocore.
Qed.

Lemma escalate_all_steps overdue now w w' escs e :
  is_i64 maxLevel → Forall (read_from (w_db w)) overdue → NoDup (ic_ID <$> overdue) →
  Forall (λ i, is_i64 (ic_EscalationLevel i) ∧ ic_EscalationLevel i < maxLevel) overdue →
  escalate_all writer ext maxLevel overdue now w = (w', (escs, e)) →
  es_ItemID <$> escs `prefix_of` ic_ID <$> overdue ∧
  steps db_step (w_db w) (LEscalate <$> (es_ItemID <$> escs)) (w_db w') ∧
  (e = None → es_ItemID <$> escs = ic_ID <$> overdue).
Proof.
  intros Hm. revert w escs. induction overdue as [|item overdue IH]; intros w escs Hrd Hnd Hlv He.
  { injection He as <- <- <-. split_and!; try done. constructor. }
  apply Forall_cons in Hrd as [Hitem Hrd], Hlv as [[Hl1 Hl2] Hlv].
  rewrite fmap_cons in Hnd. apply NoDup_cons in Hnd as [Hid Hnd]. simpl in He.
  destruct (escalateItem writer ext maxLevel item now w) as [w1 [esc|e1]] eqn:Hesc.
  - apply escalateItem_ok in Hesc as [Hs Heq]; [|done].
    destruct (escalate_all writer ext maxLevel overdue now w1) as [w2 [es e2]] eqn:Hrest.
    injection He as <- <- <-. apply IH in Hrest as (Hpre & Hst & Hall); [|clear IH|done..].
    + rewrite !fmap_cons, Heq. split_and!; [by apply prefix_cons|by econstructor|].
      intros He2. by rewrite Hall.
    + apply Forall_forall. intros i Hi.
      pose proof (proj1 (Forall_forall _ _) Hrd i Hi) as (row & Hrow & Hsc). exists row.
      split; [|done]. eapply escalate_frame; [done..|].
      apply scanItem_inv in Hsc as (<- & _). intros Heq2. apply Hid. rewrite <- Heq2.
      by apply list_elem_of_fmap_2.
  - rewrite (escalateItem_below _ _ _ _ _ Hm Hl1 Hl2 Hesc) in He. injection He as <- <- <-.
    apply escalateItem_err in Hesc. rewrite Hesc.
    split_and!; [apply prefix_nil|constructor|done].
Qed.
End escalation.

(** ** Batch import *)

(** What a row of the result says of the tables. *)
Definition row_reported (d : DB) (req : RegisterItemRequest) (row : BatchRowResult) : Prop :=
  br_ExternalRef row = rq_ExternalRef req ∧
  (br_Success row = true → br_Error row = "" ∧
     ∃ c, c ∈ db_items d ∧ ic_ID c = br_ItemID row ∧ ic_ExternalRef c = rq_ExternalRef req) ∧
  (br_Success row = false → br_ItemID row = "").

Lemma row_reported_later d d' req row : later d d' → row_reported d req row → row_reported d' req row.
Proof.
  intros Hl (H1 & H2 & H3). split_and!; [done| |done]. intros Hs.
  destruct (H2 Hs) as (He & c & Hc & Hid & Href). split; [done|].
  destruct (later_cases _ _ Hl c Hc) as (c' & Hc' & ? & ? & _). exists c'. split_and!; congruence.
Qed.

Section import.
Context `{Env, !Sequential H, !EnvLaws H} (writer : Writer) (dl : Duration).

Definition register_label (req : RegisterItemRequest) : db_label := LCall (SvcRegister dl req).

(** One row: the request is registered, was registered before, or fails. *)
Lemma Register_row req w w' r :
  Register writer dl req w = (w', r) →
  ∃ ls, ls `sublist_of` [register_label req] ∧ steps db_step (w_db w) ls (w_db w') ∧
    match r with
    | Ok item => ∃ c, c ∈ db_items (w_db w') ∧ ic_ID c = ic_ID item ∧
                   ic_ExternalRef c = rq_ExternalRef req
    | Err _ => ls = []
    end.
Proof.
  destruct r as [item|e]; intros Hr.
  - apply Register_ok in Hr as [(row & Hrow & Href & Hs & Hdb)|(Hs & Href & Hin)].
    + exists []. rewrite Hdb. split_and!; [apply sublist_nil_l|constructor|].
      exists row. apply scanItem_inv in Hs as (-> & _). done.
    + exists [register_label req]. split_and!; [done|by eapply steps_cons, steps_nil|].
      by exists item.
  - apply err_keeps_Register in Hr. exists []. rewrite Hr.
    split_and!; [apply sublist_nil_l|constructor|done].
Qed.

Lemma import_rows_steps reqs i w w' r :
  db_inv (w_db w) → import_rows writer dl i reqs w = (w', r) →
  ∃ rows ls, r = Ok rows ∧ ls `sublist_of` (register_label <$> reqs) ∧
    steps db_step (w_db w) ls (w_db w') ∧ Forall2 (row_reported (w_db w')) reqs rows ∧
    br_RowIndex <$> rows = seqZ i (Z.of_nat (length reqs)).
Proof.
  revert i w w' r. induction reqs as [|req reqs IH]; intros i w w' r Hinv Hi; simpl in Hi.
  { injection Hi as <- <-. exists [], []. split_and!; try done; constructor. }
  destruct (Register writer dl req w) as [w1 rr] eqn:Hr.
  pose proof (Register_row _ _ _ _ Hr) as (ls1 & Hsub1 & Hs1 & Hrow).
  pose proof (steps_inv _ _ _ Hinv Hs1) as Hinv1.
  set (row := {| br_RowIndex := i; br_ExternalRef := rq_ExternalRef req;
    br_Success := match rr with Ok _ => true | Err _ => false end;
    br_ItemID := match rr with Ok item => ic_ID item | Err _ => "" end;
    br_Error := match rr with Ok _ => "" | Err e => error_text domain_error_text e end |}).
  assert (row_reported (w_db w1) req row) as Hrep.
  { unfold row_reported, row. destruct rr; simpl; naive_solver. }
  destruct (import_rows writer dl (i + 1) reqs w1) as [w2 r2] eqn:Hrest.
  pose proof (IH _ _ _ _ Hinv1 Hrest) as (rows & ls & -> & Hsub & Hs & Hall & Hidx).
  assert (w' = w2 ∧ r = Ok (row :: rows)) as [-> ->].
  { destruct rr; rewrite Hrest in Hi; by injection Hi as <- <-. }
  exists (row :: rows), (ls1 ++ ls). split_and!; [done| | | |].
  - rewrite fmap_cons. by apply (sublist_app ls1 [_]).
  - by eapply steps_app.
  - constructor; [|done]. eapply row_reported_later; [by eapply steps_later|done].
  - rewrite fmap_cons, Hidx. cbn [length]. rewrite Nat2Z.inj_succ, (seqZ_cons i) by lia.
    simpl. f_equal. f_equal; lia.
Qed.

Lemma count_rows_total rows :
  count_rows true rows + count_rows false rows = Z.of_nat (length rows).
Proof.
  unfold count_rows. induction rows as [|r rows IH]; [done|]. simpl.
  destruct (br_Success r); simpl; lia.
Qed.
End import.

(** ** The re-evaluation sweep *)

(** The rules a sweep works with are active rules of the tables. *)
Definition rules_of (d : DB) (rules : list Rule) : Prop :=
  ∀ r, r ∈ rules → ∃ row, row ∈ db_rules d ∧ ru_Version row = ru_Version r ∧
    ru_LeadDepartment row = ru_LeadDepartment r ∧ ru_Status row = RuleStatusActive ∧
    ru_EffectiveFrom row = ru_EffectiveFrom r.

(** What a worker did: the cases it re-routed, in order, and its count of
    them. *)
Definition rerouted (k : Worker) (ids : list string) (k' : Worker) : Prop :=
  steps db_step (w_db (wk_world k)) (LReroute <$> ids) (w_db (wk_world k')) ∧
  wk_reevaled k' = i64 (wk_reevaled k + Z.of_nat (length ids)).

Lemma on_world_inv {A} (m : dop A) k k' r :
  on_world m k = (k', r) → ∃ w', m (wk_world k) = (w', r) ∧ k' = k <| wk_world := w' |>.
Proof. unfold on_world. destruct (m (wk_world k)) as [w' r']. intros [= <- <-]. eauto. Qed.

Section sweep.
Context `{Env, !Sequential H, !EnvLaws H} (writer : Writer).

Lemma reroute_ok fresh referral oldVersion now row w w' u :
  row ∈ db_items (w_db w) → scanItem row = Ok fresh → isReevaluable (ic_Status fresh) = true →
  ∀ rules chosen, rules_of (w_db w) rules → adjudicated_by fresh rules chosen referral →
  reroute writer ((routed (fresh <| ic_Status := StatusAdjudicated |>) referral)
    <| ic_UpdatedAt := now |>) referral oldVersion now w = (w', Ok u) →
  db_step (w_db w) (LReroute (ic_ID row)) (w_db w').
Proof.
  intros Hrow Hscan Hre rules chosen Hrules (Hin & Happ & _ & Hri & Hrl & Hrc & Hrv & Hcur) Hr.
  destruct (Hrules _ Hin) as (rrow & Hrrow & Hv & Hl & Ha & Hfrom).
  destruct Happ as [(_ & Hsince & _)%IsActiveAt_spec _].
  apply scanItem_inv in Hscan as (Hid & Href & Hst & Hlead & _ & Hlvl & Hdl & Hreg & _).
  unfold reroute in Hr. apply WithTx_ok in Hr as (w1 & w2 & Hw1 & Htx & Hw2). binds Htx. simpl in *.
  match goal with Hs : Tx_MarkAssignmentSuperseded _ _ = _ |- _ =>
    apply MarkSuperseded_ok in Hs as Hdb2 end.
  match goal with Hs : SaveAssignment _ _ _ = _ |- _ =>
    apply SaveAssignment_ok in Hs as (p2 & Hrf & Hdb3) end.
  match goal with Hs : Tx_UpdateItem _ _ _ = _ |- _ =>
    apply UpdateItem_ok in Hs as ((p3 & off & ->) & _ & Hdb4) end.
  match goal with Hs : save_audit _ _ _ _ _ _ _ _ = _ |- _ =>
    apply save_audit_ok in Hs as (a & Ha1 & _ & Ha3 & _ & _ & Hdb5) end.
  rewrite Hdb2 in Hrf. simpl in Hrf. rewrite update_where_proj in Hrf by (by intros []).
  rewrite Hw2, Hdb5, Hdb4, Hdb3, Hdb2. rewrite Hw1 in *. rewrite Hid in *. simpl in *.
  refine (ds_reroute (w_db w) row _ _ a Hrow _ _ _ _ _ _ _ _ _ _ _ _); simpl; try congruence; try done.
  - split_and!; simpl; congruence.
  - exists rrow. simpl. split_and!; [congruence..|]. by rewrite Hfrom.
Qed.

Lemma keeps_adjudicate_err item rules w w' r : adjudicate item rules w = (w', r) → w_db w' = w_db w.
Proof. intros Ha. exact (keeps_ok _ _ _ _ (keeps_adjudicate item rules) Ha). Qed.

(** The case after the status change of [reevaluateItem]. *)
Lemma reevaluable_transition fresh :
  isReevaluable (ic_Status fresh) = true →
  (if bool_decide (ic_Status fresh = StatusRegistered) then
     match TransitionTo fresh StatusAdjudicated with
     | Ok i => Ok i
     | Err e => Err (errorf ("transition item " +:+ ic_ID fresh) e)
     end
   else Ok fresh) = Ok (fresh <| ic_Status := StatusAdjudicated |>).
Proof.
  unfold isReevaluable, reevaluableStatuses. simpl. intros Hs. guards.
  destruct Hs as [Hs|[Hs|?]]; [..|done]; rewrite Hs; simpl.
  - unfold TransitionTo, ValidateTransition. rewrite Hs. done.
  - destruct fresh. simpl in Hs. by rewrite Hs.
Qed.

Lemma rerouted_none k k' :
  is_i64 (wk_reevaled k) → w_db (wk_world k') = w_db (wk_world k) →
  wk_reevaled k' = wk_reevaled k → rerouted k [] k'.
Proof.
  intros Hi Hdb Hc. split; [rewrite Hdb; constructor|]. simpl. by rewrite Z.add_0_r, i64_id.
Qed.

Lemma reevaluateItem_step item rules current k k' r :
  is_i64 (wk_reevaled k) → rules_of (w_db (wk_world k)) rules →
  reevaluateItem writer item rules current k = (k', r) →
  ∃ ids, rerouted k ids k' ∧
    (ids = [] ∨
     ids = [ic_ID item] ∧ r = Ok () ∧
     ∃ row, row ∈ db_items (w_db (wk_world k)) ∧ ic_ID row = ic_ID item ∧
       ic_RuleVersion row < current).
Proof.
  intros Hi Hrules Hr. unfold reevaluateItem, mbind, op_bind in Hr.
  destruct (on_world _ k) as [k1 [fresh|e]] eqn:Hg; apply on_world_inv in Hg as (w1 & Hg & ->).
  2: { injection Hr as <- <-. exists []. split; [|by left].
       apply rerouted_none; [done| |done]. simpl. by kept. }
  apply wrapping_ok, GetItem_ok in Hg as (Hdb & row & Hrow & Hid & Hscan).
  pose proof (scanItem_inv _ _ Hscan) as (Hfid & _ & _ & _ & Hver & _).
  assert (∀ k2, w_db (wk_world k2) = w_db (wk_world k) → wk_reevaled k2 = wk_reevaled k →
    k' = k2 → ∃ ids, rerouted k ids k' ∧ (ids = [] ∨ ids = [ic_ID item] ∧ r = Ok () ∧
      ∃ row, row ∈ db_items (w_db (wk_world k)) ∧ ic_ID row = ic_ID item ∧
        ic_RuleVersion row < current)) as Hskip.
  { intros k2 Hd2 Hc2 ->. exists []. split; [by apply rerouted_none|by left]. }
  destruct (current <=? ic_RuleVersion fresh) eqn:Hv;
    [by injection Hr as <- <-; eapply Hskip; [..|done]; [exact Hdb|done]|].
  destruct (IsTerminal (ic_Status fresh));
    [by injection Hr as <- <-; eapply Hskip; [..|done]; [exact Hdb|done]|].
  destruct (isReevaluable (ic_Status fresh)) eqn:Hre; simpl in Hr;
    [|by injection Hr as <- <-; eapply Hskip; [..|done]; [exact Hdb|done]].
  unfold on_result in Hr. destruct (on_world _ _) as [k2 ra] eqn:Ha.
  apply on_world_inv in Ha as (w2 & Ha & ->). pose proof (keeps_adjudicate_err _ _ _ _ _ Ha) as Hdb2.
  simpl in Ha, Hdb2. destruct ra as [referral|e].
  2: { destruct (errors_is e ErrNoMatchingRule); injection Hr as <- <-;
         (eapply Hskip; [..|done]; [simpl; congruence|done]). }
  apply adjudicate_ok in Ha as (_ & chosen & Hadj).
  rewrite reevaluable_transition in Hr by done. simpl in Hr.
  destruct (on_world (wrapping _ _) _) as [k4 rt] eqn:Ht.
  apply on_world_inv in Ht as (w4 & Ht & ->). simpl in Ht. destruct rt as [[]|e].
  - apply wrapping_ok in Ht. injection Hr as <- <-. exists [ic_ID item]. guards.
    split; [split|right; split_and!; try done; exists row; split_and!; [done..|congruence]].
    + simpl. eapply steps_cons; [|constructor]. rewrite <- Hid, <- Hdb, <- Hdb2.
      refine (reroute_ok fresh referral _ _ row _ _ _ _ Hscan Hre rules chosen _ Hadj Ht);
        simpl; by rewrite Hdb2, Hdb.
    + done.
  - injection Hr as <- <-. eapply Hskip; [..|done]; [|done]. simpl.
    apply wrapping_err in Ht as (e0 & Ht & _). apply WithTx_err in Ht. simpl in Ht. congruence.
Qed.

Lemma reroute_rules d ids d' rules :
  steps db_step d (LReroute <$> ids) d' → rules_of d rules → rules_of d' rules.
Proof.
  revert d. induction ids as [|i ids IH]; simpl; intros d Hs Hr; inversion Hs as [|? ? d2]; subst;
    [done|]. apply (IH d2); [done|]. intros r Hin. destruct (Hr r Hin) as (row & Hrow & ?).
  exists row. split; [|done].
  match goal with Hst : db_step _ _ _ |- _ => by inversion Hst; subst end.
Qed.
Lemma rerouted_app k1 ids1 k2 ids2 k3 :
  rerouted k1 ids1 k2 → rerouted k2 ids2 k3 → rerouted k1 (ids1 ++ ids2) k3.
Proof.
  intros [Hs1 Hc1] [Hs2 Hc2]. split; [rewrite fmap_app; by eapply steps_app|].
  rewrite Hc2, Hc1, i64_add_l, length_app. f_equal. lia.
Qed.

Lemma sweep_items_steps stale rules current k k' r :
  is_i64 (wk_reevaled k) → rules_of (w_db (wk_world k)) rules →
  sweep_items writer stale rules current k = (k', r) →
  ∃ ids, rerouted k ids k' ∧ ids `sublist_of` (ic_ID <$> stale).
Proof.
  revert k. induction stale as [|item stale IH]; intros k Hi Hrules Hs; simpl in Hs.
  { injection Hs as <- <-. exists []. split; [by apply rerouted_none|done]. }
  unfold mbind, op_bind in Hs. destruct (on_world _ k) as [k1 rp] eqn:Hp.
  apply on_world_inv in Hp as (w1 & Hp & ->).
  assert (w_db w1 = w_db (wk_world k)) as Hdb by by kept. destruct rp as [u|e].
  2: { injection Hs as <- <-. exists []. split; [by apply rerouted_none|apply sublist_nil_l]. }
  unfold on_result in Hs. destruct (reevaluateItem _ _ _ _ _) as [k2 rr] eqn:Hr.
  apply reevaluateItem_step in Hr as (ids1 & Hre & Hids); [|done|by simpl; rewrite Hdb].
  assert (rerouted k ids1 k2) as Hre1 by (destruct Hre as [Hs1 ?]; split; simpl in *; congruence).
  assert (ids1 `sublist_of` [ic_ID item]) as Hsub.
  { destruct Hids as [->|[-> _]]; [apply sublist_nil_l|done]. }
  assert (∃ k3, sweep_items writer stale rules current k3 = (k', r) ∧ rerouted k ids1 k3) as
    (k3 & Hrest & Hre3).
  { destruct rr; [by exists k2|]. exists (count_failed k2). by split; [exact Hs|]. }
  pose proof Hre3 as [Hst Hc]. apply IH in Hrest as (ids2 & Hre2 & Hsub2);
    [|rewrite Hc; apply i64_range|by eapply reroute_rules].
  exists (ids1 ++ ids2). split; [by eapply rerouted_app|]. by apply (sublist_app _ [_]).
Qed.

(** *** The pages of a sweep *)

Lemma ListItems_ok filter w w' items total :
  ListItems filter w = (w', Ok (items, total)) →
  w_db w' = w_db w ∧
  ∃ wall rows, rows ≡ₚ List.filter (item_where filter wall) (db_items (w_db w)) ∧
    scan_all scanItem (page (item_page_size filter) (page_offset (if_PageOffset filter))
      (merge_sort (desc_by ic_RegisteredAt) rows)) = Ok items ∧
    total = Z.of_nat (length rows).
Proof.
  intros Hl. split; [exact (keeps_ok _ _ _ _ (keeps_ListItems filter) Hl)|].
  unfold ListItems in Hl. apply bind_ok in Hl as (w1 & wall & Hw & Hl). binds Hl.
  assert (w_db w1 = w_db w) as Hdb by (destruct (if_OverdueOnly filter); by kept).
  injection Hl as _ <- <-.
  apply select_ok in Hstep as [Hd1 Hp1], Hstep0 as [Hd2 Hp2]. rewrite Hd1, Hdb in *.
  exists wall, x2. split_and!; [done..|]. by rewrite Hp1, Hp2.
Qed.

Definition status_filter (status : ItemStatus) (offset : Z) : ItemFilter :=
  {| if_Status := status; if_LeadDepartment := ""; if_StoreID := ""; if_RegisteredBy := "";
     if_From := zero_stamp; if_To := zero_stamp; if_OverdueOnly := false;
     if_PageSize := sweepPageSize; if_PageOffset := offset |}.

(** A page of a sweep: cases of the asked status, no more than are left. *)
Lemma sweep_page status offset w w' items total :
  status ∈ reevaluableStatuses → 0 ≤ offset →
  ListItems (status_filter status offset) w = (w', Ok (items, total)) →
  w_db w' = w_db w ∧
  Forall (λ it, ∃ row, row ∈ db_items (w_db w) ∧ scanItem row = Ok it ∧ ic_Status row = status) items ∧
  (items ≠ [] → offset + Z.of_nat (length items) ≤ Z.of_nat (length (db_items (w_db w)))).
Proof.
  intros Hstatus Hoff (Hdb & wall & rows & Hp & Hs & _)%ListItems_ok. split; [done|].
  assert (status ≠ StatusOther "") as Hne by (unfold reevaluableStatuses in Hstatus; set_solver).
  split.
  - apply Forall_forall. intros it Hit.
    destruct (scan_all_elem _ _ _ _ Hs Hit) as (row & Hrow & Hsc). exists row.
    apply subseteq_take, subseteq_drop in Hrow. rewrite merge_sort_Permutation, Hp, elem_of_filter_bool in Hrow.
    destruct Hrow as [Hrow Hw]. unfold item_where in Hw. simpl in Hw. guards. naive_solver.
  - intros Hitems. apply scan_item_ids, (f_equal length) in Hs. rewrite !length_fmap in Hs.
    unfold page in Hs. rewrite length_take, length_drop, merge_sort_Permutation in Hs.
    assert (length rows ≤ length (db_items (w_db w)))%nat as Hle.
    { rewrite Hp. apply List.filter_length_le. }
    assert (length items ≠ 0%nat) by (destruct items; naive_solver).
    change (if_PageOffset (status_filter status offset)) with offset in Hs.
    unfold page_offset in Hs. rewrite (proj2 (Z.ltb_ge _ _)) in Hs by lia. lia.
Qed.

Definition stale_in (d : DB) (current : Z) (it : ComplianceCase) : Prop :=
  ∃ row, row ∈ db_items d ∧ scanItem row = Ok it ∧ isReevaluable (ic_Status row) = true ∧
    ic_RuleVersion row < current.

Lemma reevaluable_elem s : s ∈ reevaluableStatuses → isReevaluable s = true.
Proof.
  unfold reevaluableStatuses. rewrite !elem_of_cons, elem_of_nil. by intros [->|[->|[]]].
Qed.

(** With a page for every 200 cases, the pages are all read. *)
Lemma collect_status_ok fuel status current offset w w' o :
  status ∈ reevaluableStatuses → 0 ≤ offset →
  Z.of_nat (length (db_items (w_db w))) + 200 ≤ max_i64 →
  (0 < fuel)%nat → Z.of_nat (length (db_items (w_db w))) < offset + 200 * Z.of_nat fuel →
  collect_status fuel status current offset w = (w', Ok o) →
  w_db w' = w_db w ∧ ∃ l, o = Some l ∧ Forall (stale_in (w_db w) current) l.
Proof.
  intros Hst. revert offset w w' o. induction fuel as [|fuel IH]; intros offset w w' o Hoff Hmax Hf Hlt Hc;
    [lia|]. simpl in Hc. apply bind_ok in Hc as (w1 & [items total] & Hl & Hc).
  apply wrapping_ok, (sweep_page status) in Hl as (Hdb & Hitems & Hlen); [|done..].
  assert (Forall (stale_in (w_db w) current)
    (List.filter (λ it, ic_RuleVersion it <? current) items)) as Hstale.
  { apply Forall_forall. intros it [Hit Hv]%elem_of_filter_bool.
    destruct (proj1 (Forall_forall _ _) Hitems it Hit) as (row & Hrow & Hsc & Hrs). exists row.
    pose proof (scanItem_inv _ _ Hsc) as (_ & _ & _ & _ & <- & _).
    split_and!; [done..| |by apply Z.ltb_lt]. rewrite Hrs. by apply reevaluable_elem. }
  simpl in Hc. destruct (Z.ltb_spec (Z.of_nat (length items)) sweepPageSize) as [Hshort|Hfull].
  { injection Hc as <- <-. split; [done|]. eauto. }
  apply bind_ok in Hc as (w2 & rest & Hc & Hret). injection Hret as <- <-.
  assert (sweepPageSize = 200) as Hps by done.
  assert (items ≠ []) as Hne by (intros ->; simpl in *; lia). specialize (Hlen Hne).
  assert (offset +ᵢ sweepPageSize = offset + 200) as Hadd.
  { rewrite i64_id, Hps; [done|]. unfold is_i64, min_i64. lia. }
  rewrite Hadd in Hc. apply IH in Hc as (Hdb2 & l & -> & Hl); rewrite ?Hdb in *; try lia.
  split; [congruence|]. eexists. split; [done|]. by apply Forall_app.
Qed.

(** One page more than the cases fill; their number is an [int]. *)
Definition pages_fit (fuel : nat) (d : DB) : Prop :=
  Z.of_nat (length (db_items d)) + 200 ≤ max_i64 ∧
  Z.of_nat (length (db_items d)) < 200 * Z.of_nat fuel.

Lemma collectStaleItems_ok fuel current w w' o :
  pages_fit fuel (w_db w) → collectStaleItems fuel current w = (w', Ok o) →
  ∃ l, o = Some l ∧ Forall (stale_in (w_db w) current) l.
Proof.
  intros [Hmax Hf] Hc. unfold collectStaleItems in Hc.
  apply bind_ok in Hc as (w1 & o1 & Hc1 & Hc).
  apply collect_status_ok in Hc1 as (Hdb1 & l1 & -> & Hl1); [|by apply elem_of_cons; left|lia..].
  apply bind_ok in Hc as (w2 & o2 & Hc2 & Hret). injection Hret as <- <-.
  apply collect_status_ok in Hc2 as (Hdb2 & l2 & -> & Hl2);
    [|set_solver|lia|rewrite ?Hdb1; lia..].
  rewrite Hdb1 in *. eexists. split; [done|]. by apply Forall_app.
Qed.

Lemma GetCurrentRuleVersion_ok w w' v :
  GetCurrentRuleVersion w = (w', Ok v) →
  w_db w' = w_db w ∧ (v = 0 ∨ ∃ rule, rule ∈ db_rules (w_db w) ∧ ru_Version rule = v).
Proof.
  unfold GetCurrentRuleVersion. intros Hg. binds Hg.
  match goal with Hs : select _ _ _ _ = _ |- _ => apply select_ok in Hs as [Hdb Hp] end.
  split; [done|]. destruct (ru_Version <$> _) as [|v vs] eqn:Hv; [by left|right].
  pose proof (foldr_max_elem v vs) as Hin. rewrite <- Hv in Hin.
  apply list_elem_of_fmap in Hin as (rule & Heq & Hin).
  rewrite Hp, elem_of_filter_bool in Hin. destruct Hin. eauto.
Qed.

Lemma keeps_collect_status fuel status current offset :
  keeps_db (collect_status fuel status current offset).
Proof.
  revert offset. induction fuel as [|fuel IH]; intros offset; simpl; [auto with world_db nocore|].
  apply keeps_bind; [auto with world_db nocore|intros p]. case_match; auto with world_db nocore.
Qed.
Lemma keeps_collectStaleItems fuel current : keeps_db (collectStaleItems fuel current).
Proof.
  unfold collectStaleItems. apply keeps_bind; [apply keeps_collect_status|].
  intros [o|]; [|auto with world_db nocore].
  apply keeps_bind; [apply keeps_collect_status|auto with world_db nocore].
Qed.
#[local] Hint Resolve keeps_collectStaleItems : world_db.

(** A sweep re-routes cases that are still re-evaluable and were routed under
    a rule older than the newest one; with enough pages it ends. *)
Definition outdated (d : DB) (id : string) : Prop :=
  ∃ row rule, row ∈ db_items d ∧ ic_ID row = id ∧ isReevaluable (ic_Status row) = true ∧
    rule ∈ db_rules d ∧ ic_RuleVersion row < ru_Version rule.

Lemma sweep_steps fuel k k' r :
  is_i64 (wk_reevaled k) → sweep writer fuel k = (k', r) →
  ∃ ids, rerouted k ids k' ∧
    (pages_fit fuel (w_db (wk_world k)) → r ≠ Ok None ∧ Forall (outdated (w_db (wk_world k))) ids).
Proof.
  intros Hi Hs.
  assert (∀ w2, w_db w2 = w_db (wk_world k) → k' = k <| wk_world := w2 |> → r ≠ Ok None →
    ∃ ids, rerouted k ids k' ∧
      (pages_fit fuel (w_db (wk_world k)) → r ≠ Ok None ∧ Forall (outdated (w_db (wk_world k))) ids)) as Hskip.
  { intros w2 Hd -> Hr. exists []. split; [by apply rerouted_none|by split; [|constructor]]. }
  unfold sweep, mbind, op_bind in Hs.
  destruct (on_world _ k) as [k1 rv] eqn:Hv. apply on_world_inv in Hv as (w1 & Hv & ->).
  assert (w_db w1 = w_db (wk_world k)) as Hd1 by by kept.
  destruct rv as [current|e]; [|by injection Hs as <- <-; eapply Hskip].
  apply wrapping_ok, GetCurrentRuleVersion_ok in Hv as [_ Hcur].
  destruct (Z.eqb_spec current 0) as [->|Hne]; [by injection Hs as <- <-; eapply Hskip|].
  destruct Hcur as [?|(rule & Hrule & Hrv)]; [done|]. simpl in Hs.
  destruct (on_world (wrapping _ (GetActiveRules _)) _) as [k2 rr] eqn:Hr.
  apply on_world_inv in Hr as (w2 & Hr & ->). simpl in Hr.
  assert (w_db w2 = w_db (wk_world k)) as Hd2.
  { rewrite <- Hd1. pose proof Hr as Hr'. kept. done. }
  destruct rr as [rules|e]; [|by injection Hs as <- <-; eapply Hskip].
  apply wrapping_ok, GetActiveRules_ok in Hr as [_ Hrules]. simpl in Hrules. rewrite Hd1 in Hrules.
  destruct (on_world (wrapping _ (collectStaleItems _ _)) _) as [k3 rc] eqn:Hc.
  apply on_world_inv in Hc as (w3 & Hc & ->). simpl in Hc.
  assert (w_db w3 = w_db (wk_world k)) as Hd3.
  { rewrite <- Hd2. pose proof Hc as Hc'. kept. done. }
  destruct rc as [o|e]; [|by injection Hs as <- <-; apply (Hskip w3)].
  apply wrapping_ok in Hc. destruct o as [stale|].
  2: { injection Hs as <- <-. exists []. split; [by apply rerouted_none|]. intros Hfit.
       apply collectStaleItems_ok in Hc as (stale & Heq & _); [done|by rewrite Hd2]. }
  simpl in Hs. destruct (sweep_items _ _ _ _ _) as [k4 ri] eqn:Hsi.
  assert (k' = k4 ∧ r ≠ Ok None) as [-> Hr']; [by destruct ri; injection Hs as <- <-|]. clear Hs.
  apply sweep_items_steps in Hsi as (ids & [Hst Hcnt] & Hsub); [|done|].
  - simpl in Hst. rewrite Hd3 in Hst. exists ids. split; [by split|]. intros Hfit. split; [done|].
    apply collectStaleItems_ok in Hc as (stale' & [= <-] & Hstale); [|by rewrite Hd2].
    rewrite Hd2 in Hstale. simpl in Hsub. apply Forall_forall. intros id Hid. eapply elem_of_sublist, list_elem_of_fmap in Hid
      as (it & -> & Hit); [|done].
    destruct (proj1 (Forall_forall _ _) Hstale it Hit) as (row & Hrow & (Heq & _)%scanItem_inv & Hre & Hlt).
    exists row, rule. split_and!; try done. lia.
  - simpl. rewrite Hd3. intros x Hx. destruct (Hrules x Hx) as (rrow & Hrrow & Hact & Hsc).
    apply scanRule_inv in Hsc as (? & ? & _ & _ & ? & _). apply active_rule_status in Hact.
    exists rrow. split_and!; congruence.
Qed.
End sweep.
