(* ===== verification/ServiceRuns.v ===== *)
(** * Runs of the compliance half

    An activity is one thing the process does to the store: a service call, a
    batch import, an escalation check as the scheduler runs it (with retries),
    a tick of the re-evaluation worker. A run is a list of activities; each is
    a sequence of committed transactions ([activity_steps]), so what
    [ServiceInv] proves of those holds of every run. *)
From stdpp Require Import relations.
From S2P Require Import Prelude Config GoErrors GoStrings GoTime Domain Dispatch World Shard.
From S2P Require Import Index Repo AuditLog Services Worker Scheduler StoreFacts ServiceSpec.
From S2P Require Import ServiceInv ServiceLoops.

(** ** Retries *)

Section retry.
Context `{Env, !Sequential H, !EnvLaws H} (writer : Writer) (cfg : SchedulerConfig).

Lemma recordTaskFailure_ok name cause attempts w w' u :
  recordTaskFailure writer cfg name cause attempts w = (w', Ok u) →
  ∃ f, w_db w' = (w_db w) <| db_failures := db_failures (w_db w) ++ [f] |> ∧
    (pf_ID f ∉ pf_ID <$> db_failures (w_db w)) ∧
    pf_TaskType f = name ∧ pf_EntityID f = name ∧ pf_Attempts f = attempts ∧
    pf_Status f = FailureStatusActive ∧ pf_LastError f = error_text domain_error_text cause.
Proof.
  unfold recordTaskFailure. intros Hr. binds Hr.
  apply WithTx_ok in Hr as (w1 & w2 & Hw1 & Htx & Hw2).
  apply SaveFailure_ok in Htx as (Hfresh & Hdb). kept. rewrite Hw2, Hdb, Hw1.
  rewrite Hw1 in *. repeat match goal with E : w_db ?x = w_db _ |- _ => rewrite E in *; clear E end.
  eexists. by split_and!.
Qed.
Lemma recordTaskFailure_err name cause attempts :
  err_keeps_db (recordTaskFailure writer cfg name cause attempts).
Proof. unfold recordTaskFailure. auto 20 with svc_db world_db nocore. Qed.

(** What the retry loop did: how it ended, how often it waited and for how
    long, and what it recorded. *)
Definition retried (name : string) (fn : dop ()) (first : Z) (w' : World)
    (e : retry_end) (waits : list Duration) : Prop :=
  waits = calculateBackoff cfg <$> seqZ (first + 1) (Z.of_nat (length waits)) ∧
  match e with
  | Succeeded => ∃ w1, fn w1 = (w', Ok ())
  | Interrupted => True
  | Exhausted cause recorded =>
      first + Z.of_nat (length waits) + 1 = Z.max (first + 1) (sg_MaxRetries cfg) ∧
      ∃ w1 w2, fn w1 = (w2, Err cause) ∧
        match recorded with
        | Ok _ => ∃ f, w_db w' = (w_db w2) <| db_failures := db_failures (w_db w2) ++ [f] |> ∧
            pf_TaskType f = name ∧ pf_Attempts f = Z.max (first + 1) (sg_MaxRetries cfg) ∧
            pf_Status f = FailureStatusActive
        | Err _ => w_db w' = w_db w2
        end
  | OutOfFuel => False
  end.

Lemma seqZ_succ m (n : nat) : seqZ m (Z.of_nat (S n)) = m :: seqZ (m + 1) (Z.of_nat n).
Proof. rewrite Nat2Z.inj_succ, seqZ_cons by lia. f_equal. f_equal; lia. Qed.

Lemma retry_loop_spec fuel name fn attempts w w' e waits :
  is_i64 (sg_MaxRetries cfg) → 0 ≤ attempts < max_i64 →
  (0 < fuel)%nat → sg_MaxRetries cfg ≤ attempts + Z.of_nat fuel →
  retry_loop writer cfg fuel name fn attempts w = (w', (e, waits)) →
  retried name fn attempts w' e waits ∧ (length waits < fuel)%nat.
Proof.
  intros Hmax. revert attempts w waits.
  induction fuel as [|fuel IH]; intros attempts w waits Hat Hf Hle Hl; [lia|]. simpl in Hl.
  destruct (fn w) as [w1 [[]|cause]] eqn:Hfn.
  { injection Hl as <- <- <-. split; [|simpl; lia]. split; [done|eauto]. }
  assert (attempts +ᵢ 1 = attempts + 1) as Hadd.
  { apply i64_id. unfold is_i64, min_i64. lia. }
  rewrite Hadd in Hl. destruct (Z.leb_spec (sg_MaxRetries cfg) (attempts + 1)) as [Hlast|Hmore].
  - destruct (recordTaskFailure _ _ _ _ _ _) as [w2 rec] eqn:Hrec. injection Hl as <- <- <-.
    assert (Z.max (attempts + 1) (sg_MaxRetries cfg) = attempts + 1) as Hm by lia.
    split; [|simpl; lia]. split; [done|]. rewrite Hm. split; [simpl; lia|].
    exists w, w1. split; [done|]. destruct rec as [u|e2].
    + apply recordTaskFailure_ok in Hrec as (f & ? & _ & ? & _ & ? & ? & _). eauto 10.
    + by apply recordTaskFailure_err in Hrec.
  - simpl in Hl. destruct (env_ctx (w_tick w1)).
    { injection Hl as <- <- <-. split; [|simpl; lia]. by split. }
    destruct (retry_loop _ _ _ _ _ _ _) as [w2 [e2 waits2]] eqn:Hrest. injection Hl as <- <- <-.
    unfold is_i64, max_i64 in *.
    apply IH in Hrest as [[Hw He] Hlen]; [|lia..].
    split; [|simpl; lia]. split.
    + cbn [length]. rewrite seqZ_succ, fmap_cons. f_equal. exact Hw.
    + assert (Z.max (attempts + 1 + 1) (sg_MaxRetries cfg) =
              Z.max (attempts + 1) (sg_MaxRetries cfg)) as Hm by lia.
      destruct e2; try done. rewrite Hm in He. destruct He as [Hc He].
      split; [cbn [length]; lia|done].
Qed.

(** The waits: doubled from the base up to 1024 times the base, without
    overflow for a base below 2^53 nanoseconds (104 days). *)
Lemma calculateBackoff_exact attempt :
  0 ≤ sg_BaseBackoff cfg < 2 ^ 53 → 1 ≤ attempt ≤ max_i64 →
  calculateBackoff cfg attempt = sg_BaseBackoff cfg * 2 ^ Z.min 10 (attempt - 1).
Proof.
  intros Hb Ha. unfold calculateBackoff. rewrite (proj2 (Z.leb_gt _ _)) by lia.
  unfold max_i64 in Ha. rewrite (i64_id (attempt - 1)) by (unfold is_i64, min_i64, max_i64; lia).
  rewrite Z.mod_small by lia.
  assert (∀ s, 0 ≤ s ≤ 10 → sg_BaseBackoff cfg *ᵢ Z.shiftl 1 s = sg_BaseBackoff cfg * 2 ^ s) as Hs.
  { intros s Hs. rewrite Z.shiftl_1_l. apply i64_id. unfold is_i64, min_i64, max_i64.
    assert (2 ^ s ≤ 2 ^ 10) by (apply Z.pow_le_mono_r; lia).
    assert (0 < 2 ^ s) by (apply Z.pow_pos_nonneg; lia). nia. }
  destruct (Z.ltb_spec 10 (attempt - 1)); rewrite Hs by lia; f_equal; f_equal; lia.
Qed.
End retry.

(** ** Activities *)

Inductive activity : Type :=
| ACall (c : svc_call)
| AImport (deadline : Duration) (storeID : string) (reqs : list RegisterItemRequest)
| AEscalate (cfg : SchedulerConfig) (extension : Duration) (maxLevel : Z)
| ASweep (fuel : nat).

(** Go's [int]. *)
Definition activity_ok (a : activity) : Prop :=
  match a with AEscalate _ _ maxLevel => is_i64 maxLevel | _ => True end.

Definition idle_worker (w : World) : Worker :=
  {| wk_world := w; wk_running := false; wk_cycles := 0; wk_reevaled := 0; wk_skipped := 0;
     wk_failed := 0 |}.

Section runs.
Context `{Env} (writer : Writer).

Definition run_activity (w : World) (a : activity) : World :=
  match a with
  | ACall c => fst (exec_svc writer c w)
  | AImport deadline storeID reqs => fst (Import writer deadline storeID reqs w)
  | AEscalate cfg extension maxLevel =>
      fst (runWithRetry writer cfg "escalation" (runEscalationOnce writer extension maxLevel) w)
  | ASweep fuel => wk_world (worker_tick writer fuel (idle_worker w))
  end.
Definition run_all (acts : list activity) (w : World) : World := foldl run_activity w acts.

Context `{!Sequential H, !EnvLaws H}.

Lemma CheckAndEscalate_steps ext maxLevel w w' escs e :
  db_inv (w_db w) → is_i64 maxLevel →
  CheckAndEscalate writer ext maxLevel w = (w', (escs, e)) →
  let now := env_now (w_tick w) in
  let overdue := List.filter (overdue_where now maxLevel) (db_items (w_db w)) in
  steps db_step (w_db w) (LEscalate <$> (es_ItemID <$> escs)) (w_db w') ∧
  NoDup (es_ItemID <$> escs) ∧
  (es_ItemID <$> escs) ⊆ (ic_ID <$> overdue) ∧
  (e = None → es_ItemID <$> escs ≡ₚ ic_ID <$> overdue).
Proof.
  intros Hinv Hm Hc. unfold CheckAndEscalate in Hc.
  destruct ((clock_now ≫= _) w) as [w1 [[now overdue]|e1]] eqn:Hread.
  - binds Hread. injection Hread as <- <- <-.
    match goal with Hn : clock_now _ = _ |- _ => injection Hn as <- <- end.
    match goal with Hf : FindOverdueItems _ _ _ = _ |- _ =>
      pose proof (overdue_items _ _ _ _ _ Hf (inv_ids _ Hinv)) as (Hp & Hnd & Hrows); kept end.
    simpl in *. apply escalate_all_steps in Hc as (Hpre & Hst & Hall); [|done| |done|].
    + rewrite Hdb in Hst. split_and!; [done| | |].
      * destruct Hpre as [l Hl]. rewrite Hl in Hnd. by apply NoDup_app in Hnd as [? _].
      * intros x Hx. rewrite <- Hp. destruct Hpre as [l ->]. set_solver.
      * intros He. by rewrite Hall.
    + eapply Forall_impl; [exact Hrows|]. intros item (row & Hrow & Hs & _). exists row.
      by rewrite Hdb.
    + eapply Forall_impl; [exact Hrows|]. intros item (row & Hrow & Hs & Hw).
      apply scanItem_inv in Hs as (_ & _ & _ & _ & _ & -> & _).
      unfold overdue_where in Hw. guards. split; [by apply Hinv|done].
  - injection Hc as <- <- <-.
    assert (w_db w1 = w_db w) as ->.
    { apply bind_err in Hread as [Hr|(w2 & now & Hn & Hr)]; [done|].
      apply bind_err in Hr as [Hr|(w3 & o & Hf & Hr)]; [|done]. by kept. }
    simpl. split_and!; [constructor|apply NoDup_nil_2|set_solver|done].
Qed.

Lemma batch_tx_ok batch bid actor now details w w' u :
  ib_ID batch = bid →
  WithTx (
    _ ← wrapping (errorf "save batch") (SaveBatch writer batch);
    save_audit writer bid "batch" ActionBatchImport actor now details) w
    = (w', Ok u) →
  db_step (w_db w) LBatch (w_db w').
Proof.
  intros Hbid (w1 & w2 & Hw1 & Htx & Hw2)%WithTx_ok. binds Htx.
  match goal with Hs : SaveBatch _ _ _ = _ |- _ => apply SaveBatch_ok in Hs as (path & _ & Hdb1) end.
  apply save_audit_ok in Htx as (a & Ha1 & _ & Ha2 & _ & _ & Hdb2).
  rewrite Hw2, Hdb2, Hdb1, Hw1. apply ds_batch; [|done]. by rewrite Ha1.
Qed.

Lemma import_steps dl storeID reqs w :
  db_inv (w_db w) →
  match Import writer dl storeID reqs w with
  | (w', Ok res) => ∃ ls, ls `sublist_of` (register_label dl <$> reqs) ∧
      steps db_step (w_db w) (ls ++ [LBatch]) (w_db w') ∧
      Forall2 (row_reported (w_db w')) reqs (bi_Results res) ∧
      br_RowIndex <$> bi_Results res = seqZ 0 (Z.of_nat (length reqs)) ∧
      bi_TotalRows res = Z.of_nat (length reqs) ∧
      bi_SuccessCount res + bi_FailureCount res = bi_TotalRows res
  | (w', Err _) => ∃ ls, ls `sublist_of` (register_label dl <$> reqs) ∧
      steps db_step (w_db w) ls (w_db w')
  end.
Proof.
  intros Hinv. destruct (Import writer dl storeID reqs w) as [w' r] eqn:Hi. unfold Import in Hi.
  unfold mbind at 1, op_bind in Hi. change (clock_now w) with
    (w <| w_tick := S (w_tick w) |>, @Ok derror _ (env_now (w_tick w))) in Hi. cbn beta iota in Hi.
  unfold mbind at 1, op_bind in Hi. destruct (new_uuid _) as [w1 [uuid|e1]] eqn:Hu; [|done].
  assert (w_db w1 = w_db w) as Hd1 by by kept.
  unfold mbind at 1, op_bind in Hi.
  destruct (import_rows writer dl 0 reqs w1) as [w2 rr] eqn:Hr.
  apply import_rows_steps in Hr as (rows & ls & -> & Hsub & Hst & Hall & Hidx); [|by rewrite Hd1].
  rewrite Hd1 in Hst. destruct r as [res|e].
  - binds Hi. simpl in *.
    match goal with Ht : WithTx _ _ = _ |- _ => apply batch_tx_ok in Ht as Hb; [|done] end.
    pose proof (steps_cons _ _ _ _ _ _ Hb (steps_nil _ _)) as Hlast.
    exists ls. split_and!; try done.
    + by eapply steps_app.
    + eapply Forall2_impl; [done|]. intros req row. apply row_reported_later.
      eapply steps_later; [|done]. by eapply steps_inv.
    + rewrite count_rows_total. f_equal. symmetry. by eapply Forall2_length.
  - exists ls. split; [done|]. apply bind_err in Hi as [Hi|(w3 & u & _ & Hi)]; [|done].
    apply wrapping_err in Hi as (e0 & Hi & _). apply WithTx_err in Hi. by rewrite Hi.
Qed.

(** ** Activities are sequences of transactions *)

Lemma escalation_once_steps ext maxLevel w :
  db_inv (w_db w) → is_i64 maxLevel →
  db_steps (w_db w) (w_db (fst (runEscalationOnce writer ext maxLevel w))).
Proof.
  intros Hinv Hm. unfold runEscalationOnce.
  destruct (CheckAndEscalate writer ext maxLevel w) as [w' [escs e]] eqn:Hc.
  apply CheckAndEscalate_steps in Hc as [Hs _]; [|done..].
  eexists. destruct e; exact Hs.
Qed.

Lemma db_steps_trans d1 d2 d3 : db_steps d1 d2 → db_steps d2 d3 → db_steps d1 d3.
Proof. intros [ls1 H1] [ls2 H2]. exists (ls1 ++ ls2). by eapply steps_app. Qed.

Lemma retry_steps cfg fuel name fn attempts w :
  db_inv (w_db w) → (∀ w, db_inv (w_db w) → db_steps (w_db w) (w_db (fst (fn w)))) →
  db_steps (w_db w) (w_db (fst (retry_loop writer cfg fuel name fn attempts w))).
Proof.
  intros Hinv Hfn. revert attempts w Hinv.
  induction fuel as [|fuel IH]; intros attempts w Hinv; [exists []; constructor|]. simpl.
  pose proof (Hfn w Hinv) as Hs1. destruct (fn w) as [w1 [u|cause]]; [done|]. simpl in Hs1.
  pose proof Hs1 as [ls Hls]. pose proof (steps_inv _ _ _ Hinv Hls) as Hinv1. clear ls Hls.
  destruct (sg_MaxRetries cfg <=? attempts +ᵢ 1).
  - destruct (recordTaskFailure _ _ _ _ _ _) as [w2 [u|e]] eqn:Hrec; simpl.
    + apply recordTaskFailure_ok in Hrec as (f & Hdb & Hfresh & _ & _ & _ & Hst & _).
      eapply db_steps_trans; [exact Hs1|]. exists [LTaskFailure].
      eapply steps_cons, steps_nil. rewrite Hdb. by apply ds_task_failure.
    + apply recordTaskFailure_err in Hrec. by rewrite Hrec.
  - destruct (env_ctx (w_tick w1)); [done|].
    match goal with |- context [retry_loop _ _ _ _ _ ?n ?w'] => specialize (IH n w' Hinv1) end.
    destruct (retry_loop _ _ _ _ _ _ _) as [w2 [e waits]]. simpl in *.
    eapply db_steps_trans; [exact Hs1|exact IH].
Qed.

Lemma activity_steps a w :
  db_inv (w_db w) → activity_ok a → db_steps (w_db w) (w_db (run_activity w a)).
Proof.
  intros Hinv Ha. destruct a as [c|dl st reqs|cfg ext maxLevel|fuel]; simpl.
  - pose proof (exec_svc_refines writer c w) as Hr.
    destruct (exec_svc writer c w) as [w' [u|e]]; simpl.
    + destruct Hr as [Hr|[-> _]]; [|exists []; constructor].
      eexists. by eapply steps_cons, steps_nil.
    + rewrite Hr. exists []. constructor.
  - pose proof (import_steps dl st reqs w Hinv) as Hi.
    destruct (Import writer dl st reqs w) as [w' [res|e]]; simpl;
      [destruct Hi as (ls & _ & Hs & _)|destruct Hi as (ls & _ & Hs)]; by eexists.
  - apply retry_steps; [done|]. intros w1 Hinv1. by apply escalation_once_steps.
  - unfold worker_tick, RunOnce. simpl.
    destruct (sweep _ _ _) as [k r] eqn:Hs. apply sweep_steps in Hs as (ids & [Hst _] & _);
      [|done]. simpl in Hst. exists (LReroute <$> ids). by destruct r as [[[]|]|].
Qed.

Lemma run_all_steps acts w :
  db_inv (w_db w) → Forall activity_ok acts → db_steps (w_db w) (w_db (run_all acts w)).
Proof.
  revert w. induction acts as [|a acts IH]; intros w Hinv Hok; [exists []; constructor|].
  apply Forall_cons in Hok as [Ha Hok]. pose proof (activity_steps a w Hinv Ha) as Hs.
  pose proof Hs as [ls Hls]. eapply db_steps_trans; [exact Hs|].
  simpl. apply IH; [|done]. by eapply steps_inv.
Qed.
End runs.
