(* ===== verification/ServiceClaims.v ===== *)
(** * What the compliance half promises

    Theorems about the services, the scheduler and the worker over the store,
    for every environment in which no other goroutine writes ([Sequential]),
    whatever fails from the outside; and what happens when two goroutines do
    write. *)
From stdpp Require Import sorting relations.
From S2P Require Import Prelude Config GoErrors GoStrings GoTime Domain Dispatch World Shard.
From S2P Require Import Index Repo AuditLog Services Worker Scheduler StoreFacts ServiceSpec.
From S2P Require Import ServiceInv ServiceLoops ServiceRuns.

(** ** A concrete environment *)

Definition ex_writer : Writer := {| rootDir := "/data"; maxShardSize := 0; syncOnWrite := true |}.
Definition ex_start : World := {| w_db := empty_db; w_fs := ∅; w_tick := 0 |}.
Definition ex_rule_req (category lead : string) (default_ : bool) : CreateRuleRequest := {|
  cr_Name := "rule for " +:+ lead; cr_Description := ""; cr_MatchKeywords := [];
  cr_MatchCategory := category; cr_LeadDepartment := lead; cr_CoDepartments := [];
  cr_Priority := 0; cr_IsDefault := default_; cr_CreatedBy := "admin";
  cr_SupersedeVersion := 0 |}.
Definition ex_item_req (ref category : string) : RegisterItemRequest := {|
  rq_ExternalRef := ref; rq_Title := "facade light"; rq_Description := "";
  rq_OperatorName := ""; rq_OperatorContact := ""; rq_Materials := []; rq_Category := category;
  rq_Keywords := []; rq_RegisteredBy := "clerk"; rq_StoreID := "s1" |}.

(** A default rule and one case, registered. *)
Definition ex_setup : list activity :=
  [ACall (SvcCreateRule (ex_rule_req "" "urban" true));
   ACall (SvcRegister Hour (ex_item_req "R-1" "billboard"))].
Definition ex_registered : World := Eval vm_compute in run_all (H := calm) ex_writer ex_setup ex_start.
(** The case's ID. *)
Definition ex_id : string := Eval vm_compute in default "" (ic_ID <$> head (db_items (w_db ex_registered))).
Definition status_of (id : string) (d : DB) : option ItemStatus :=
  ic_Status <$> head (List.filter (λ row, bool_decide (ic_ID row = id)) (db_items d)).
Example ex_registered_status : status_of ex_id (w_db ex_registered) = Some StatusAdjudicated.
Proof. vm_compute. reflexivity. Qed.

Lemma ex_registered_inv : db_inv (w_db ex_registered).
Proof.
  pose proof (run_all_steps (H := calm) ex_writer ex_setup ex_start empty_inv
    ltac:(by repeat constructor)) as [ls Hs].
  exact (steps_inv _ _ _ empty_inv Hs).
Qed.

(** ** Services *)

Section claims.
Context `{Env, !Sequential H, !EnvLaws H} (writer : Writer).

(** C2: while no other goroutine writes, every service call commits exactly one
    transaction of the specification (case row, referral and audit entry together), or none: a
    call that fails leaves the tables as they were whatever statement, system
    call or check failed, and the only successful call without an effect is
    the registration of a reference that is already there. *)
Theorem services_refine c w :
  match exec_svc writer c w with
  | (w', Ok _) =>
      db_step (w_db w) (LCall c) (w_db w') ∨
      w_db w' = w_db w ∧ ∃ dl req row, c = SvcRegister dl req ∧ row ∈ db_items (w_db w) ∧
        ic_ExternalRef row = rq_ExternalRef req
  | (w', Err _) => w_db w' = w_db w
  end.
Proof. apply exec_svc_refines. Qed.

(** C5: in every sequential run from an empty store, of service calls, imports,
    escalation checks and sweeps one after the other (no other goroutine
    commits while one of them is under way), in any order and with any
    failures, IDs, external references and rule versions stay unique, every
    case has exactly one current referral, which agrees with the case on
    department and rule version, terminal cases carry their time stamp, every
    case has its registration in the audit log. Without this condition rows
    that were read before are written back ([complete_overwrites_cancel]). *)
Theorem tables_invariant acts w :
  w_db w = empty_db → Forall activity_ok acts → db_inv (w_db (run_all writer acts w)).
Proof.
  intros Hw Hok. assert (db_inv (w_db w)) as Hinv by (rewrite Hw; apply empty_inv).
  destruct (run_all_steps writer acts w Hinv Hok) as [ls Hs]. by eapply steps_inv.
Qed.

(** C7: whatever a sequential run does later, one activity after the other and
    no other goroutine writing, a case stays in the tables under its ID and
    reference, its status only moves along the status machine, a completed or
    cancelled case keeps its status to the end of the run, and the audit log,
    the escalations and the referrals (but for being superseded) are
    append-only. Two calls at the same time can break it:
    [complete_overwrites_cancel] completes a cancelled case. *)
Theorem case_history acts w :
  db_inv (w_db w) → Forall activity_ok acts →
  let d' := w_db (run_all writer acts w) in
  later (w_db w) d' ∧
  ∀ row, row ∈ db_items (w_db w) → IsTerminal (ic_Status row) = true →
    ∃ row', row' ∈ db_items d' ∧ ic_ID row' = ic_ID row ∧ ic_Status row' = ic_Status row.
Proof.
  intros Hinv Hok d'. destruct (run_all_steps writer acts w Hinv Hok) as [ls Hs].
  pose proof (steps_later _ _ _ Hinv Hs) as Hl. split; [done|]. intros row Hrow Ht.
  destruct (later_cases _ _ Hl row Hrow) as (row' & Hrow' & Hid & _ & _ & _ & Hst).
  exists row'. split_and!; [done..|]. destruct Hst as [|s1 s2 s3 Hs1 _]; [done|].
  by apply terminal_no_step in Hs1.
Qed.

(** C36: an external reference is registered once: after a successful
    [Register], however much happens in between (one activity after the
    other), another [Register] with the
    same reference changes no table and, if it succeeds, returns the same
    case. *)
Theorem register_once dl1 dl2 req1 req2 w w1 item acts :
  db_inv (w_db w) → Forall activity_ok acts → rq_ExternalRef req1 = rq_ExternalRef req2 →
  Register writer dl1 req1 w = (w1, Ok item) →
  let w2 := run_all writer acts w1 in
  match Register writer dl2 req2 w2 with
  | (w3, Ok item2) => ic_ID item2 = ic_ID item ∧ w_db w3 = w_db w2
  | (w3, Err _) => w_db w3 = w_db w2
  end.
Proof.
  intros Hinv Hok Href Hr w2. pose proof (Register_row _ _ _ _ _ _ Hr) as (ls & _ & Hs & c & Hc & Hid & Hcref).
  pose proof (steps_inv _ _ _ Hinv Hs) as Hinv1.
  destruct (run_all_steps writer acts w1 Hinv1 Hok) as [ls2 Hs2]. fold w2 in Hs2.
  destruct (later_cases _ _ (steps_later _ _ _ Hinv1 Hs2) c Hc) as (c2 & Hc2 & Hid2 & Href2 & _).
  pose proof (steps_inv _ _ _ Hinv1 Hs2) as Hinv2.
  destruct (Register writer dl2 req2 w2) as [w3 [item2|e]] eqn:Hr2; [|by eapply err_keeps_Register].
  apply Register_ok in Hr2 as [(row & Hrow & Hrr & Hsc & Hdb)|(Hs3 & _)].
  - assert (row = c2) as -> by (apply (NoDup_proj_eq ic_ExternalRef (db_items (w_db w2)));
      [apply Hinv2|done..|congruence]).
    apply scanItem_inv in Hsc as (-> & _). split; [congruence|done].
  - exfalso. inversion Hs3; subst;
      [|by match goal with Hcc : case_change _ _ _ _ |- _ => destruct Hcc as (_ & _ & _ & []) end].
    match goal with Hn : ic_ExternalRef ?i ∉ _, E : ic_ExternalRef ?i = _ |- _ =>
      apply Hn; rewrite E, <- Href, <- Hcref, <- Href2; by apply list_elem_of_fmap_2 end.
Qed.

(** ** Batch import *)

(** An import reports every row, in order: a row marked successful names a
    case that is in the tables under the row's reference, the counts add up,
    and what was committed is some of the registrations in order, followed by
    the batch record; if the import itself fails, the registrations it made
    stay without a batch record. *)
Theorem import_accounts dl storeID reqs w :
  db_inv (w_db w) →
  match Import writer dl storeID reqs w with
  | (w', Ok res) => ∃ ls, ls `sublist_of` (register_label dl <$> reqs) ∧
      steps db_step (w_db w) (ls ++ [LBatch]) (w_db w') ∧
      Forall2 (row_reported (w_db w')) reqs (bi_Results res) ∧
      br_RowIndex <$> bi_Results res = seqZ 0 (Z.of_nat (length reqs)) ∧
      bi_TotalRows res = Z.of_nat (length reqs) ∧
      bi_SuccessCount res + bi_FailureCount res = bi_TotalRows res
  | (w', Err _) => ∃ ls, ls `sublist_of` (register_label dl <$> reqs) ∧
      steps db_step (w_db w) ls (w_db w')
  end.
Proof. exact (import_steps writer dl storeID reqs w). Qed.

(** ** Escalation *)

#[local] Instance asc_by_total `{Zone} {A} (key : A → Time) : Total (asc_by key).
Proof.
  intros a b. unfold asc_by, text_leb. destruct (text_ltb (key b) (key a)) eqn:Hba; [|by left].
  right. by rewrite (text_ltb_asym _ _ Hba).
Qed.

(** The row with the least deadline comes first. *)
Lemma sorted_least `{Zone} {A} (key : A → Time) (l : list A) x :
  Sorted (asc_by key) l → NoDup l → x ∈ l →
  (∀ y, y ∈ l → y ≠ x → text_ltb (key x) (key y) = true) → head l = Some x.
Proof.
  intros Hs Hnd Hx Hmin. apply list_elem_of_split in Hx as (l1 & l2 & ->).
  destruct l1 as [|y l1 _] using rev_ind; [done|]. exfalso.
  rewrite <- app_assoc in Hs. simpl in Hs.
  assert (asc_by key y x) as Hyx.
  { clear -Hs. induction l1 as [|z l1 IH]; simpl in Hs; inversion Hs as [|? ? Hs' Hhd]; subst.
    - by inversion Hhd.
    - by apply IH. }
  unfold asc_by, text_leb in Hyx. rewrite (Hmin y) in Hyx; [done|set_solver|].
  intros ->. rewrite <- app_assoc in Hnd. apply NoDup_app in Hnd as (_ & _ & Hnd). simpl in Hnd.
  apply NoDup_cons in Hnd as [Hn _]. set_solver.
Qed.

(** One case that cannot be escalated stops the escalation of all the
    others: while the overdue case with the earliest deadline is one that was
    returned for correction (a status that may not become [escalated]), every
    check escalates nothing, changes nothing and reports an error. *)
Theorem escalation_blocked ext maxLevel w row :
  db_inv (w_db w) → is_i64 maxLevel → row ∈ db_items (w_db w) →
  let now := env_now (w_tick w) in
  overdue_where now maxLevel row = true → ic_Status row = StatusReturned →
  (∀ other, other ∈ db_items (w_db w) → overdue_where now maxLevel other = true →
     other ≠ row → text_ltb (ic_Deadline row) (ic_Deadline other) = true) →
  match CheckAndEscalate writer ext maxLevel w with
  | (w', (escs, err)) => escs = [] ∧ is_Some err ∧ w_db w' = w_db w
  end.
Proof.
  intros Hinv Hm Hrow now Hover Hst Hmin. unfold CheckAndEscalate.
  destruct ((clock_now ≫= _) w) as [w1 [[now' overdue]|e1]] eqn:Hread.
  2: { split_and!; [done..|]. apply bind_err in Hread as [Hr|(w2 & n & Hn & Hr)]; [done|].
       apply bind_err in Hr as [Hr|(w3 & o & Hf & Hr)]; [|done]. by kept. }
  binds Hread. injection Hread as <- <- <-.
  match goal with Hn : clock_now _ = _ |- _ => injection Hn as <- <- end.
  fold now in Hstep0. pose proof (keeps_ok _ _ _ _ (keeps_FindOverdueItems _ _) Hstep0) as Hdb.
  apply FindOverdueItems_ok in Hstep0 as (rows & Hp & Hs & _).
  assert (head (merge_sort (asc_by ic_Deadline) rows) = Some row) as Hhd.
  { apply (sorted_least ic_Deadline); [apply Sorted_merge_sort, _| | |].
    - rewrite merge_sort_Permutation, Hp. apply (NoDup_fmap_1 ic_ID), NoDup_filter_proj, Hinv.
    - rewrite merge_sort_Permutation, Hp, elem_of_filter_bool. done.
    - intros y. rewrite merge_sort_Permutation, Hp, elem_of_filter_bool. intros []. by apply Hmin. }
  destruct (merge_sort _ rows) as [|r rest]; [done|]. injection Hhd as ->. simpl in Hs.
  unfold mbind, result_bind in Hs. destruct (scanItem row) as [item|] eqn:Hsc; [|done].
  destruct (scan_all scanItem rest) as [items|]; [|done]. injection Hs as <-. simpl.
  apply scanItem_inv in Hsc as (_ & _ & Hist & _ & _ & Hlv & _).
  match goal with |- context [escalateItem ?a ?b ?c ?i ?n ?w0] =>
    destruct (escalateItem a b c i n w0) as [w2 [esc|e]] eqn:Hesc end.
  - exfalso. unfold escalateItem in Hesc. binds Hesc.
    match goal with Ht : TransitionTo _ _ = Ok _ |- _ => apply TransitionTo_ok in Ht as [Hmay _] end.
    simpl in Hmay. rewrite Hist, Hst in Hmay. by destruct Hmay.
  - assert (errors_is e ErrMaxEscalationReached = false) as ->.
    { eapply (escalateItem_below writer ext maxLevel item); [done|..|exact Hesc]; rewrite Hlv;
        [by apply Hinv|]. unfold overdue_where in Hover. by guards. }
    split_and!; try done. by apply escalateItem_err in Hesc as ->.
Qed.

(** ** Re-evaluation *)

(** C33: a tick of the idle worker ends if it has a page of fuel per 200 cases
    (and one more), while no other goroutine writes: the page loop comes to
    its end and the run mutex is free again, however the tick goes. It
    re-routes only cases that are registered or adjudicated under a rule older
    than the newest one, each by one transaction that supersedes the old
    referral and routes the case as an active rule says, and counts them. *)
Theorem sweep_outdated fuel k :
  wk_running k = false → is_i64 (wk_reevaled k) → pages_fit fuel (w_db (wk_world k)) →
  let k' := worker_tick writer fuel k in
  wk_running k' = false ∧
  ∃ ids, Forall (outdated (w_db (wk_world k))) ids ∧
    steps db_step (w_db (wk_world k)) (LReroute <$> ids) (w_db (wk_world k')) ∧
    wk_reevaled k' = i64 (wk_reevaled k + Z.of_nat (length ids)).
Proof.
  intros Hidle Hi Hfit. unfold worker_tick, RunOnce. simpl. rewrite Hidle.
  destruct (sweep _ _ _) as [k1 r] eqn:Hs. apply sweep_steps in Hs as (ids & [Hst Hc] & Hout); [|done].
  destruct (Hout Hfit) as [Hend Hids]. destruct r as [[[]|]|e]; [|done|]; (split; [done|exists ids; done]).
Qed.

(** C38: re-evaluation never moves a case to a newer rule: in every run from an
    empty store, its activities one after the other, a case is never routed under a rule that took effect after
    the case was registered, since the adjudicator looks for rules in force at
    the time of registration. A rule made later is not adopted by any sweep,
    although the sweep is there to migrate pending cases to it. *)
Theorem newer_rule_never_adopted acts w row rule :
  w_db w = empty_db → Forall activity_ok acts →
  let d := w_db (run_all writer acts w) in
  row ∈ db_items d → rule ∈ db_rules d → ic_RegisteredAt row < ru_EffectiveFrom rule →
  ic_RuleVersion row ≠ ru_Version rule.
Proof.
  intros Hw Hok d Hrow Hrule Hlt Heq. assert (db_inv (w_db w)) as Hinv0 by (rewrite Hw; apply empty_inv).
  destruct (run_all_steps writer acts w Hinv0 Hok) as [ls Hs]. fold d in Hs.
  pose proof (steps_inv _ _ _ Hinv0 Hs) as Hinv.
  destruct (inv_rule _ Hinv row Hrow) as (rule' & Hrule' & Hv & Hle).
  assert (rule' = rule) as ->; [|lia].
  apply (NoDup_proj_eq ru_Version (db_rules d)); [apply Hinv|done..|congruence].
Qed.

(** ** Retries *)

(** C37: the retry loop of the scheduler always ends, whatever the task does and
    whatever base back-off is configured: it runs the task at most
    [max(1, MaxRetries)] times, waits [calculateBackoff] of 1, 2, 3, ...
    between the runs, and when every run failed records one permanent failure
    with the number of attempts and nothing else. If the base back-off is not
    negative and below 2^53 nanoseconds (104 days), which [Config.Validate]
    does not check, the waits are the base doubled each time up to 1024 times
    the base, none of them overflowed. *)
Theorem retry_bounded cfg name fn w :
  is_i64 (sg_MaxRetries cfg) →
  match runWithRetry writer cfg name fn w with
  | (w', (e, waits)) =>
      retried cfg name fn 0 w' e waits ∧ e ≠ OutOfFuel ∧
      Z.of_nat (length waits) < Z.max 1 (sg_MaxRetries cfg) ∧
      waits = calculateBackoff cfg <$> seqZ 1 (Z.of_nat (length waits)) ∧
      (0 ≤ sg_BaseBackoff cfg < 2 ^ 53 →
        waits = (λ n, sg_BaseBackoff cfg * 2 ^ Z.min 10 (n - 1)) <$> seqZ 1 (Z.of_nat (length waits)) ∧
        Forall (λ d, 0 ≤ d ≤ 1024 * sg_BaseBackoff cfg) waits)
  end.
Proof.
  intros Hm. unfold runWithRetry.
  destruct (retry_loop _ _ _ _ _ _ _) as [w' [e waits]] eqn:Hl.
  apply retry_loop_spec in Hl as [[Hw He] Hlen]; [|done|done|lia|lia].
  split_and!; [by split|by destruct e|lia|exact Hw|]. intros Hb.
  assert (waits = (λ n, sg_BaseBackoff cfg * 2 ^ Z.min 10 (n - 1)) <$>
    seqZ 1 (Z.of_nat (length waits))) as Hw2.
  { rewrite Hw at 1. apply list_fmap_ext. intros i n Hn. apply list_elem_of_lookup_2 in Hn.
    apply elem_of_seqZ in Hn. apply calculateBackoff_exact; [done|].
    unfold is_i64, max_i64 in *. lia. }
  split; [done|]. rewrite Hw2. apply Forall_fmap, Forall_forall. intros n Hn. simpl.
  apply elem_of_seqZ in Hn.
  assert (2 ^ Z.min 10 (n - 1) ≤ 2 ^ 10) by (apply Z.pow_le_mono_r; lia).
  assert (0 < 2 ^ Z.min 10 (n - 1)) by (apply Z.pow_pos_nonneg; lia). nia.
Qed.
End claims.

(** ** Two goroutines *)

Definition ex_in_progress : World :=
  Eval vm_compute in run_activity (H := calm) ex_writer ex_registered (ACall (SvcStart ex_id "amy")).
(** Bob's cancellation, as a call of its own. *)
Definition ex_cancel (d : DB) : World * result derror ComplianceCase :=
  Cancel (H := calm) ex_writer ex_id "duplicate" "bob" {| w_db := d; w_fs := ∅; w_tick := 1000 |}.
(** It commits after Amy's [Complete] has read the case and before its
    transaction begins. *)
Definition ex_meanwhile (n : nat) (d : DB) : DB :=
  if bool_decide (n = w_tick ex_in_progress + 5)%nat then w_db (fst (ex_cancel d)) else d.
Definition cancelled_at (id : string) (d : DB) : list (option Time) :=
  ic_CancelledAt <$> List.filter (λ row, bool_decide (ic_ID row = id)) (db_items d).

(** The services read a case before their transaction and write all of it
    back: a cancellation that commits in between succeeds, is in the audit
    log, and is then overwritten, so that a cancelled case becomes completed,
    without a trace of the cancellation in its row. *)
Theorem complete_overwrites_cancel :
  let d := w_db ex_in_progress in
  status_of ex_id d = Some StatusInProgress ∧
  (∃ item, snd (ex_cancel d) = Ok item) ∧
  status_of ex_id (w_db (fst (ex_cancel d))) = Some StatusCancelled ∧
  let '(w', r) := Complete (H := calm_with ex_meanwhile) ex_writer ex_id "amy" ex_in_progress in
  (∃ item, r = Ok item) ∧
  status_of ex_id (w_db w') = Some StatusCompleted ∧
  cancelled_at ex_id (w_db w') = [None] ∧
  au_Action <$> db_audit (w_db w') =
    [ActionRuleCreate; ActionRegister; ActionStartProcessing; ActionCancel; ActionComplete].
Proof.
  vm_compute. split_and!; try reflexivity; eexists; reflexivity.
Qed.

(** ** The sweep does not converge *)

(** A newer rule that does not match the case. *)
Definition ex_newer_rule : World :=
  Eval vm_compute in run_activity (H := calm) ex_writer ex_registered
    (ACall (SvcCreateRule (ex_rule_req "signage" "traffic" false))).
Definition ex_ticks (n : nat) : Worker :=
  Nat.iter n (worker_tick (H := calm) ex_writer 1) (idle_worker ex_newer_rule).

(** A case whose best rule is not the newest one is re-routed to the same rule
    by every sweep: each tick supersedes its referral by an equal one and
    writes an audit entry, although nothing changed. *)
Example sweep_repeats :
  (λ n, let k := ex_ticks n in
     (wk_reevaled k, rf_RuleVersion <$> db_assignments (w_db (wk_world k)),
      length (db_audit (w_db (wk_world k))))) <$> seq 0 6 =
  (λ n, (Z.of_nat n, replicate (S n) 1, (3 + n)%nat)) <$> seq 0 6.
Proof. vm_compute. reflexivity. Qed.

(** ** Witnesses *)

Lemma services_refine_witness :
  db_step (w_db ex_registered) (LCall (SvcStart ex_id "amy")) (w_db ex_in_progress).
Proof.
  pose proof (services_refine (H := calm) ex_writer (SvcStart ex_id "amy") ex_registered) as Hr.
  assert (exec_svc (H := calm) ex_writer (SvcStart ex_id "amy") ex_registered =
    (ex_in_progress, Ok ())) as E by by vm_compute.
  rewrite E in Hr. destruct Hr as [Hr|(_ & dl & req & row & Hc & _)]; [exact Hr|discriminate Hc].
Defined.

Lemma tables_invariant_witness : db_inv (w_db ex_registered).
Proof.
  exact (tables_invariant (H := calm) ex_writer ex_setup ex_start eq_refl
    ltac:(by repeat constructor)).
Defined.

Definition ex_finish : list activity :=
  [ACall (SvcStart ex_id "amy"); ACall (SvcComplete ex_id "amy"); ACall (SvcCancel ex_id "late" "bob");
   ASweep 1].
Lemma case_history_witness :
  later (w_db ex_registered) (w_db (run_all (H := calm) ex_writer ex_finish ex_registered)) ∧
  status_of ex_id (w_db (run_all (H := calm) ex_writer ex_finish ex_registered)) =
    Some StatusCompleted.
Proof.
  split; [|vm_compute; reflexivity].
  exact (proj1 (case_history (H := calm) ex_writer ex_finish ex_registered ex_registered_inv
    ltac:(by repeat constructor))).
Defined.

Definition ex_ruled : World :=
  Eval vm_compute in run_all (H := calm) ex_writer (take 1 ex_setup) ex_start.
Lemma ex_ruled_inv : db_inv (w_db ex_ruled).
Proof.
  pose proof (run_all_steps (H := calm) ex_writer (take 1 ex_setup) ex_start empty_inv
    ltac:(by repeat constructor)) as [ls Hs].
  exact (steps_inv _ _ _ empty_inv Hs).
Qed.
Definition ex_item : ComplianceCase :=
  Eval vm_compute in
    match snd (Register (H := calm) ex_writer Hour (ex_item_req "R-1" "billboard") ex_ruled) with
    | Ok item => item
    | Err _ => new_case 0 (ex_item_req "" "") "" 0
    end.
Lemma register_once_witness :
  let w2 := run_all (H := calm) ex_writer ex_finish ex_registered in
  match Register (H := calm) ex_writer Minute (ex_item_req "R-1" "signage") w2 with
  | (w3, Ok item2) => ic_ID item2 = ic_ID ex_item ∧ w_db w3 = w_db w2
  | (w3, Err _) => w_db w3 = w_db w2
  end.
Proof.
  refine (register_once (H := calm) ex_writer Hour Minute (ex_item_req "R-1" "billboard")
    (ex_item_req "R-1" "signage") ex_ruled ex_registered ex_item ex_finish ex_ruled_inv _ eq_refl _).
  - by repeat constructor.
  - vm_compute. reflexivity.
Defined.

Definition ex_batch : list RegisterItemRequest :=
  [ex_item_req "R-2" "signage"; ex_item_req "" "signage"; ex_item_req "R-1" "signage"].
Lemma import_accounts_witness :
  match Import (H := calm) ex_writer Hour "s1" ex_batch ex_registered with
  | (w', Ok res) => ∃ ls, ls `sublist_of` (register_label Hour <$> ex_batch) ∧
      steps db_step (w_db ex_registered) (ls ++ [LBatch]) (w_db w') ∧
      Forall2 (row_reported (w_db w')) ex_batch (bi_Results res) ∧
      br_RowIndex <$> bi_Results res = seqZ 0 3 ∧ bi_TotalRows res = 3 ∧
      bi_SuccessCount res + bi_FailureCount res = bi_TotalRows res
  | (w', Err _) => ∃ ls, ls `sublist_of` (register_label Hour <$> ex_batch) ∧
      steps db_step (w_db ex_registered) ls (w_db w')
  end.
Proof. exact (import_accounts (H := calm) ex_writer Hour "s1" ex_batch ex_registered ex_registered_inv). Defined.
Example import_counts :
  match snd (Import (H := calm) ex_writer Hour "s1" ex_batch ex_registered) with
  | Ok res => (bi_SuccessCount res, bi_FailureCount res) = (2, 1)
  | Err _ => False
  end.
Proof. vm_compute. reflexivity. Qed.

(** Hours later. *)
Definition ex_late : World := ex_in_progress <| w_tick := 4500%nat |>.
Lemma ex_late_inv : db_inv (w_db ex_late).
Proof.
  pose proof (run_all_steps (H := calm) ex_writer [ACall (SvcStart ex_id "amy")] ex_registered
    ex_registered_inv ltac:(by repeat constructor)) as [ls Hs].
  exact (steps_inv _ _ _ ex_registered_inv Hs).
Qed.
(** The first case is sent back, a second one is in progress; both become
    overdue. *)
Definition ex_two : list activity :=
  [ACall (SvcReturn ex_id "no photo" "amy");
   ACall (SvcRegister Hour (ex_item_req "R-2" "billboard"))].
Definition ex_two_cases : World :=
  Eval vm_compute in run_all (H := calm) ex_writer ex_two ex_registered.
Definition ex_second_id : string :=
  Eval vm_compute in default "" (ic_ID <$> db_items (w_db ex_two_cases) !! 1%nat).
Definition ex_blocked_acts : list activity := ex_two ++ [ACall (SvcStart ex_second_id "amy")].
Definition ex_blocked : World := Eval vm_compute in
  (run_all (H := calm) ex_writer ex_blocked_acts ex_registered) <| w_tick := 4500%nat |>.
Lemma ex_blocked_inv : db_inv (w_db ex_blocked).
Proof.
  pose proof (run_all_steps (H := calm) ex_writer ex_blocked_acts ex_registered ex_registered_inv
    ltac:(by repeat constructor)) as [ls Hs].
  exact (steps_inv _ _ _ ex_registered_inv Hs).
Qed.
Definition ex_returned_row : ComplianceCase :=
  Eval vm_compute in default ex_item (db_items (w_db ex_blocked) !! 0%nat).
Definition ex_waiting_row : ComplianceCase :=
  Eval vm_compute in default ex_item (db_items (w_db ex_blocked) !! 1%nat).
Lemma escalation_blocked_witness :
  overdue_where (H := shenzhen) (ex_epoch + 4500 * Second) 3 ex_waiting_row = true ∧
  match CheckAndEscalate (H := calm) ex_writer Hour 3 ex_blocked with
  | (w', (escs, err)) => escs = [] ∧ is_Some err ∧ w_db w' = w_db ex_blocked
  end.
Proof.
  split; [vm_compute; reflexivity|].
  assert (db_items (w_db ex_blocked) = [ex_returned_row; ex_waiting_row]) as Hrows by reflexivity.
  apply (escalation_blocked (H := calm) ex_writer Hour 3 ex_blocked ex_returned_row ex_blocked_inv).
  - by vm_compute.
  - rewrite Hrows. by left.
  - vm_compute. reflexivity.
  - reflexivity.
  - intros other. rewrite Hrows, !elem_of_cons, elem_of_nil. intros [->|[->|[]]] _ Hne; [done|].
    vm_compute. reflexivity.
Defined.

Lemma sweep_outdated_witness :
  wk_running (ex_ticks 1) = false ∧
  ∃ ids, Forall (outdated (w_db ex_newer_rule)) ids ∧
    steps db_step (w_db ex_newer_rule) (LReroute <$> ids) (w_db (wk_world (ex_ticks 1))) ∧
    wk_reevaled (ex_ticks 1) = i64 (0 + Z.of_nat (length ids)).
Proof.
  apply (sweep_outdated (H := calm) ex_writer 1 (idle_worker ex_newer_rule)).
  - reflexivity.
  - by vm_compute.
  - by vm_compute.
Defined.

Definition ex_cfg : SchedulerConfig :=
  {| sg_EscalationInterval := Minute; sg_ReconciliationInterval := Hour;
     sg_ReevalInterval := Minute; sg_MaxRetries := 3; sg_BaseBackoff := Second; sg_TaskTimeout := Minute |}.
Definition ex_failing : dop () := raise (External "no such table").
Lemma retry_bounded_witness :
  match runWithRetry (H := calm) ex_writer ex_cfg "escalation" ex_failing ex_start with
  | (w', (e, waits)) => e ≠ OutOfFuel ∧ Z.of_nat (length waits) < 3 ∧ Forall (λ d, 0 ≤ d ≤ 1024 * Second) waits
  end ∧
  snd (snd (runWithRetry (H := calm) ex_writer ex_cfg "escalation" ex_failing ex_start)) =
    [Second; 2 * Second].
Proof.
  split; [|vm_compute; reflexivity].
  pose proof (retry_bounded (H := calm) ex_writer ex_cfg "escalation" ex_failing ex_start
    ltac:(by vm_compute)) as Hr.
  destruct (runWithRetry (H := calm) ex_writer ex_cfg "escalation" ex_failing ex_start)
    as [w' [e waits]].
  destruct Hr as (_ & He & Hl & _ & Hb). split; [exact He|]. split; [exact Hl|].
  apply Hb. by vm_compute.
Defined.
(** A base back-off of 2^53 nanoseconds, which is accepted, overflows at the
    eleventh attempt: the wait is negative. *)
Example backoff_overflows : calculateBackoff (ex_cfg <| sg_BaseBackoff := 2 ^ 53 |>) 11 = - 2 ^ 63.
Proof. vm_compute. reflexivity. Qed.

(** A second rule that takes every case, and two sweeps. *)
Definition ex_evolve : list activity :=
  ex_setup ++ [ACall (SvcCreateRule (ex_rule_req "" "traffic" true)); ASweep 1; ASweep 1].
Definition ex_evolved : DB := Eval vm_compute in w_db (run_all (H := calm) ex_writer ex_evolve ex_start).
Definition ex_evolved_case : ComplianceCase :=
  Eval vm_compute in default ex_item (db_items ex_evolved !! 0%nat).
Definition ex_second_rule : Rule :=
  Eval vm_compute in default (ex_rule 0 0 "" [] false) (db_rules ex_evolved !! 1%nat).
Definition ex_first_rule : Rule :=
  Eval vm_compute in default (ex_rule 0 0 "" [] false) (db_rules ex_evolved !! 0%nat).
Lemma newer_rule_never_adopted_witness :
  ic_RuleVersion ex_evolved_case ≠ ru_Version ex_second_rule ∧
  ru_Version ex_second_rule = 2 ∧ ru_LeadDepartment ex_second_rule = "traffic" ∧
  length (db_assignments ex_evolved) = 3%nat.
Proof.
  split; [|vm_compute; done].
  apply (newer_rule_never_adopted (H := calm) ex_writer ex_evolve ex_start).
  - reflexivity.
  - by repeat constructor.
  - assert (db_items (w_db (run_all (H := calm) ex_writer ex_evolve ex_start)) = [ex_evolved_case])
      as -> by (vm_compute; reflexivity). by left.
  - assert (db_rules (w_db (run_all (H := calm) ex_writer ex_evolve ex_start)) =
      [ex_first_rule; ex_second_rule]) as -> by (vm_compute; reflexivity). right. by left.
  - vm_compute. reflexivity.
Defined.
