(* ===== verification/ServiceLive.v ===== *)
(** * Service calls that succeed

    The other half of what the services promise: when nothing fails from the
    outside and the tables can be read, a call whose conditions hold commits
    its transaction. *)
From S2P Require Import Prelude GoErrors GoStrings GoTime Domain Dispatch Records RecordsFacts World Shard Index Repo.
From S2P Require Import AuditLog StoreApi QueryFacts Services StoreFacts RebuildFacts ServiceSpec ServiceInv ServiceRuns ServiceClaims.

(** Time has passed, and the tables are as they were. *)
Definition ahead (w w' : World) : Prop := w_db w' = w_db w ∧ (w_tick w ≤ w_tick w')%nat.
#[export] Instance ahead_preorder : PreOrder ahead.
Proof. split; [by split|]. intros x y z [E1 L1] [E2 L2]. split; [congruence|lia]. Qed.
Definition live `{Env} {A} (m : dop A) : Prop := ∀ w, wp m w (λ _ w', ahead w w').
Definition success {A} (_ : A) (_ : World) : Prop := True.

Section live.
Context `{Env, !Sequential H, !EnvLaws H, !Faultless H} (writer : Writer).

Lemma wp_live {A} (m : dop A) w Q : live m → (∀ a w', ahead w w' → Q a w') → wp m w Q.
Proof. intros Hm HQ. eapply wp_mono; [apply Hm|done]. Qed.
Lemma live_bind {A B} (m : dop A) (f : A → dop B) : live m → (∀ a, live (f a)) → live (m ≫= f).
Proof.
  intros Hm Hf w. apply wp_bind, wp_live; [done|]. intros a w1 H1. apply wp_live; [apply Hf|].
  intros b w2 H2. by transitivity w1.
Qed.
Lemma live_ret {A} (a : A) : live (mret a).
Proof. intros w. by apply wp_ret. Qed.
Lemma live_gets {A} (f : World → A) : live (gets f).
Proof. intros w. by apply wp_gets. Qed.
Lemma live_ask {A} (f : nat → A) : live (ask f).
Proof. intros w. eexists _, _. split; [done|]. split; simpl; [done|lia]. Qed.
Lemma live_attempt wrap : live (attempt wrap).
Proof.
  intros w. unfold attempt, mbind, op_bind, ask, wp. simpl. rewrite no_fault.
  eexists _, _. split; [done|]. split; simpl; [done|lia].
Qed.
Lemma live_poll : live poll_ctx.
Proof.
  intros w. unfold poll_ctx, mbind, op_bind, ask, wp. simpl. rewrite no_cancel.
  eexists _, _. split; [done|]. split; simpl; [done|lia].
Qed.
Lemma live_interleave : live interleave.
Proof. intros w. eexists _, _. split; [done|]. split; simpl; [apply others_id|lia]. Qed.
Lemma live_put_file path content : live (modify (put_file path content)).
Proof. intros w. by apply wp_modify. Qed.
Lemma live_wrapping {A} wrap (m : dop A) : live m → live (wrapping wrap m).
Proof. intros Hm w. by apply wp_wrapping. Qed.
Lemma live_write_file path before line wrap : live (write_file path before line wrap).
Proof.
  intros w. unfold write_file. apply wp_bind, wp_live; [apply live_ask|]. intros short w1 H1.
  unfold mbind, op_bind, ask, wp. simpl. rewrite no_fault. eexists _, _. split; [done|].
  etransitivity; [exact H1|]. split; simpl; [done|lia].
Qed.
Lemma live_Append ty t data : live (Append writer ty t data).
Proof.
  unfold Append. repeat (apply live_bind; [first
    [apply live_poll|apply live_attempt|apply live_gets|apply live_put_file|apply live_write_file]|intros]).
  apply live_bind; [destruct (syncOnWrite writer); [apply live_attempt|apply live_ret]|].
  intros. apply live_ret.
Qed.
Lemma live_marshal {R} `{JsonRecord R} what (r : R) : storable_times r → live (marshal what r).
Proof.
  intros Hr. unfold marshal. apply live_bind; [apply live_ask|]. intros nil.
  rewrite Marshal_storable by done. apply live_ret.
Qed.

(** ** Questions and queries *)

Lemma wp_uuid w Q : (∀ w', w_db w' = w_db w → w_tick w' = S (w_tick w) → Q (env_uuid (w_tick w)) w') → wp new_uuid w Q.
Proof. intros HQ. eexists _, _. split; [done|]. by apply HQ. Qed.
Lemma wp_clock w Q : (∀ w', ahead w w' → Q (env_now (w_tick w)) w') → wp clock_now w Q.
Proof. intros HQ. eexists _, _. split; [done|]. apply HQ. split; simpl; [done|lia]. Qed.
Lemma wp_select {A} wrap (table : DB → list A) where_ w Q :
  (∀ rows w', rows ≡ₚ List.filter where_ (table (w_db w)) → ahead w w' → Q rows w') →
  wp (select wrap table where_) w Q.
Proof.
  intros HQ. unfold select. apply wp_bind, wp_live; [apply live_interleave|]. intros _ w1 [E1 L1].
  apply wp_bind, wp_live; [apply live_attempt|]. intros _ w2 [E2 L2]. apply wp_bind, wp_gets.
  apply wp_bind. eexists _, _. split; [done|]. apply wp_ret. apply HQ.
  - by rewrite env_scan_perm, E2, E1.
  - split; simpl; [congruence|lia].
Qed.
Lemma wp_query_row {A} (table : DB → list A) where_ scan row w Q :
  row ∈ table (w_db w) → where_ row = true →
  (∀ r, r ∈ table (w_db w) → where_ r = true → ∃ x, scan r = Ok x ∧ ∀ w', ahead w w' → Q x w') →
  wp (query_row table where_ scan) w Q.
Proof.
  intros Hrow Hw HQ. unfold query_row. apply wp_bind, wp_select. intros rows w1 Hp H1.
  assert (row ∈ rows) as Hin by (rewrite Hp; by apply elem_of_filter_bool).
  destruct rows as [|row' rows]; [by apply elem_of_nil in Hin|].
  assert (row' ∈ row' :: rows) as Hin' by by left. rewrite Hp, elem_of_filter_bool in Hin'.
  destruct Hin' as [Hin' Hw']. destruct (HQ row' Hin' Hw') as (x & -> & Hx). apply wp_lift. by apply Hx.
Qed.
Lemma wp_WithTx {A} (fn : dop A) w Q :
  (∀ w1, ahead w w1 → wp fn w1 (λ a w2, ∀ w', ahead w2 w' → Q a w')) → wp (WithTx fn) w Q.
Proof.
  intros HQ. unfold WithTx. apply wp_bind, wp_live; [apply live_interleave|]. intros _ w1 H1.
  apply wp_bind, wp_live; [apply live_attempt|]. intros _ w2 H2.
  destruct (HQ w2) as (w3 & a & Hfn & Ha); [by transitivity w1|].
  destruct (live_attempt (errorf "commit tx") w3) as (w4 & [] & Hc & H4).
  unfold wp, in_tx. rewrite Hfn, Hc. eexists _, _. split; [done|by apply Ha].
Qed.
Lemma wp_tx {A} (fn : dop A) w : (∀ w1, ahead w w1 → wp fn w1 success) → wp (WithTx fn) w success.
Proof. intros HQ. apply wp_WithTx. intros w1 H1. eapply wp_mono; [by apply HQ|done]. Qed.

(** ** Statements of a transaction *)

(** The UUIDs to come are not in the tables. *)
Definition unused (w : World) : Prop := ∀ n, (w_tick w ≤ n)%nat →
  (env_uuid n ∉ ic_ID <$> db_items (w_db w)) ∧ (env_uuid n ∉ rf_ID <$> db_assignments (w_db w)) ∧
  (env_uuid n ∉ es_ID <$> db_escalations (w_db w)) ∧ (env_uuid n ∉ au_ID <$> db_audit (w_db w)).
(** An ID that no UUID to come will be. *)
Definition spent (id : string) (w : World) : Prop := ∀ n, (w_tick w ≤ n)%nat → env_uuid n ≠ id.
Definition unlogged (w : World) : Prop := ∀ n, (w_tick w ≤ n)%nat → env_uuid n ∉ au_ID <$> db_audit (w_db w).
Lemma unused_ahead w w' : ahead w w' → unused w → unused w'.
Proof. intros [E L] Hu n Hn. rewrite E. apply Hu. lia. Qed.
Lemma unlogged_later w w' :
  db_audit (w_db w') = db_audit (w_db w) → (w_tick w ≤ w_tick w')%nat → unlogged w → unlogged w'.
Proof. intros E L Hu n Hn. rewrite E. apply Hu. lia. Qed.

(** A record goes to its shard, then a statement looks at the rows. *)
Lemma wp_append {R A} `{JsonRecord R} what (r : R) wrap ty t (k : Location → dop A) w Q :
  storable_times r → (∀ loc w', ahead w w' → wp (k loc) w' Q) →
  wp (data ← marshal what r; loc ← wrapping wrap (Append writer ty t data); k loc) w Q.
Proof.
  intros Hr HQ. apply wp_bind, wp_live; [by apply live_marshal|]. intros data w1 H1.
  apply wp_bind, wp_wrapping, wp_live; [apply live_Append|]. intros loc w2 H2. apply HQ. by transitivity w1.
Qed.
Lemma wp_statement {A B} wrap (f : World → B) (k : B → dop A) w Q :
  (∀ w', ahead w w' → wp (k (f w')) w' Q) → wp (_ ← attempt wrap; rows ← gets f; k rows) w Q.
Proof.
  intros HQ. apply wp_bind, wp_live; [apply live_attempt|]. intros _ w1 H1. apply wp_bind, wp_gets. by apply HQ.
Qed.

Lemma wp_save_audit eid ety action actor t details w Q :
  formattable t → unlogged w → (∀ w', unlogged w' → (∃ a, spent (au_ID a) w' ∧ w_db w' = add_audit a (w_db w)) → w_tick w ≤ w_tick w' → Q () w')%nat →
  wp (save_audit writer eid ety action actor t details) w Q.
Proof.
  intros Ht Hu HQ. unfold save_audit. apply wp_bind, wp_uuid. intros w1 E1 L1.
  unfold SaveAudit. apply wp_append; [by apply Forall_singleton|]. intros loc w2 [E2 L2].
  unfold InsertAudit. apply wp_statement. intros w4 [E4 L4]. assert (w_db w4 = w_db w) as E by congruence. rewrite E.
  apply wp_bind, wp_ensure; [simpl; by rewrite bool_decide_false by (by apply Hu)|]. apply wp_modify.
  assert (∀ n, (w_tick w4 ≤ n)%nat → env_uuid n ≠ env_uuid (w_tick w)) as Hspent.
  { intros n Hn Heq. apply env_uuid_inj in Heq. lia. }
  apply HQ; [|eexists; split; [|simpl; by rewrite E]; exact Hspent|simpl; lia].
  intros n Hn. simpl in *. rewrite E, fmap_app, not_elem_of_app. split; [apply Hu; lia|].
  intros Heq. by apply list_elem_of_singleton, Hspent in Heq.
Qed.
Lemma wp_SaveItem item w Q :
  storable_times item → (ic_ID item ∉ ic_ID <$> db_items (w_db w)) →
  (ic_ExternalRef item ∉ ic_ExternalRef <$> db_items (w_db w)) →
  (∀ item' w', w_tick w ≤ w_tick w' → w_db w' = (w_db w) <| db_items := db_items (w_db w) ++ [item'] |> → Q item' w')%nat →
  wp (SaveItem writer item) w Q.
Proof.
  intros Ht Hid Href HQ. unfold SaveItem. apply wp_append; [done|]. intros loc w1 [E1 L1]. cbv zeta.
  unfold InsertItem. apply wp_bind, wp_statement. intros w4 [E4 L4]. assert (w_db w4 = w_db w) as E by congruence. rewrite E.
  apply wp_bind, wp_ensure; [simpl; by rewrite bool_decide_false|].
  apply wp_bind, wp_ensure; [simpl; by rewrite bool_decide_false|].
  apply wp_modify, wp_ret, HQ; simpl; [lia|by rewrite E].
Qed.
Lemma wp_UpdateItem item w Q :
  storable_times item → ic_ID item ∈ ic_ID <$> db_items (w_db w) →
  (∀ item' w', w_tick w ≤ w_tick w' → w_db w' = put_item item (w_db w) → Q item' w')%nat →
  wp (Tx_UpdateItem writer item) w Q.
Proof.
  intros Ht Hid HQ. unfold Tx_UpdateItem. apply wp_bind, wp_live; [by apply live_marshal|]. intros data w1 [E1 L1].
  apply wp_bind, wp_clock. intros w2 [E2 L2].
  apply wp_bind, wp_wrapping, wp_live; [apply live_Append|]. intros loc w3 [E3 L3]. cbv zeta.
  unfold UpdateItem. apply wp_bind, wp_statement. intros w4 [E4 L4]. assert (w_db w4 = w_db w) as E by congruence. rewrite E.
  apply wp_bind, wp_modify. apply wp_ensure; [simpl; by rewrite bool_decide_true|].
  apply wp_ret, HQ; simpl; [lia|]. by rewrite E.
Qed.
Lemma wp_SaveAssignment a w Q :
  storable_times a → (rf_ID a ∉ rf_ID <$> db_assignments (w_db w)) →
  (∀ w', w_tick w ≤ w_tick w' → (∃ a', rf_ID a' = rf_ID a ∧ w_db w' = add_referral a' (w_db w)) → Q () w')%nat →
  wp (SaveAssignment writer a) w Q.
Proof.
  intros Ht Hid HQ. unfold SaveAssignment. apply wp_append; [done|]. intros loc w1 [E1 L1].
  unfold InsertAssignment. apply wp_statement. intros w4 [E4 L4]. assert (w_db w4 = w_db w) as E by congruence. rewrite E.
  apply wp_bind, wp_ensure; [simpl; by rewrite bool_decide_false|]. apply wp_modify, HQ; simpl; [lia|].
  eexists. split; [|by rewrite E]. done.
Qed.
Lemma wp_SaveEscalation e w Q :
  storable_times e → (es_ID e ∉ es_ID <$> db_escalations (w_db w)) →
  (∀ e' w', w_tick w ≤ w_tick w' → es_ID e' = es_ID e ∧ w_db w' = add_escalation e' (w_db w) → Q e' w')%nat →
  wp (SaveEscalation writer e) w Q.
Proof.
  intros Ht Hid HQ. unfold SaveEscalation. apply wp_append; [done|]. intros loc w1 [E1 L1]. cbv zeta.
  unfold InsertEscalation. apply wp_bind, wp_statement. intros w4 [E4 L4]. assert (w_db w4 = w_db w) as E by congruence. rewrite E.
  apply wp_bind, wp_ensure; [simpl; by rewrite bool_decide_false|]. apply wp_modify, wp_ret, HQ; simpl; [lia|].
  by rewrite E.
Qed.
Lemma wp_MarkSuperseded id w Q :
  (∀ w', w_tick w ≤ w_tick w' → w_db w' = supersede id (w_db w) → Q () w')%nat →
  wp (Tx_MarkAssignmentSuperseded id) w Q.
Proof.
  intros HQ. unfold Tx_MarkAssignmentSuperseded, MarkAssignmentSuperseded.
  apply wp_bind, wp_live; [apply live_attempt|]. intros _ w1 [E1 L1]. apply wp_modify, HQ; simpl; [lia|]. by rewrite E1.
Qed.
Lemma wp_SaveRule r w Q :
  storable_times r → (ru_Version r ∉ ru_Version <$> db_rules (w_db w)) →
  (∀ r' w', w_tick w ≤ w_tick w' → db_audit (w_db w') = db_audit (w_db w) → Q r' w')%nat →
  wp (SaveRule writer r) w Q.
Proof.
  intros Ht Hv HQ. unfold SaveRule. apply wp_append; [done|]. intros loc w1 [E1 L1]. cbv zeta.
  unfold InsertRule. apply wp_bind, wp_statement. intros w4 [E4 L4]. assert (w_db w4 = w_db w) as E by congruence. rewrite E.
  apply wp_bind, wp_ensure; [simpl; by rewrite bool_decide_false|]. apply wp_modify, wp_ret, HQ; simpl; [lia|].
  by rewrite E.
Qed.
Lemma wp_SupersedeRule v w Q :
  (∀ w', w_tick w ≤ w_tick w' → (∃ wall, w_db w' = supersede_rule v wall (w_db w)) → Q () w')%nat →
  wp (Tx_SupersedeRule v) w Q.
Proof.
  intros HQ. unfold Tx_SupersedeRule, SupersedeRule. apply wp_bind, wp_clock. intros w1 [E1 L1].
  apply wp_bind, wp_live; [apply live_attempt|]. intros _ w2 [E2 L2]. apply wp_modify, HQ; simpl; [lia|].
  eexists. by rewrite E2, E1.
Qed.
Lemma wp_UpdateFailure f w Q :
  storable_times f → pf_ID f ∈ pf_ID <$> db_failures (w_db w) →
  (∀ w', w_tick w ≤ w_tick w' → db_audit (w_db w') = db_audit (w_db w) → Q () w')%nat →
  wp (Tx_UpdateFailure writer f) w Q.
Proof.
  intros Ht Hid HQ. unfold Tx_UpdateFailure. apply wp_bind, wp_live; [by apply live_marshal|]. intros data w1 [E1 L1].
  apply wp_bind, wp_clock. intros w2 [E2 L2].
  apply wp_bind, wp_wrapping, wp_live; [apply live_Append|]. intros loc w3 [E3 L3].
  unfold UpdateFailure. apply wp_statement. intros w4 [E4 L4]. assert (w_db w4 = w_db w) as E by congruence. rewrite E.
  apply wp_bind, wp_modify. apply wp_ensure; [by rewrite bool_decide_true|].
  apply HQ; simpl; [lia|]. by rewrite E.
Qed.

(** ** What can be read *)

Definition readable (d : DB) : Prop :=
  Forall storable_times (db_items d) ∧ Forall storable_times (db_rules d) ∧ Forall storable_times (db_failures d).
Definition clock_readable : Prop := ∀ n, formattable (env_now n).

Lemma nullable_readable t : Forall formattable (option_list t) →
  ∃ t', nullable_time_column t = Ok t' ∧ Forall formattable (option_list t').
Proof.
  destruct t as [t|]; simpl; [|by exists None]. intros [Ht _]%Forall_cons. unfold nullable_time_column.
  destruct (IsZero t); [by exists None|]. rewrite time_column_ok by done. exists (Some t). split; [done|]. by apply Forall_singleton.
Qed.
Lemma storable_item item : storable_times item ↔
  (formattable (ic_RegisteredAt item) ∧ formattable (ic_Deadline item) ∧ formattable (ic_CreatedAt item) ∧
   formattable (ic_UpdatedAt item)) ∧
  Forall formattable (option_list (ic_CompletedAt item)) ∧ Forall formattable (option_list (ic_CancelledAt item)).
Proof.
  unfold storable_times. simpl. unfold item_times. rewrite !Forall_app, !Forall_cons, Forall_nil. intuition.
Qed.
Lemma scanItem_readable row : storable_times row → ∃ item, scanItem row = Ok item ∧ storable_times item.
Proof.
  intros ((? & ? & ? & ?) & Hc & Hx)%storable_item.
  destruct (nullable_readable _ Hc) as (c & Ec & Hc'), (nullable_readable _ Hx) as (x & Ex & Hx').
  unfold scanItem. rewrite !time_column_ok, Ec, Ex by done. eexists. split; [done|]. by apply storable_item.
Qed.
Lemma scanFailure_readable row : storable_times row → ∃ f, scanFailure row = Ok f ∧ storable_times f.
Proof.
  intros (Hs & [Hc Hx]%Forall_app)%Forall_app. repeat apply Forall_cons in Hs as [? Hs].
  destruct (nullable_readable _ Hc) as (c & Ec & Hc'), (nullable_readable _ Hx) as (x & Ex & Hx').
  unfold scanFailure. rewrite !time_column_ok, Ec, Ex by done. eexists. split; [done|].
  unfold storable_times. simpl. unfold failure_times. simpl. repeat (apply Forall_cons; split; [done|]). by apply Forall_app.
Qed.
Definition read_rule (row : Rule) : Rule :=
  row <| ru_MatchKeywords := slice_column (ru_MatchKeywords row) |> <| ru_CoDepartments := slice_column (ru_CoDepartments row) |>.
Lemma scanRule_readable row : storable_times row → scanRule row = Ok (read_rule row).
Proof. intros Hs. repeat apply Forall_cons in Hs as [? Hs]. unfold scanRule. rewrite !time_column_ok by done. by destruct row. Qed.
Lemma scan_rules_readable rows : Forall storable_times rows → scan_all scanRule rows = Ok (read_rule <$> rows).
Proof. induction 1 as [|row rows Hr _ IH]; [done|]. simpl. by rewrite scanRule_readable, IH. Qed.

(** ** The calls *)

(** The conditions of a call. A new case must find a rule whenever it comes to
    be adjudicated, and its deadline must be a time that can be written. *)
Definition routable (w : World) (dl : Duration) (req : RegisterItemRequest) : Prop :=
  ∀ n, (w_tick w ≤ n)%nat → formattable (Add (env_now n) dl) ∧
    ∃ rule, rule ∈ db_rules (w_db w) ∧ active_rule_where (env_now n) rule = true ∧
      applies (read_rule rule) (new_case dl req "" (env_now n)).
Definition case_with (w : World) (id : string) (P : ItemStatus → Prop) : Prop :=
  ∃ row, row ∈ db_items (w_db w) ∧ ic_ID row = id ∧ P (ic_Status row).
Definition enabled (w : World) (c : svc_call) : Prop :=
  match c with
  | SvcRegister dl req =>
      rq_ExternalRef req ≠ "" ∧ rq_Title req ≠ "" ∧ rq_RegisteredBy req ≠ "" ∧
      (rq_ExternalRef req ∈ ic_ExternalRef <$> db_items (w_db w) ∨ routable w dl req)
  | SvcStart id _ => case_with w id (λ s, may s StatusInProgress)
  | SvcModify id _ => case_with w id (λ s, IsTerminal s = false)
  | SvcReturn id _ _ => case_with w id (λ s, may s StatusReturned)
  | SvcResubmit id _ => case_with w id (λ s, may s StatusRegistered)
  | SvcCancel id _ _ => case_with w id (λ s, may s StatusCancelled)
  | SvcComplete id _ => case_with w id (λ s, may s StatusCompleted)
  | SvcCreateRule req =>
      cr_Name req ≠ "" ∧ cr_LeadDepartment req ≠ "" ∧ cr_CreatedBy req ≠ "" ∧
      Forall (λ r, min_i64 ≤ ru_Version r < max_i64) (db_rules (w_db w))
  | SvcRetryFailure id _ => ∃ f, f ∈ db_failures (w_db w) ∧ pf_ID f = id
  end.
Context (Hclock : clock_readable).

Lemma unused_unlogged w : unused w → unlogged w.
Proof. intros Hu n Hn. by apply Hu. Qed.
Lemma wp_update w0 item actor action details w :
  ahead w0 w → storable_times item → ic_ID item ∈ ic_ID <$> db_items (w_db w0) → unused w0 →
  wp (updateItemWithAudit writer item actor action details) w success.
Proof.
  intros H0 Ht Hid Hu. unfold updateItemWithAudit. apply wp_bind, wp_clock. intros w1 H1.
  apply wp_wrapping, wp_tx. intros w2 H2. assert (ahead w0 w2) as [E L] by by (transitivity w; [|transitivity w1]).
  apply wp_bind, wp_wrapping, wp_UpdateItem; [done|by rewrite E|]. intros item' w3 L3 E3.
  apply wp_bind, wp_wrapping, wp_save_audit; [apply Hclock| |intros w4 _ _ _; by apply wp_ret].
  apply (unlogged_later w0); [by rewrite E3, <- E|lia|by apply unused_unlogged].
Qed.
(** Read, change, write back. *)
Lemma wp_case id (P : ItemStatus → Prop) (f : ComplianceCase → dop ComplianceCase) w :
  db_inv (w_db w) → readable (w_db w) → unused w → case_with w id P →
  (∀ item w', P (ic_Status item) → storable_times item → ic_ID item ∈ ic_ID <$> db_items (w_db w') → unused w' →
     wp (f item) w' success) →
  wp (unit_of (wrapping (errorf "get item") (GetItem id) ≫= f)) w success.
Proof.
  intros Hi [Hr _] Hu (row & Hrow & <- & HP) Hf. unfold unit_of. apply wp_bind, wp_bind, wp_wrapping.
  apply (wp_query_row _ _ _ row); [done|by rewrite bool_decide_true|].
  intros r Hin Heq%bool_decide_eq_true. assert (r = row) as -> by by eapply (NoDup_proj_eq ic_ID); [apply Hi|..].
  destruct (scanItem_readable row) as (item & Hscan & Ht); [exact (proj1 (Forall_forall _ _) Hr _ Hin)|]. exists item. split; [done|].
  intros w1 H1. apply scanItem_inv in Hscan as (Hid & _ & Hst & _).
  eapply wp_mono; [apply Hf|intros; by apply wp_ret].
  - by rewrite Hst.
  - done.
  - destruct H1 as [-> _]. rewrite Hid. by apply list_elem_of_fmap_2.
  - by eapply unused_ahead.
Qed.
Lemma lift_transition item to : may (ic_Status item) to → TransitionTo item to = Ok (item <| ic_Status := to |>).
Proof. intros Hm. by apply TransitionTo_ok. Qed.
Lemma wp_move {A} item to (f : ComplianceCase → dop A) w Q :
  may (ic_Status item) to → wp (f (item <| ic_Status := to |>)) w Q → wp (lift (TransitionTo item to) ≫= f) w Q.
Proof. intros Hm Hf. rewrite lift_transition by done. by apply wp_bind, wp_lift. Qed.

Lemma storable_updated item n : storable_times item → storable_times (item <| ic_UpdatedAt := env_now n |>).
Proof. rewrite !storable_item. simpl. intuition. Qed.
Lemma storable_cancelled item n reason :
  storable_times item → storable_times (item <| ic_CancelledAt := Some (env_now n) |> <| ic_CancelReason := reason |>).
Proof. rewrite !storable_item. simpl. rewrite Forall_singleton. intuition. Qed.
Lemma storable_completed item n :
  storable_times item → storable_times (item <| ic_CompletedAt := Some (env_now n) |>).
Proof. rewrite !storable_item. simpl. rewrite Forall_singleton. intuition. Qed.
Lemma wp_clock_then {A} w0 (f : Time → dop A) w Q :
  ahead w0 w → (∀ n w', ahead w0 w' → wp (f (env_now n)) w' Q) → wp (clock_now ≫= f) w Q.
Proof. intros H0 Hf. apply wp_bind, wp_clock. intros w1 H1. apply Hf. by transitivity w. Qed.
Lemma move_succeeds c w : match c with SvcRegister _ _ | SvcCreateRule _ | SvcRetryFailure _ _ => False | _ => True end →
  db_inv (w_db w) → readable (w_db w) → unused w → enabled w c → wp (exec_svc writer c) w success.
Proof.
  intros Hc Hi Hr Hu He. destruct c; try done; simpl in He |- *; (eapply wp_case; [done..|]);
    intros item w1 HP Ht Hid Hu1.
  - apply (wp_clock_then w1); [done|]. intros n w2 H2. apply wp_move; [done|].
    apply (wp_update w1); [done|by apply storable_updated|done..].
  - apply wp_bind, wp_ensure; [by rewrite HP|]. apply (wp_clock_then w1); [done|]. intros n w2 H2.
    apply (wp_update w1); [done|by apply storable_updated|done..].
  - apply (wp_clock_then w1); [done|]. intros n w2 H2. apply wp_move; [done|].
    apply (wp_update w1); [done|by apply storable_updated|done..].
  - apply wp_move; [done|]. apply wp_move; [by right|]. apply (wp_clock_then w1); [done|]. intros n w2 H2.
    apply (wp_update w1); [done|by apply storable_updated|done..].
  - apply (wp_clock_then w1); [done|]. intros n w2 H2. apply wp_move; [done|].
    apply (wp_update w1); [done|by apply storable_updated, storable_cancelled|done..].
  - apply (wp_clock_then w1); [done|]. intros n w2 H2. apply wp_move; [done|].
    apply (wp_update w1); [done|by apply storable_updated, storable_completed|done..].
Qed.

Lemma retry_succeeds id actor w :
  readable (w_db w) → unused w → enabled w (SvcRetryFailure id actor) →
  wp (exec_svc writer (SvcRetryFailure id actor)) w success.
Proof.
  intros (_ & _ & Hr) Hu (f & Hf & Hid). simpl. unfold RetryFailure, QueryService.RetryFailure. simpl.
  apply wp_bind, wp_wrapping. apply (wp_query_row _ _ _ f); [done|by rewrite bool_decide_true|].
  intros row Hin Heq%bool_decide_eq_true.
  destruct (scanFailure_readable row) as (g & Hscan & Ht); [exact (proj1 (Forall_forall _ _) Hr _ Hin)|].
  exists g. split; [done|]. intros w1 H1. apply (wp_clock_then w); [done|]. intros n w2 H2. cbv zeta.
  apply wp_tx. intros w3 H3. assert (ahead w w3) as [E L] by by transitivity w2.
  apply wp_bind, wp_wrapping, wp_UpdateFailure.
  - unfold storable_times in *. simpl in *. unfold failure_times in *. simpl in *.
    rewrite !Forall_cons, Forall_app in Ht. destruct Ht as (? & ? & ? & ?).
    rewrite !Forall_cons. split_and!; [done..|apply Hclock|done].
  - simpl. rewrite E. apply scanFailure_id in Hscan as ->. by apply list_elem_of_fmap_2.
  - intros w4 L4 E4. apply wp_save_audit; [apply Hclock| |done].
    apply (unlogged_later w); [by rewrite E4, E|lia|by apply unused_unlogged].
Qed.

Lemma wp_GetActiveRules t w Q :
  readable (w_db w) →
  (∀ rules w', (∀ rule, rule ∈ db_rules (w_db w) → active_rule_where t rule = true → read_rule rule ∈ rules) →
     ahead w w' → Q rules w') →
  wp (GetActiveRules t) w Q.
Proof.
  intros (_ & Hr & _) HQ. unfold GetActiveRules. apply wp_bind, wp_select. intros rows w1 Hp H1.
  rewrite scan_rules_readable.
  - apply wp_lift, HQ; [|done]. intros rule Hrule Hw. apply list_elem_of_fmap_2.
    rewrite merge_sort_Permutation, Hp. by apply elem_of_filter_bool.
  - apply Forall_forall. intros row Hrow. rewrite merge_sort_Permutation, Hp, elem_of_filter_bool in Hrow.
    exact (proj1 (Forall_forall _ _) Hr _ (proj1 Hrow)).
Qed.
Lemma wp_find_existing ref w Q :
  readable (w_db w) →
  (∀ o w', ahead w w' → (o = None → ref ∉ ic_ExternalRef <$> db_items (w_db w)) →
     (ref ∈ ic_ExternalRef <$> db_items (w_db w) → is_Some o) → Q o w') →
  wp (find_existing ref) w Q.
Proof.
  intros [Hr _] HQ. unfold find_existing.
  destruct (decide (ref ∈ ic_ExternalRef <$> db_items (w_db w))) as [Hin|Hno].
  - apply wp_on_result. apply list_elem_of_fmap in Hin as (row & -> & Hrow).
    apply (wp_query_row _ _ _ row); [done|by rewrite bool_decide_true|]. intros r Hin _.
    destruct (scanItem_readable r) as (item & Hscan & _); [exact (proj1 (Forall_forall _ _) Hr _ Hin)|].
    exists item. split; [done|]. intros w1 H1. apply wp_ret, HQ; [done..|by intros _; exists item].
  - unfold GetItemByExternalRef, query_row, on_result, mbind, op_bind, wp.
    destruct (wp_select (λ e, e) db_items (λ row, bool_decide (ic_ExternalRef row = ref)) w
      (λ rows w', rows = [] ∧ ahead w w')) as (w1 & rows & -> & -> & H1).
    { intros rows w' Hp H1. split; [|done]. destruct rows as [|row rows]; [done|]. exfalso.
      assert (row ∈ row :: rows) as Hin by by left. rewrite Hp, elem_of_filter_bool in Hin.
      destruct Hin as [Hin <-%bool_decide_eq_true]. apply Hno. by apply list_elem_of_fmap_2. }
    eexists _, _. split; [reflexivity|]. by apply HQ.
Qed.
Lemma wp_adjudicate item rules w Q :
  (∃ rule, rule ∈ rules ∧ applies rule item) →
  (∀ chosen uuid n w', uuid = env_uuid (S (w_tick w)) → ahead w w' → Q (mk_referral uuid (env_now n) item chosen) w') →
  wp (adjudicate item rules) w Q.
Proof.
  intros (rule & Hin & Ha) HQ. unfold adjudicate. apply wp_bind. eexists _, _. split; [reflexivity|]. rewrite no_cancel.
  apply wp_bind, wp_uuid. intros w1 E1 L1. apply wp_bind, wp_clock. intros w2 [E2 L2]. simpl in E1, L1.
  match goal with |- context [Adjudicate ?c ?u ?n ?i ?l] => destruct (Adjudicate c u n i l) as [referral|e] eqn:E end; [|by apply Adjudicate_none in E as [_ Hno]; destruct (Hno rule)].
  apply wp_lift. rewrite Adjudicate_unfold in E. destruct (sort_rules _) as [|chosen t]; [done|]. injection E as <-.
  apply HQ; [done|]. split; [congruence|lia].
Qed.

Lemma register_tx_succeeds item referral by_ n w :
  storable_times item → storable_times referral →
  (ic_ID item ∉ ic_ID <$> db_items (w_db w)) → (ic_ExternalRef item ∉ ic_ExternalRef <$> db_items (w_db w)) →
  (rf_ID referral ∉ rf_ID <$> db_assignments (w_db w)) → unused w →
  wp (WithTx (
    item ← wrapping (errorf "save item") (SaveItem writer item);
    _ ← wrapping (errorf "save referral") (SaveAssignment writer referral);
    _ ← wrapping (errorf "save audit")
          (save_audit writer (ic_ID item) "item" ActionRegister by_ (env_now n) "");
    mret item)) w success.
Proof.
  intros Ht Htr Hid Href Hrid Hu. apply wp_tx. intros w1 [E1 L1].
  apply wp_bind, wp_wrapping, wp_SaveItem; [done|by rewrite E1..|]. intros item' w2 L2 E2.
  apply wp_bind, wp_wrapping, wp_SaveAssignment; [done|rewrite E2; simpl; by rewrite E1|]. intros w3 L3 (a & _ & E3).
  apply wp_bind, wp_wrapping, wp_save_audit; [apply Hclock| |intros w4 _ _ _; by apply wp_ret].
  apply (unlogged_later w); [rewrite E3, E2; simpl; by rewrite E1|lia|by apply unused_unlogged].
Qed.
Lemma register_succeeds dl req w :
  readable (w_db w) → unused w → enabled w (SvcRegister dl req) → wp (exec_svc writer (SvcRegister dl req)) w success.
Proof.
  intros Hr Hu (Hne1 & Hne2 & Hne3 & Hrule). simpl. unfold unit_of. apply wp_bind. unfold Register.
  do 3 (apply wp_bind, wp_ensure; [by rewrite bool_decide_false|]).
  apply wp_bind, wp_find_existing; [done|]. intros [item|] w1 [E1 L1] Hnone Hsome.
  { by apply wp_ret, wp_ret. }
  specialize (Hnone eq_refl). destruct Hrule as [Hin|Hroute]; [by destruct (Hsome Hin)|].
  apply wp_bind, wp_clock. intros w2 [E2 L2]. destruct (Hroute (w_tick w1)) as (Hdl & rule & Hrule & Hact & Happ); [lia|].
  apply wp_bind, wp_wrapping, wp_GetActiveRules; [by rewrite E2, E1|]. intros rules w3 Hrules [E3 L3].
  apply wp_bind, wp_uuid. intros w4 E4 L4. cbv zeta.
  apply wp_bind, wp_wrapping, wp_adjudicate.
  { exists (read_rule rule). split; [apply Hrules; [by rewrite E2, E1|done]|exact Happ]. }
  intros chosen uuid n w5 -> [E5 L5]. apply wp_wrapping.
  assert (ahead w w5) as H5 by (split; [congruence|lia]). pose proof H5 as [E L].
  eapply wp_mono; [apply register_tx_succeeds|intros; by apply wp_ret].
  - apply storable_item. simpl. pose proof Hclock. split_and!; done.
  - apply Forall_singleton. apply Hclock.
  - rewrite E. apply Hu. lia.
  - by rewrite E.
  - rewrite E. apply Hu. lia.
  - by eapply unused_ahead.
Qed.
Lemma next_version rules (vs : list Z) :
  vs ≡ₚ ru_Version <$> rules → Forall (λ r, min_i64 ≤ ru_Version r < max_i64) rules →
  (match vs with [] => 0 | v :: vs => foldr Z.max v vs end +ᵢ 1) ∉ ru_Version <$> rules.
Proof.
  intros Hp Hr. rewrite <- Hp. destruct vs as [|v vs]; [set_solver|].
  pose proof (foldr_max_elem v vs) as Hin. pose proof (foldr_max_bound v vs) as Hall.
  revert Hin Hall. generalize (foldr Z.max v vs) as m. intros m Hin Hall Hm.
  rewrite Hp in Hin. apply list_elem_of_fmap in Hin as (r & -> & Hin).
  pose proof (proj1 (Forall_forall _ _) Hr _ Hin) as Hb. simpl in Hb.
  rewrite i64_id in Hm by (unfold is_i64, min_i64, max_i64 in *; lia).
  pose proof (proj1 (Forall_forall _ _) Hall _ Hm) as Hle. simpl in Hle. lia.
Qed.
Lemma save_rule_succeeds rule actor n details w :
  storable_times rule → (ru_Version rule ∉ ru_Version <$> db_rules (w_db w)) → unlogged w →
  wp (rule ← wrapping (errorf "save rule") (SaveRule writer rule);
      _ ← save_audit writer (itoa (ru_Version rule)) "rule" ActionRuleCreate actor (env_now n) (details rule);
      mret rule) w success.
Proof.
  intros Ht Hv Hu. apply wp_bind, wp_wrapping, wp_SaveRule; [done..|]. intros r' w1 L1 E1.
  apply wp_bind, wp_save_audit; [apply Hclock| |intros w2 _ _ _; by apply wp_ret]. by apply (unlogged_later w).
Qed.
Lemma rule_succeeds req w :
  unused w → enabled w (SvcCreateRule req) → wp (exec_svc writer (SvcCreateRule req)) w success.
Proof.
  intros Hu (Hne1 & Hne2 & Hne3 & Hvers). simpl. unfold unit_of. apply wp_bind. unfold CreateRule.
  do 3 (apply wp_bind, wp_ensure; [by rewrite bool_decide_false|]).
  apply wp_bind, wp_wrapping. unfold GetCurrentRuleVersion. apply wp_bind, wp_select. intros rows w1 Hp H1.
  rewrite filter_all in Hp. apply wp_ret. apply (wp_clock_then w); [done|]. intros n w2 H2. cbv zeta.
  assert ((match ru_Version <$> rows with [] => 0 | v :: vs => foldr Z.max v vs end +ᵢ 1)
    ∉ ru_Version <$> db_rules (w_db w)) as Hnew by (apply next_version; [by rewrite Hp|done]).
  eapply wp_mono; [|intros; by apply wp_ret]. apply wp_tx. intros w3 H3.
  assert (ahead w w3) as [E3 L3] by by transitivity w2.
  assert (unlogged w3) as Hu3 by (apply (unlogged_later w); [by rewrite E3|done|by apply unused_unlogged]).
  apply wp_bind. destruct (0 <? cr_SupersedeVersion req).
  - apply wp_bind, wp_wrapping, wp_SupersedeRule. intros w4 L4 (wall & E4).
    apply wp_wrapping, wp_save_audit; [apply Hclock|apply (unlogged_later w3); [by rewrite E4|done|done]|].
    intros w5 Hu5 (a & _ & E5) _. apply (save_rule_succeeds _ _ _ ru_Name); [|simpl; rewrite E5, E4; simpl; rewrite E3|done].
    + apply Forall_cons; split; [apply Hclock|]. apply Forall_cons; split; [done|]. apply Forall_singleton, Hclock.
    + by rewrite update_where_proj.
  - apply wp_ret. apply (save_rule_succeeds _ _ _ ru_Name); [|simpl; by rewrite E3|done].
    apply Forall_cons; split; [apply Hclock|]. apply Forall_cons; split; [done|]. apply Forall_singleton, Hclock.
Qed.

Lemma call_succeeds c w :
  db_inv (w_db w) → readable (w_db w) → unused w → enabled w c → wp (exec_svc writer c) w success.
Proof.
  intros Hi Hr Hu He. destruct c; try (by apply move_succeeds).
  - by apply register_succeeds.
  - by apply rule_succeeds.
  - by apply retry_succeeds.
Qed.
(** What a call that succeeded has needed. *)
Lemma step_enabled c d d' w :
  match c with SvcRegister _ _ | SvcCreateRule _ => False | _ => True end →
  d = w_db w → db_step d (LCall c) d' → enabled w c.
Proof.
  intros Hc -> Hs. inversion Hs as [| ? row item audit Hrow Hch| | |? ? f audit Hf Hin| | | | |]; subst; try done.
  - destruct Hch as (_ & _ & _ & Hch). destruct c; try done; exists row; naive_solver.
  - simpl. apply list_elem_of_fmap in Hin as (g & Hg & Hin). by exists g.
Qed.

(** C3: the services do their work. In surroundings where nothing fails and
    nobody else writes, with tables in their invariant whose times can be
    written and UUIDs that are not in use, a call whose conditions hold
    succeeds, and commits the transaction of its specification (or finds the
    reference of a new case registered). The conditions are those of the
    domain: the named fields are given, a rule in force applies to the new
    case, the status machine has the move, the failure exists, a version is
    left for the new rule. For the calls on a case or a failure they are also
    necessary, whatever fails. *)
Theorem services_complete c w :
  (db_inv (w_db w) → readable (w_db w) → unused w → enabled w c →
   ∃ w', exec_svc writer c w = (w', Ok ()) ∧
     (db_step (w_db w) (LCall c) (w_db w') ∨
      w_db w' = w_db w ∧ ∃ dl req, c = SvcRegister dl req ∧
        rq_ExternalRef req ∈ ic_ExternalRef <$> db_items (w_db w))) ∧
  (match c with SvcRegister _ _ | SvcCreateRule _ => False | _ => True end →
   ∀ w', exec_svc writer c w = (w', Ok ()) → enabled w c).
Proof.
  pose proof (exec_svc_refines writer c w) as Hs. split.
  - intros Hi Hr Hu He. destruct (call_succeeds c w Hi Hr Hu He) as (w' & [] & Hc & _).
    exists w'. split; [done|]. rewrite Hc in Hs. destruct Hs as [Hs|(Hd & dl & req & row & -> & Hrow & Href)]; [by left|right].
    split; [done|]. exists dl, req. split; [done|]. rewrite <- Href. by apply list_elem_of_fmap_2.
  - intros Hc w' E. rewrite E in Hs. destruct Hs as [Hs|(_ & dl & req & row & -> & _)]; [|done].
    by eapply step_enabled.
Qed.

(** ** The escalation check *)

Lemma unused_escalated id item e a r w w' :
  unused w → (w_tick w ≤ w_tick w')%nat → spent (es_ID e) w' → spent (rf_ID r) w' → spent (au_ID a) w' →
  w_db w' = add_audit a (put_item item (add_referral r (supersede id (add_escalation e (w_db w))))) → unused w'.
Proof.
  intros Hu L He Hr Ha E n Hn. destruct (Hu n) as (H1 & H2 & H3 & H4); [lia|]. rewrite E.
  assert (∀ ids new, env_uuid n ∉ ids → env_uuid n ≠ new → env_uuid n ∉ ids ++ [new]) as Hsnoc.
  { intros ids new Hi Hne. rewrite not_elem_of_app. split; [done|]. by intros ?%list_elem_of_singleton. }
  split_and!; simpl; rewrite ?fmap_app, ?update_where_proj by (by intros []); [done|apply Hsnoc..]; try done.
  - by apply Hr.
  - by apply He.
  - by apply Ha.
Qed.
Section check.
Context (ext : Duration) (maxLevel : Z) (now : Time) (Hnow : formattable now) (Hext : formattable (Add now ext)).

Definition escalatable (item : ComplianceCase) : Prop :=
  storable_times item ∧ may (ic_Status item) StatusEscalated ∧ is_i64 (ic_EscalationLevel item) ∧
  ic_EscalationLevel item < maxLevel ∧ is_i64 maxLevel.
Lemma escalateItem_succeeds item w :
  escalatable item → ic_ID item ∈ ic_ID <$> db_items (w_db w) → unused w →
  wp (escalateItem writer ext maxLevel item now) w
    (λ _ w', unused w' ∧ ic_ID <$> db_items (w_db w') = ic_ID <$> db_items (w_db w)).
Proof.
  intros (Ht & Hmay & Hl & Hlt & Hm) Hid Hu. unfold escalateItem. cbv zeta.
  apply wp_bind, wp_ensure.
  { apply negb_true_iff, Z.ltb_ge. rewrite i64_id; unfold is_i64 in *; lia. }
  apply wp_bind, wp_uuid. intros w1 E1 L1. apply wp_bind, wp_uuid. intros w2 E2 L2.
  apply wp_move; [done|]. apply wp_WithTx. intros w3 [E3 L3].
  assert (w_db w3 = w_db w) as E by congruence.
  apply wp_bind, wp_wrapping, wp_SaveEscalation; [by repeat (apply Forall_cons; split)|simpl; rewrite E; apply Hu; lia|].
  intros esc w4 L4 [Ei4 E4]. apply wp_bind, wp_wrapping, wp_MarkSuperseded. intros w5 L5 E5.
  apply wp_bind, wp_wrapping, wp_SaveAssignment.
  { by apply Forall_singleton. }
  { rewrite E5, E4. unfold supersede. simpl. rewrite update_where_proj by by intros []. rewrite E. apply Hu. lia. }
  intros w6 L6 (r & Er & E6). apply wp_bind, wp_wrapping, wp_UpdateItem.
  { apply storable_item. apply storable_item in Ht as ((? & ? & ? & ?) & ? & ?). by split_and!. }
  { rewrite E6, E5, E4. simpl. by rewrite E. }
  intros item' w7 L7 E7. apply wp_bind, wp_save_audit; [done| |].
  { apply (unlogged_later w); [by rewrite E7, E6, E5, E4; simpl; rewrite E|lia|by apply unused_unlogged]. }
  intros w8 _ (a & Ha & E8) L8. apply wp_ret. intros w9 [E9 L9].
  assert (∀ m, (m < w_tick w9)%nat → spent (env_uuid m) w9) as Hspent.
  { intros m Hlt' n Hn Heq. apply env_uuid_inj in Heq. lia. }
  split.
  - eapply (unused_escalated _ _ esc a r w w9); [done|lia| | | |by rewrite E9, E8, E7, E6, E5, E4, E].
    + rewrite Ei4. apply Hspent. simpl. lia.
    + rewrite Er. apply Hspent. simpl. lia.
    + intros n Hn. apply Ha. lia.
  - rewrite E9, E8, E7, E6, E5, E4, E. simpl. by rewrite update_where_proj.
Qed.
Lemma escalate_all_succeeds overdue w :
  Forall (λ i, escalatable i ∧ ic_ID i ∈ ic_ID <$> db_items (w_db w)) overdue → unused w →
  ∃ w' escs, escalate_all writer ext maxLevel overdue now w = (w', (escs, None)).
Proof.
  revert w. induction overdue as [|item overdue IH]; intros w Ho Hu; simpl; [by eexists _, _|].
  apply Forall_cons in Ho as [[He Hin] Ho].
  destruct (escalateItem_succeeds item w He Hin Hu) as (w1 & esc & -> & Hu1 & Hids).
  destruct (IH w1) as (w2 & escs & ->); [by rewrite Hids|done|]. by eexists _, _.
Qed.
End check.
Lemma scan_items_readable rows : Forall storable_times rows → ∃ items, scan_all scanItem rows = Ok items.
Proof.
  induction 1 as [|row rows Hr _ [items IH]]; [by exists []|]. destruct (scanItem_readable row Hr) as (item & E & _).
  exists (item :: items). simpl. by rewrite E, IH.
Qed.
Lemma check_succeeds ext maxLevel w :
  let now := env_now (w_tick w) in
  let overdue := List.filter (overdue_where now maxLevel) (db_items (w_db w)) in
  db_inv (w_db w) → is_i64 maxLevel → readable (w_db w) → unused w → formattable now → formattable (Add now ext) →
  (∀ row, row ∈ overdue → may (ic_Status row) StatusEscalated) →
  ∃ w' escs, CheckAndEscalate writer ext maxLevel w = (w', (escs, None)).
Proof.
  intros now overdue Hi Hm [Hr _] Hu Hnow Hext Hmay.
  assert (wp (now ← clock_now; overdue ← wrapping (errorf "find overdue items") (FindOverdueItems now maxLevel);
      mret (now, overdue)) w (λ p w', p.1 = now ∧ ahead w w' ∧
        Forall (λ i, escalatable maxLevel i ∧ ic_ID i ∈ ic_ID <$> db_items (w_db w)) p.2))
    as (w1 & [t items] & Hread & Ht & [E L] & Hall).
  { apply wp_bind, wp_clock. intros w1 [E1 L1]. apply wp_bind, wp_wrapping. unfold FindOverdueItems.
    apply wp_bind, wp_select. intros rows w2 Hp [E2 L2]. rewrite E1 in Hp.
    assert (∀ row, row ∈ merge_sort (asc_by ic_Deadline) rows → row ∈ db_items (w_db w) ∧ overdue_where now maxLevel row = true)
      as Hrows by (intros row; by rewrite merge_sort_Permutation, Hp, elem_of_filter_bool).
    destruct (scan_items_readable (merge_sort (asc_by ic_Deadline) rows)) as [items Hs].
    { apply Forall_forall. intros row [Hrow _]%Hrows. exact (proj1 (Forall_forall _ _) Hr _ Hrow). }
    rewrite Hs. apply wp_lift, wp_ret. split; [done|]. split; [split; [congruence|lia]|].
    apply Forall_forall. intros item Hin. destruct (scan_all_elem _ _ _ _ Hs Hin) as (row & Hrow & Hscan).
    apply Hrows in Hrow as [Hrow Hw]. destruct (scanItem_readable row) as (item' & Hscan' & Ht).
    { exact (proj1 (Forall_forall _ _) Hr _ Hrow). }
    rewrite Hscan in Hscan'. injection Hscan' as <-. pose proof Hscan as (Hid & _ & Hst & _ & _ & Hlvl & _)%scanItem_inv.
    destruct (inv_row_ok _ Hi row Hrow) as (_ & _ & Hl). pose proof Hw as Hlt. unfold overdue_where in Hlt. guards.
    unfold escalatable. rewrite Hst, Hlvl, Hid. split_and!; try done.
    - apply Hmay. by apply elem_of_filter_bool.
    - by apply list_elem_of_fmap_2. }
  simpl in Ht, Hall. subst t. unfold CheckAndEscalate. rewrite Hread.
  apply escalate_all_succeeds; [done..|by rewrite E|]. apply (unused_ahead w); [by split|done].
Qed.
End live.

(** C32: an escalation check escalates distinct cases that are overdue below the
    maximum level, each by one transaction, and all of them if it reports no
    error. It never records a permanent failure: the query has already left
    out the cases at the maximum level, so [ErrMaxEscalationReached] cannot
    occur. If nothing fails from the outside, times can be written, the UUIDs
    to come are not in use and the status machine has the move for every
    overdue case, it reports no error. *)
Theorem escalation_check `{Env, !Sequential H, !EnvLaws H} (writer : Writer) ext maxLevel w :
  db_inv (w_db w) → is_i64 maxLevel →
  let now := env_now (w_tick w) in
  let overdue := List.filter (overdue_where now maxLevel) (db_items (w_db w)) in
  match CheckAndEscalate writer ext maxLevel w with
  | (w', (escs, err)) =>
      steps db_step (w_db w) (LEscalate <$> (es_ItemID <$> escs)) (w_db w') ∧
      NoDup (es_ItemID <$> escs) ∧ (es_ItemID <$> escs) ⊆ (ic_ID <$> overdue) ∧
      (err = None → es_ItemID <$> escs ≡ₚ ic_ID <$> overdue) ∧
      db_failures (w_db w') = db_failures (w_db w) ∧
      (Faultless H → readable (w_db w) → unused w → formattable now → formattable (Add now ext) →
       (∀ row, row ∈ overdue → may (ic_Status row) StatusEscalated) → err = None)
  end.
Proof.
  intros Hinv Hm now overdue. destruct (CheckAndEscalate writer ext maxLevel w) as [w' [escs err]] eqn:Hc.
  pose proof (CheckAndEscalate_steps writer _ _ _ _ _ _ Hinv Hm Hc) as (Hs & Hnd & Hsub & Hall).
  split_and!; try done.
  - revert Hs. generalize (es_ItemID <$> escs) as ids. generalize (w_db w) as d.
    intros d ids. revert d. induction ids as [|i ids IH]; intros d Hs; inversion Hs; subst; [done|].
    match goal with Hd : db_step d _ ?d2 |- _ =>
      transitivity (db_failures d2); [by apply IH|by inversion Hd] end.
  - intros Hf Hr Hu Hn He Hmay. destruct (check_succeeds writer ext maxLevel w) as (w2 & escs2 & E); [done..|].
    rewrite E in Hc. by injection Hc as _ _ <-.
Qed.

(** ** Executions *)

(** The IDs in the tables are UUIDs that were taken before. *)
Lemma unused_issued `{Env, !EnvLaws H} m w : (m ≤ w_tick w)%nat →
  (ic_ID <$> db_items (w_db w)) ++ (rf_ID <$> db_assignments (w_db w)) ++ (es_ID <$> db_escalations (w_db w)) ++
    (au_ID <$> db_audit (w_db w)) ⊆ env_uuid <$> seq 0 m → unused w.
Proof.
  intros Hm Hsub n Hn. assert (∀ ids, ids ⊆ env_uuid <$> seq 0 m → env_uuid n ∉ ids) as Hno.
  { intros ids Hi Hin. apply Hi, list_elem_of_fmap in Hin as (k & Heq & Hk).
    apply env_uuid_inj in Heq as <-. apply elem_of_seq in Hk. lia. }
  split_and!; apply Hno; intros id Hid; apply Hsub; rewrite !elem_of_app; auto.
Qed.
(** The clock stands at the moment the rule took effect. *)
Definition frozen_setup : list activity :=
  [ACall (SvcCreateRule (ex_rule_req "" "urban" true))].
Definition ex_frozen : World :=
  Eval vm_compute in run_all (H := frozen) ex_writer frozen_setup ex_start.
Lemma ex_frozen_inv : db_inv (w_db ex_frozen).
Proof.
  pose proof (run_all_steps (H := frozen) ex_writer frozen_setup ex_start empty_inv
    ltac:(by repeat constructor)) as [ls Hs].
  exact (steps_inv _ _ _ empty_inv Hs).
Qed.
Lemma services_complete_witness :
  ∃ w, exec_svc (H := frozen) ex_writer (SvcRegister Hour (ex_item_req "R-9" "billboard")) ex_frozen = (w, Ok ()) ∧
    db_step (w_db ex_frozen) (LCall (SvcRegister Hour (ex_item_req "R-9" "billboard"))) (w_db w).
Proof.
  destruct (services_complete (H := frozen) ex_writer) with (c := SvcRegister Hour (ex_item_req "R-9" "billboard"))
    (w := ex_frozen) as [Hc _].
  - intros n. apply (bool_decide_eq_true_1 _). vm_compute. reflexivity.
  - destruct Hc as (w & E & [Hs|(_ & dl & req & [= <- <-] & Hin)]).
    + exact ex_frozen_inv.
    + split_and!; [constructor| |constructor]. repeat constructor; apply (bool_decide_eq_true_1 _); vm_compute; reflexivity.
    + apply (unused_issued 26); [by apply Nat.leb_le|]. apply (bool_decide_eq_true_1 _). vm_compute. reflexivity.
    + split_and!; try (apply (bool_decide_eq_true_1 _); vm_compute; reflexivity). right. intros n _.
      split; [apply (bool_decide_eq_true_1 _); vm_compute; reflexivity|].
      destruct (db_rules (w_db ex_frozen)) as [|rule rules] eqn:Er; [by vm_compute in Er|].
      exists rule. split; [by left|]. vm_compute in Er. injection Er as <- _.
      split; [vm_compute; reflexivity|]. split; [vm_compute; reflexivity|by left].
    + exists w. split; [exact E|exact Hs].
    + assert (rq_ExternalRef (ex_item_req "R-9" "billboard") ∉ ic_ExternalRef <$> db_items (w_db ex_frozen)) as Hno
        by (apply (bool_decide_eq_true_1 _); vm_compute; reflexivity).
      exfalso. exact (Hno Hin).
Defined.

Lemma escalation_check_witness :
  match CheckAndEscalate (H := calm) ex_writer Hour 3 ex_late with
  | (w', (escs, err)) =>
      steps db_step (w_db ex_late) (LEscalate <$> (es_ItemID <$> escs)) (w_db w') ∧ err = None
  end ∧
  es_ItemID <$> fst (snd (CheckAndEscalate (H := calm) ex_writer Hour 3 ex_late)) = [ex_id].
Proof.
  split; [|vm_compute; reflexivity].
  pose proof (escalation_check (H := calm) ex_writer Hour 3 ex_late ex_late_inv
    ltac:(by vm_compute)) as Hc. cbv zeta in Hc.
  destruct (CheckAndEscalate (H := calm) ex_writer Hour 3 ex_late) as [w' [escs err]].
  destruct Hc as (Hs & _ & _ & _ & _ & Herr). split; [exact Hs|]. apply Herr.
  - exact _.
  - split_and!; repeat constructor; apply (bool_decide_eq_true_1 _); vm_compute; reflexivity.
  - apply (unused_issued 100); [by apply Nat.leb_le|]. apply (bool_decide_eq_true_1 _). vm_compute. reflexivity.
  - apply (bool_decide_eq_true_1 _). vm_compute. reflexivity.
  - apply (bool_decide_eq_true_1 _). vm_compute. reflexivity.
  - intros row Hin. right. vm_compute in Hin. apply list_elem_of_singleton in Hin as ->. vm_compute. reflexivity.
Defined.
