(* ===== verification/QueryClaims.v ===== *)
(** * The query service: theorems

    What it answers and commits over every store that meets the laws of the
    interface, which the repository's store does; and over the tables of the
    services, whose invariant shows in an answer. *)
From stdpp Require Import sorting.
From S2P Require Import QueryService Prelude GoErrors GoStrings GoTime Domain World Shard Index Repo AuditLog StoreApi.
From S2P Require Import StoreFacts QueryFacts ServiceSpec ServiceInv Services ServiceClaims.

(** The rows and what is scanned from them have their flags in common. *)
Lemma scan_all_filter {A} (scan : A → result derror A) (flag : A → bool) rows xs :
  (∀ row x, scan row = Ok x → flag x = flag row) → scan_all scan rows = Ok xs →
  scan_all scan (List.filter flag rows) = Ok (List.filter flag xs).
Proof.
  intros Hf. revert xs. induction rows as [|row rows IH]; intros xs Hs; simpl in Hs; [by injection Hs as <-|].
  unfold mbind, result_bind in Hs. destruct (scan row) as [x|] eqn:Hrow; [|done].
  destruct (scan_all scan rows) as [ys|]; [|done]. injection Hs as <-. simpl. rewrite (Hf _ _ Hrow).
  destruct (flag row); [|by apply IH]. simpl. unfold mbind, result_bind. by rewrite Hrow, (IH _ eq_refl).
Qed.
Lemma filter_twice {A} (f g : A → bool) l : List.filter f (List.filter g l) = List.filter (λ x, g x && f x) l.
Proof. induction l as [|x l IH]; simpl; [done|]. destruct (g x); simpl; [|done]. destruct (f x); by rewrite IH. Qed.

(** A detail read from tables in their invariant has one current referral, and
    the case is routed as it says. *)
Lemma detail_routed `{Zone} id d item assignments escalations audit :
  db_inv d → detail_of id d (item, assignments, escalations, audit) →
  ∃ r, List.filter rf_IsCurrent assignments = [r] ∧ routes r item.
Proof.
  intros Hi ((row & Hrow & Hid & Hscan) & (rows & Hp & Hs) & _).
  destruct (inv_current d Hi row Hrow) as (r & Hr & (Hr1 & Hr2 & Hr3 & Hr4)).
  assert (∀ row x, scanAssignment row = Ok x → rf_IsCurrent x = rf_IsCurrent row) as Hflag.
  { intros a x. unfold scanAssignment, mbind, result_bind. case_match; [|done]. by intros [= <-]. }
  apply (scan_all_filter _ rf_IsCurrent) in Hs; [|exact Hflag].
  assert (List.filter rf_IsCurrent (merge_sort (asc_by rf_AdjudicatedAt) rows) = [r]) as E.
  { apply Permutation_singleton_r. rewrite <- Hr. unfold current_for. rewrite <- filter_twice, Hid.
    apply filter_perm. by rewrite merge_sort_Permutation. }
  rewrite E in Hs. simpl in Hs. unfold mbind, result_bind in Hs. destruct (scanAssignment r) as [x|] eqn:Hx; [|done].
  injection Hs as <-. exists x. split; [done|]. revert Hx. unfold scanAssignment, mbind, result_bind.
  case_match; [|done]. intros [= <-]. apply scanItem_inv in Hscan as (Hid' & _ & _ & Hlead & Hrule & _).
  unfold routes. simpl. split_and!; congruence.
Qed.

(** C27: the query service, on every store that meets the laws of the interface;
    and the repository's store does. The detail of a case and the backlog are
    read without a change: the detail is the case with that ID, its referrals
    and escalations in order, the newest hundred of its audit entries, all as
    they are in the tables, or an error; with tables in their invariant exactly
    one of the referrals is the current one, and the case is routed as it says.
    The backlog counts the cases of every status and lists the overdue ones,
    the most urgent first. A retry marks the failure it is given and writes one
    audit entry, in one transaction; if it reports an error, it has done
    neither. *)
Theorem query_service_exact `{Env, !Sequential H, !EnvLaws H} (writer : Writer) :
  StoreLaws w_db (repo_store writer) ∧
  ∀ (S : Type) (tables : S → DB) (store : Store S) (now : op S derror Time) (uuid : op S derror string),
    StoreLaws tables store → answers tables now unsaid → answers tables uuid unsaid →
    (∀ id s s' r, QueryService.GetItemDetail store id s = (s', r) → tables s' = tables s ∧
       match r with
       | Ok (item, assignments, escalations, audit) =>
           detail_of id (tables s) (item, assignments, escalations, audit) ∧
           (db_inv (tables s) → ∃ r, List.filter rf_IsCurrent assignments = [r] ∧ routes r item)
       | Err _ => True
       end) ∧
    (∀ s s' r, QueryService.GetBacklog store now s = (s', r) → tables s' = tables s ∧
       match r with Ok backlog => ∃ t, backlog_of t (tables s) backlog | Err _ => True end) ∧
    (∀ id actor s s' r, QueryService.RetryFailure store now uuid id actor s = (s', r) →
       match r with Ok _ => retried id actor (tables s) (tables s') | Err _ => tables s' = tables s end).
Proof.
  split; [apply _|]. intros S tables store now uuid Hlaws Hnow Huuid. split_and!.
  - intros id s s' r [Ht Hr]%detail_exact. split; [done|].
    destruct r as [[[[item assignments] escalations] audit]|e]; [|done].
    split; [exact Hr|]. intros Hi. by eapply detail_routed.
  - intros s s' r Hb. by apply backlog_exact in Hb.
  - intros id actor s s' r Hr. by apply retry_exact in Hr.
Qed.

Definition ex_failure : PermanentFailure := {|
  pf_ID := "f-1"; pf_EntityType := "task"; pf_EntityID := ex_id; pf_TaskType := "escalation"; pf_LastError := "disk full";
  pf_Attempts := 3; pf_FirstFailedAt := 1000; pf_LastFailedAt := 3000; pf_Status := FailureStatusActive;
  pf_ResolvedAt := None; pf_NextRetryAt := None; pf_BackoffState := ""; pf_DataVersion := 1 |}.
Definition ex_failed : World := set_db (λ d, d <| db_failures := [ex_failure] |>) ex_registered.
Definition ex_retried : World * result derror () :=
  Eval vm_compute in RetryFailure (H := calm) ex_writer "f-1" "amy" ex_failed.
Definition ex_detail : World * result derror (ComplianceCase * list Referral * list Escalation * list AuditEntry) :=
  Eval vm_compute in GetItemDetail (H := calm) ex_writer ex_id ex_registered.
Lemma query_service_exact_witness :
  match ex_detail with
  | (_, Ok (item, assignments, _, _)) => ∃ r, List.filter rf_IsCurrent assignments = [r] ∧ routes r item
  | _ => False
  end ∧
  retried (H := shenzhen) "f-1" "amy" (w_db ex_failed) (w_db (fst ex_retried)) ∧
  pf_Status <$> db_failures (w_db (fst ex_retried)) = [FailureStatusRetried].
Proof.
  destruct (query_service_exact (H := calm) ex_writer) as [Hlaws Hquery].
  destruct (Hquery World w_db (repo_store (H := calm) ex_writer) (clock_now (H := calm)) (new_uuid (H := calm)) Hlaws)
    as (Hdetail & _ & Hretry); [intros w w' r [= <- <-]; by split..|]. split.
  - assert (QueryService.GetItemDetail (repo_store (H := calm) ex_writer) ex_id ex_registered = ex_detail) as E
      by (vm_compute; reflexivity).
    exact (proj2 (proj2 (Hdetail ex_id ex_registered (fst ex_detail) (snd ex_detail) E)) ex_registered_inv).
  - split; [|reflexivity].
    assert (QueryService.RetryFailure (repo_store (H := calm) ex_writer) (clock_now (H := calm)) (new_uuid (H := calm))
      "f-1" "amy" ex_failed = ex_retried) as E by (vm_compute; reflexivity).
    exact (Hretry "f-1" "amy" ex_failed (fst ex_retried) (snd ex_retried) E).
Defined.
