(* ===== verification/HttpFacts.v ===== *)
(** * HTTP: what requests do to the process

    Which parts of the process a handler can change: queries none, a command
    what the service call it stands for commits; a refused request none. *)
From Stdlib Require Import Ascii.
From S2P Require Import Prelude GoErrors GoStrings GoNumbers GoTime Json Domain World Shard Index Repo Records.
From S2P Require Import Auth AuthClaims Config Services StoreFacts StoreRuns ServiceSpec ServiceInv ServiceLoops.
From S2P Require Import ServiceRuns Http HttpServer.

(** ** Queries *)

Section reads.
Context `{Env}.

(** The operation leaves tables and files alone, whether it fails or not. *)
Definition reads {A} (m : dop A) : Prop := keeps_db m ∧ fs_later m.

Lemma reads_bind {A B} (m : dop A) (f : A → dop B) : reads m → (∀ a, reads (f a)) → reads (m ≫= f).
Proof.
  intros [Hk Hl] Hf. split; [by apply keeps_bind; [|intros a; apply Hf]|].
  by apply later_bind; [|intros a; apply Hf].
Qed.
Lemma reads_ret {A} (a : A) : reads (mret a).
Proof. split; [done|by apply later_pure]. Qed.
Lemma reads_raise {A} e : reads (raise e : dop A).
Proof. split; [done|by apply later_pure]. Qed.
Lemma reads_lift {A} (r : result derror A) : reads (lift r).
Proof. split; [done|by apply later_pure]. Qed.
Lemma reads_gets {A} (f : World → A) : reads (gets f).
Proof. split; [done|by apply later_pure]. Qed.
Lemma reads_clock : reads clock_now.
Proof. split; [done|apply later_clock]. Qed.
Lemma reads_attempt wrap : reads (attempt wrap).
Proof. split; [apply keeps_attempt|apply later_attempt]. Qed.
Lemma reads_wrapping {A} f (m : dop A) : reads m → reads (wrapping f m).
Proof.
  intros [Hk Hl]. split; [by apply keeps_wrapping|]. intros w w' r. unfold wrapping.
  destruct (m w) as [w1 [a|e]] eqn:E; intros [= <- _]; by apply Hl in E.
Qed.
Lemma reads_select `{!Sequential H} {A} wrap (table : DB → list A) where_ : reads (select wrap table where_).
Proof.
  split; [apply keeps_select|]. unfold select, scan_rows. apply later_bind; [by intros w w' r [= <- _]; simpl; auto|].
  intros _. apply later_bind; [apply later_attempt|]. intros _. apply later_bind; [by apply later_pure|].
  intros rows. apply later_bind; [apply later_ask|]. intros perm. by apply later_pure.
Qed.
End reads.

Create HintDb reads_db.
#[export] Hint Resolve reads_ret reads_raise reads_lift reads_gets reads_clock reads_attempt reads_wrapping
  reads_select : reads_db.
#[export] Hint Extern 3 (reads (_ ≫= _)) => apply reads_bind; [|intros] : reads_db.
#[export] Hint Extern 4 (reads (match ?x with _ => _ end)) => destruct x : reads_db.

Section queries.
Context `{Env, !Sequential H}.
Ltac query := eauto 30 with reads_db nocore.

Lemma reads_query_row {A} (table : DB → list A) where_ scan : reads (query_row table where_ scan).
Proof. unfold query_row. query. Qed.
Lemma reads_GetItem id : reads (GetItem id).
Proof. apply reads_query_row. Qed.
Lemma reads_ListItems filter : reads (ListItems filter).
Proof. unfold ListItems. query. Qed.
Lemma reads_FindOverdueItems now maxLevel : reads (FindOverdueItems now maxLevel).
Proof. unfold FindOverdueItems. query. Qed.
Lemma reads_CountByStatus : reads CountByStatus.
Proof. unfold CountByStatus. query. Qed.
Lemma reads_ListRules : reads ListRules.
Proof. unfold ListRules. query. Qed.
Lemma reads_GetRule version : reads (GetRule version).
Proof. unfold GetRule, GetRuleByVersion. query. Qed.
Lemma reads_GetAssignments id : reads (GetAssignments id).
Proof. unfold GetAssignments, GetAssignmentsByItemID. query. Qed.
Lemma reads_GetEscalations id : reads (GetEscalations id).
Proof. unfold GetEscalations, GetEscalationsByItemID. query. Qed.
Lemma reads_ListAudit filter : reads (ListAudit filter).
Proof. unfold ListAudit. query. Qed.
Lemma reads_ListFailures : reads ListFailures.
Proof. unfold ListFailures. query. Qed.
Lemma reads_ListBatches filter : reads (ListBatches filter).
Proof. unfold ListBatches. query. Qed.
Lemma reads_GetItemDetail writer id : reads (GetItemDetail writer id).
Proof.
  unfold GetItemDetail, QueryService.GetItemDetail. simpl.
  eauto 30 using reads_GetItem, reads_GetAssignments, reads_GetEscalations, reads_ListAudit with reads_db nocore.
Qed.
Lemma reads_GetBacklog writer : reads (GetBacklog writer).
Proof.
  unfold GetBacklog, QueryService.GetBacklog. simpl.
  eauto 30 using reads_CountByStatus, reads_FindOverdueItems with reads_db nocore.
Qed.
End queries.
#[export] Hint Resolve reads_ListItems reads_ListRules reads_GetRule reads_ListAudit reads_ListFailures
  reads_ListBatches reads_GetItemDetail reads_GetBacklog : reads_db.

(** ** Handlers that change nothing *)

(** Tables and files; users, sessions and the file they are kept in. *)
Definition untouched (p p' : Process) : Prop :=
  w_db (pc_world p') = w_db (pc_world p) ∧ w_fs (pc_world p') = w_fs (pc_world p) ∧ pc_auth p' = pc_auth p.
#[export] Instance untouched_preorder : PreOrder untouched.
Proof. split; [done|]. intros p q r (?&?&?) (?&?&?). unfold untouched. split_and!; congruence. Qed.

Definition only_reads {A} (m : hop A) : Prop := ∀ p p' res, m p = (p', res) → untouched p p'.

Lemma only_pure {A} (m : hop A) : pure_op m → only_reads m.
Proof. intros Hp p p' r E. specialize (Hp p). rewrite E in Hp. simpl in Hp. by subst. Qed.
Lemma only_bind {A B} (m : hop A) (f : A → hop B) :
  only_reads m → (∀ a, only_reads (f a)) → only_reads (m ≫= f).
Proof.
  intros Hm Hf p p' r Hr. unfold mbind, op_bind in Hr. destruct (m p) as [p1 [a|e]] eqn:E.
  - apply Hm in E. apply Hf in Hr. by transitivity p1.
  - injection Hr as <- _. by apply Hm in E.
Qed.
Create HintDb only_db.
#[export] Hint Resolve only_pure : only_db.
#[export] Hint Extern 3 (only_reads (_ ≫= _)) => apply only_bind; [|intros] : only_db.
#[export] Hint Extern 4 (only_reads (match ?x with _ => _ end)) => destruct x : only_db.

Section handlers.
Context `{Env, AuthEnv, HttpEnv, Router} (writer : Writer) (cfg : Config).

Lemma only_ask {A} (f : nat → A) : only_reads (http_ask f).
Proof. by intros p p' r [= <- _]. Qed.
Lemma only_now : only_reads time_now.
Proof. apply only_ask. Qed.
Lemma only_service {A} r (m : dop A) : reads m → only_reads (service r m).
Proof.
  intros [Hk Hl] p p' res. unfold service. specialize (Hk (pc_world p)).
  destruct (m (pc_world p)) as [w' a] eqn:E. intros [= <- _]. apply Hl in E as [Hf _]. done.
Qed.
Lemma only_on_store {A} (m : dop A) : reads m → only_reads (on_store m).
Proof.
  intros [Hk Hl] p p' res. unfold on_store. specialize (Hk (pc_world p)).
  destruct (m (pc_world p)) as [w' a] eqn:E. intros [= <- _]. apply Hl in E as [Hf _]. done.
Qed.
Lemma Resolve_pure token t : pure_op (Resolve token t).
Proof. intros s. unfold Resolve, mbind, op_bind, gets, lift, raise. simpl. by destruct (List.find _ _). Qed.
Lemma only_Resolve token t : only_reads (on_auth (Resolve token t)).
Proof.
  intros p p' res. unfold on_auth. pose proof (Resolve_pure token t (pc_auth p)) as Hp.
  destruct (Resolve token t (pc_auth p)) as [s r]. simpl in Hp. subst s. by intros [= <- _].
Qed.
End handlers.
#[export] Hint Resolve only_ask only_now only_service only_on_store only_Resolve : only_db.

Section read_handlers.
Context `{Env, AuthEnv, HttpEnv, Router} (writer : Writer) (cfg : Config).
Ltac handler := eauto 30 with only_db reads_db op_db nocore.

Lemma only_authenticationMiddleware r : only_reads (authenticationMiddleware r).
Proof. unfold authenticationMiddleware. handler. Qed.
Lemma only_authenticated mounted r : only_reads (authenticated cfg mounted r).
Proof. unfold authenticated. eauto 30 using only_authenticationMiddleware with only_db op_db nocore. Qed.
Lemma only_requireRoles roles user r : only_reads (requireRoles roles user r).
Proof. unfold requireRoles. handler. Qed.
Lemma only_me r : only_reads (me r).
Proof. unfold me. handler. Qed.
Lemma only_readyz r : only_reads (readyz r).
Proof.
  unfold readyz, reply. apply only_bind; [apply only_on_store, reads_attempt|]. intros ping.
  apply only_bind; [apply only_ask|]. intros temp. handler.
Qed.

Context `{!Sequential H}.
Lemma only_queries r :
  Forall (λ h, only_reads (h r)) [listItems; getItemDetail writer; listRules; getRule; batchExport; listBatches;
    getBacklog writer; listAudit; listFailures].
Proof.
  rewrite !Forall_cons, Forall_nil. split_and!; [..|done].
  - unfold listItems, reply. handler.
  - unfold getItemDetail, item_id, reply. handler.
  - unfold listRules, Service_ListRules, reply. handler.
  - unfold getRule, Service_GetRule, reply. handler.
  - unfold batchExport, Export, reply. handler.
  - unfold listBatches, reply. handler.
  - unfold getBacklog, reply. handler.
  - unfold listAudit, reply. handler.
  - unfold listFailures, reply. handler.
Qed.
End read_handlers.

(** ** The gate before a handler *)

Section gate.
Context `{Env, AuthEnv, HttpEnv, Router} (writer : Writer) (cfg : Config).

(** Who may have the route's handler serve the request: with authentication,
    a user of a live session, with one of the roles if the route names some;
    without, anybody on a route that names none. *)
Definition permitted (rt : Route) (r : Request) (p : Process) : Prop :=
  if rt_mounted rt && ac_Required (cf_Auth cfg)
  then ∃ user, bearerToken r ≠ "" ∧
    snd (Resolve (bearerToken r) (wall_now (pc_tick p)) (pc_auth p)) = Ok user ∧
    match rt_roles rt with Some roles => us_Role user ∈ roles | None => True end
  else rt_roles rt = None.
Definition refusal (status : Z) (code : string) (response : Response) : Prop :=
  ∃ message id, response = writeError id status code message.
(** The state a handler starts from: the clock was read, or not. *)
Definition at_gate (rt : Route) (p : Process) : Process :=
  if rt_mounted rt && ac_Required (cf_Auth cfg) then p <| pc_tick := S (pc_tick p) |> else p.

Lemma RequireRole_spec user roles : result_is_ok (RequireRole user roles) = true ↔ us_Role user ∈ roles.
Proof.
  unfold RequireRole. rewrite list_elem_of_In. destruct (existsb _ roles) eqn:E; simpl; split; try done.
  - intros _. apply existsb_exists in E as (role & Hin & Hr%bool_decide_eq_true). by rewrite Hr.
  - intros Hin. rewrite <- not_true_iff_false, existsb_exists in E. exfalso. apply E.
    exists (us_Role user). by rewrite bool_decide_true.
Qed.
Lemma authenticationMiddleware_spec r p :
  authenticationMiddleware r p =
  if bool_decide (bearerToken r = "") then (p, Err (unauthorized (hr_ID r) "UNAUTHORIZED" "缺少会话令牌"))
  else (p <| pc_tick := S (pc_tick p) |>,
        match snd (Resolve (bearerToken r) (wall_now (pc_tick p)) (pc_auth p)) with
        | Ok user => Ok user
        | Err err => Err (unauthorized (hr_ID r) (if errors_is err ErrSessionRevoked then "SESSION_REVOKED"
            else if errors_is err ErrSessionExpired then "SESSION_EXPIRED" else "INVALID_SESSION")
            "会话无效或已失效")
        end).
Proof.
  unfold authenticationMiddleware, mbind, op_bind, ensure. destruct (bool_decide _); [done|]. simpl.
  unfold on_auth. simpl. pose proof (Resolve_pure (bearerToken r) (wall_now (pc_tick p)) (pc_auth p)) as Hp.
  destruct (Resolve _ _ _) as [s res]. simpl in Hp. subst s. destruct p; simpl. by destruct res.
Qed.

(** A matched request is served by its handler exactly if it is permitted. *)
Lemma ServeHTTP_matched r p i params rt :
  chi_match ((λ rt, (rt_method rt, rt_pattern rt)) <$> routes writer cfg) (hr_Method r) (hr_Path r) =
    Matched i params → routes writer cfg !! i = Some rt →
  permitted rt r p ∧
    ServeHTTP writer cfg r p =
      (let '(p', res) := rt_handler rt (r <| hr_Param := params |>) (at_gate rt p) in
       (p', match res with Ok response => response | Err response => response end))
  ∨ ¬ permitted rt r p ∧
    ∃ p' response, ServeHTTP writer cfg r p = (p', response) ∧ untouched p p' ∧ pc_world p' = pc_world p ∧
      if bool_decide (rt_mounted rt && ac_Required (cf_Auth cfg) = true ∧
                      (bearerToken r = "" ∨ result_is_ok (snd (Resolve (bearerToken r) (wall_now (pc_tick p))
                                              (pc_auth p))) = false))
      then ∃ code, code ∈ ["UNAUTHORIZED"; "SESSION_REVOKED"; "SESSION_EXPIRED"; "INVALID_SESSION"] ∧
             refusal 401 code response
      else refusal 403 "FORBIDDEN" response.
Proof.
  intros Hm Hi. unfold ServeHTTP, dispatch. rewrite Hm, Hi.
  unfold permitted, at_gate, authenticated, mbind, op_bind.
  destruct (rt_mounted rt && ac_Required (cf_Auth cfg)).
  - rewrite authenticationMiddleware_spec. destruct (bool_decide_reflect (bearerToken r = "")) as [Ht|Ht].
    { right. split; [by intros (? & ? & _)|]. eexists _, _. split; [done|]. split; [done|]. split; [done|].
      rewrite bool_decide_true by auto. eexists. split; [|by eexists _, _]. by left. }
    destruct (snd (Resolve _ _ _)) as [user|err] eqn:Hres.
    + unfold requireRoles, ensure, mret, op_ret, raise. destruct (rt_roles rt) as [roles|].
      * destruct (result_is_ok (RequireRole user roles)) eqn:Hr.
        -- left. split; [exists user; by rewrite <- RequireRole_spec|]. by destruct (rt_handler rt _ _) as [? []].
        -- right. split; [intros (u & _ & [= <-] & Hin); apply RequireRole_spec in Hin; congruence|].
           eexists _, _. split; [done|]. split; [done|]. split; [done|].
           rewrite bool_decide_false by (simpl; naive_solver). by eexists _, _.
      * left. split; [by exists user|]. by destruct (rt_handler rt _ _) as [? []].
    + right. split; [by intros (? & _ & ? & _)|]. eexists _, _. split; [done|]. split; [done|]. split; [done|].
      rewrite bool_decide_true by auto. eexists. split; [|by eexists _, _].
      repeat case_match; set_solver.
  - unfold requireRoles, mret, op_ret, raise. rewrite bool_decide_false by naive_solver.
    destruct (rt_roles rt) as [roles|].
    + right. split; [done|]. eexists _, _. split; [done|]. split; [done|]. split; [done|]. by eexists _, _.
    + left. split; [done|]. by destruct (rt_handler rt _ _) as [? []].
Qed.
End gate.

(** ** Commands *)

Section commands.
Context `{Env, AuthEnv, HttpEnv, Router, !Sequential H, !EnvLaws H} (writer : Writer) (cfg : Config).

(** The service call that a request on a route asks for. *)
Definition asked (i : nat) (r : Request) : option svc_call :=
  let id := hr_Param r "id" in
  let reason := Decode_ignoring reason_fields zero_reason (hr_Body r) in
  match i with
  | 5 => SvcRegister (bc_DefaultDeadline (cf_Business cfg)) <$> Decode register_fields zero_register (hr_Body r)
  | 8 => SvcModify id <$> Decode modify_fields zero_modify (hr_Body r)
  | 9 => Some (SvcStart id (query_or "actor" "unknown" r))
  | 10 => Some (SvcReturn id (rr_Reason reason) (or_unknown (rr_Actor reason)))
  | 11 => Some (SvcResubmit id (query_or "actor" "unknown" r))
  | 12 => Some (SvcCancel id (rr_Reason reason) (or_unknown (rr_Actor reason)))
  | 13 => Some (SvcComplete id (query_or "actor" "unknown" r))
  | 14 => SvcCreateRule <$> Decode create_rule_fields zero_create_rule (hr_Body r)
  | 23 => Some (SvcRetryFailure id (query_or "actor" "admin" r))
  | _ => None
  end%nat.

(** What the service call of a handler did to the tables, and what the
    handler answered. *)
Definition command_effect (c : option svc_call) (p p' : Process) (res : result Response Response) : Prop :=
  pc_auth p' = pc_auth p ∧
  match res with
  | Ok response => 200 ≤ rs_Status response < 300 ∧ ∃ c', c = Some c' ∧
      (db_step (w_db (pc_world p)) (LCall c') (w_db (pc_world p')) ∨
       w_db (pc_world p') = w_db (pc_world p) ∧ ∃ dl req row, c' = SvcRegister dl req ∧
         row ∈ db_items (w_db (pc_world p)) ∧ ic_ExternalRef row = rq_ExternalRef req)
  | Err response => 400 ≤ rs_Status response ∧ w_db (pc_world p') = w_db (pc_world p)
  end.

Lemma error_status_range e : 400 ≤ (error_status e).1 ≤ 500.
Proof. unfold error_status. repeat case_match; simpl; lia. Qed.
Lemma service_error_range r e : 400 ≤ rs_Status (writeServiceError r e) ≤ 500.
Proof.
  unfold writeServiceError. destruct (errors_as_field e) as [[]|]; [simpl; lia|].
  pose proof (error_status_range e). by destruct (error_status e).
Qed.

Lemma service_effect {A} r (m : dop A) c (f : A → Process → Process * result Response Response) p p' res :
  (∀ w, unit_of m w = exec_svc writer c w) →
  (∀ a p, ∃ response, f a p = (p, Ok response) ∧ 200 ≤ rs_Status response < 300) →
  (service r m ≫= f) p = (p', res) → command_effect (Some c) p p' res.
Proof.
  intros Hm Hf. unfold mbind, op_bind, service, command_effect.
  pose proof (exec_svc_refines writer c (pc_world p)) as Hex. rewrite <- Hm in Hex.
  unfold unit_of, mbind, op_bind, mret, op_ret in Hex. destruct (m (pc_world p)) as [w' [a|e]].
  - destruct (Hf a (p <| pc_world := w' |>)) as (response & -> & Hs). intros [= <- <-].
    split; [done|]. split; [done|]. by exists c.
  - intros [= <- <-]. split; [done|]. split; [apply service_error_range|done].
Qed.
(** Decoding comes before the call. *)
Lemma decode_effect {R} (fields : list (string * decoder R)) zero r call (f : R → hop Response) p p' res :
  (∀ req p1, f req p = (p1, res) → command_effect (Some (call req)) p p1 res) →
  (decode_body fields zero r ≫= f) p = (p', res) →
  command_effect (call <$> Decode fields zero (hr_Body r)) p p' res.
Proof.
  intros Hf. unfold mbind, op_bind, decode_body, must. destruct (Decode fields zero (hr_Body r)) as [req|].
  - apply Hf.
  - intros [= <- <-]. by repeat split.
Qed.
Lemma item_id_effect c r what (f : string → hop Response) p p' res :
  (∀ p1, f (hr_Param r "id") p = (p1, res) → command_effect c p p1 res) →
  (item_id r what ≫= f) p = (p', res) → command_effect c p p' res.
Proof.
  intros Hf. unfold mbind, op_bind, item_id, ensure. cbv zeta. unfold mbind, op_bind.
  destruct (negb _); [apply Hf|]. intros [= <- <-]. by repeat split.
Qed.

Definition commands : list nat := [5; 8; 9; 10; 11; 12; 13; 14; 23]%nat.
(** Every command does what it asks for, or fails and changes nothing. *)
Lemma command_handlers i rt r p p' res :
  i ∈ commands → routes writer cfg !! i = Some rt → rt_handler rt r p = (p', res) →
  command_effect (asked i r) p p' res.
Proof.
  intros Hi Hrt Hh.
  assert (∀ status data (p : Process), 200 ≤ status < 300 →
    ∃ response, reply status data p = (p, Ok response) ∧ 200 ≤ rs_Status response < 300) as Hreply
    by (intros; eexists; by split).
  repeat (apply elem_of_cons in Hi as [->|Hi]; [injection Hrt as <-; simpl in Hh; cbn [asked]|]);
    [..|by apply elem_of_nil in Hi].
  - eapply decode_effect, Hh. intros req p1. apply service_effect; [done|]. intros. by apply Hreply.
  - eapply item_id_effect, Hh. intros p1. apply decode_effect. intros req p2.
    apply service_effect; [done|]. intros. by apply Hreply.
  - eapply service_effect, Hh; [done|]. intros. by apply Hreply.
  - eapply service_effect, Hh; [done|]. intros. by apply Hreply.
  - eapply service_effect, Hh; [done|]. intros. by apply Hreply.
  - eapply service_effect, Hh; [done|]. intros. by apply Hreply.
  - eapply service_effect, Hh; [done|]. intros. by apply Hreply.
  - eapply decode_effect, Hh. intros req p1. apply service_effect; [done|]. intros. by apply Hreply.
  - eapply item_id_effect, Hh. intros p1. apply service_effect; [|intros; by apply Hreply].
    intros w. unfold unit_of, mbind, op_bind. simpl. by destruct (RetryFailure writer _ _ w) as [w' [[]|]].
Qed.
End commands.

(** ** Every handler *)

(** One goal for each of the first [n] routes, and one for the others. *)
Ltac each_route i n :=
  lazymatch n with
  | O => idtac
  | S ?n => let j := fresh i in destruct i as [|j]; [|each_route j n]
  end.

Section every_handler.
Context `{Env, AuthEnv, HttpEnv, Router, !Sequential H, !EnvLaws H} (writer : Writer) (cfg : Config).

(** An import commits registrations of its rows, in order, and its batch. *)
Definition import_effect (r : Request) (p p' : Process) : Prop :=
  pc_auth p' = pc_auth p ∧ ∃ ls, steps db_step (w_db (pc_world p)) ls (w_db (pc_world p')) ∧
    ls `sublist_of` (register_label (bc_DefaultDeadline (cf_Business cfg)) <$>
      default [] (req ← Decode import_fields zero_import (hr_Body r); ir_Items req)) ++ [LBatch].
Lemma batchImport_effect r p p' res :
  db_inv (w_db (pc_world p)) → batchImport writer cfg r p = (p', res) → import_effect r p p'.
Proof.
  intros Hinv. unfold batchImport, import_effect, mbind, op_bind, decode_body, must, option_bind.
  destruct (Decode import_fields zero_import (hr_Body r)) as [req|];
    [|intros [= <- _]; split; [done|]; exists []; split; [constructor|apply sublist_nil_l]].
  unfold service. pose proof (import_steps writer (bc_DefaultDeadline (cf_Business cfg)) (ir_StoreID req)
    (default [] (ir_Items req)) (pc_world p) Hinv) as Hi.
  destruct (Import writer _ _ _ (pc_world p)) as [w' [result|e]]; intros [= <- _]; (split; [done|]).
  - destruct Hi as (ls & Hsub & Hst & _). exists (ls ++ [LBatch]). split; [done|]. by apply sublist_app.
  - destruct Hi as (ls & Hsub & Hst). exists ls. split; [done|]. by apply sublist_inserts_r.
Qed.

Lemma login_world r p : pc_world (fst (login cfg r p)) = pc_world p.
Proof.
  unfold login, mbind, op_bind, decode_body, must, time_now, http_ask, on_auth.
  destruct (Decode _ _ _) as [req|]; [|done]. destruct (Login _ _ _ _ _) as [s [[[user token] expires]|err]]; [done|].
  by destruct (errors_is err ErrInvalidCredentials).
Qed.
Lemma logout_world r p : pc_world (fst (logout r p)) = pc_world p.
Proof.
  unfold logout, mbind, op_bind, ensure, time_now, http_ask, on_auth.
  destruct (negb _); [|done]. by destruct (Logout _ _ _) as [s [u|err]].
Qed.

Inductive handler_effect (i : nat) (rt : Route) (r : Request) (p p' : Process) (res : result Response Response) : Prop :=
| query_handler : rt_method rt = "GET" → untouched p p' → handler_effect i rt r p p' res
| session_handler : rt_method rt = "POST" → rt_mounted rt = false → pc_world p' = pc_world p →
    handler_effect i rt r p p' res
| command_handler : i ∈ commands → rt_mounted rt = true → rt_method rt ≠ "GET" →
    command_effect (asked cfg i r) p p' res → handler_effect i rt r p p' res
| import_handler : i = 17%nat → rt_method rt ≠ "GET" → import_effect r p p' → handler_effect i rt r p p' res.
Lemma every_handler i rt r p p' res :
  db_inv (w_db (pc_world p)) → routes writer cfg !! i = Some rt → rt_handler rt r p = (p', res) →
  handler_effect i rt r p p' res.
Proof.
  intros Hinv Hrt Hh.
  pose proof (only_queries writer r) as Hq. rewrite !Forall_cons, Forall_nil in Hq.
  destruct Hq as (Q1 & Q2 & Q3 & Q4 & Q5 & Q6 & Q7 & Q8 & Q9 & _).
  destruct (decide (i ∈ commands)) as [Hc|Hc].
  { apply command_handler; [done| | |by eapply command_handlers];
      repeat (apply elem_of_cons in Hc as [->|Hc]; [by injection Hrt as <-|]); by apply elem_of_nil in Hc. }
  each_route i 24%nat; [..|done];
    try (exfalso; apply Hc; apply (bool_decide_eq_true_1 _); vm_compute; reflexivity);
    injection Hrt as <-; simpl in Hh.
  - apply query_handler; [done|]. by injection Hh as <- _.
  - apply query_handler; [done|]. by apply only_readyz in Hh.
  - apply session_handler; [done..|]. pose proof (login_world r p) as E. by rewrite Hh in E.
  - apply session_handler; [done..|]. pose proof (logout_world r p) as E. by rewrite Hh in E.
  - apply query_handler; [done|]. by apply only_me in Hh.
  - apply query_handler; [done|]. by apply Q1 in Hh.
  - apply query_handler; [done|]. by apply Q2 in Hh.
  - apply query_handler; [done|]. by apply Q3 in Hh.
  - apply query_handler; [done|]. by apply Q4 in Hh.
  - apply import_handler; [done..|]. by eapply batchImport_effect.
  - apply query_handler; [done|]. by apply Q5 in Hh.
  - apply query_handler; [done|]. by apply Q6 in Hh.
  - apply query_handler; [done|]. by apply Q7 in Hh.
  - apply query_handler; [done|]. by apply Q8 in Hh.
  - apply query_handler; [done|]. by apply Q9 in Hh.
Qed.
End every_handler.
