(* ===== verification/HttpClaims.v ===== *)
(** * HTTP: theorems

    What any request can do to the process, who may have it done, what the
    answers say; and a process to send requests to, with one case, two users
    and a router that takes a path only as it is written in the table. *)
From Stdlib Require Import Ascii.
From S2P Require Import Prelude GoErrors GoStrings GoNumbers GoTime Sha256 Json JsonFacts Domain World Shard.
From S2P Require Import Index Repo Records RecordsFacts Auth AuthClaims Config Services StoreFacts StoreRuns.
From S2P Require Import ServiceSpec ServiceInv ServiceLoops ServiceRuns ServiceClaims Http HttpServer HttpFacts.

(** ** A process to send requests to *)

(** The parameter [id] of every path is [id]. *)
Definition ex_router (id : string) : Router := λ table method path,
  match list_find (λ route, route = (method, path)) table with
  | Some (i, _) => Matched i (λ _, id)
  | None => Unmatched (String.prefix "/api" path) 404 "404 page not found"
  end.
#[export] Instance ex_router_laws id : RouterLaws (ex_router id).
Proof.
  split; unfold chi_match, ex_router.
  - intros table method path i params. destruct (list_find _ table) as [[j route]|] eqn:E; [|done].
    intros [= <- _]. apply list_find_Some in E as (-> & -> & _). done.
  - intros table method path mounted status text. destruct (list_find _ table) as [[]|]; [done|].
    intros [= _ <- _]. by left.
Qed.
(** The clock of the server stands still. *)
Definition ex_http : HttpEnv := {| wall_now _ := 1000; body_error _ := "invalid"; temp_fault _ := None |}.
Definition ex_process : Process := {|
  pc_world := ex_registered; pc_auth := ex_open; pc_scheduler := Some true; pc_worker := true; pc_tick := 0 |}.

Definition ex_request (method path authorization : string) (query : string → string) (body : bytes) : Request := {|
  hr_Method := method; hr_Path := path; hr_ID := "q-1";
  hr_Header name := if bool_decide (name = "Authorization") then authorization else "";
  hr_Query := query; hr_Param _ := ""; hr_Body := body |}.
Definition no_query : string → string := λ _, "".

(** The server, for requests about the case [id]. *)
Definition ex_serve (id : string) (r : Request) (p : Process) : Process * Response :=
  ServeHTTP (H := calm) (H0 := plain_env) (H1 := ex_http) (H2 := ex_router id) ex_writer Defaults r p.
Definition ex_login_body (username password : string) : bytes :=
  print (JObj [jfield "username" (jstring username); jfield "password" (jstring password)]).
Definition ex_log_in (username password : string) : Request :=
  ex_request "POST" "/api/auth/login" "" no_query (ex_login_body username password).
Definition token_of (r : Response) : string :=
  match rs_Body r with LoggedIn token _ _ => token | _ => "" end.

(** The administrator and the operator log in. *)
Definition ex_admin : Process * string :=
  Eval vm_compute in
    let '(p, r) := ex_serve ex_id (ex_log_in "lamp" "a long password") ex_process in (p, token_of r).
Definition ex_both : Process * string :=
  Eval vm_compute in
    let '(p, r) := ex_serve ex_id (ex_log_in "sign" "another password") (fst ex_admin) in (p, token_of r).
Definition ex_served : Process := fst ex_both.
Definition as_admin : string := "Bearer " +:+ snd ex_admin.
Definition as_operator : string := "bearer " +:+ snd ex_both.

Lemma ex_served_world : pc_world ex_served = ex_registered.
Proof. vm_compute. reflexivity. Qed.
Lemma ex_served_inv : db_inv (w_db (pc_world ex_served)).
Proof. rewrite ex_served_world. exact ex_registered_inv. Qed.

Definition ex_rule_body : bytes :=
  print (JObj [jfield "name" (jstring "signs"); jfield "lead_department" (jstring "urban");
    jfield "created_by" (jstring "lamp"); jfield "is_default" (JBool true)]).
Definition ex_new_rule (authorization : string) : Request :=
  ex_request "POST" "/api/rules/" authorization no_query ex_rule_body.
Definition ex_start_case : Request :=
  ex_request "POST" "/api/items/{id}/start" as_operator (λ name, if bool_decide (name = "actor") then "amy" else "") [].
Definition ex_complete_case : Request :=
  ex_request "POST" "/api/items/{id}/complete" as_operator no_query [].
Definition ex_list : Request :=
  ex_request "GET" "/api/items/" as_operator (λ name, if bool_decide (name = "page_size") then "500" else "") [].
Definition ex_me (authorization : string) : Request := ex_request "GET" "/api/auth/me" authorization no_query [].
Definition ex_log_out (authorization : string) : Request := ex_request "POST" "/api/auth/logout" authorization no_query [].

(** The operator, and the case started. *)
Definition ex_operator : User := Eval vm_compute in default zero_user (st_users ex_open !! 1%nat).
Definition ex_started : Process * Response := Eval vm_compute in ex_serve ex_id ex_start_case ex_served.

(** Statuses of some answers. *)
Example ex_statuses :
  (λ r, rs_Status (snd (ex_serve ex_id r ex_served))) <$>
    [ex_request "GET" "/healthz" "" no_query []; ex_request "GET" "/readyz" "" no_query [];
     ex_new_rule as_admin; ex_new_rule as_operator; ex_new_rule ""; ex_new_rule "Bearer x"; ex_start_case;
     ex_complete_case; ex_list; ex_me as_admin; ex_log_out as_admin; ex_log_in "lamp" "wrong";
     ex_request "POST" "/api/rules/" as_admin no_query (to_bytes "{"); ex_request "GET" "/api/nowhere" "" no_query [];
     ex_request "GET" "/nowhere" "" no_query []] =
  [200; 200; 201; 403; 401; 401; 200; 409; 200; 200; 204; 401; 400; 401; 404].
Proof. vm_compute. reflexivity. Qed.
(** A version there is no rule of is an internal error. *)
Example ex_unknown_rule :
  rs_Status (snd (ex_serve "7" (ex_request "GET" "/api/rules/{version}" as_admin no_query []) ex_served)) = 500.
Proof. vm_compute. reflexivity. Qed.
(** A logout whose file cannot be written is answered as if the session were
    not valid, though it is revoked. *)
Definition broken_disk : AuthEnv := {|
  auth_fault _ := Some "no space left on device"; auth_random := @auth_random plain_env;
  bcrypt_generate := @bcrypt_generate plain_env; bcrypt_matches := @bcrypt_matches plain_env;
  go_quote := @go_quote plain_env; decode_error := @decode_error plain_env |}.
Example ex_logout_fails :
  let '(p, r) := ServeHTTP (H := calm) (H0 := broken_disk) (H1 := ex_http) (H2 := ex_router ex_id) ex_writer Defaults
    (ex_log_out as_admin) ex_served in
  rs_Status r = 401 ∧ rs_Status (snd (ex_serve ex_id (ex_me as_admin) p)) = 401.
Proof. vm_compute. done. Qed.

Section requests.
Context `{Env, AuthEnv, HttpEnv, Router} (writer : Writer) (cfg : Config).

Definition patterns : list (string * string) := (λ rt, (rt_method rt, rt_pattern rt)) <$> routes writer cfg.
Definition routed_to (r : Request) (i : nat) (params : string → string) (rt : Route) : Prop :=
  chi_match patterns (hr_Method r) (hr_Path r) = Matched i params ∧ routes writer cfg !! i = Some rt.

(** ** Access *)

(** C13: who is served. A request on a route below [/api] reaches its handler
    exactly if it is permitted: when the configuration requires
    authentication, its bearer token resolves, at the time the server reads,
    to a user of a live session, who has one of the roles the route names, if
    it names any; when not, if the route names no role. Otherwise tables,
    files, users and sessions stay as they are, and the answer is 401 without
    a live session and 403 without the role, so on a server that does not
    require authentication the routes for roles are closed to everybody. *)
Theorem access_control r p i params rt :
  routed_to r i params rt →
  permitted cfg rt r p ∧
    ServeHTTP writer cfg r p =
      (let '(p', res) := rt_handler rt (r <| hr_Param := params |>) (at_gate cfg rt p) in
       (p', match res with Ok response => response | Err response => response end))
  ∨ ¬ permitted cfg rt r p ∧
    ∃ p' response, ServeHTTP writer cfg r p = (p', response) ∧ untouched p p' ∧ pc_world p' = pc_world p ∧
      if bool_decide (rt_mounted rt && ac_Required (cf_Auth cfg) = true ∧
                      (bearerToken r = "" ∨ result_is_ok (snd (Resolve (bearerToken r) (wall_now (pc_tick p))
                                              (pc_auth p))) = false))
      then ∃ code, code ∈ ["UNAUTHORIZED"; "SESSION_REVOKED"; "SESSION_EXPIRED"; "INVALID_SESSION"] ∧
             refusal 401 code response
      else refusal 403 "FORBIDDEN" response.
Proof. intros [Hm Hi]. by apply (ServeHTTP_matched writer cfg r p i). Qed.

(** A request no route takes, or of a route that is not there. *)
Lemma ServeHTTP_other r p p' response :
  ServeHTTP writer cfg r p = (p', response) → (¬ ∃ i params rt, routed_to r i params rt) → untouched p p'.
Proof.
  unfold ServeHTTP, dispatch. intros Hs Hno. fold patterns in Hs.
  destruct (chi_match patterns (hr_Method r) (hr_Path r)) as [i params|mounted status text] eqn:Hm.
  - destruct (routes writer cfg !! i) as [rt|] eqn:Hi; [|by injection Hs as <- _].
    exfalso. apply Hno. by exists i, params, rt.
  - assert (only_reads (_ ← authenticated cfg mounted r; reply status (PlainText text))) as Ho.
    { apply only_bind; [apply only_authenticated|]. intros _. by apply only_pure. }
    destruct ((_ ← authenticated cfg mounted r; reply status (PlainText text)) p) as [p1 [res|res]] eqn:E;
      injection Hs as <- _; by apply Ho in E.
Qed.

(** ** Effects *)

Context `{!Sequential H, !EnvLaws H}.

Lemma routed_dec r : (∃ i params rt, routed_to r i params rt) ∨ ¬ ∃ i params rt, routed_to r i params rt.
Proof.
  unfold routed_to. destruct (chi_match patterns _ _) as [i params|]; [|right; naive_solver].
  destruct (routes writer cfg !! i) as [rt|] eqn:E; [left; by exists i, params, rt|].
  right. intros (? & ? & ? & [= <- <-] & ?). congruence.
Qed.
Lemma at_gate_world rt p : pc_world (at_gate cfg rt p) = pc_world p ∧ pc_auth (at_gate cfg rt p) = pc_auth p.
Proof. unfold at_gate. by case_match. Qed.

(** What a served request did. *)
Lemma served r p p' response :
  db_inv (w_db (pc_world p)) → ServeHTTP writer cfg r p = (p', response) →
  untouched p p' ∨
  ∃ i params rt res, routed_to r i params rt ∧ permitted cfg rt r p ∧
    response = match res with Ok response => response | Err response => response end ∧
    handler_effect cfg i rt (r <| hr_Param := params |>) (at_gate cfg rt p) p' res.
Proof.
  intros Hinv Hs. destruct (routed_dec r) as [(i & params & rt & Hr)|Hno];
    [|left; by eapply ServeHTTP_other].
  pose proof Hr as [Hm Hi].
  destruct (ServeHTTP_matched writer cfg r p i params rt Hm Hi)
    as [[Hp Heq]|(_ & p1 & resp & Heq & Hu & _)]; rewrite Heq in Hs; [|left; by injection Hs as <- _].
  destruct (rt_handler rt _ _) as [p1 res] eqn:Hh. injection Hs as <- <-.
  right. exists i, params, rt, res. split_and!; try done.
  eapply every_handler; [|done|done]. by rewrite (proj1 (at_gate_world rt p)).
Qed.

(** What a request commits. *)
Lemma request_commits r p p' response :
  db_inv (w_db (pc_world p)) → ServeHTTP writer cfg r p = (p', response) →
  let d := w_db (pc_world p) in
  let d' := w_db (pc_world p') in
  db_inv d' ∧ later d d' ∧
  (d' = d ∨
   ∃ i params rt, routed_to r i params rt ∧ permitted cfg rt r p ∧ rt_mounted rt = true ∧
     ((∃ c, asked cfg i (r <| hr_Param := params |>) = Some c ∧ db_step d (LCall c) d' ∧
         200 ≤ rs_Status response < 300) ∨
      (i = 17%nat ∧ ∃ ls, steps db_step d ls d' ∧
         ls `sublist_of` (register_label (bc_DefaultDeadline (cf_Business cfg)) <$>
           default [] (req ← Decode import_fields zero_import (hr_Body r); ir_Items req)) ++ [LBatch]))).
Proof.
  intros Hinv Hs d d'.
  assert (d' = d → db_inv d' ∧ later d d') as Hsame by (by intros ->).
  destruct (served r p p' response Hinv Hs) as [(Hd & _)|(i & params & rt & res & Hr & Hp & -> & He)].
  { split_and!; [by apply Hsame..|by left]. }
  pose proof (proj1 (at_gate_world rt p)) as Hg.
  destruct He as [_ (Hd & _)|_ _ Hd|Hi Hm _ (_ & He)|Hi _ (_ & ls & Hst & Hls)].
  - rewrite Hg in Hd. split_and!; [by apply Hsame..|by left].
  - rewrite Hg in Hd. unfold d' in *. rewrite Hd in *. split_and!; [by apply Hsame..|by left].
  - rewrite Hg in He. destruct res as [resp|resp]; [|destruct He as [_ He]; split_and!; [by apply Hsame..|by left]].
    destruct He as (Hok & c & Hc & [Hst|[Hd _]]); [|split_and!; [by apply Hsame..|by left]].
    split_and!; [by eapply db_step_inv|by eapply db_step_later|]. right. exists i, params, rt.
    split_and!; try done. left. by exists c.
  - rewrite Hg in Hst. subst i. assert (rt_mounted rt = true) as Hmount by (destruct Hr as [_ Hrt]; by injection Hrt as <-).
    split_and!; [by eapply steps_inv|by eapply steps_later|]. right. exists 17%nat, params, rt.
    split_and!; try done. right. split; [done|]. by exists ls.
Qed.

(** C12: every request commits what it asks for, or nothing. From tables in
    their invariant, any request leaves tables in their invariant, with every
    case still there and its history kept; and if the tables change, the
    request was permitted on its route, and either it committed exactly the
    transaction of the service call its path, query and body ask for, and the
    answer is a success, or it is an import, and committed registrations of
    its rows, in their order, and its batch. An answer that is not a success,
    but of an import, means that nothing has happened. *)
Theorem request_refines r p p' response :
  db_inv (w_db (pc_world p)) → ServeHTTP writer cfg r p = (p', response) →
  let d := w_db (pc_world p) in
  let d' := w_db (pc_world p') in
  db_inv d' ∧ later d d' ∧
  (d' = d ∨
   ∃ i params rt, routed_to r i params rt ∧ permitted cfg rt r p ∧ rt_mounted rt = true ∧
     ((∃ c, asked cfg i (r <| hr_Param := params |>) = Some c ∧ db_step d (LCall c) d' ∧
         200 ≤ rs_Status response < 300) ∨
      (i = 17%nat ∧ ∃ ls, steps db_step d ls d' ∧
         ls `sublist_of` (register_label (bc_DefaultDeadline (cf_Business cfg)) <$>
           default [] (req ← Decode import_fields zero_import (hr_Body r); ir_Items req)) ++ [LBatch]))).
Proof. apply request_commits. Qed.

(** A GET request changes nothing: tables, shard files, users, sessions
    and their file stay as they are, whatever the request and the answer. *)
Theorem get_is_safe `{!RouterLaws H2} r p p' response :
  db_inv (w_db (pc_world p)) → hr_Method r = "GET" → ServeHTTP writer cfg r p = (p', response) → untouched p p'.
Proof.
  intros Hinv Hget Hs.
  destruct (served r p p' response Hinv Hs) as [Hu|(i & params & rt & res & [Hm Hi] & _ & -> & He)]; [done|].
  assert (rt_method rt = "GET") as Hmeth.
  { apply chi_route in Hm. unfold patterns in Hm. rewrite list_lookup_fmap, Hi in Hm. simpl in Hm. congruence. }
  pose proof (at_gate_world rt p) as [Hw Ha].
  destruct He as [_ Hu|Hpost _ _|_ _ Hne _|_ Hne _]; [|congruence|done|done].
  unfold untouched in *. by rewrite Hw, Ha in Hu.
Qed.
End requests.

(** ** Examples *)

Definition post_rules : Route :=
  guarded_route [RoleAdmin; RoleLightingAssessor] "POST" "/rules/" (createRule (H := calm) (H1 := ex_http) ex_writer).
Lemma ex_rule_routed authorization :
  routed_to (H := calm) (H0 := plain_env) (H1 := ex_http) (H2 := ex_router ex_id) ex_writer Defaults
    (ex_new_rule authorization) 14 (λ _, ex_id) post_rules.
Proof. split; [vm_compute; reflexivity|reflexivity]. Qed.

(** The operator may not create a rule. *)
Lemma access_control_witness :
  ∃ p' response, ex_serve ex_id (ex_new_rule as_operator) ex_served = (p', response) ∧
    untouched ex_served p' ∧ refusal 403 "FORBIDDEN" response.
Proof.
  destruct (access_control (H := calm) (H0 := plain_env) (H1 := ex_http) (H2 := ex_router ex_id) ex_writer Defaults
    (ex_new_rule as_operator) ex_served 14 (λ _, ex_id) post_rules (ex_rule_routed as_operator))
    as [[(user & _ & Hres & Hrole) _]|(_ & p' & response & E & Hu & _ & Hr)].
  - exfalso. vm_compute in Hres. injection Hres as <-. cbn in Hrole.
    apply (bool_decide_eq_true_2 _) in Hrole. vm_compute in Hrole. discriminate Hrole.
  - exists p', response. split; [exact E|]. split; [exact Hu|].
    rewrite bool_decide_false in Hr; [exact Hr|]. clear E Hu Hr.
    intros [_ [Ht|Hres]]; [vm_compute in Ht; discriminate Ht|vm_compute in Hres; discriminate Hres].
Defined.

(** The operator starts the case. *)
Lemma request_refines_witness :
  let d' := w_db (pc_world (fst ex_started)) in
  db_inv d' ∧ later (w_db ex_registered) d' ∧ status_of ex_id d' = Some StatusInProgress ∧
  db_step (w_db ex_registered) (LCall (SvcStart ex_id "amy")) d'.
Proof.
  assert (ServeHTTP (H := calm) (H0 := plain_env) (H1 := ex_http) (H2 := ex_router ex_id) ex_writer Defaults
    ex_start_case ex_served = (fst ex_started, snd ex_started)) as E by (vm_compute; reflexivity).
  assert (status_of ex_id (w_db (pc_world (fst ex_started))) = Some StatusInProgress) as Hs by (vm_compute; reflexivity).
  revert E Hs. generalize (fst ex_started) as p', (snd ex_started) as response. intros p' response E Hs.
  destruct (request_refines (H := calm) (H0 := plain_env) (H1 := ex_http) (H2 := ex_router ex_id) ex_writer Defaults
    ex_start_case ex_served p' response ex_served_inv E) as (Hinv & Hl & Hd). clear E.
  rewrite ex_served_world in Hl, Hd. split; [exact Hinv|]. split; [exact Hl|]. split; [exact Hs|].
  destruct Hd as [Hd|(i & params & rt & [Hm _] & _ & _ & Hc)]; [by rewrite Hd in Hs|].
  vm_compute in Hm. injection Hm as <- <-.
  destruct Hc as [(c & Hc & Hst & _)|[? _]]; [|done]. injection Hc as <-. exact Hst.
Defined.

(** A listing leaves everything as it is. *)
Lemma get_is_safe_witness :
  untouched ex_served (fst (ex_serve ex_id ex_list ex_served)) ∧
  rs_Status (snd (ex_serve ex_id ex_list ex_served)) = 200.
Proof.
  destruct (ex_serve ex_id ex_list ex_served) as [p' response] eqn:E. split.
  - unfold ex_serve in E. exact (get_is_safe (H := calm) (H0 := plain_env) (H1 := ex_http) (H2 := ex_router ex_id) ex_writer Defaults
      ex_list ex_served p' response ex_served_inv eq_refl E).
  - change response with (snd (p', response)). rewrite <- E. vm_compute. reflexivity.
Defined.
