(* ===== verification/HttpReplies.v ===== *)
(** * HTTP: what the answers say

    The pages of the listings, the answers to commands that cannot be carried
    out, the texts that are sent. *)
From Stdlib Require Import Ascii.
From S2P Require Import Prelude GoErrors GoStrings GoNumbers GoTime Json JsonFacts Domain World Shard.
From S2P Require Import Index Repo Records RecordsFacts Auth AuthClaims Config Services StoreFacts StoreRuns.
From S2P Require Import ServiceSpec ServiceInv ServiceClaims Http HttpServer HttpFacts HttpClaims.

(** ** Pages *)

(** How many rows a page has. *)
Definition page_count (limit offset total : Z) : Z := Z.max 0 (Z.min limit (total - offset)).
Lemma page_length {A} limit offset (l : list A) :
  0 ≤ offset → Z.of_nat (length (page limit offset l)) = page_count limit offset (Z.of_nat (length l)).
Proof. intros Ho. unfold page, page_count. rewrite length_take, length_drop. lia. Qed.
Lemma scan_all_length {A} (scan : A → result derror A) rows l :
  scan_all scan rows = Ok l → length l = length rows.
Proof.
  revert l. induction rows as [|row rows IH]; intros l; simpl; [by intros [= <-]|].
  unfold mbind, result_bind. destruct (scan row) as [a|]; [|done]. destruct (scan_all scan rows) as [l'|]; [|done].
  intros [= <-]. simpl. by rewrite (IH l').
Qed.

Lemma parsePageSize_bounds r : 1 ≤ parsePageSize r ≤ 200.
Proof.
  unfold parsePageSize. case_bool_decide; [lia|]. destruct (Atoi _) as [n|]; [|lia].
  destruct (Z.leb_spec n 0); [lia|]. destruct (Z.ltb_spec 200 n); lia.
Qed.
Lemma ParseInt_i64 s z : ParseInt s = Some z → is_i64 z.
Proof. unfold ParseInt. intros (x & _ & Hx)%bind_Some. case_bool_decide; [by injection Hx as <-|done]. Qed.
Lemma parsePageOffset_bounds r : 0 ≤ parsePageOffset r ≤ max_i64.
Proof.
  unfold parsePageOffset, max_i64. case_bool_decide; [lia|]. destruct (Atoi _) as [n|] eqn:E; [|lia].
  apply ParseInt_i64 in E. unfold is_i64, max_i64 in E. destruct (Z.ltb_spec n 0); lia.
Qed.

Section pages.
Context `{Env, !Sequential H, !EnvLaws H}.

(** The second query of a listing counts what the first one pages through. *)
Lemma listing_count {A} wrap1 wrap2 (table : DB → list A) where_ order `{!∀ a b, Decision (order a b)}
    scan limit offset w w' l total :
  0 ≤ offset →
  (counted ← select wrap1 table where_;
   let total := Z.of_nat (length counted) in
   rows ← select wrap2 table where_;
   l ← lift (scan_all scan (page limit offset (merge_sort order rows)));
   mret (l, total)) w = (w', Ok (l, total)) →
  Z.of_nat (length l) = page_count limit offset total.
Proof.
  intros Ho (w1 & counted & H1 & (w2 & rows & H2 & (w3 & l3 & [Hl _]%lift_ok & Hr)%bind_ok)%bind_ok)%bind_ok.
  apply ret_ok in Hr as [Hr _]. simplify_eq/=.
  apply select_ok in H1 as [Hd1 P1]. apply select_ok in H2 as [_ P2]. rewrite Hd1 in P2.
  rewrite (scan_all_length _ _ _ Hl), page_length by done.
  by rewrite merge_sort_Permutation, P2, <- P1.
Qed.
Lemma ListItems_count filter w w' l total :
  ListItems filter w = (w', Ok (l, total)) →
  Z.of_nat (length l) = page_count (item_page_size filter) (page_offset (if_PageOffset filter)) total.
Proof.
  unfold ListItems. intros (w1 & wall & _ & Hl)%bind_ok. eapply listing_count, Hl.
  unfold page_offset. destruct (Z.ltb_spec (if_PageOffset filter) 0); lia.
Qed.
Lemma ListAudit_count filter w w' l total :
  ListAudit filter w = (w', Ok (l, total)) →
  Z.of_nat (length l) = page_count (open_page_size (af_PageSize filter)) (page_offset (af_PageOffset filter)) total.
Proof.
  unfold ListAudit. intros Hl. eapply listing_count, Hl.
  unfold page_offset. destruct (Z.ltb_spec (af_PageOffset filter) 0); lia.
Qed.
Lemma ListBatches_count filter w w' l total :
  ListBatches filter w = (w', Ok (l, total)) →
  Z.of_nat (length l) = page_count (open_page_size (bf_PageSize filter)) (page_offset (bf_PageOffset filter)) total.
Proof.
  unfold ListBatches. intros Hl. eapply listing_count, Hl.
  unfold page_offset. destruct (Z.ltb_spec (bf_PageOffset filter) 0); lia.
Qed.
End pages.

Section replies.
Context `{Env, AuthEnv, HttpEnv, Router, !Sequential H, !EnvLaws H} (writer : Writer) (cfg : Config).

(** A reply made of what a service returned. *)
Lemma service_reply {A} r (m : dop A) (f : A → payload) p p' res :
  (a ← service r m; reply 200 (f a)) p = (p', res) →
  match res with
  | Ok response => ∃ a, m (pc_world p) = (pc_world p', Ok a) ∧ response = writeJSON 200 (f a)
  | Err response => ∃ e, m (pc_world p) = (pc_world p', Err e) ∧ response = writeServiceError r e
  end.
Proof.
  unfold mbind, op_bind, service. destruct (m (pc_world p)) as [w' [a|e]]; intros [= <- <-]; by eexists.
Qed.
Lemma service_error_body r e : ∃ b, rs_Body (writeServiceError r e) = ErrorResponse b.
Proof.
  unfold writeServiceError. destruct (errors_as_field e) as [[]|]; [by eexists|].
  destruct (error_status e). by eexists.
Qed.

(** The answer of a served request, on its route. *)
Lemma served_reply r p p' response i params rt :
  routed_to writer cfg r i params rt → ServeHTTP writer cfg r p = (p', response) →
  (∃ body, rs_Body response = ErrorResponse body ∧ ¬ permitted cfg rt r p) ∨
  permitted cfg rt r p ∧
  ∃ res, rt_handler rt (r <| hr_Param := params |>) (at_gate cfg rt p) = (p', res) ∧
    response = match res with Ok response => response | Err response => response end.
Proof.
  intros [Hm Hi] Hs.
  destruct (ServeHTTP_matched writer cfg r p i params rt Hm Hi) as [[Hp Heq]|(Hp & p1 & resp & Heq & _ & _ & Hr)];
    rewrite Heq in Hs.
  - right. split; [done|]. destruct (rt_handler rt _ _) as [p1 res]. exists res. by injection Hs as <- <-.
  - left. injection Hs as _ <-. case_bool_decide;
      [destruct Hr as (code & _ & message & id & ->)|destruct Hr as (message & id & ->)]; by eexists.
Qed.

(** What a page holds. *)
Definition page_ok (size offset total : Z) (items : listing) : Prop :=
  Z.of_nat (listing_length items) = page_count size offset total ∧ 1 ≤ size ≤ 200 ∧ 0 ≤ offset ≤ max_i64.

(** C18: no listing answers with more than 200 rows. The pages of cases, audit
    entries and batches have the size the request asks for, from 1 to 200 and
    20 if it asks for none or for nonsense, and an offset that is an [int] of
    Go and not negative; they hold exactly the rows there are at that offset,
    up to that size, of the total they name. An export asks the store for 1000
    rows but gets at most 200, and its answer, whose page size is the number
    of its rows, does not say that there are more, unless one looks at the
    total. *)
Theorem page_bounds r p p' response i params rt items total size offset :
  i ∈ [6; 18; 19; 21]%nat → routed_to writer cfg r i params rt →
  ServeHTTP writer cfg r p = (p', response) → rs_Body response = PageBody items total size offset →
  (listing_length items ≤ 200)%nat ∧
  (if bool_decide (i = 18%nat)
   then offset = 0 ∧ size = Z.of_nat (listing_length items) ∧ size = page_count 200 0 total
   else size = parsePageSize r ∧ offset = parsePageOffset r ∧ page_ok size offset total items).
Proof.
  intros Hi Hr Hs Hb.
  destruct (served_reply r p p' response i params rt Hr Hs) as [(b & E & _)|(_ & res & Hh & ->)]; [congruence|].
  destruct Hr as [_ Hrt]. clear Hs.
  pose proof (parsePageSize_bounds r) as Hsize. pose proof (parsePageOffset_bounds r) as Hoff.
  assert ((parsePageSize r <=? 0) = false) as Hsmall by (apply Z.leb_gt; lia).
  assert ((parsePageOffset r <? 0) = false) as Hpos by (apply Z.ltb_ge; lia).
  assert (∀ {A} (m : dop (A * Z)) f p p' res, (a ← service (r <| hr_Param := params |>) m;
      let '(l, t) := a in reply 200 (f l t)) p = (p', res) →
    rs_Body match res with Ok response => response | Err response => response end = PageBody items total size offset →
    ∃ l t, m (pc_world p) = (pc_world p', Ok (l, t)) ∧ f l t = PageBody items total size offset) as Hreply.
  { clear. intros A m f p p' res Hh Hb. unfold mbind, op_bind, service in Hh.
    destruct (m (pc_world p)) as [w' [[l t]|e]]; injection Hh as <- <-; [by exists l, t|].
    destruct (service_error_body (r <| hr_Param := params |>) e) as [b E]. simpl in Hb. congruence. }
  repeat (apply elem_of_cons in Hi as [->|Hi]; [injection Hrt as <-; simpl in Hh|]); [..|by apply elem_of_nil in Hi];
    eapply Hreply in Hh as (l & t & Hl & Hpage); try exact Hb; injection Hpage as <- <- <- <-; simpl.
  - apply ListItems_count in Hl. unfold item_page_size, page_offset in Hl. simpl in Hl.
    change (parsePageSize _) with (parsePageSize r) in *. change (parsePageOffset _) with (parsePageOffset r) in *.
    rewrite Hsmall, (proj2 (Z.ltb_ge 200 (parsePageSize r))), Hpos in Hl by lia.
    split; [unfold page_count in Hl; lia|]. done.
  - apply ListItems_count in Hl. unfold item_page_size, page_offset in Hl. simpl in Hl.
    split; [unfold page_count in Hl; lia|]. done.
  - apply ListBatches_count in Hl. unfold open_page_size, page_offset in Hl. simpl in Hl.
    change (parsePageSize _) with (parsePageSize r) in *. change (parsePageOffset _) with (parsePageOffset r) in *.
    rewrite Hsmall, Hpos in Hl.
    split; [unfold page_count in Hl; lia|]. done.
  - apply ListAudit_count in Hl. unfold open_page_size, page_offset in Hl. simpl in Hl.
    change (parsePageSize _) with (parsePageSize r) in *. change (parsePageOffset _) with (parsePageOffset r) in *.
    rewrite Hsmall, Hpos in Hl.
    split; [unfold page_count in Hl; lia|]. done.
Qed.
End replies.

(** ** Commands that cannot be carried out *)

Section refusals.
Context `{Env, AuthEnv, HttpEnv, Router, !Sequential H, !EnvLaws H, !Faultless H} (writer : Writer) (cfg : Config).

Lemma select_runs {A} wrap (table : DB → list A) where_ w :
  ∃ w' rows, select wrap table where_ w = (w', Ok rows).
Proof.
  unfold select, interleave, attempt, scan_rows, ask, mbind, op_bind, gets. simpl.
  rewrite no_fault. simpl. by eexists _, _.
Qed.
Lemma GetItem_missing id w :
  (∀ row, row ∈ db_items (w_db w) → ic_ID row ≠ id) → ∃ w', GetItem id w = (w', Err (Sentinel ErrNotFound)).
Proof.
  intros Hno. unfold GetItem, GetItemByID, query_row, mbind, op_bind.
  destruct (select_runs (λ e, e) db_items (λ row, bool_decide (ic_ID row = id)) w) as (w' & rows & E). rewrite E.
  apply select_ok in E as [_ Hrows]. destruct rows as [|row rows]; [by eexists|]. exfalso.
  assert (row ∈ List.filter (λ row, bool_decide (ic_ID row = id)) (db_items (w_db w))) as Hin
    by (rewrite <- Hrows; by left).
  apply list_elem_of_In, filter_In in Hin as [Hin Hid%bool_decide_eq_true]. rewrite <- list_elem_of_In in Hin.
  by apply (Hno row).
Qed.
Lemma GetItem_found row item w :
  NoDup (ic_ID <$> db_items (w_db w)) → row ∈ db_items (w_db w) → scanItem row = Ok item →
  ∃ w', GetItem (ic_ID row) w = (w', Ok item).
Proof.
  intros Hnd Hrow Hscan. unfold GetItem, GetItemByID, query_row, mbind, op_bind.
  destruct (select_runs (λ e, e) db_items (λ row', bool_decide (ic_ID row' = ic_ID row)) w) as (w' & rows & E).
  rewrite E. apply select_ok in E as [_ Hrows]. destruct rows as [|row' rows].
  - exfalso. assert (row ∈ []) as Hin; [|by apply elem_of_nil in Hin]. rewrite Hrows.
    apply list_elem_of_In, filter_In. rewrite <- list_elem_of_In. by rewrite bool_decide_true.
  - exists w'. unfold lift. assert (row' = row) as ->; [|by rewrite Hscan].
    assert (row' ∈ List.filter (λ x, bool_decide (ic_ID x = ic_ID row)) (db_items (w_db w))) as Hin
      by (rewrite <- Hrows; by left).
    apply list_elem_of_In, filter_In in Hin as [Hin Hid%bool_decide_eq_true]. rewrite <- list_elem_of_In in Hin.
    by eapply (NoDup_proj_eq ic_ID).
Qed.

(** The case a command is about, and the status it moves the case to first. *)
Definition moves_to (i : nat) : ItemStatus :=
  match i with
  | 9 => StatusInProgress
  | 10 => StatusReturned
  | 11 => StatusRegistered
  | 12 => StatusCancelled
  | _ => StatusCompleted
  end%nat.
Definition not_found (e : derror) : Prop := errors_as_field e = None ∧ error_status e = (404, "NOT_FOUND").
Definition invalid_transition (e : derror) : Prop :=
  errors_as_field e = None ∧ error_status e = (409, "INVALID_TRANSITION").

Lemma move_error item to : ¬ may (ic_Status item) to → ∃ e, TransitionTo item to = Err e ∧ invalid_transition e.
Proof.
  intros Hno. destruct (TransitionTo item to) as [item'|e] eqn:E.
  - apply TransitionTo_ok in E as [? _]. done.
  - exists e. split; [done|]. unfold TransitionTo, ValidateTransition in E.
    repeat case_match; simplify_eq/=; by split.
Qed.

(** A read of the case, and then the move. *)
Lemma command_missing {A} id (f : ComplianceCase → dop A) w :
  (∀ row, row ∈ db_items (w_db w) → ic_ID row ≠ id) →
  ∃ w' e, (wrapping (errorf "get item") (GetItem id) ≫= f) w = (w', Err e) ∧ not_found e.
Proof.
  intros (w' & E)%GetItem_missing. unfold mbind, op_bind, wrapping. rewrite E.
  eexists _, _. split; [done|]. by split.
Qed.
Lemma command_illegal {A} row item to (f : ComplianceCase → dop A) w :
  NoDup (ic_ID <$> db_items (w_db w)) → row ∈ db_items (w_db w) → scanItem row = Ok item →
  ¬ may (ic_Status row) to →
  (∀ w, ∃ w', ∀ e, TransitionTo item to = Err e → f item w = (w', Err e)) →
  ∃ w' e, (wrapping (errorf "get item") (GetItem (ic_ID row)) ≫= f) w = (w', Err e) ∧ invalid_transition e.
Proof.
  intros Hnd Hrow Hscan Hmay Hf. destruct (GetItem_found row item w Hnd Hrow Hscan) as [w1 E].
  unfold mbind, op_bind, wrapping. rewrite E. destruct (Hf w1) as [w' Hf'].
  apply scanItem_inv in Hscan as (_ & _ & Hstatus & _). rewrite <- Hstatus in Hmay.
  apply move_error in Hmay as (e & He & Hi). exists w', e. split; [by apply Hf'|done].
Qed.

Definition moves : list nat := [9; 10; 11; 12; 13]%nat.
(** The service behind a move, by its error. *)
Lemma move_handlers i rt r p (P : derror → Prop) :
  i ∈ moves → routes writer cfg !! i = Some rt →
  (∀ f : ComplianceCase → dop ComplianceCase,
    (∀ item w, ∃ w', ∀ e, TransitionTo item (moves_to i) = Err e → f item w = (w', Err e)) →
    ∃ w' e, (wrapping (errorf "get item") (GetItem (hr_Param r "id")) ≫= f) (pc_world p) = (w', Err e) ∧ P e) →
  ∃ p' e, rt_handler rt r p = (p', Err (writeServiceError r e)) ∧ P e.
Proof.
  intros Hi Hrt Hcall.
  assert (∀ (m : dop ComplianceCase) w' e, m (pc_world p) = (w', Err e) → P e → ∃ p' e',
    (item ← service r m; reply 200 (CaseBody item)) p = (p', Err (writeServiceError r e')) ∧ P e') as Hservice.
  { intros m w' e Hm HP. unfold mbind, op_bind, service. rewrite Hm. by eexists _, e. }
  assert (∀ item to (w : World) e (k : ComplianceCase → dop ComplianceCase), TransitionTo item to = Err e →
    (item' ← lift (TransitionTo item to); k item') w = (w, Err e)) as Hmove.
  { intros item to w e k E. unfold mbind, op_bind, lift. by rewrite E. }
  repeat (apply elem_of_cons in Hi as [->|Hi]; [injection Hrt as <-; cbn [rt_handler api_route]|]);
    [..|by apply elem_of_nil in Hi];
    (edestruct Hcall as (w' & e & He & HP); [|eapply Hservice; [exact He|exact HP]]);
    intros item w; eexists; intros e E; try (by apply (Hmove item _ w e _ E)); by eapply Hmove.
Qed.

(** C19: the answers to moves that cannot be made. When nothing else fails and
    nobody else writes, a permitted request to start, return, resubmit,
    cancel or complete a case is answered with 404 NOT_FOUND if there is no
    case of that ID, and with 409 INVALID_TRANSITION if the status machine
    does not allow the move from the status the case has; the tables stay as
    they are. *)
Theorem move_refusals r p p' response i params rt :
  i ∈ moves → routed_to writer cfg r i params rt → permitted cfg rt r p →
  db_inv (w_db (pc_world p)) → ServeHTTP writer cfg r p = (p', response) →
  let items := db_items (w_db (pc_world p)) in
  ((∀ row, row ∈ items → ic_ID row ≠ params "id") →
     refusal 404 "NOT_FOUND" response ∧ w_db (pc_world p') = w_db (pc_world p)) ∧
  (∀ row item, row ∈ items → ic_ID row = params "id" → scanItem row = Ok item → ¬ may (ic_Status row) (moves_to i) →
     refusal 409 "INVALID_TRANSITION" response ∧ w_db (pc_world p') = w_db (pc_world p)).
Proof.
  intros Hi Hr Hp Hinv Hs items. pose proof Hr as [Hm Hrt].
  destruct (served_reply writer cfg r p p' response i params rt Hr Hs) as [(? & _ & Hno)|(_ & res & Hh & ->)]; [done|].
  assert (i ∈ commands) as Hc.
  { apply (bool_decide_eq_true_1 _). repeat (apply elem_of_cons in Hi as [->|Hi]; [done|]). by apply elem_of_nil in Hi. }
  pose proof (command_handlers writer cfg i rt _ _ _ _ Hc Hrt Hh) as [_ He].
  destruct (at_gate_world cfg rt p) as [Hw _].
  assert (∀ P status code, (∀ e, P e → errors_as_field e = None ∧ error_status e = (status, code)) →
    (∃ p1 e, rt_handler rt (r <| hr_Param := params |>) (at_gate cfg rt p) =
       (p1, Err (writeServiceError (r <| hr_Param := params |>) e)) ∧ P e) →
    refusal status code match res with Ok response => response | Err response => response end ∧
    w_db (pc_world p') = w_db (pc_world p)) as Hanswer.
  { intros P status code HP (p1 & e & E & He'). rewrite Hh in E. injection E as <- ->.
    destruct He as [_ He]. rewrite Hw in He. split; [|done].
    apply HP in He' as [Hf Hst]. unfold writeServiceError. rewrite Hf, Hst. by eexists _, _. }
  split.
  - intros Hno. eapply (Hanswer not_found); [by intros e [? ?]|]. apply (move_handlers i); [done..|].
    intros f _. apply command_missing. by rewrite Hw.
  - intros row item Hrow Hid Hscan Hmay. eapply (Hanswer invalid_transition); [by intros e [? ?]|].
    apply (move_handlers i); [done..|]. intros f Hf. simpl. rewrite <- Hid.
    eapply command_illegal; [rewrite Hw; by destruct Hinv|by rewrite Hw|done|done|]. intros w. apply Hf.
Qed.
End refusals.

(** ** The texts *)

Definition sendable (d : nat) (j : json) : Prop := writable j ∧ (jdepth j ≤ d)%nat.
Lemma sendable_le d d' j : sendable d j → (d ≤ d')%nat → sendable d' j.
Proof. intros [Hw Hd] ?. split; [done|lia]. Qed.
Lemma sendable_string d s : sendable d (jstring s).
Proof. split; [apply writable_string|simpl; lia]. Qed.
Lemma sendable_int d z : sendable d (jint z).
Proof. split; [apply writable_int|simpl; lia]. Qed.
Lemma sendable_time `{Zone} d t : sendable d (jtime t).
Proof. split; [apply writable_time|simpl; lia]. Qed.
Lemma sendable_bool d b : sendable d (JBool b).
Proof. split; [done|simpl; lia]. Qed.
Lemma max_list_le (l : list nat) d : Forall (λ n, (n ≤ d)%nat) l → (max_list l ≤ d)%nat.
Proof. induction 1; simpl; lia. Qed.
Lemma sendable_arr d l : Forall (sendable d) l → sendable (S d) (JArr l).
Proof.
  intros Hl. split; [apply writable_arr; eapply Forall_impl; [exact Hl|by intros j [? _]]|].
  cbn [jdepth]. apply le_n_S, max_list_le, Forall_fmap. eapply Forall_impl; [exact Hl|by intros j [_ ?]].
Qed.
Definition field_sendable (d : nat) (m : bytes * json) : Prop := literal m.1 ∧ sendable d m.2.
Lemma sendable_obj d l : Forall (field_sendable d) l → sendable (S d) (JObj l).
Proof.
  intros Hl. split; [apply writable_obj; eapply Forall_impl; [exact Hl|by intros j [? [? _]]]|].
  cbn [jdepth]. apply le_n_S, max_list_le, Forall_fmap. eapply Forall_impl; [exact Hl|by intros j [_ [_ ?]]].
Qed.
Lemma field_of d name v : sendable d v → field_sendable d (jfield name v).
Proof. intros Hv. split; [|done]. intros r. apply scan_escape. Qed.
Lemma text_of d name s : field_sendable d (jtext name s).
Proof. apply field_of, sendable_string. Qed.
Lemma omitempty_of d name s : Forall (field_sendable d) (omitempty name s).
Proof. unfold omitempty, omit. case_bool_decide; [done|]. apply Forall_singleton, text_of. Qed.
Lemma member_sendable m : member_ok m → field_sendable 1 m.
Proof. by intros (? & ? & ?). Qed.
Lemma sendable_members l : Forall member_ok l → sendable 2 (JObj l).
Proof. intros Hl. apply sendable_obj. eapply Forall_impl; [exact Hl|]. apply member_sendable. Qed.

Lemma sendable_record {R} `{JsonRecordLaws R, Zone} nil (r : R) : sendable 2 (jrecord nil r).
Proof. apply sendable_members, rec_members_ok. Qed.
Lemma sendable_records {R} `{JsonRecordLaws R, Zone} nil name (l : list R) : sendable 3 (jrecords nil name l).
Proof.
  unfold jrecords. case_match; [split; [done|simpl; lia]|]. apply sendable_arr, Forall_fmap, Forall_true.
  intros r. apply sendable_record.
Qed.
Lemma sendable_user u : sendable 2 (JObj (user_members u)).
Proof. apply sendable_members, user_members_ok. Qed.
Lemma sendable_row r : sendable 2 (row_json r).
Proof.
  apply sendable_obj. repeat apply Forall_app_2; [|apply omitempty_of..].
  repeat apply Forall_cons_2; [apply field_of, sendable_int|apply text_of|apply field_of, sendable_bool|done].
Qed.
Lemma sendable_counts m : sendable 1 (counts_json m).
Proof. apply sendable_obj, Forall_fmap, Forall_true. intros e. apply field_of, sendable_int. Qed.

(** Nesting of the values handlers write. *)
Lemma payload_sendable `{Zone} nil p j : payload_json nil p = Some j → sendable 4 j.
Proof.
  destruct p; cbn [payload_json]; try done; intros [= <-];
    try (by eapply sendable_le; [first [apply sendable_record|apply sendable_user]|lia]);
    apply sendable_obj; repeat apply Forall_cons_2; try done; try apply text_of;
    apply field_of; try apply sendable_int; try apply sendable_time;
    try (by eapply sendable_le; [first [apply sendable_records|apply sendable_record|apply sendable_user
      |apply sendable_counts]|lia]).
  - eapply sendable_le; [apply (sendable_obj 0)|lia].
    apply Forall_cons_2; [apply text_of|]. apply Forall_cons_2; [apply text_of|apply omitempty_of].
  - eapply sendable_le; [apply (sendable_obj 0)|lia]. repeat apply Forall_cons_2; try done; apply text_of.
  - destruct items; apply sendable_records.
  - apply sendable_arr, Forall_fmap, Forall_true. intros r0. apply sendable_row.
Qed.
Lemma parse_line j : sendable 10 j → parse (print j ++ [byte 10]) = Some j.
Proof.
  intros [Hw Hd]. unfold parse. rewrite reads_back_print; [done|done|rewrite length_app; simpl; lia| |done].
  unfold maxNestingDepth. lia.
Qed.

(** C28: every answer of a handler with a body is one line of JSON. Whatever
    texts are in the value that is sent, and whatever the zone of the process,
    if its times have four-digit years there (in UTC, for the end of a session)
    the line parses to the value, and its only byte that ends a line is the
    last one; a case among them is read back by the decoder of the program, as
    it was but for bytes that are no UTF-8. If not, nothing is sent but the
    status. *)
Theorem responses_parse `{Zone} nil p j :
  let in_range := Forall (@formattable (payload_zone p)) (payload_times p) in
  payload_json nil p = Some j →
  (in_range →
     parse (rendered nil p) = Some j ∧ rendered nil p = print j ++ [byte 10] ∧ Forall inline (print j) ∧
     ∀ i, p = CaseBody i → storable_ints i → Unmarshal (rendered nil p) = Some (item_clean i)) ∧
  (¬ in_range → rendered nil p = []).
Proof.
  intros in_range Hj. unfold in_range. clear in_range. pose proof (payload_sendable nil p j Hj) as Hs.
  assert (rendered nil p = if forallb (λ t, bool_decide (@formattable (payload_zone p) t)) (payload_times p)
                           then print j ++ [byte 10] else []) as Hr.
  { unfold rendered. destruct p; try done; by rewrite Hj. }
  assert (forallb (λ t, bool_decide (@formattable (payload_zone p) t)) (payload_times p) = true ↔
          Forall (@formattable (payload_zone p)) (payload_times p)) as Hf.
  { rewrite forallb_forall, Forall_forall. setoid_rewrite bool_decide_eq_true. by setoid_rewrite list_elem_of_In. }
  rewrite Hr. split.
  - intros Ht. rewrite (proj2 Hf Ht). split_and!; [|done|by apply print_inline, Hs|].
    + apply parse_line. eapply sendable_le; [exact Hs|lia].
    + intros i -> Hi. injection Hj as <-. unfold Unmarshal. rewrite parse_line by (eapply sendable_le; [exact Hs|lia]).
      cbn [mbind option_bind]. exact (rec_decode nil i Hi Ht).
  - intros Ht. destruct (forallb _ _); [|done]. by destruct Ht; apply Hf.
Qed.

(** ** Examples *)

Definition get_items : Route :=
  api_route "GET" "/items/" (listItems (H := calm)).
Lemma page_bounds_witness :
  ∃ p' items, ex_serve ex_id ex_list ex_served = (p', writeJSON 200 (PageBody items 1 200 0)) ∧
    listing_length items = 1%nat ∧ page_ok 200 0 1 items.
Proof.
  destruct (ex_serve ex_id ex_list ex_served) as [p' response] eqn:E.
  assert (∃ items, response = writeJSON 200 (PageBody items 1 200 0) ∧ listing_length items = 1%nat)
    as (items & Hr & Hlen).
  { change response with (snd (p', response)). rewrite <- E. vm_compute. eexists. split; reflexivity. }
  exists p', items. rewrite Hr. split; [done|]. split; [exact Hlen|].
  destruct (page_bounds (H := calm) (H0 := plain_env) (H1 := ex_http) (H2 := ex_router ex_id) ex_writer Defaults
    ex_list ex_served p' response 6 (λ _, ex_id) get_items items 1 200 0) as [_ Hp].
  - by left.
  - split; [vm_compute; reflexivity|reflexivity].
  - unfold ex_serve in E. exact E.
  - by rewrite Hr.
  - exact (proj2 (proj2 Hp)).
Defined.

(** The case is not in progress, so it cannot be completed; another one is
    not there. *)
Lemma move_refusals_witness :
  refusal 409 "INVALID_TRANSITION" (snd (ex_serve ex_id ex_complete_case ex_served)) ∧
  refusal 404 "NOT_FOUND" (snd (ex_serve "u-none" ex_complete_case ex_served)).
Proof.
  assert (∀ id p' response, ex_serve id ex_complete_case ex_served = (p', response) →
    let items := db_items (w_db ex_registered) in
    ((∀ row, row ∈ items → ic_ID row ≠ id) → refusal 404 "NOT_FOUND" response) ∧
    (∀ row item, row ∈ items → ic_ID row = id → scanItem (H := shenzhen) row = Ok item →
       ¬ may (ic_Status row) StatusCompleted → refusal 409 "INVALID_TRANSITION" response)) as Hmoves.
  { intros id p' response E.
    destruct (move_refusals (H := calm) (H0 := plain_env) (H1 := ex_http) (H2 := ex_router id) ex_writer Defaults
      ex_complete_case ex_served p' response 13 (λ _, id)
      (api_route "POST" "/items/{id}/complete" (completeItem (H := calm) ex_writer))) as [H1 H2].
    - apply (bool_decide_eq_true_1 _). vm_compute. reflexivity.
    - split; [vm_compute; reflexivity|reflexivity].
    - eexists. split; [by vm_compute|]. split; [vm_compute; reflexivity|done].
    - exact ex_served_inv.
    - unfold ex_serve in E. exact E.
    - rewrite ex_served_world in H1, H2. split; [intros Hno; by apply H1|].
      intros row item Hrow Hid Hscan Hmay. by apply (H2 row item). }
  split.
  - destruct (ex_serve ex_id ex_complete_case ex_served) as [p' response] eqn:E.
    refine (proj2 (Hmoves ex_id p' response E) ex_item ex_item _ _ _ _).
    + apply (bool_decide_eq_true_1 _). vm_compute. reflexivity.
    + vm_compute. reflexivity.
    + vm_compute. reflexivity.
    + intros [Hs|Hs]; vm_compute in Hs; done.
  - destruct (ex_serve "u-none" ex_complete_case ex_served) as [p' response] eqn:E.
    refine (proj1 (Hmoves "u-none" p' response E) _). intros row Hrow Hid.
    assert (Forall (λ row, ic_ID row ≠ "u-none") (db_items (w_db ex_registered))) as Hall
      by (apply (bool_decide_eq_true_1 _); vm_compute; reflexivity).
    rewrite Forall_forall in Hall. exact (Hall row Hrow Hid).
Defined.

Lemma responses_parse_witness :
  parse (rendered (H := shenzhen) (λ _, true) (CaseBody ex_item)) = Some (jrecord (H0 := shenzhen) (λ _, true) ex_item) ∧
  Unmarshal (rendered (H := shenzhen) (λ _, true) (CaseBody ex_item)) = Some (item_clean ex_item).
Proof.
  destruct (responses_parse (H := shenzhen) (λ _, true) (CaseBody ex_item) (jrecord (H0 := shenzhen) (λ _, true) ex_item) eq_refl) as [Hok _].
  destruct Hok as (Hp & _ & _ & Hc).
  - apply (bool_decide_eq_true_1 _). vm_compute. reflexivity.
  - split; [exact Hp|]. apply Hc; [done|]. repeat constructor; vm_compute; done.
Defined.
