(* ===== verification/HttpSession.v ===== *)
(** * HTTP: sessions

    From the answer to a login to the last request with its token, through
    any requests in between. *)
From Stdlib Require Import Ascii.
From S2P Require Import Prelude GoErrors GoStrings GoNumbers GoTime Sha256 Json Domain World Shard.
From S2P Require Import Index Repo Records Auth AuthClaims Config Services StoreFacts StoreRuns.
From S2P Require Import ServiceSpec ServiceInv ServiceLoops ServiceRuns ServiceClaims Http HttpServer HttpFacts HttpClaims.

(** ** The token in the header *)

Definition visible (c : ascii) : Prop := 33 ≤ byte_val c ≤ 126.
Ltac not_space := rewrite !(proj2 (Z.eqb_neq _ _)) by lia; rewrite ?(proj2 (Z.leb_gt _ _)) by lia.
Lemma visible_space c : visible c → asciiSpace c = false.
Proof.
  intros Hc. unfold asciiSpace. rewrite (proj2 (Z.leb_gt (byte_val c) 13)), (proj2 (Z.eqb_neq _ _)) by (unfold visible in Hc; lia).
  by rewrite andb_false_r.
Qed.
Lemma trim_left_visible c l : visible c → trim_left (c :: l) = c :: l.
Proof.
  intros Hc. cbn [trim_left]. rewrite visible_space by done. unfold visible in Hc.
  destruct l as [|c2 [|c3 l]]; [done| |]; unfold space2, space3;
    rewrite !(proj2 (Z.eqb_neq (byte_val c) _)) by lia; done.
Qed.
Lemma trim_left_rev_visible c l : visible c → trim_left_rev (c :: l) = c :: l.
Proof.
  intros Hc. cbn [trim_left_rev]. rewrite visible_space by done. unfold visible in Hc.
  assert (∀ b, space2 b (byte_val c) = false) as H2.
  { intros b. unfold space2. rewrite !(proj2 (Z.eqb_neq (byte_val c) _)) by lia. apply andb_false_r. }
  assert (∀ a b, space3 a b (byte_val c) = false) as H3.
  { intros a b. unfold space3. rewrite !(proj2 (Z.eqb_neq (byte_val c) _)), (proj2 (Z.leb_gt 0x80 _)) by lia.
    by rewrite !andb_false_r. }
  destruct l as [|c2 [|c3 l]]; [done| |]; rewrite H2; [done|]. by rewrite H3.
Qed.
Lemma trim_visible c l d l' : visible c → visible d → c :: l = l' ++ [d] → trim_bytes (c :: l) = c :: l.
Proof.
  intros Hc Hd E. unfold trim_bytes. rewrite trim_left_visible by done.
  rewrite E, rev_app_distr. simpl rev at 2. cbn [app]. rewrite trim_left_rev_visible by done.
  simpl. by rewrite rev_involutive.
Qed.

Lemma hex_nibble_visible n : 0 ≤ n < 16 → visible (hex_nibble n).
Proof.
  intros Hn. assert (n = 0 ∨ n = 1 ∨ n = 2 ∨ n = 3 ∨ n = 4 ∨ n = 5 ∨ n = 6 ∨ n = 7 ∨ n = 8 ∨ n = 9 ∨ n = 10 ∨
    n = 11 ∨ n = 12 ∨ n = 13 ∨ n = 14 ∨ n = 15) as Hc by lia.
  destruct_or! Hc; subst; by vm_compute.
Qed.
Lemma encode_visible b :
  Forall (λ z, 0 ≤ z < 256) b → Forall visible (to_bytes (EncodeToString b)).
Proof.
  intros Hb. unfold EncodeToString. rewrite to_of_bytes.
  induction Hb as [|z b Hz _ IH]; [done|]. cbn [mbind list_bind app].
  repeat constructor; [apply hex_nibble_visible..|exact IH]; Z.to_euclidean_division_equations; lia.
Qed.
Lemma encode_nonempty b : b ≠ [] → to_bytes (EncodeToString b) ≠ [].
Proof. unfold EncodeToString. rewrite to_of_bytes. by destruct b. Qed.

Lemma TrimSpace_visible s c l d l' :
  to_bytes s = c :: l → c :: l = l' ++ [d] → visible c → visible d → TrimSpace s = s.
Proof.
  intros Hs E Hc Hd. unfold TrimSpace. fold (to_bytes s). rewrite Hs, (trim_visible c l d l') by done.
  rewrite <- Hs. apply of_to_bytes.
Qed.

(** The header a client sends with a token. *)
Definition bearer (token : string) : string := "Bearer " +:+ token.
Lemma bearerToken_bearer r token :
  hr_Header r "Authorization" = bearer token → Forall visible (to_bytes token) → to_bytes token ≠ [] →
  bearerToken r = token.
Proof.
  intros Hh Hv Hne. destruct (exists_last Hne) as (l & d & E).
  destruct (to_bytes token) as [|c t] eqn:Ht; [done|].
  assert (visible c) as Hc by by apply Forall_cons in Hv as [? _].
  assert (visible d) as Hd by (rewrite E in Hv; by apply Forall_app in Hv as [_ [? _]%Forall_cons]).
  assert (to_bytes (bearer token) = to_bytes "Bearer " ++ c :: t) as Hb
    by (unfold bearer; by rewrite to_bytes_app, Ht).
  assert (TrimSpace (bearer token) = bearer token) as Htrim.
  { apply (TrimSpace_visible _ "B"%char (to_bytes "earer " ++ c :: t) d (to_bytes "Bearer " ++ l)); try done.
    rewrite E. by rewrite <- app_assoc. }
  unfold bearerToken. rewrite Hh, Htrim, Hb. rewrite length_app.
  change (length (to_bytes "Bearer ")) with 7%nat. rewrite (proj2 (Z.ltb_lt _ _)) by (simpl; lia).
  change (take 7 (to_bytes "Bearer " ++ c :: t)) with (to_bytes "Bearer ").
  change (drop 7 (to_bytes "Bearer " ++ c :: t)) with (c :: t).
  change (bearer_fold (to_bytes "Bearer ")) with true. cbn [andb]. rewrite <- Ht, of_to_bytes.
  by apply (TrimSpace_visible token c t d l).
Qed.

(** ** What requests do to the sessions *)

Definition keeps_auth {A} (m : hop A) : Prop := ∀ p, pc_auth (fst (m p)) = pc_auth p.
Lemma auth_pure {A} (m : hop A) : pure_op m → keeps_auth m.
Proof. intros Hp p. by rewrite Hp. Qed.
Lemma auth_bind {A B} (m : hop A) (f : A → hop B) : keeps_auth m → (∀ a, keeps_auth (f a)) → keeps_auth (m ≫= f).
Proof.
  intros Hm Hf p. unfold mbind, op_bind. specialize (Hm p). destruct (m p) as [p1 [a|e]]; [|done].
  simpl in Hm. by rewrite Hf.
Qed.
Create HintDb auth_db.
#[export] Hint Resolve auth_pure : auth_db.
#[export] Hint Extern 3 (keeps_auth (_ ≫= _)) => apply auth_bind; [|intros] : auth_db.
#[export] Hint Extern 4 (keeps_auth (match ?x with _ => _ end)) => destruct x : auth_db.

Section keeps_auth.
Context `{Env, AuthEnv, HttpEnv, Router} (writer : Writer) (cfg : Config).

Lemma auth_ask_wall {A} (f : nat → A) : keeps_auth (http_ask f).
Proof. done. Qed.
Lemma auth_now : keeps_auth time_now.
Proof. done. Qed.
Lemma auth_service {A} r (m : dop A) : keeps_auth (service r m).
Proof. intros p. unfold service. by destruct (m (pc_world p)). Qed.
Lemma auth_on_store {A} (m : dop A) : keeps_auth (on_store m).
Proof. intros p. unfold on_store. by destruct (m (pc_world p)). Qed.
Lemma auth_Resolve token t : keeps_auth (on_auth (Resolve token t)).
Proof.
  intros p. unfold on_auth. pose proof (Resolve_pure token t (pc_auth p)) as Hp.
  by destruct (Resolve token t (pc_auth p)).
Qed.
End keeps_auth.
#[export] Hint Resolve auth_ask_wall auth_now auth_service auth_on_store auth_Resolve : auth_db.

Section history.
Context `{Env, AuthEnv, HttpEnv, Router} (writer : Writer) (cfg : Config).

(** Only the routes of login and logout change the sessions. *)
Lemma handler_auth i rt r : i ≠ 2%nat → i ≠ 3%nat → routes writer cfg !! i = Some rt → keeps_auth (rt_handler rt r).
Proof.
  intros N2 N3 Hrt. each_route i 24%nat; [..|done]; try done; injection Hrt as <-;
    cbn [rt_handler api_route open_route guarded_route];
    unfold healthz, readyz, me, registerItem, listItems, getItemDetail, modifyItem, startProcessing,
      returnForCorrection, resubmitItem, cancelItem, completeItem, createRule, listRules, getRule, batchImport,
      batchExport, listBatches, getBacklog, listAudit, listFailures, retryFailure, decode_body, item_id, reply;
    cbv zeta; eauto 40 with auth_db op_db nocore.
Qed.

Definition auth_actions (r : Request) (p : Process) : list action :=
  match chi_match (patterns writer cfg) (hr_Method r) (hr_Path r) with
  | Matched 2 _ =>
      match Decode login_fields zero_login (hr_Body r) with
      | Some req => [DoLogin (lr_Username req) (lr_Password req) (ac_SessionTTL (cf_Auth cfg)) (wall_now (pc_tick p))]
      | None => []
      end
  | Matched 3 _ => if bool_decide (bearerToken r = "") then [] else [DoLogout (bearerToken r) (wall_now (pc_tick p))]
  | _ => []
  end.
Lemma login_auth r p :
  pc_auth (fst (login cfg r p)) =
  match Decode login_fields zero_login (hr_Body r) with
  | Some req => fst (Login (lr_Username req) (lr_Password req) (ac_SessionTTL (cf_Auth cfg)) (wall_now (pc_tick p)) (pc_auth p))
  | None => pc_auth p
  end.
Proof.
  unfold login, mbind, op_bind, decode_body, must, time_now, http_ask, on_auth.
  destruct (Decode _ _ _) as [req|]; [|done]. simpl. destruct (Login _ _ _ _ _) as [s [[[user token] expires]|err]]; [done|].
  by destruct (errors_is err ErrInvalidCredentials).
Qed.
Lemma logout_auth r p :
  pc_auth (fst (logout r p)) =
  if bool_decide (bearerToken r = "") then pc_auth p else fst (Logout (bearerToken r) (wall_now (pc_tick p)) (pc_auth p)).
Proof.
  unfold logout, mbind, op_bind, ensure, time_now, http_ask, on_auth.
  destruct (bool_decide _); [done|]. simpl. by destruct (Logout _ _ _) as [s [u|err]].
Qed.
Lemma answer_state {A B C} (x : A * result B C) (f : C → B) :
  fst (let '(p, r) := x in (p, match r with Ok b => f b | Err b => b end)) = fst x.
Proof. by destruct x. Qed.
Lemma ServeHTTP_auth r p : pc_auth (fst (ServeHTTP writer cfg r p)) = acts (auth_actions r p) (pc_auth p).
Proof.
  unfold auth_actions. destruct (chi_match (patterns writer cfg) _ _) as [i params|mounted status text] eqn:Hm.
  - destruct (routes writer cfg !! i) as [rt|] eqn:Hi.
    + destruct (ServeHTTP_matched writer cfg r p i params rt Hm Hi)
        as [[_ E]|(Hno & p1 & resp & E & (_ & _ & Ha) & _)]; rewrite E.
      * rewrite (answer_state _ id). destruct (at_gate_world cfg rt p) as [_ Hg].
        destruct (decide (i = 2%nat)) as [->|N2]; [|destruct (decide (i = 3%nat)) as [->|N3]].
        -- injection Hi as <-. cbn [rt_handler open_route]. rewrite login_auth. simpl.
           by destruct (Decode _ _ _).
        -- injection Hi as <-. cbn [rt_handler open_route]. rewrite logout_auth. simpl.
           change (bearerToken (r <| hr_Param := params |>)) with (bearerToken r). by case_bool_decide.
        -- rewrite (handler_auth i rt) by done. rewrite Hg. by destruct i as [|[|[|[|]]]].
      * simpl. rewrite Ha. destruct i as [|[|[|[|]]]]; try done; injection Hi as <-; by destruct Hno.
    + assert (fst (ServeHTTP writer cfg r p) = p) as -> by (unfold ServeHTTP, dispatch; fold (patterns writer cfg); by rewrite Hm, Hi).
      by destruct i as [|[|[|[|]]]].
  - destruct (ServeHTTP writer cfg r p) as [p' response] eqn:E. simpl.
    apply ServeHTTP_other in E as (_ & _ & ->); [done|]. intros (? & ? & ? & [E' _]). congruence.
Qed.

(** Requests, one after the other. *)
Definition serve_all (rs : list Request) (p : Process) : Process :=
  foldl (λ p r, fst (ServeHTTP writer cfg r p)) p rs.
Fixpoint auth_history (rs : list Request) (p : Process) : list action :=
  match rs with
  | [] => []
  | r :: rs => auth_actions r p ++ auth_history rs (fst (ServeHTTP writer cfg r p))
  end.
Lemma serve_all_auth rs p : pc_auth (serve_all rs p) = acts (auth_history rs p) (pc_auth p).
Proof.
  revert p. induction rs as [|r rs IH]; intros p; [done|]. simpl. unfold acts. rewrite foldl_app.
  fold (acts (auth_actions r p) (pc_auth p)). rewrite <- ServeHTTP_auth. apply IH.
Qed.
(** A logout with a token of this hash. *)
Definition logout_of (token : string) (r : Request) : bool :=
  match chi_match (patterns writer cfg) (hr_Method r) (hr_Path r) with
  | Matched 3 _ => negb (bool_decide (bearerToken r = "")) && bool_decide (tokenHash (bearerToken r) = tokenHash token)
  | _ => false
  end.
Lemma history_logs_out token rs p :
  existsb (logs_out token) (auth_history rs p) = existsb (logout_of token) rs.
Proof.
  revert p. induction rs as [|r rs IH]; intros p; [done|]. cbn [auth_history existsb]. rewrite existsb_app, IH. f_equal. clear IH.
  unfold auth_actions, logout_of. destruct (chi_match _ _ _) as [[|[|[|[|]]]]|]; try done.
  - by destruct (Decode _ _ _).
  - destruct (bool_decide (bearerToken r = "")); [reflexivity|]. apply orb_false_r.
Qed.
End history.

(** ** The life of a session, seen by a client *)

Section client.
Context `{Env, AuthEnv, !AuthLaws H0, HttpEnv, Router} (writer : Writer) (cfg : Config).

Lemma Login_token u p ttl now s s' user token expires :
  Login u p ttl now s = (s', Ok (user, token, expires)) →
  Forall visible (to_bytes token) ∧ to_bytes token ≠ [].
Proof.
  unfold Login. intros (s1 & user' & _ & (s2 & token' & Ht & Hr)%bind_ok)%bind_ok. cbv zeta in Hr.
  apply bind_ok in Hr as (s3 & u3 & _ & (s4 & u4 & _ & Hr)%bind_ok). unfold mret, op_ret in Hr.
  injection Hr as _ _ <- _. unfold newToken, mbind, op_bind, auth_ask in Ht.
  destruct (auth_random _) as [b|] eqn:Hb; [|done]. apply random_length in Hb as [Hlen Hb].
  unfold mret, op_ret in Ht. injection Ht as _ <-.
  split; [by apply encode_visible|]. apply encode_nonempty. intros ->. done.
Qed.
Lemma login_answer r p p' token expires user :
  ServeHTTP writer cfg r p = (p', writeJSON 200 (LoggedIn token expires user)) →
  (∃ params, chi_match (patterns writer cfg) (hr_Method r) (hr_Path r) = Matched 2 params) →
  ∃ u pw, Login u pw (ac_SessionTTL (cf_Auth cfg)) (wall_now (pc_tick p)) (pc_auth p) =
    (pc_auth p', Ok (user, token, expires)).
Proof.
  intros Hs [params Hm]. unfold ServeHTTP, dispatch in Hs. fold (patterns writer cfg) in Hs. rewrite Hm in Hs.
  cbn [routes lookup list_lookup rt_mounted rt_roles rt_handler open_route authenticated andb] in Hs.
  unfold login, mbind, op_bind, decode_body, must, time_now, http_ask, on_auth, reply, mret, op_ret in Hs. simpl in Hs.
  destruct (Decode _ _ _) as [req|]; [|done].
  destruct (Login (lr_Username req) (lr_Password req) _ _ _) as [s [[[user' token'] expires']|err]] eqn:E.
  - injection Hs as <- -> -> ->. simpl in *. by exists (lr_Username req), (lr_Password req).
  - by destruct (errors_is err ErrInvalidCredentials).
Qed.

(** What becomes of a session of [user] that ends at [expires]. *)
Definition verdict (token : string) (rs : list Request) (expires now : Time) (user : User) : result aerror User :=
  if existsb (logout_of writer cfg token) rs then Err (Sentinel ErrSessionRevoked)
  else if now <? expires then Ok user
  else Err (Sentinel ErrSessionExpired).

(** C17: what a login is good for. The token in the answer to a login, sent
    back as a bearer token, stands for the user of the login until the end
    of the session or a logout with it, through any requests by anybody in
    between and whatever fails: [/api/auth/me] names that user, later that the
    session has expired, or once logged out that it is revoked; and the
    requests to routes below [/api] that it makes permitted are, for just as
    long, those on routes without roles or with one the user has. *)
Theorem session_over_http r0 p0 p1 token expires user rs r :
  (∃ params, chi_match (patterns writer cfg) (hr_Method r0) (hr_Path r0) = Matched 2 params) →
  ServeHTTP writer cfg r0 p0 = (p1, writeJSON 200 (LoggedIn token expires user)) →
  NoDup (us_ID <$> st_users (pc_auth p0)) → session_of token (pc_auth p0) = None →
  hr_Header r "Authorization" = bearer token →
  let p := serve_all writer cfg rs p1 in
  let v := verdict token rs expires (wall_now (pc_tick p)) user in
  expires = wall_now (pc_tick p0) + ac_SessionTTL (cf_Auth cfg) ∧
  (∀ params, chi_match (patterns writer cfg) (hr_Method r) (hr_Path r) = Matched 4 params →
     snd (ServeHTTP writer cfg r p) =
       match v with
       | Ok user => writeJSON 200 (UserBody user)
       | Err err => if errors_is err ErrSessionExpired then unauthorized "" "SESSION_EXPIRED" "会话已过期"
                    else unauthorized "" "SESSION_REVOKED" "会话已退出"
       end) ∧
  (∀ i params rt, routed_to writer cfg r i params rt → rt_mounted rt = true → ac_Required (cf_Auth cfg) = true →
     permitted cfg rt r p ↔ v = Ok user ∧ match rt_roles rt with Some roles => us_Role user ∈ roles | None => True end).
Proof.
  intros Hm0 Hs Hnd Hnew Hh p v. apply login_answer in Hs as (u & pw & Hl); [|done].
  pose proof (Login_token _ _ _ _ _ _ _ _ _ Hl) as [Hvis Hne].
  pose proof (bearerToken_bearer r token Hh Hvis Hne) as Ht.
  assert (snd (Resolve token (wall_now (pc_tick p)) (pc_auth p)) = v) as Hres.
  { unfold p. rewrite serve_all_auth.
    destruct (session_after u pw _ _ _ _ _ _ _ (auth_history writer cfg rs p1)
      (wall_now (pc_tick (serve_all writer cfg rs p1))) Hl Hnd Hnew) as (_ & _ & ->).
    by rewrite history_logs_out. }
  destruct (session_after u pw _ _ _ _ _ _ _ [] 0 Hl Hnd Hnew) as (_ & Hexp & _).
  split; [done|]. split.
  - intros params Hm. unfold ServeHTTP, dispatch. fold (patterns writer cfg). rewrite Hm.
    cbn [routes lookup list_lookup rt_mounted rt_roles rt_handler open_route authenticated andb].
    unfold me, mbind, op_bind, ensure, time_now, http_ask, on_auth, mret, op_ret. simpl.
    change (bearerToken (r <| hr_Param := params |>)) with (bearerToken r). rewrite Ht.
    rewrite bool_decide_false by (intros ->; done). simpl.
    destruct (Resolve token (wall_now (pc_tick p)) (pc_auth p)) as [s res]. simpl in Hres. rewrite Hres.
    unfold v, verdict. destruct (existsb _ _); [done|]. by destruct (_ <? _).
  - intros i params rt _ Hmount Hreq. unfold permitted. rewrite Hmount, Hreq, Ht, Hres. simpl. split.
    + intros (user' & _ & Hv & Hroles). assert (user' = user) as ->; [|done].
      revert Hv. unfold v, verdict. destruct (existsb _ _); [done|]. by destruct (_ <? _); intros [= ->].
    + intros [Hv Hroles]. exists user. split; [intros ->; done|done].
Qed.
End client.

(** The operator's token, after the administrator has logged out. *)
Lemma session_over_http_witness :
  us_ID ex_operator = "u-2" ∧
  snd (ex_serve ex_id (ex_me ("Bearer " +:+ snd ex_both)) (fst (ex_serve ex_id (ex_log_out as_admin) ex_served)))
    = writeJSON 200 (UserBody ex_operator).
Proof.
  split; [reflexivity|].
  destruct (session_over_http (H := calm) (H0 := plain_env) (H1 := ex_http) (H2 := ex_router ex_id) ex_writer Defaults
    (ex_log_in "sign" "another password") (fst ex_admin) ex_served (snd ex_both) (1000 + 8 * Hour) ex_operator
    [ex_log_out as_admin] (ex_me ("Bearer " +:+ snd ex_both))) as (_ & Hme & _).
  - exists (λ _, ex_id). vm_compute. reflexivity.
  - vm_compute. reflexivity.
  - apply (bool_decide_eq_true_1 _). vm_compute. reflexivity.
  - vm_compute. reflexivity.
  - reflexivity.
  - etransitivity; [apply (Hme (λ _, ex_id)); vm_compute; reflexivity|]. clear Hme.
    assert (verdict (H := calm) (H0 := plain_env) (H1 := ex_http) (H2 := ex_router ex_id) ex_writer Defaults
      (snd ex_both) [ex_log_out as_admin] (1000 + 8 * Hour) 1000 ex_operator = Ok ex_operator) as E
      by (vm_compute; reflexivity).
    match goal with |- match ?v with _ => _ end = _ => change v with (verdict (H := calm) (H0 := plain_env)
      (H1 := ex_http) (H2 := ex_router ex_id) ex_writer Defaults
      (snd ex_both) [ex_log_out as_admin] (1000 + 8 * Hour) 1000 ex_operator) end.
    rewrite E. reflexivity.
Defined.
