(* ===== verification/MiddlewareClaims.v ===== *)
(** * Theorems about the middleware

    Whatever a handler does, the client gets an answer and the log an entry. *)
From S2P Require Import Prelude GoErrors GoStrings GoNumbers GoTime Domain World Shard Auth Config Http HttpServer AppLog Middleware.

Lemma respond_spec `{Zone} nil response x :
  respond nil response x =
  x <| xc_status := Some (default (rs_Status response) (xc_status x)) |>
    <| xc_body := xc_body x ++ rendered nil (rs_Body response) |>.
Proof.
  unfold respond, Write, WriteHeader. destruct x as [p log [status|] body]; simpl;
    destruct (rendered _ _) as [|c data]; simpl; by rewrite ?app_nil_r.
Qed.

Section middleware.
Context `{Env, AuthEnv, HttpEnv, Router} (logger : Logger) (nil : string → bool).

(** C16: the middleware. Whatever handler is at its end, returning or
    panicking, before or after it has written: the chain returns; all it does
    to the process is to read the clock twice; an answer that the handler has
    written reaches the client unchanged; a panic is logged as an error, and
    answered with 500, or, after the header has been sent, by appending to
    what was written; and every request is logged once, after all that, with
    the status the client got. So a request to the routes is answered with
    the status and the text of [ServeHTTP]'s response. *)
Theorem middleware_answers writer cfg (next : Handler) r p log :
  (let '(x1, f) := next r (exchange (clock_ticked p) log) in
   let '(x, f') := chain logger nil next r (exchange p log) in
   f' = Returned ∧ xc_process x = clock_ticked (xc_process x1) ∧
   xc_status x = match f with Returned => xc_status x1 | Panicked _ => Some (default 500 (xc_status x1)) end ∧
   xc_body x = xc_body x1 ++ match f with
                             | Returned => []
                             | Panicked _ => rendered nil (rs_Body (writeError (hr_ID r) 500 "PANIC" "internal panic"))
                             end ∧
   ∃ duration, xc_log x = xc_log x1 ++
     match f with
     | Returned => []
     | Panicked value =>
         entry logger ErrorLevel [("panic", FText value); ("request_id", FText (hr_ID r))] "panic recovered"
     end ++
     entry logger InfoLevel [("method", FText (hr_Method r)); ("path", FText (hr_Path r));
       ("status", FInt (default 0 (xc_status x))); ("duration", FDuration duration);
       ("request_id", FText (hr_ID r))] "request") ∧
  (let '(p', response) := ServeHTTP writer cfg r (clock_ticked p) in
   let x := serve_request logger nil writer cfg r p log in
   xc_process x = clock_ticked p' ∧ xc_status x = Some (rs_Status response) ∧
   xc_body x = rendered nil (rs_Body response)).
Proof.
  split.
  - unfold chain, loggingMiddleware, clock_read, recoveryMiddleware.
    change ((exchange p log) <| xc_process ::= clock_ticked |>) with (exchange (clock_ticked p) log).
    destruct (next r (exchange (clock_ticked p) log)) as [x1 [|value]].
    + simpl. split_and!; [done..|by rewrite app_nil_r|]. by eexists.
    + rewrite respond_spec. simpl. split_and!; [done..|]. eexists. by rewrite <- app_assoc.
  - unfold serve_request, chain, loggingMiddleware, clock_read, recoveryMiddleware, route_handler.
    change ((exchange p log) <| xc_process ::= clock_ticked |>) with (exchange (clock_ticked p) log).
    change (xc_process (exchange (clock_ticked p) log)) with (clock_ticked p).
    destruct (ServeHTTP _ _ _ _) as [p' response]. by rewrite respond_spec.
Qed.
End middleware.
