(* ===== verification/MigrateClaims.v ===== *)
(** * What opening a database does

    However an opening of the store ends, the scripts applied so far are the
    first ones of their order, each run once. *)
From S2P Require Import Prelude GoErrors GoStrings GoTime Domain World Shard Index Rebuild RebuildFacts StoreRuns Migrate.

(** ** What is applied *)

(** [scripts ms d]: the scripts of [ms] run on [d] one after the other, each
    with its row in [schema_version]. *)
Fixpoint scripts `{Migrations} (ms : list (string * Z)) (d : DB) : option DB :=
  match ms with
  | [] => Some d
  | (name, v) :: ms =>
      match run_migration name d with
      | Ok d => scripts ms (d <| db_schema := db_schema d ++ [v] |>)
      | Err _ => None
      end
  end.

Section facts.
Context `{Env} `{Migrations} `{!MigrationLaws H0}.
Implicit Types (w : World) (ms : list (string * Z)).

Lemma scripts_schema ms d d' :
  scripts ms d = Some d' → db_schema d' = db_schema d ++ ms.*2.
Proof.
  revert d. induction ms as [|[name v] ms IH]; intros d; simpl; [intros [= <-]; by rewrite app_nil_r|].
  destruct (run_migration name d) as [d1|] eqn:E; [|done]. intros ->%IH. simpl.
  by rewrite (script_keeps_versions _ _ _ E), <- app_assoc.
Qed.

(** [ends m w Q]: [Q] holds of the state and the result that [m] ends with. *)
Definition ends {A} (m : dop A) w (Q : World → result derror A → Prop) : Prop :=
  Q (fst (m w)) (snd (m w)).
Lemma ends_bind {A B} (m : dop A) (f : A → dop B) w Q :
  ends m w (λ w1 r, match r with Ok a => ends (f a) w1 Q | Err e => Q w1 (Err e) end) →
  ends (m ≫= f) w Q.
Proof. unfold ends, mbind, op_bind. by destruct (m w) as [w1 [a|e]]. Qed.
Lemma ends_gets {A} (f : World → A) w Q : Q w (Ok (f w)) → ends (gets f) w Q.
Proof. done. Qed.
Lemma ends_lift {A} (r : result derror A) w Q : Q w r → ends (lift r) w Q.
Proof. done. Qed.
Lemma ends_modify f w (Q : World → result derror () → Prop) : Q (f w) (Ok ()) → ends (modify f) w Q.
Proof. done. Qed.
Lemma ends_attempt wrap w (Q : World → result derror () → Prop) :
  (∀ w' r, same w w' → Q w' r) → ends (attempt wrap) w Q.
Proof. intros HQ. apply HQ. unfold attempt, mbind, op_bind, ask. by destruct (env_fault _). Qed.
Lemma ends_wrapping {A} wrap (m : dop A) w Q :
  ends m w (λ w1 r, Q w1 (match r with Ok a => Ok a | Err e => Err (wrap e) end)) →
  ends (wrapping wrap m) w Q.
Proof. unfold ends, wrapping. by destruct (m w) as [w1 [a|e]]. Qed.
Lemma ends_for_attempts {A} (l : list A) (wrap : A → derror → derror) w Q :
  (∀ w' r, same w w' → Q w' r) → ends (for_each l (λ x, attempt (wrap x))) w Q.
Proof.
  revert w. induction l as [|x l IH]; intros w HQ; [by apply HQ|].
  apply ends_bind, ends_attempt. intros w1 [[]|e] Hw1; [|by apply HQ].
  apply IH. intros w2 r Hw2. apply HQ. by transitivity w1.
Qed.

(** A migration is applied with its row, or not at all. *)
Lemma ends_apply v name w Q :
  (∀ w' e, same w w' → Q w' (Err e)) →
  (∀ w' d, run_migration name (w_db w) = Ok d → w_db w' = d <| db_schema := db_schema d ++ [v] |> →
     w_fs w' = w_fs w → Q w' (Ok ())) →
  ends (applyMigration v name) w Q.
Proof.
  intros Herr Hok. apply ends_bind, ends_attempt. intros w1 [[]|e] Hw1; [|by apply Herr].
  assert (∀ w' e, w_fs w' = w_fs w → Q (w' <| w_db := w_db w1 |>) (Err e)) as Hback.
  { intros w' e Hf. apply Herr. destruct Hw1. by split. }
  unfold transaction, ends. set (fn := _ ≫= _).
  assert (ends fn w1 (λ w' r, w_fs w' = w_fs w ∧ match r with
    | Ok _ => ∃ d, run_migration name (w_db w) = Ok d ∧ w_db w' = d <| db_schema := db_schema d ++ [v] |>
    | Err _ => True end)) as Hfn.
  { destruct Hw1 as [Hd1 Hf1]. apply ends_bind, ends_bind, ends_attempt. intros w2 [[]|e] [Hd2 Hf2];
      [|split; [congruence|done]].
    apply ends_bind, ends_gets, ends_bind, ends_lift. rewrite Hd2, Hd1.
    destruct (run_migration name (w_db w)) as [d|t]; [|split; [congruence|done]].
    apply ends_bind, ends_modify, ends_bind, ends_attempt.
    intros w3 [[]|e] [Hd3 Hf3]; [|split; [simpl in *; congruence|done]].
    apply ends_bind, ends_gets, ends_bind. unfold ends, ensure at 1. simpl in *.
    destruct (negb _); [|split; [congruence|done]].
    apply ends_attempt. intros w4 r [Hd4 Hf4]. simpl in *. split; [congruence|].
    destruct r; [|done]. exists d. split; [done|]. by rewrite Hd4, Hd3. }
  unfold ends in Hfn. destruct (fn w1) as [w2 [[]|e]]; cbn in *; destruct Hfn as [Hf Hd].
  - destruct Hd as (d & Hrun & Hd). by apply (Hok _ d).
  - by apply Hback.
Qed.

(** *** The loop *)

Definition apply_one (applied : list Z) (name : string) : dop () :=
  version ← lift (migrationVersion name);
  if bool_decide (version ∈ applied) then mret ()
  else wrapping (errorf ("apply migration " +:+ name)) (applyMigration version name).
Definition well_named : list (string * Z) → Prop := Forall (λ '(name, v), migrationVersion name = Ok v).

(** Whatever fails, the files that are not applied yet are applied up to the
    first failure. *)
Lemma ends_pending applied ms w Q :
  well_named ms → Forall (λ m, m.2 ∉ applied) ms →
  (∀ j w' r, (j ≤ length ms)%nat → scripts (take j ms) (w_db w) = Some (w_db w') →
     w_fs w' = w_fs w → (∀ u, r = Ok u → j = length ms) → Q w' r) →
  ends (for_each ms.*1 (apply_one applied)) w Q.
Proof.
  intros Hn Hp. revert w Q. induction ms as [|[name v] ms IH]; intros w Q HQ; [by apply (HQ 0%nat)|].
  apply Forall_cons in Hn as [Hv Hn], Hp as [Hnot Hp]. simpl in Hnot, Hv. cbn [for_each fmap list_fmap fst].
  apply ends_bind. unfold apply_one at 1. apply ends_bind, ends_lift. rewrite Hv.
  rewrite bool_decide_false by done. apply ends_wrapping, ends_apply.
  - intros w' e [Hd Hf]. apply (HQ 0%nat); [simpl; lia|by rewrite Hd|done|done].
  - intros w1 d Hrun Hd Hf. apply IH; [done..|]. intros j w' r Hj Hs Hf' Hr.
    apply (HQ (S j)); [simpl; lia| |congruence|intros u Hu; simpl; by rewrite (Hr u Hu)].
    cbn [take scripts]. by rewrite Hrun, <- Hd.
Qed.
(** Files that are applied are passed over. *)
Lemma applied_passed applied ms w :
  well_named ms → Forall (λ m, m.2 ∈ applied) ms →
  for_each ms.*1 (apply_one applied) w = (w, Ok ()).
Proof.
  intros Hn Hp. induction ms as [|[name v] ms IH]; [done|].
  apply Forall_cons in Hn as [Hv Hn], Hp as [Hin Hp]. cbn [for_each fmap list_fmap fst].
  assert (apply_one applied name w = (w, Ok ())) as Hone.
  { unfold apply_one, mbind, op_bind, lift. by rewrite Hv, bool_decide_true. }
  unfold mbind at 1, op_bind at 1. rewrite Hone. by apply IH.
Qed.

(** The versions of the files, in their order. *)
Definition versioned (ms : list (string * Z)) : Prop :=
  ms.*1 = migration_names ∧ well_named ms ∧ NoDup ms.*2.

Lemma ends_migrate ms k w Q :
  versioned ms → (k ≤ length ms)%nat → db_schema (w_db w) = take k ms.*2 →
  (∀ j w' r, (j ≤ length ms - k)%nat → scripts (take j (drop k ms)) (w_db w) = Some (w_db w') →
     w_fs w' = w_fs w → (∀ u, r = Ok u → j = (length ms - k)%nat) → Q w' r) →
  ends migrate w Q.
Proof.
  intros (Hnames & Hn & Hnd) Hk Hs HQ.
  assert (∀ w' e, same w w' → Q w' (Err e)) as Herr.
  { intros w' e [Hd Hf]. apply (HQ 0%nat); [lia|by rewrite Hd|done|done]. }
  apply ends_bind, ends_attempt. intros w1 [[]|e] Hw1; [|by apply Herr].
  apply ends_bind, ends_bind, ends_attempt. intros w2 [[]|e] Hw2; [|by apply Herr; transitivity w1].
  apply ends_gets. destruct (transitivity Hw1 Hw2) as [Hd Hf]. rewrite Hd, Hs, <- Hnames.
  change (ends (for_each ms.*1 (apply_one (take k ms.*2))) w2 Q).
  rewrite <- (take_drop k ms) in Hn at 1. apply Forall_app in Hn as [Hn1 Hn2].
  rewrite <- (take_drop k ms), fmap_app at 1. unfold ends.
  rewrite for_each_app. unfold mbind, op_bind. rewrite applied_passed; [|done|].
  2: { rewrite <- fmap_take. apply Forall_forall. intros m Hm. by apply list_elem_of_fmap_2. }
  apply ends_pending; [done| |].
  - rewrite <- (take_drop k ms), fmap_app in Hnd. apply NoDup_app in Hnd as (_ & Hdisj & _).
    apply Forall_forall. intros m Hm Hin. rewrite <- fmap_take in Hin.
    by apply (Hdisj m.2); [|apply list_elem_of_fmap_2].
  - intros j w' r. rewrite length_drop, Hd, Hf. apply HQ.
Qed.

Lemma ends_New ms k w dataDir maxSize sync Q :
  versioned ms → (k ≤ length ms)%nat → db_schema (w_db w) = take k ms.*2 →
  (∀ j w' r, (j ≤ length ms - k)%nat → scripts (take j (drop k ms)) (w_db w) = Some (w_db w') →
     w_fs w' = w_fs w → (∀ u, r = Ok u → j = (length ms - k)%nat) → Q w' r) →
  ends (New dataDir maxSize sync) w Q.
Proof.
  intros Hms Hk Hs HQ.
  assert (∀ w' e, same w w' → Q w' (Err e)) as Herr.
  { intros w' e [Hd Hf]. apply (HQ 0%nat); [lia|by rewrite Hd|done|done]. }
  apply ends_bind, ends_wrapping, ends_for_attempts. intros w1 [[]|e] Hw1; [|by apply Herr].
  apply ends_bind, ends_wrapping, ends_bind, ends_attempt.
  intros w2 [[]|e] Hw2; [|by apply Herr; transitivity w1].
  apply ends_bind, ends_attempt. intros w3 [[]|e] Hw3; [|by apply Herr; transitivity w1; [|transitivity w2]].
  apply ends_bind, ends_for_attempts.
  intros w4 r4 Hw4. assert (same w w4) as Hw by (do 3 (etrans; [eassumption|]); done).
  destruct r4 as [[]|e]; [|by apply Herr]. destruct Hw as [Hd Hf].
  apply ends_wrapping, (ends_migrate ms k); [done..|by rewrite Hd|].
  intros j w5 r Hj Hsc Hf5 Hr. rewrite Hd in Hsc. destruct r as [[]|e].
  - apply (HQ j); [done..|simpl; congruence|]. intros _ _. by apply (Hr ()).
  - by apply (HQ j); [..|congruence|].
Qed.

(** *** Files *)

(** Opening a store touches no shard file. *)
Lemma later_wrapped {A} wrap (m : dop A) : fs_later m → fs_later (wrapping wrap m).
Proof. intros Hm w w' r. unfold wrapping. destruct (m w) as [w1 [a|e]] eqn:E; intros [= <- _]; by apply Hm in E. Qed.
Lemma later_for_each {A} (l : list A) (f : A → dop ()) : (∀ x, fs_later (f x)) → fs_later (for_each l f).
Proof. intros Hf. induction l as [|x l IH]; [by apply later_pure|]. by apply later_bind. Qed.
Lemma later_transaction fn : fs_later fn → fs_later (transaction fn).
Proof.
  intros Hf w w' r. unfold transaction.
  destruct ((_ ← fn; attempt (λ e, e)) w) as [w1 r1] eqn:E.
  apply later_bind in E; [|done|intros _; apply later_attempt]. destruct r1; by intros [= <- _].
Qed.
Lemma later_New dataDir maxSize sync : fs_later (New dataDir maxSize sync).
Proof.
  assert (∀ A (l : list A) (wrap : A → derror → derror), fs_later (for_each l (λ x, attempt (wrap x)))) as Hl.
  { intros A l wrap. apply later_for_each. intros x. apply later_attempt. }
  apply later_bind; [apply later_wrapped, Hl|]. intros _. apply later_bind; [|by intros; apply later_pure].
  apply later_wrapped. do 2 (apply later_bind; [apply later_attempt|intros _]).
  apply later_bind; [apply Hl|]. intros _. apply later_wrapped.
  apply later_bind; [apply later_attempt|]. intros _.
  apply later_bind; [by apply later_bind; [apply later_attempt|intros; apply later_pure]|]. intros applied.
  apply later_for_each. intros name. apply later_bind; [by apply later_pure|]. intros version.
  case_bool_decide; [by apply later_pure|]. apply later_wrapped.
  apply later_bind; [apply later_attempt|]. intros _. apply later_transaction.
  apply later_bind; [apply later_attempt|]. intros _. apply later_bind; [by apply later_pure|]. intros d.
  apply later_bind; [by apply later_pure|]. intros d'. apply later_bind; [apply later_set_db|]. intros _.
  apply later_bind; [apply later_attempt|]. intros _. apply later_bind; [by apply later_pure|]. intros vs.
  apply later_bind; [by apply later_pure|]. intros _. apply later_set_db.
Qed.

(** *** Success *)

Context `{!Faultless H}.

Lemma wp_attempts {A} (l : list A) (wrap : A → derror → derror) w Q :
  (∀ w', same w w' → Q () w') → wp (for_each l (λ x, attempt (wrap x))) w Q.
Proof.
  revert w. induction l as [|x l IH]; intros w HQ; [by apply wp_ret, HQ|].
  apply wp_bind, wp_attempt. intros w1 Hw1. apply IH. intros w2 Hw2. apply HQ. by transitivity w1.
Qed.
Lemma wp_apply v name w d Q :
  run_migration name (w_db w) = Ok d → v ∉ db_schema (w_db w) →
  (∀ w', w_db w' = d <| db_schema := db_schema d ++ [v] |> → Q () w') →
  wp (applyMigration v name) w Q.
Proof.
  intros Hrun Hv HQ. apply wp_bind, wp_attempt. intros w1 [Hd1 _].
  unfold transaction, wp. set (fn := _ ≫= _).
  assert (wp fn w1 (λ _ w', w_db w' = d <| db_schema := db_schema d ++ [v] |>)) as (w2 & [] & -> & Hw2).
  { apply wp_bind, wp_bind, wp_attempt. intros w2 [Hd2 _]. apply wp_bind, wp_gets, wp_bind.
    rewrite Hd2, Hd1, Hrun. apply wp_lift, wp_bind, wp_modify, wp_bind, wp_attempt.
    intros w3 [Hd3 _]. apply wp_bind, wp_gets, wp_bind. simpl in Hd3.
    rewrite Hd3, (script_keeps_versions _ _ _ Hrun). apply wp_ensure; [by rewrite bool_decide_false|].
    apply wp_modify, wp_attempt. intros w4 [Hd4 _].
    rewrite Hd4. simpl. by rewrite Hd3, (script_keeps_versions _ _ _ Hrun). }
  eexists _, _. split; [done|]. by apply HQ.
Qed.
Lemma wp_pending applied ms w (Q : () → World → Prop) :
  well_named ms → Forall (λ m, m.2 ∉ applied) ms → NoDup (db_schema (w_db w) ++ ms.*2) →
  is_Some (scripts ms (w_db w)) → (∀ w', Q () w') → wp (for_each ms.*1 (apply_one applied)) w Q.
Proof.
  intros Hn Hp. revert w. induction ms as [|[name v] ms IH]; intros w Hnd Hs HQ; [by apply wp_ret|].
  apply Forall_cons in Hn as [Hv Hn], Hp as [Hnot Hp]. simpl in Hnot, Hv, Hs. cbn [for_each fmap list_fmap fst].
  destruct (run_migration name (w_db w)) as [d|] eqn:Hrun; [|by destruct Hs].
  apply wp_bind. unfold apply_one at 1. apply wp_bind. rewrite Hv. apply wp_lift.
  rewrite bool_decide_false by done. apply wp_wrapping, (wp_apply _ _ _ d); [done| |].
  - apply NoDup_app in Hnd as (_ & Hdisj & _). intros Hin. apply (Hdisj v Hin). simpl. set_solver.
  - intros w1 Hd. apply IH; [done..| | |done]; rewrite Hd; [|done]. simpl.
    by rewrite (script_keeps_versions _ _ _ Hrun), <- app_assoc.
Qed.
Lemma wp_New ms k w dataDir maxSize sync :
  versioned ms → db_schema (w_db w) = take k ms.*2 → is_Some (scripts (drop k ms) (w_db w)) →
  wp (New dataDir maxSize sync) w (λ writer _,
    writer = {| rootDir := dataDir; maxShardSize := maxSize; syncOnWrite := sync |}).
Proof.
  intros (Hnames & Hn & Hnd) Hs Hok. rewrite <- (take_drop k ms) in Hn. apply Forall_app in Hn as [Hn1 Hn2].
  apply wp_bind, wp_wrapping, wp_attempts. intros w1 Hw1.
  apply wp_bind, wp_wrapping, wp_bind, wp_attempt. intros w2 Hw2. apply wp_bind, wp_attempt. intros w3 Hw3.
  apply wp_bind, wp_attempts. intros w4 Hw4. apply wp_wrapping, wp_bind, wp_attempt. intros w5 Hw5.
  apply wp_bind, wp_bind, wp_attempt. intros w6 Hw6. apply wp_gets.
  assert (same w w6) as [Hd _] by (do 5 (etrans; [eassumption|]); done).
  assert (wp (for_each migration_names (apply_one (db_schema (w_db w6)))) w6 (λ _ _, True))
    as (w7 & [] & Hrun & _); [|by eexists _, _; split; [exact Hrun|]; apply wp_ret].
  assert (NoDup (take k ms.*2 ++ (drop k ms).*2)) as Hnd' by by rewrite fmap_drop, take_drop.
  rewrite Hd, Hs, <- Hnames. rewrite <- (take_drop k ms), fmap_app at 1.
  unfold wp. rewrite for_each_app. unfold mbind, op_bind. rewrite applied_passed; [|done|].
  2: { rewrite <- fmap_take. apply Forall_forall. intros m Hm. by apply list_elem_of_fmap_2. }
  apply wp_pending; [done| |by rewrite Hd, Hs|by rewrite Hd|done].
  apply NoDup_app in Hnd' as (_ & Hdisj & _). apply Forall_forall. intros m Hm Hin.
  by apply (Hdisj m.2); [|apply list_elem_of_fmap_2].
Qed.
End facts.

(** C23: opening the store applies every migration once, in order. If the first
    [k] files of the order are applied, then, whatever statements and system
    calls fail, an opening applies the next ones up to some [j]: their scripts
    are run once each, one after the other, on the tables as they were, each
    together with its row in [schema_version], none in part, and no shard file
    is touched. If it succeeds all files are applied; it does succeed when
    nothing fails and SQLite accepts the scripts. A later opening, with [j] in
    the place of [k], goes on from there. *)
Theorem store_opens `{Env} `{Migrations} `{!MigrationLaws H0} ms k w dataDir maxSize sync w' r :
  versioned ms → (k ≤ length ms)%nat → db_schema (w_db w) = take k ms.*2 →
  New dataDir maxSize sync w = (w', r) →
  (∃ j, (k ≤ j ≤ length ms)%nat ∧ scripts (drop k (take j ms)) (w_db w) = Some (w_db w') ∧
     db_schema (w_db w') = take j ms.*2 ∧ w_fs w' = w_fs w ∧
     (result_is_ok r = true → j = length ms)) ∧
  (Faultless H → is_Some (scripts (drop k ms) (w_db w)) → result_is_ok r = true).
Proof.
  intros Hms Hk Hs Hr. split.
  - assert (ends (New dataDir maxSize sync) w (λ w' r, ∃ j, (k ≤ j ≤ length ms)%nat ∧
      scripts (drop k (take j ms)) (w_db w) = Some (w_db w') ∧ db_schema (w_db w') = take j ms.*2 ∧
      w_fs w' = w_fs w ∧ (result_is_ok r = true → j = length ms))) as He;
      [|unfold ends in He; by rewrite Hr in He].
    apply (ends_New ms k); [done..|]. intros j w1 r1 Hj Hsc Hf Hr1. exists (k + j)%nat.
    assert (drop k (take (k + j) ms) = take j (drop k ms)) as ->.
    { rewrite skipn_firstn_comm. f_equal. lia. }
    split_and!; [lia|lia|done| |done|].
    + by rewrite (scripts_schema _ _ _ Hsc), Hs, fmap_take, fmap_drop, take_take_drop.
    + destruct r1 as [u|]; [|done]. intros _. rewrite (Hr1 u); [lia|done].
  - intros Hno Hok. destruct (wp_New ms k w dataDir maxSize sync Hms Hs Hok) as (w2 & writer & Hrun & _).
    rewrite Hr in Hrun. by injection Hrun as _ ->.
Qed.

(** ** The files of the repository *)

(** A call fails at the tick [n]; every script is accepted. *)
Definition failing_at (n : nat) : Env := {|
  env_zone := utc;
  env_now _ := ex_epoch; env_uuid m := pretty (N.of_nat m);
  env_fault m := if bool_decide (m = n) then Some (FaultText "disk I/O error") else None;
  env_ctx _ := None; env_others _ d := d; env_scan A _ l := l; env_short _ := 0%nat;
  env_nil _ _ := true |}.
Definition repository : Migrations :=
  {| migration_files := repository_files; run_migration _ d := Ok d |}.
Lemma repository_laws : MigrationLaws repository.
Proof. by intros name d d' [= <-]. Qed.
Definition repository_versions : list (string * Z) := zip repository_files [1; 2].
Lemma repository_versioned : versioned (H0 := repository) repository_versions.
Proof. split_and!; [by vm_compute| |by apply (bool_decide_unpack _)]. by repeat constructor. Qed.
Definition new_world : World :=
  {| w_db := new_db; w_fs := ∅; w_tick := 0 |}.
Definition ex_open (n : nat) (w : World) : World * result derror Writer :=
  New (H := failing_at n) (H0 := repository) "data" 0 false w.

(** The commit of the second migration fails; the next opening makes up for it,
    a third finds nothing to do. *)
Example ex_three_openings :
  let '(w1, r1) := ex_open 21 new_world in
  let '(w2, r2) := ex_open 21 w1 in
  let '(w3, r3) := ex_open 21 w2 in
  (db_schema (w_db w1), db_schema (w_db w2), db_schema (w_db w3)) = ([1], [1; 2], [1; 2]) ∧
  (result_is_ok r1, result_is_ok r2, result_is_ok r3) = (false, true, true).
Proof. by vm_compute. Qed.
Lemma store_opens_witness :
  ∃ j, (1 ≤ j ≤ 2)%nat ∧ db_schema (w_db (fst (ex_open 21 (fst (ex_open 21 new_world))))) = take j [1; 2].
Proof.
  destruct (store_opens (H := failing_at 21) (H0 := repository) (MigrationLaws0 := repository_laws)
    repository_versions 1 (fst (ex_open 21 new_world)) "data" 0 false
    (fst (ex_open 21 (fst (ex_open 21 new_world)))) (snd (ex_open 21 (fst (ex_open 21 new_world)))))
    as ((j & Hj & _ & Hs & _) & _); [exact repository_versioned|simpl; lia|by vm_compute| |].
  - exact (surjective_pairing (ex_open 21 (fst (ex_open 21 new_world)))).
  - exists j. split; [exact Hj|exact Hs].
Defined.
