(* ===== verification/HubctlClaims.v ===== *)
(** * What the operations command does

    The flags of import and export can never be given; a command works on the
    database of the flag [-data-dir], whatever the configuration says; and the
    rebuild command recovers an index that was deleted. *)
From S2P Require Import Prelude GoErrors GoStrings GoNumbers GoTime Json GoFlags Domain Records RecordsFacts.
From S2P Require Import Config World Shard Reader Index Repo Rebuild Migrate Services Http Hubctl.
From S2P Require Import RebuildFacts StoreRuns StoreReplay RebuildClaims MigrateClaims ConfigClaims.
From S2P Require Import HttpFacts HttpReplies ServiceLoops.

(** ** Flags of a command *)

(** A second pass over arguments that were parsed sets the same flags again. *)
Lemma flags_again args f f1 (extra : FlagSet) :
  Parse args f = Ok f1 → dom extra ## dom f → Parse args (extra ∪ f1) = Ok (extra ∪ f1).
Proof.
  intros Hp Hd. apply Parse_sets in Hp as (u & Hu & -> & Hg).
  rewrite Hg; [|rewrite !dom_union_L; set_solver]. f_equal.
  assert (u ##ₘ extra) as Hdisj by (apply map_disjoint_dom; set_solver).
  rewrite (assoc (∪)), (map_union_comm u extra), <- (assoc (∪)) by done.
  f_equal. by rewrite (assoc (∪)), (idemp (∪)).
Qed.
Lemma own_flag args f1 (extra : FlagSet) name :
  Parse args common_flags = Ok f1 → dom extra ## dom common_flags →
  name ∈ dom extra → flag_value name (extra ∪ f1) = default "" (extra !! name).
Proof.
  intros Hp Hd [v Hv]%elem_of_dom. unfold flag_value. by rewrite (lookup_union_Some_l _ _ _ _ Hv), Hv.
Qed.

Section claims.
Context `{Env} `{Migrations} `{ConfigEnv}.
Implicit Types (m : Machine) (f : FlagSet).

Lemma import_exits args cfg f m :
  Parse args common_flags = Ok f →
  runImport cfg args f m = (m <| mc_err := mc_err m ++ ["error: --file is required"] |>, Err 1).
Proof.
  intros Hp. unfold runImport. rewrite insert_union_singleton_l.
  unfold mbind at 1, op_bind at 1, parse_flags, lift.
  rewrite (flags_again args common_flags f {[ "file" := "" ]} Hp) by (rewrite dom_singleton_L; set_solver).
  by rewrite (own_flag args f {[ "file" := "" ]} "file" Hp) by (rewrite dom_singleton_L; set_solver).
Qed.

(** *** Operations on a store *)

(** A step that only reads and prints. *)
Definition quiet_op {A} (m : cop A) : Prop := ∀ mc, mc_fs (fst (m mc)) = mc_fs mc.
Lemma quiet_bind {A B} (m : cop A) (f : A → cop B) : quiet_op m → (∀ a, quiet_op (f a)) → quiet_op (m ≫= f).
Proof.
  intros Hm Hf mc. unfold mbind, op_bind. specialize (Hm mc). destruct (m mc) as [m1 [a|e]]; [|done].
  by rewrite Hf.
Qed.
Lemma quiet_store {A} dir (g : dop A) : fs_later g → quiet_op (or_fatal (on_store dir g)).
Proof.
  intros Hg mc. unfold or_fatal, on_store, mbind, op_bind.
  destruct (g (world_at dir mc)) as [w r] eqn:E. apply Hg in E as [Hf _]. by destruct r.
Qed.
Lemma quiet_print l : quiet_op (for_each l print_line).
Proof. induction l as [|x l IH]; [done|]. by apply quiet_bind. Qed.
Lemma quiet_open cfg : quiet_op (openStore cfg).
Proof. apply quiet_store, later_wrapped, later_New. Qed.

(** *** Export *)

(** What an export does without flags of its own: all cases, to the standard
    output. *)
Definition plain_export (cfg : Config) : cop () :=
  _ ← openStore cfg;
  '(items, total) ← or_fatal (on_store (data_dir cfg) (Export zero_stamp zero_stamp));
  _ ← for_each items (λ item,
        data ← or_fatal (on_store (data_dir cfg) (item_line item));
        print_line (of_bytes data));
  print_error ("export complete: " +:+ pretty total +:+ " items").
Lemma export_plain args cfg f m :
  Parse args common_flags = Ok f → runExport cfg args f m = plain_export cfg m.
Proof.
  intros Hp. unfold runExport. set (own := <["from" := ""]> (<["to" := ""]> {[ "out" := "" ]}) : FlagSet).
  assert (<["from" := ""]> (<["to" := ""]> (<["out" := ""]> f)) = own ∪ f) as ->.
  { unfold own. by rewrite (insert_union_singleton_l f), !insert_union_l. }
  assert (dom own ## dom common_flags) as Hd by (unfold own, common_flags; set_solver).
  unfold mbind at 1, op_bind at 1, parse_flags, lift. rewrite (flags_again args _ f own Hp Hd).
  unfold time_flag. rewrite !(own_flag args f own _ Hp Hd) by (unfold own; set_solver).
  reflexivity.
Qed.

(** The line that is printed for a case: its JSON, or nothing if a time of it
    has no text. *)
Definition item_text (item : ComplianceCase) (line : string) : Prop :=
  ∃ nil, line = match Marshal nil item with Ok data => of_bytes data | Err _ => "" end.
Lemma print_items dir items mc mc' r :
  for_each items (λ item,
    data ← or_fatal (on_store dir (item_line item)); print_line (of_bytes data)) mc = (mc', r) →
  mc_fs mc' = mc_fs mc ∧ ∃ lines, mc_out mc' = mc_out mc ++ lines ∧ Forall2 item_text items lines.
Proof.
  revert mc. induction items as [|item items IH]; intros mc; simpl.
  { intros [= <- _]. split; [done|]. exists []. by rewrite app_nil_r. }
  unfold mbind at 1, op_bind at 1. intros Hr. apply IH in Hr as (Hf & lines & Ho & Hl).
  split; [exact Hf|]. eexists (_ :: lines). split.
  - rewrite Ho. simpl. rewrite <- app_assoc. reflexivity.
  - constructor; [|done]. exists (env_nil (mc_tick mc)). simpl. by destruct (Marshal _ item).
Qed.
Lemma print_items_ok dir items mc mc' r :
  for_each items (λ item,
    data ← or_fatal (on_store dir (item_line item)); print_line (of_bytes data)) mc = (mc', r) → r = Ok ().
Proof.
  revert mc. induction items as [|item items IH]; intros mc; simpl; [by intros [= _ <-]|].
  unfold mbind at 1, op_bind at 1. by intros Hr%IH.
Qed.
Lemma store_keeps_out {A} dir (g : dop A) mc mc' r :
  or_fatal (on_store dir g) mc = (mc', r) →
  mc_out mc' = mc_out mc ∧ (r = Err 1 ∨ ∃ w' a, r = Ok a ∧ g (world_at dir mc) = (w', Ok a)).
Proof.
  unfold or_fatal, on_store, mbind, op_bind.
  destruct (g (world_at _ mc)) as [w [a|e]]; intros [= <- <-]; (split; [done|]); [right; by eexists _, _|by left].
Qed.
(** Every case that is read is printed, and no more than a page is read. *)
Lemma plain_export_spec `{!Sequential H, !EnvLaws H} cfg mc mc' r :
  plain_export cfg mc = (mc', r) →
  mc_fs mc' = mc_fs mc ∧ (r = Ok () ∨ r = Err 1) ∧
  ∃ lines, mc_out mc' = mc_out mc ++ lines ∧ (length lines ≤ 200)%nat ∧
    (r = Ok () → ∃ w w' items total,
       Export zero_stamp zero_stamp w = (w', Ok (items, total)) ∧ Z.of_nat (length items) = Z.min 200 total ∧
       Forall2 item_text items lines).
Proof.
  intros Hr. split.
  { change mc' with (mc', r).1. rewrite <- Hr. apply quiet_bind; [apply quiet_open|]. intros _.
    apply quiet_bind; [by apply quiet_store; destruct (reads_ListItems {| if_Status := StatusOther "";
      if_LeadDepartment := ""; if_StoreID := ""; if_RegisteredBy := ""; if_From := zero_stamp;
      if_To := zero_stamp; if_OverdueOnly := false; if_PageSize := 1000; if_PageOffset := 0 |})|].
    intros [items total]. apply quiet_bind; [|done]. intros mc1.
    destruct (for_each items _ mc1) as [mc2 r2] eqn:E. by apply print_items in E as []. }
  unfold plain_export, openStore in Hr. unfold mbind at 1, op_bind at 1 in Hr.
  destruct (or_fatal _ mc) as [mc1 r1] eqn:E1. apply store_keeps_out in E1 as [O1 [->|(_ & writer & -> & _)]].
  { injection Hr as <- <-. split; [by right|]. exists []. rewrite app_nil_r. split_and!; [done|simpl; lia|done]. }
  unfold mbind at 1, op_bind at 1 in Hr.
  destruct (or_fatal _ mc1) as [mc2 r2] eqn:E2. apply store_keeps_out in E2 as [O2 [->|(w' & [items total] & -> & Hx)]].
  { injection Hr as <- <-. split; [by right|]. exists []. rewrite app_nil_r. split_and!; [congruence|simpl; lia|done]. }
  assert (Z.of_nat (length items) = Z.min 200 total) as Hlen.
  { pose proof Hx as Hc. apply ListItems_count in Hc. rewrite Hc. unfold page_count. simpl.
    apply ListItems_ok in Hx as (_ & wall & rows & _ & _ & ->). unfold item_page_size, page_offset. simpl. lia. }
  unfold mbind at 1, op_bind at 1 in Hr. destruct (for_each items _ mc2) as [mc3 r3] eqn:E3.
  pose proof (print_items_ok _ _ _ _ _ E3) as ->. apply print_items in E3 as (_ & lines & O3 & Hl).
  injection Hr as <- <-. split; [by left|]. exists lines. pose proof (Forall2_length _ _ _ Hl) as Hn.
  split_and!; [simpl; congruence|lia|]. intros _. by exists (world_at (data_dir cfg) mc1), w', items, total.
Qed.

(** *** The database of a command *)

(** The operation leaves every other database alone. *)
Definition only_index {A} (dir : string) (m : cop A) : Prop :=
  ∀ mc path, path ≠ index_path dir → mc_dbs (fst (m mc)) !! path = mc_dbs mc !! path.
Lemma only_index_bind {A B} dir (m : cop A) (f : A → cop B) :
  only_index dir m → (∀ a, only_index dir (f a)) → only_index dir (m ≫= f).
Proof.
  intros Hm Hf mc path Hp. unfold mbind, op_bind. specialize (Hm mc path Hp).
  destruct (m mc) as [m1 [a|e]]; [|done]. by rewrite Hf.
Qed.
Lemma only_index_store {A} dir (g : dop A) : only_index dir (or_fatal (on_store dir g)).
Proof.
  intros mc path Hp. unfold or_fatal, on_store, mbind, op_bind.
  destruct (g (world_at dir mc)) as [w [a|e]]; simpl; by rewrite lookup_insert_ne.
Qed.
Lemma only_index_pure {A} dir (m : cop A) : pure_op m → only_index dir m.
Proof. intros Hm mc path _. by rewrite Hm. Qed.
Lemma only_index_line dir line : only_index dir (print_line line).
Proof. done. Qed.
Lemma only_index_error dir line : only_index dir (print_error line).
Proof. done. Qed.
Lemma only_index_for_each {A} dir (l : list A) (body : A → cop ()) :
  (∀ x, only_index dir (body x)) → only_index dir (for_each l body).
Proof. intros Hb. induction l as [|x l IH]; [done|]. by apply only_index_bind. Qed.
Lemma only_index_read dir path : only_index dir (ReadFile path).
Proof.
  intros mc path' _. unfold ReadFile. by case_match; repeat case_match.
Qed.

Create HintDb index_db.
#[local] Hint Resolve only_index_store only_index_pure only_index_line only_index_error only_index_for_each
  only_index_read pure_lift pure_ret pure_raise pure_must : index_db.
#[local] Hint Extern 2 (only_index _ (_ ≫= _)) => apply only_index_bind; [|intros] : index_db.
#[local] Hint Extern 3 (only_index _ (match ?x with _ => _ end)) => destruct x : index_db.
Ltac commands := unfold parse_flags, openStore; eauto 40 with index_db nocore.

Lemma only_init cfg : only_index (data_dir cfg) (runInit cfg).
Proof. unfold runInit. commands. Qed.
Lemma only_import cfg args f : only_index (data_dir cfg) (runImport cfg args f).
Proof. unfold runImport. commands. Qed.
Lemma only_export cfg args f : only_index (data_dir cfg) (runExport cfg args f).
Proof. unfold runExport. commands. Qed.
Lemma only_reconcile cfg : only_index (data_dir cfg) (runReconcile cfg).
Proof. unfold runReconcile. commands. Qed.
Lemma only_rebuild cfg : only_index (data_dir cfg) (runRebuildIndex cfg).
Proof. unfold runRebuildIndex. commands. Qed.
Lemma only_diagnose cfg : only_index (data_dir cfg) (runDiagnose cfg).
Proof. unfold runDiagnose. commands. Qed.

(** The configuration of a command. *)
Definition configured (f : FlagSet) (cfg : Config) : Config :=
  if bool_decide (flag_value "data-dir" f = "") then cfg
  else cfg <| cf_Storage ::= λ s, s <| st_DataDir := flag_value "data-dir" f |> |>.
(** The commands behind their names. *)
Definition command (cmd : string) (cfg : Config) (args : list string) (f : FlagSet) : cop () :=
  if bool_decide (cmd = "init") then runInit cfg
  else if bool_decide (cmd = "import") then runImport cfg args f
  else if bool_decide (cmd = "export") then runExport cfg args f
  else if bool_decide (cmd = "reconcile") then runReconcile cfg
  else if bool_decide (cmd = "rebuild-index") then runRebuildIndex cfg
  else if bool_decide (cmd = "diagnose") then runDiagnose cfg
  else _ ← printUsage; raise 1.
Lemma main_cases prog cmd args mc :
  (∃ n, Parse args common_flags = Err n ∧ main (prog :: cmd :: args) mc = (mc, Err n)) ∨
  (∃ f text, Parse args common_flags = Ok f ∧ Load (flag_value "config" f) = Err text ∧
     main (prog :: cmd :: args) mc = (mc <| mc_err := mc_err mc ++ ["load config: " +:+ text] |>, Err 1)) ∨
  (∃ f cfg, Parse args common_flags = Ok f ∧ Load (flag_value "config" f) = Ok cfg ∧
     main (prog :: cmd :: args) mc = command cmd (configured f cfg) args f mc).
Proof.
  unfold main, parse_flags, lift, mbind, op_bind, configured, command.
  destruct (Parse args common_flags) as [f|n]; [right|left; by exists n].
  destruct (Load (flag_value "config" f)) as [cfg|text] eqn:Hl; [right|left]; eexists _, _; (split; [done|]);
    by rewrite Hl.
Qed.
Lemma command_index cmd cfg args f : only_index (data_dir cfg) (command cmd cfg args f).
Proof.
  unfold command, printUsage. repeat case_bool_decide;
    auto using only_init, only_import, only_export, only_reconcile, only_rebuild, only_diagnose.
  apply only_index_bind; [|by intros; apply only_index_pure, pure_raise].
  apply only_index_for_each. intros x. apply only_index_error.
Qed.

(** A command works on one database, the one of the flag [-data-dir],
    which is [./data] if it is not given: what the configuration file and the
    environment say about the directory counts only if the flag is given the
    empty text. *)
Theorem command_data_dir prog cmd args mc mc' r path :
  main (prog :: cmd :: args) mc = (mc', r) → mc_dbs mc' !! path ≠ mc_dbs mc !! path →
  ∃ f cfg, Parse args common_flags = Ok f ∧ Load (flag_value "config" f) = Ok cfg ∧
    path = index_path (if bool_decide (flag_value "data-dir" f = "") then data_dir cfg
                       else flag_value "data-dir" f) ∧
    (flag_value "data-dir" f = "./data" ∨ ∃ u : FlagSet, f = u ∪ common_flags ∧ is_Some (u !! "data-dir")).
Proof.
  intros Hr Hp. destruct (main_cases prog cmd args mc) as [(n & _ & Hm)|[(f & text & _ & _ & Hm)|(f & cfg & Hf & Hl & Hm)]];
    rewrite Hr in Hm; [by injection Hm as -> ->|by injection Hm as -> ->|].
  exists f, cfg. split_and!; [done|done| |].
  - destruct (decide (path = index_path (data_dir (configured f cfg)))) as [->|Hne].
    + unfold configured, data_dir. by case_bool_decide.
    + destruct Hp. change mc' with (mc', r).1. rewrite Hm. by apply command_index.
  - apply Parse_sets in Hf as (u & Hu & -> & _). destruct (u !! "data-dir") as [v|] eqn:E; [right; eauto|left].
    unfold flag_value. by rewrite lookup_union_r.
Qed.

(** C22: import and export cannot be used as they are meant to. The flags of a
    command are parsed before it has defined its own, so [import] changes no
    database and no file, prints nothing, and exits with status 1 or 2,
    whatever file it is given; with 0 only if help is asked for. [export]
    never writes a file, and however it ends it has printed at most 200 lines:
    if it succeeds they are the first page of all cases, whatever period was
    asked for; else it exits in the same way. *)
Theorem own_flags_unusable `{!Sequential H, !EnvLaws H} prog args mc mc' r :
  let fails := r = Err 1 ∨ r = Err 2 ∨ r = Err 0 ∧ help_asked args = true in
  (main (prog :: "import" :: args) mc = (mc', r) →
   mc_dbs mc' = mc_dbs mc ∧ mc_fs mc' = mc_fs mc ∧ mc_out mc' = mc_out mc ∧ fails) ∧
  (main (prog :: "export" :: args) mc = (mc', r) →
   mc_fs mc' = mc_fs mc ∧ (r = Ok () ∨ fails) ∧
   ∃ lines, mc_out mc' = mc_out mc ++ lines ∧ (length lines ≤ 200)%nat ∧
     (r = Ok () → ∃ w w' items total,
        Export zero_stamp zero_stamp w = (w', Ok (items, total)) ∧ Z.of_nat (length items) = Z.min 200 total ∧
        Forall2 item_text items lines)).
Proof.
  assert (∀ n, Parse args common_flags = Err n →
    @Err _ () n = Err 1 ∨ @Err _ () n = Err 2 ∨ @Err _ () n = Err 0 ∧ help_asked args = true) as Hflags.
  { intros n Hn. pose proof (Parse_status _ _ _ Hn) as [-> | ->]; [|by auto]. apply Parse_help in Hn. auto. }
  intros fails. subst fails. split; intros Hr.
  - destruct (main_cases prog "import" args mc) as [(n & Hn & Hm)|[(f & text & _ & _ & Hm)|(f & cfg & Hf & _ & Hm)]];
      rewrite Hr in Hm.
    + injection Hm as -> ->. split_and!; auto.
    + injection Hm as -> ->. split_and!; auto.
    + change (command "import" _ args f mc) with (runImport (configured f cfg) args f mc) in Hm.
      rewrite (import_exits args _ f mc Hf) in Hm. injection Hm as -> ->. split_and!; auto.
  - destruct (main_cases prog "export" args mc) as [(n & Hn & Hm)|[(f & text & _ & _ & Hm)|(f & cfg & Hf & _ & Hm)]];
      rewrite Hr in Hm.
    1,2: injection Hm as -> ->; split_and!; [done|by auto|]; exists []; rewrite app_nil_r; split_and!; [done|simpl; lia|done].
    change (command "export" _ args f mc) with (runExport (configured f cfg) args f mc) in Hm.
    rewrite (export_plain args _ f mc Hf) in Hm. symmetry in Hm.
    destruct (plain_export_spec _ _ _ _ Hm) as (Hfs & [->| ->] & Hlines); auto.
Qed.

(** *** Rebuilding *)

Lemma printed {A} (l : list A) (text : A → string) mc :
  for_each l (λ x, print_line (text x)) mc = (mc <| mc_out := mc_out mc ++ (text <$> l) |>, Ok ()).
Proof.
  revert mc. induction l as [|x l IH]; intros mc; simpl; [by rewrite app_nil_r; destruct mc|].
  unfold mbind, op_bind, print_line at 1, modify. by rewrite IH; simpl; rewrite <- app_assoc.
Qed.
Lemma wp_store {A} dir (g : dop A) mc Q :
  wp g (world_at dir mc) (λ a w, Q a (mc <| mc_dbs := <[index_path dir := w_db w]> (mc_dbs mc) |>
    <| mc_fs := w_fs w |> <| mc_tick := w_tick w |>)) →
  wp (or_fatal (on_store dir g)) mc Q.
Proof.
  intros (w & a & Hg & HQ). eexists _, a. split; [|exact HQ].
  unfold or_fatal, on_store, mbind, op_bind. by rewrite Hg.
Qed.
Lemma wp_printed {A} (l : list A) (text : A → string) mc Q :
  Q () (mc <| mc_out := mc_out mc ++ (text <$> l) |>) → wp (for_each l (λ x, print_line (text x))) mc Q.
Proof. intros HQ. eexists _, _. split; [apply printed|exact HQ]. Qed.

(** A new index, after its migrations. *)
Lemma New_migrated `{!Faultless H, !MigrationLaws H0} ms d0 w dataDir maxSize sync Q :
  versioned ms → scripts ms new_db = Some d0 → w_db w = new_db →
  (∀ w', w_db w' = d0 → w_fs w' = w_fs w →
     Q {| rootDir := dataDir; maxShardSize := maxSize; syncOnWrite := sync |} w') →
  wp (New dataDir maxSize sync) w Q.
Proof.
  intros Hms Hd0 Hw HQ. assert (db_schema (w_db w) = take 0 ms.*2) as Hs by by rewrite Hw.
  destruct (wp_New ms 0 w dataDir maxSize sync Hms Hs) as (w' & writer & Hrun & ->).
  { by rewrite drop_0, Hw, Hd0. }
  exists w', {| rootDir := dataDir; maxShardSize := maxSize; syncOnWrite := sync |}. split; [done|].
  assert (ends (New dataDir maxSize sync) w (λ w' r, result_is_ok r = true → w_db w' = d0 ∧ w_fs w' = w_fs w)) as He.
  { apply (ends_New ms 0); [done|lia|done|]. intros j w1 r Hj Hsc Hf Hr Hok. split; [|done].
    destruct r as [x|]; [|done]. rewrite (Hr x eq_refl), Nat.sub_0_r, drop_0, firstn_all, Hw, Hd0 in Hsc.
    by injection Hsc. }
  unfold ends in He. rewrite Hrun in He. destruct He; auto.
Qed.

(** C9: the rebuild command recovers an index that was deleted: after any
    history of successful writes to a store (one after the other, each of them
    logged in its shard, on a clock that does not run backwards), the file of
    the index gone, [hubctl rebuild-index] on the directory makes a new
    database, migrates it, reads the shards back and exits with success, if
    nothing fails from the outside and nobody else writes. The tables are then
    those of the history, up to what the shards do not hold; no shard is
    skipped or changed. It is for stores where no shard has grown to its limit
    and was rotated ([unrotated]; a rotated shard is lost to a rebuild,
    [rotation_total_but_unscanned]), whose files can all be read back
    ([legible]), and migrations that SQLite accepts and that make no rules. *)
Theorem rebuild_command_recovers `{!EnvLaws H, !Sequential H, !Faultless H, !MigrationLaws H0}
    (writer : Writer) prog w cfg mc ms d0 :
  steady_clock → stored writer w → unrotated writer (w_fs w) → legible (w_fs w) →
  rootDir writer ≠ "" → Load "" = Ok cfg →
  versioned ms → scripts ms new_db = Some d0 → db_rules d0 = [] →
  mc_dbs mc !! index_path (rootDir writer) = None → mc_fs mc = w_fs w →
  ∃ mc' d', main [prog; "rebuild-index"; "-data-dir"; rootDir writer] mc = (mc', Ok ()) ∧
    mc_dbs mc' !! index_path (rootDir writer) = Some d' ∧ recovered (w_db w) d' ∧
    mc_fs mc' = mc_fs mc ∧ number "skipped shards" 0 ∈ mc_out mc'.
Proof.
  intros Hclock Hs Hu Hleg Hdir Hload Hms Hd0 Hrules Hnone Hfs.
  destruct (main_cases prog "rebuild-index" ["-data-dir"; rootDir writer] mc)
    as [(n & Hn & _)|[(f & text & Hf & Hl & _)|(f & cfg' & Hf & Hl & Hm)]]; [done| |];
    injection Hf as <-; replace (flag_value "config" _) with "" in Hl by reflexivity; [congruence|].
  rewrite Hload in Hl. injection Hl as <-. set (c := configured _ cfg) in Hm.
  assert (data_dir c = rootDir writer) as Hc.
  { unfold c, configured, flag_value. simpl. by rewrite bool_decide_false. }
  enough (wp (runRebuildIndex c) mc (λ _ mc', ∃ d', mc_dbs mc' !! index_path (rootDir writer) = Some d' ∧
    recovered (w_db w) d' ∧ mc_fs mc' = mc_fs mc ∧ number "skipped shards" 0 ∈ mc_out mc')) as (mc' & [] & Hrun & d' & Hd').
  { exists mc', d'. split; [|exact Hd']. rewrite Hm. exact Hrun. }
  unfold runRebuildIndex. rewrite Hc. apply wp_bind, wp_store, wp_wrapping. rewrite Hc.
  apply (New_migrated ms d0); [done..|by unfold world_at; simpl; rewrite Hnone|].
  intros w1 Hd1 Hf1. simpl in Hf1. apply wp_bind, wp_store.
  set (lost := world_at _ _).
  assert (w_db lost = d0 ∧ w_fs lost = w_fs w) as [Hld Hlf].
  { unfold lost, world_at. simpl. rewrite lookup_insert_eq, Hd1, Hf1, Hfs. done. }
  destruct (rebuild_recovers writer w lost) as (w2 & rp & Hrun & Hf2 & Hskip & Hrec); [done..|by rewrite Hld|done|].
  exists w2, rp. split; [by rewrite Hrun|].
  apply wp_bind, (wp_printed _ (λ x, x)), wp_printed. exists (w_db w2). simpl.
  split_and!; [by rewrite lookup_insert_eq|done|congruence|]. rewrite Hskip. set_solver.
Qed.
End claims.

(** ** A machine *)

(** The environment names a data directory, and nothing else. *)
Definition srv_env : ConfigEnv := {|
  Getenv name := if bool_decide (name = "SHENZHEN_LIGHT_GOVERNANCE_STORAGE_DATA_DIR") then "/srv" else "";
  read_config _ := Ok []; yaml_Unmarshal _ c := Ok c; json_error _ := "invalid" |}.
Definition ex_machine : Machine := {|
  mc_dbs := ∅; mc_fs := {[ "items.json" := to_bytes "{}" ]}; mc_tick := 0; mc_out := []; mc_err := [] |}.
Definition hubctl (args : list string) (mc : Machine) : Machine * result Z () :=
  main (H := frozen) (H0 := repository) (H1 := srv_env) ("hubctl" :: args) mc.
Definition ex_init : Machine * result Z () := Eval vm_compute in hubctl ["init"] ex_machine.

(** A second [init] adds a second default rule. *)
Example ex_init_twice :
  snd ex_init = Ok () ∧
  (λ d, ru_Version <$> db_rules d) <$> mc_dbs (fst (hubctl ["init"] (fst ex_init))) !! "./data/index.db" = Some [1; 2].
Proof. by vm_compute. Qed.
(** The README's way to import. *)
Example ex_import :
  snd (hubctl ["import"; "--data-dir"; "./data"; "--file"; "items.json"] (fst ex_init)) = Err 2 ∧
  snd (hubctl ["import"; "--data-dir"; "./data"; "items.json"] (fst ex_init)) = Err 1.
Proof. by vm_compute. Qed.

Lemma command_data_dir_witness :
  mc_dbs (fst ex_init) !! "/srv/index.db" = None ∧
  ∃ f cfg, Parse [] common_flags = Ok f ∧ Load (H := srv_env) (flag_value "config" f) = Ok cfg ∧
    data_dir cfg = "/srv" ∧ index_path (flag_value "data-dir" f) = "./data/index.db".
Proof.
  split; [by vm_compute|].
  destruct (command_data_dir (H := frozen) (H0 := repository) (H1 := srv_env) "hubctl" "init" []
    ex_machine (fst ex_init) (snd ex_init) "./data/index.db") as (f & cfg & Hf & Hl & Hp & _).
  - by vm_compute.
  - intros E. by vm_compute in E.
  - exists f, cfg. split; [exact Hf|]. split; [exact Hl|]. injection Hf as <-. split; [|by vm_compute].
    change (Load (H := srv_env) "" = Ok cfg) in Hl. vm_compute in Hl. by injection Hl as <-.
Defined.
Definition ex_exported : Machine * result Z () := Eval vm_compute in
  hubctl ["export"; "ignored"; "--from"; "2026-08-01T00:00:00Z"] (fst ex_init).
Lemma own_flags_unusable_witness :
  mc_fs (fst (hubctl ["import"; "items.json"] (fst ex_init))) = mc_fs (fst ex_init) ∧
  snd ex_exported = Ok () ∧ mc_fs (fst ex_exported) = mc_fs (fst ex_init).
Proof.
  destruct (own_flags_unusable (H := frozen) (H0 := repository) (H1 := srv_env) "hubctl" ["items.json"]
    (fst ex_init) (fst (hubctl ["import"; "items.json"] (fst ex_init)))
    (snd (hubctl ["import"; "items.json"] (fst ex_init)))) as [Hi _].
  destruct (own_flags_unusable (H := frozen) (H0 := repository) (H1 := srv_env) "hubctl"
    ["ignored"; "--from"; "2026-08-01T00:00:00Z"] (fst ex_init) (fst ex_exported) (snd ex_exported)) as [_ He].
  split; [|split].
  - apply Hi. exact (surjective_pairing (hubctl ["import"; "items.json"] (fst ex_init))).
  - vm_compute. reflexivity.
  - apply He. vm_compute. reflexivity.
Defined.
Definition ex_deleted : Machine := {|
  mc_dbs := ∅; mc_fs := w_fs ex_stored; mc_tick := 0; mc_out := []; mc_err := [] |}.
Lemma rebuild_command_recovers_witness :
  ∃ mc' d', hubctl ["rebuild-index"; "-data-dir"; "/data"] ex_deleted = (mc', Ok ()) ∧
    mc_dbs mc' !! "/data/index.db" = Some d' ∧ recovered (w_db ex_stored) d'.
Proof.
  destruct (rebuild_command_recovers (H := frozen) (H0 := repository) (H1 := srv_env)
    (MigrationLaws0 := repository_laws) ex_shards "hubctl" ex_stored
    (Defaults <| cf_Storage ::= λ s, s <| st_DataDir := "/srv" |> |>) ex_deleted repository_versions empty_db)
    as (mc' & d' & Hrun & Hd & Hr & _).
  - split; [done|]. intros n. by vm_compute.
  - exact ex_stored_history.
  - intros path content _. left. done.
  - change (map_Forall (λ _ content, result_is_ok (records_of content) = true) (w_fs ex_stored)).
    apply (bool_decide_eq_true_1 _). vm_compute. reflexivity.
  - done.
  - vm_compute. reflexivity.
  - exact repository_versioned.
  - vm_compute. reflexivity.
  - done.
  - done.
  - done.
  - exists mc', d'. split; [exact Hrun|]. split; [exact Hd|exact Hr].
Defined.
