(* ===== verification/LifecycleClaims.v ===== *)
(** * The life of the background loops

    One sweep at a time; [Stop] waits for the loops and returns; the order of
    a shutdown, and that the process does not wait for it. *)
From S2P Require Import Prelude Config Lifecycle.

(** ** Counting loops *)

Definition alive (l : loop) : bool := negb (bool_decide (l = Exited)).
Definition working (l : loop) : bool := bool_decide (l = Working).
(** How far a loop is from its return, when its context is cancelled. *)
Definition weight (l : loop) : Z :=
  match l with Starting _ | Working => 3 | Selecting => 2 | Waiting _ => 1 | Exited => 0 end.
Fixpoint total (f : loop → Z) (ls : list loop) : Z :=
  match ls with
  | [] => 0
  | l :: ls => f l + total f ls
  end.
Definition tally (p : loop → bool) : list loop → Z := total (λ l, Z.b2z (p l)).

Lemma total_set f i old l ls :
  ls !! i = Some old → total f (<[i := l]> ls) = total f ls - f old + f l.
Proof.
  revert i. induction ls as [|x ls IH]; intros [|i] Hi; simpl in *; try done; [injection Hi as ->; lia|].
  rewrite (IH i Hi). lia.
Qed.
Lemma total_app f ls ks : total f (ls ++ ks) = total f ls + total f ks.
Proof. induction ls as [|l ls IH]; simpl; lia. Qed.
Lemma total_start f c l : (∀ d, f (Starting d) = c) → total f (Starting <$> l) = Z.of_nat (length l) * c.
Proof. intros Hf. induction l as [|d l IH]; [done|]. rewrite fmap_cons. simpl total. rewrite IH, Hf. simpl length. lia. Qed.
Lemma total_bounds f lo hi ls : (∀ l, lo ≤ f l ≤ hi) → lo * Z.of_nat (length ls) ≤ total f ls ≤ hi * Z.of_nat (length ls).
Proof. intros Hf. induction ls as [|l ls IH]; simpl; [lia|]. specialize (Hf l). lia. Qed.
Lemma tally_nonneg p ls : 0 ≤ tally p ls.
Proof.
  destruct (total_bounds (λ l, Z.b2z (p l)) 0 1 ls) as [Hlo _]; [|unfold tally; lia].
  intros l. by destruct (p l).
Qed.
Lemma tally_member p ls i l : ls !! i = Some l → Z.b2z (p l) ≤ tally p ls.
Proof.
  revert i. unfold tally. induction ls as [|x ls IH]; intros [|i] Hi; simpl in *; try done.
  - injection Hi as ->. pose proof (tally_nonneg p ls). unfold tally in *. lia.
  - apply IH in Hi. destruct (p x); simpl; lia.
Qed.
Lemma none_alive ls : tally alive ls = 0 → Forall (eq Exited) ls.
Proof.
  induction ls as [|l ls IH]; [constructor|]. unfold tally in *. simpl. intros Ht.
  pose proof (tally_nonneg alive ls). unfold tally in *.
  unfold alive in Ht at 1. case_bool_decide; simpl in Ht; [|lia]. constructor; [done|]. apply IH. lia.
Qed.

(** ** The invariant *)

Section loops.
Context (guarded : bool) (intervals : list Z).

Record loops_ok (s : Loops) : Prop := {
  ok_group : lo_wg s = tally alive (lo_loops s);
  ok_lock : if guarded then tally working (lo_loops s) + Z.b2z (lo_manual s) = Z.b2z (lo_lock s)
            else lo_lock s = false ∧ lo_manual s = false;
  ok_ctx c : Waiting c ∈ lo_loops s → (c < lo_made s)%nat;
  ok_current : match lo_ctx s with
               | Some c => (c < lo_made s)%nat
               | None => lo_loops s = []
               end;
  ok_starting d : Starting d ∈ lo_loops s → d ∈ intervals
}.
Lemma elem_of_set (x y : loop) i (ls : list loop) : x ∈ <[i := y]> ls → x = y ∨ x ∈ ls.
Proof.
  revert i. induction ls as [|l ls IH]; intros [|i]; simpl; [by right|by right| |];
    rewrite !elem_of_cons; [by intros [->|?]; auto|]. intros [->|Hx%IH]; [by auto|tauto].
Qed.
(** A loop that goes from [old] to [l], with what happens to the counters. *)
Lemma ok_set s i old l wg lock :
  loops_ok s → lo_loops s !! i = Some old →
  wg = lo_wg s - Z.b2z (alive old) + Z.b2z (alive l) →
  (if guarded then Z.b2z lock = Z.b2z (lo_lock s) - Z.b2z (working old) + Z.b2z (working l) else lock = false) →
  (∀ c, l = Waiting c → (c < lo_made s)%nat) → (∀ d, l ≠ Starting d) →
  loops_ok (set_loop i l s <| lo_wg := wg |> <| lo_lock := lock |>).
Proof.
  intros [Hg Hl Hc Hcur Hst] Hi Hwg Hlock Hctx Hnew. split; simpl.
  - unfold tally in *. rewrite (total_set _ _ _ _ _ Hi). lia.
  - destruct guarded; [|tauto]. unfold tally in *. rewrite (total_set _ _ _ _ _ Hi). lia.
  - intros c [Heq|Hin]%elem_of_set; [by apply Hctx|by apply Hc].
  - destruct (lo_ctx s); [done|]. by rewrite Hcur in Hi.
  - intros d [Heq|Hin]%elem_of_set; [by destruct (Hnew d)|by apply Hst].
Qed.
Lemma ok_move s m s' : loops_ok s → moves guarded intervals s m s' → loops_ok s'.
Proof.
  intros Hok Hm. pose proof Hok as [Hg Hl Hc Hcur Hst]. unfold moves in Hm. destruct m; simpl in Hm.
  - injection Hm as <-. split; simpl; [| | |lia|].
    + unfold tally. rewrite total_app, (total_start _ 1), Hg by done. unfold tally. lia.
    + destruct guarded; [|done]. unfold tally in *. rewrite total_app, (total_start _ 0) by done. lia.
    + intros c [Hin|(d & Hd & _)%list_elem_of_fmap]%elem_of_app; [|done]. apply Hc in Hin. lia.
    + intros d [Hin|(d' & [= ->] & Hin)%list_elem_of_fmap]%elem_of_app; [by apply Hst|done].
  - injection Hm as <-. by split.
  - destruct (_ && _); [|done]. injection Hm as <-. by split.
  - destruct (lo_loops s !! i) as [[]|] eqn:Hi; try done. destruct (interval <=? 0); [done|]. injection Hm as <-.
    exact (ok_set s i _ Selecting (lo_wg s) (lo_lock s) Hok Hi ltac:(simpl; lia)
      ltac:(destruct guarded; [simpl; lia|tauto]) ltac:(done) ltac:(done)).
  - destruct (lo_loops s !! i) as [[]|] eqn:Hi; try done. destruct (lo_ctx s) as [c|] eqn:Ec; [|done].
    injection Hm as <-.
    exact (ok_set s i _ (Waiting c) (lo_wg s) (lo_lock s) Hok Hi ltac:(simpl; lia)
      ltac:(destruct guarded; [simpl; lia|tauto]) ltac:(by intros c' [= <-]) ltac:(done)).
  - destruct (lo_loops s !! i) as [[]|] eqn:Hi; try done. case_bool_decide; [|done]. injection Hm as <-.
    exact (ok_set s i _ Exited (lo_wg s - 1) (lo_lock s) Hok Hi ltac:(simpl; lia)
      ltac:(destruct guarded; [simpl; lia|tauto]) ltac:(done) ltac:(done)).
  - destruct (lo_loops s !! i) as [[]|] eqn:Hi; try done. injection Hm as <-.
    destruct guarded eqn:Egd; [destruct (lo_lock s) eqn:El|]; simpl.
    + exact (ok_set s i _ Selecting (lo_wg s) (lo_lock s) Hok Hi ltac:(simpl; lia)
        ltac:(rewrite Egd; simpl; lia) ltac:(done) ltac:(done)).
    + exact (ok_set s i _ Working (lo_wg s) true Hok Hi ltac:(simpl; lia)
        ltac:(rewrite Egd, El; simpl; lia) ltac:(done) ltac:(done)).
    + exact (ok_set s i _ Working (lo_wg s) false Hok Hi ltac:(simpl; lia)
        ltac:(by rewrite Egd) ltac:(done) ltac:(done)).
  - destruct (lo_loops s !! i) as [[]|] eqn:Hi; try done. injection Hm as <-.
    refine (ok_set s i _ Selecting (lo_wg s) false Hok Hi ltac:(simpl; lia) _ ltac:(done) ltac:(done)).
    destruct guarded; [|done]. pose proof (tally_member working _ _ _ Hi) as Hw. simpl in *.
    destruct (lo_lock s), (lo_manual s); simpl in *; lia.
  - destruct guarded eqn:Egd; [|done]. destruct (lo_lock s) eqn:El; [done|]. injection Hm as <-.
    split; simpl; [done| |done..]. rewrite Egd. pose proof (tally_nonneg working (lo_loops s)).
    destruct (lo_manual s); simpl in *; lia.
  - destruct (lo_manual s) eqn:Em; [|done]. injection Hm as <-. split; simpl; [done| |done..].
    destruct guarded; [|done]. pose proof (tally_nonneg working (lo_loops s)).
    destruct (lo_lock s); simpl in *; lia.
Qed.
Lemma ok_reachable s : reachable (moves guarded intervals) (eq new_loops) s → loops_ok s.
Proof.
  intros (s0 & ls & <- & Hs). apply (steps_invariant (moves guarded intervals) loops_ok) in Hs; [done| |].
  - exact ok_move.
  - split; simpl; [done|by destruct guarded|by intros c ?%elem_of_nil|done|by intros d ?%elem_of_nil].
Qed.

(** ** Stopping *)

(** Every context that was made is cancelled. *)
Definition drained (s : Loops) : Prop := ∀ c, (c < lo_made s)%nat → c ∈ lo_cancelled s.

Lemma quiet_move s m s' : moves guarded intervals s m s' → without_tick m = true →
  total weight (lo_loops s') < total weight (lo_loops s) ∧ length (lo_loops s') = length (lo_loops s) ∧
  lo_made s' = lo_made s ∧ lo_cancelled s' = lo_cancelled s ∧ lo_stopping s' = lo_stopping s.
Proof.
  unfold moves. destruct m; try done; simpl; intros Hm _;
    destruct (lo_loops s !! i) as [[]|] eqn:Hi; try done.
  - destruct (interval <=? 0); [done|]. injection Hm as <-. simpl.
    rewrite (total_set _ _ _ _ _ Hi), length_insert. simpl. split_and!; [lia|done..].
  - destruct (lo_ctx s); [|done]. injection Hm as <-. simpl.
    rewrite (total_set _ _ _ _ _ Hi), length_insert. simpl. split_and!; [lia|done..].
  - case_bool_decide; [|done]. injection Hm as <-. simpl.
    rewrite (total_set _ _ _ _ _ Hi), length_insert. simpl. split_and!; [lia|done..].
  - injection Hm as <-. simpl. rewrite (total_set _ _ _ _ _ Hi), length_insert. simpl. split_and!; [lia|done..].
Qed.
(** A state with a loop that has not returned allows a move of that loop,
    unless it panics. *)
Lemma quiet_progress s : loops_ok s → drained s →
  lo_wg s = 0 ∨ (∃ m s', without_tick m = true ∧ moves guarded intervals s m s') ∨ panics s = true.
Proof.
  intros [Hg Hl Hc Hcur Hst] Hd.
  destruct (decide (Forall (eq Exited) (lo_loops s))) as [Hall|Hnot].
  - left. rewrite Hg. clear -Hall. unfold tally. induction Hall as [|l ls <- _ IH]; [done|]. simpl. lia.
  - right. apply not_Forall_Exists in Hnot; [|apply _]. apply Exists_exists in Hnot as (l & Hin & Hne).
    apply list_elem_of_lookup in Hin as [i Hi]. unfold moves. destruct l as [d| |c| |]; [| | | |done].
    + destruct (panicking (Starting d)) eqn:Ep.
      { right. apply existsb_exists. exists (Starting d). split; [|done]. apply list_elem_of_In. by eapply list_elem_of_lookup_2. }
      left. exists (LoopTicker i). eexists. split; [done|]. simpl in *. by rewrite Hi, Ep.
    + destruct (lo_ctx s) as [c|] eqn:Ec; [|by rewrite Hcur in Hi].
      left. exists (LoopSelect i). eexists. split; [done|]. simpl. by rewrite Hi, Ec.
    + left. exists (LoopExit i). eexists. split; [done|]. simpl. rewrite Hi, bool_decide_true; [done|].
      apply Hd, Hc. by eapply list_elem_of_lookup_2.
    + left. exists (LoopFinish i). eexists. split; [done|]. simpl. by rewrite Hi.
Qed.
Lemma quiet_steps s ms s' : steps (moves guarded intervals) s ms s' → Forall (λ m, without_tick m = true) ms →
  Z.of_nat (length ms) + total weight (lo_loops s') ≤ total weight (lo_loops s) ∧
  lo_made s' = lo_made s ∧ lo_cancelled s' = lo_cancelled s ∧ lo_stopping s' = lo_stopping s.
Proof.
  induction 1 as [s|s1 m s2 ms s3 Hm _ IH]; intros Hms; [split_and!; [simpl; lia|done..]|].
  apply Forall_cons in Hms as [Hq Hms]. apply quiet_move in Hm as (Hw & _ & Hmade & Hcan & Hstop); [|done].
  destruct (IH Hms) as (Hw' & -> & -> & ->). split_and!; [simpl length; lia|done..].
Qed.
(** With intervals that are positive no loop panics. *)
Lemma positive_calm s : loops_ok s → Forall (λ d, 0 < d) intervals → panics s = false.
Proof.
  intros Hok Hpos. apply not_true_iff_false. unfold panics. rewrite existsb_exists.
  intros (l & Hl%list_elem_of_In & Hp). destruct l as [d| | | |]; try done. simpl in Hp.
  apply ok_starting in Hl; [|done]. rewrite Forall_forall in Hpos. apply Hpos in Hl. lia.
Qed.
End loops.

(** C24: one sweep at a time, and [Stop] waits for every loop. Whatever calls of
    [Start], [Stop] and [RunOnce] are interleaved with the ticks: the worker's
    loops and the callers of [RunOnce] that are in a sweep are together one if
    the run mutex is taken and none if it is free; the wait group of worker
    and scheduler counts the loops that have not returned, so it never goes
    below zero; and when [Stop] returns no loop is left. *)
Theorem loops_exclusive guarded intervals s :
  reachable (moves guarded intervals) (eq new_loops) s →
  (guarded = true → tally working (lo_loops s) + Z.b2z (lo_manual s) = Z.b2z (lo_lock s)) ∧
  lo_wg s = tally alive (lo_loops s) ∧ 0 ≤ lo_wg s ∧
  ∀ s', moves guarded intervals s StopReturn s' → Forall (eq Exited) (lo_loops s') ∧ lo_started s' = false.
Proof.
  intros Hs%ok_reachable. destruct Hs as [Hg Hl _ _ _]. split_and!.
  - by intros ->.
  - done.
  - rewrite Hg. apply tally_nonneg.
  - intros s' Hr. unfold moves in Hr. simpl in Hr. destruct (lo_stopping s); [|done]. simpl in Hr.
    destruct (Z.eqb_spec (lo_wg s) 0) as [Hz|]; [|done]. injection Hr as <-. simpl.
    split; [|done]. apply none_alive. by rewrite <- Hg.
Qed.

(** C25: [Stop] returns. Once it has cancelled, and no context of an earlier
    [Start] is left alive, the loops return by themselves: between two ticks
    they make at most three moves each, whatever the order, and as long as
    [Stop] cannot return one of them can make a move. The exception is a loop
    whose interval is not positive: it panics instead, and ends the process;
    with positive intervals none does. *)
Theorem stop_drains guarded intervals s :
  reachable (moves guarded intervals) (eq new_loops) s → lo_stopping s = true → drained s →
  ∀ ms s', steps (moves guarded intervals) s ms s' → Forall (λ m, without_tick m = true) ms →
  Z.of_nat (length ms) ≤ 3 * Z.of_nat (length (lo_loops s)) ∧
  ((∃ s'', moves guarded intervals s' StopReturn s'') ∨
   (∃ m s'', without_tick m = true ∧ moves guarded intervals s' m s'') ∨ panics s' = true) ∧
  (Forall (λ d, 0 < d) intervals → panics s' = false).
Proof.
  intros Hs Hstop Hd ms s' Hms Hq. pose proof (quiet_steps _ _ _ _ _ Hms Hq) as (Hw & Hmade & Hcan & Hst).
  destruct (total_bounds weight 0 3 (lo_loops s)) as [_ Hhi]; [by intros []; simpl; lia|].
  destruct (total_bounds weight 0 3 (lo_loops s')) as [Hlo _]; [by intros []; simpl; lia|].
  assert (loops_ok guarded intervals s') as Hok.
  { eapply steps_invariant; [apply ok_move|exact Hms|]. by eapply ok_reachable. }
  split; [lia|]. split; [|by apply (positive_calm guarded)].
  destruct (quiet_progress guarded intervals s' Hok) as [Hz|Hp]; [|left|by right].
  - intros c. rewrite Hmade, Hcan. apply Hd.
  - eexists. unfold moves. simpl. by rewrite Hst, Hstop, Hz.
Qed.

(** ** The server *)

Section server.
Context (cfg : SchedulerConfig).

Record server_ok (p : Server) : Prop := {
  sv_scheduler : loops_ok false (scheduler_intervals cfg) (sr_scheduler p);
  sv_worker : loops_ok true (worker_intervals cfg) (sr_worker p);
  sv_first : match sr_signal p with
             | StopWorker | CloseStore | SignalDone => Forall (eq Exited) (lo_loops (sr_scheduler p))
             | _ => True
             end;
  sv_second : match sr_signal p with
              | CloseStore | SignalDone => Forall (eq Exited) (lo_loops (sr_worker p))
              | _ => True
              end;
  sv_closed : sr_closed p = true → sr_signal p = SignalDone
}.
(** Loops that have returned make no move. *)
Lemma exited_stay guarded intervals s m s' :
  Forall (eq Exited) (lo_loops s) → of_loop m = true → ¬ moves guarded intervals s m s'.
Proof.
  intros Hall Hm Hs. unfold moves in Hs.
  assert (∀ i l, lo_loops s !! i = Some l → l = Exited) as He.
  { intros i l Hi. by apply (Forall_lookup_1 _ _ _ _ Hall) in Hi. }
  destruct m; try done; simpl in Hs; destruct (lo_loops s !! i) as [l|] eqn:Hi; try done; by rewrite (He i l Hi) in Hs.
Qed.
Lemma returned_all guarded intervals s s' :
  loops_ok guarded intervals s → moves guarded intervals s StopReturn s' → Forall (eq Exited) (lo_loops s').
Proof.
  intros [Hg _ _ _ _] Hr. unfold moves in Hr. simpl in Hr. destruct (lo_stopping s); [|done]. simpl in Hr.
  destruct (Z.eqb_spec (lo_wg s) 0) as [Hz|]; [|done]. injection Hr as <-. apply none_alive. simpl. by rewrite <- Hg.
Qed.
Lemma server_step p e p' : server_ok p → happens cfg p e p' → server_ok p'.
Proof.
  intros [Hs Hw H1 H2 Hc] He. unfold happens, happen in He. destruct (sr_exited p); [done|].
  destruct e.
  - destruct (sr_closing p); [done|]. injection He as <-; by split.
  - destruct (sr_requests p); [done|]. injection He as <-; by split.
  - destruct (of_loop m) eqn:Hm; [|done]. apply bind_Some in He as (s & Hmk & [= <-]).
    split; simpl; [by eapply ok_move|done| |done|done].
    destruct (sr_signal p); try done; by destruct (exited_stay false (scheduler_intervals cfg) _ m s H1 Hm).
  - destruct (of_loop m) eqn:Hm; [|done]. apply bind_Some in He as (s & Hmk & [= <-]).
    split; simpl; [done|by eapply ok_move|done| |done].
    destruct (sr_signal p); try done; by destruct (exited_stay true (worker_intervals cfg) _ m s H2 Hm).
  - destruct (sr_signal p) eqn:E; try done. injection He as <-. split; simpl; try done. intros Hx. by apply Hc in Hx.
  - destruct (sr_signal p) eqn:E; try done. case_bool_decide; [|done].
    apply bind_Some in He as (s & Hmk & [= <-]). split; simpl; try done; [exact (ok_move false _ _ _ _ Hs Hmk)|intros Hx; by apply Hc in Hx].
  - destruct (sr_signal p) eqn:E; try done.
    apply bind_Some in He as (s & Hmk & [= <-]). split; simpl; try done; [exact (ok_move false _ _ _ _ Hs Hmk)|intros Hx; by apply Hc in Hx].
  - destruct (sr_signal p) eqn:E; try done.
    apply bind_Some in He as (s & Hmk & (w & Hmw & [= <-])%bind_Some). split; simpl; try done.
    + exact (ok_move false _ _ _ _ Hs Hmk).
    + exact (ok_move true _ _ _ _ Hw Hmw).
    + exact (returned_all false _ _ _ Hs Hmk).
    + intros Hx. by apply Hc in Hx.
  - destruct (sr_signal p) eqn:E; try done.
    apply bind_Some in He as (s & Hmk & [= <-]). split; simpl; try done.
    + exact (ok_move true _ _ _ _ Hw Hmk).
    + exact (returned_all true _ _ _ Hw Hmk).
    + intros Hx. by apply Hc in Hx.
  - destruct (sr_signal p) eqn:E; try done. injection He as <-. by split.
  - injection He as <-; by split.
  - destruct (sr_closing p); [|done]. injection He as <-; by split.
  - destruct (_ || _); [|done]. injection He as <-; by split.
Qed.
Lemma server_reachable p : reachable (happens cfg) (serving cfg) p → server_ok p.
Proof.
  intros (p0 & es & (Hs & Hw & _ & _ & Hsig & Hcl & _) & Hes).
  apply (steps_invariant (happens cfg) server_ok) in Hes; [done|exact server_step|].
  split.
  - apply (ok_reachable false). exists new_loops, [Start]. split; [done|]. econstructor; [exact Hs|constructor].
  - apply (ok_reachable true). exists new_loops, [Start]. split; [done|]. econstructor; [exact Hw|constructor].
  - by rewrite Hsig.
  - by rewrite Hsig.
  - by rewrite Hcl.
Qed.

(** *** A server *)

(** The state after events that can happen. *)
Fixpoint happened (es : list event) (p : Server) : option Server :=
  match es with
  | [] => Some p
  | e :: es => p ← happen cfg e p; happened es p
  end.
Lemma happened_steps es p p' : happened es p = Some p' → steps (happens cfg) p es p'.
Proof.
  revert p. induction es as [|e es IH]; intros p; simpl; [intros [= <-]; constructor|].
  intros (p1 & He & Hp)%bind_Some. econstructor; [exact He|by apply IH].
Qed.
(** As [main] leaves it; with all the tickers made. *)
Definition first_server : Server := {|
  sr_scheduler := start (scheduler_intervals cfg) new_loops; sr_worker := start (worker_intervals cfg) new_loops;
  sr_requests := 0; sr_closing := false; sr_signal := AwaitSignal; sr_closed := false; sr_exited := false |}.
Definition ticking : list event :=
  [SchedulerMove (LoopTicker 0); SchedulerMove (LoopTicker 1); WorkerMove (LoopTicker 0)].
Definition all_selecting (s : Loops) : Loops := s <| lo_loops ::= fmap (λ _, Selecting) |>.
Definition ticking_server : Server :=
  first_server <| sr_scheduler ::= all_selecting |> <| sr_worker ::= all_selecting |>.
Lemma ticking_reachable es p :
  tickers_ok cfg = true → happened es ticking_server = Some p → reachable (happens cfg) (serving cfg) p.
Proof.
  intros Hok Hp. exists first_server, (ticking ++ es). split; [done|]. eapply steps_app; [|by apply happened_steps].
  apply happened_steps. unfold tickers_ok in Hok. cbn [scheduler_intervals worker_intervals app forallb] in Hok. guards.
  unfold happened, ticking, happen, worker_make, scheduler_make, make, loop_ticker.
  do 3 (cbn -[Z.leb]; rewrite (proj2 (Z.leb_gt _ _)) by lia). reflexivity.
Qed.
End server.

Definition ex_abandoned : list event :=
  [Arrive; WorkerMove (LoopSelect 0); WorkerMove (LoopTick 0); Signal; MainReturns].
Definition ex_orderly : list event :=
  [Signal; ShutdownDone; SchedulerMove (LoopSelect 0); SchedulerMove (LoopExit 0); SchedulerMove (LoopSelect 1);
   SchedulerMove (LoopExit 1); SchedulerStopped; WorkerMove (LoopSelect 0); WorkerMove (LoopExit 0); WorkerStopped;
   StoreClosed; MainReturns].

(** C26: the shutdown, for any configuration. The signal handler closes the
    store only when no loop of the scheduler and of the worker is left. But
    the process does not wait for it: [ListenAndServe] returns as soon as
    [Shutdown] has begun, and [main] with it. So, if its tickers can be made
    at all, it can exit in the midst of a request and of a sweep, with the
    store open; it can also do everything in order. *)
Theorem shutdown_order cfg :
  (∀ p, reachable (happens cfg) (serving cfg) p → sr_closed p = true →
     Forall (eq Exited) (lo_loops (sr_scheduler p)) ∧ Forall (eq Exited) (lo_loops (sr_worker p))) ∧
  (tickers_ok cfg = true →
   (∃ p, reachable (happens cfg) (serving cfg) p ∧ sr_exited p = true ∧ sr_signal p = InShutdown ∧
      (0 < sr_requests p)%nat ∧ Working ∈ lo_loops (sr_worker p) ∧ sr_closed p = false) ∧
   (∃ p, reachable (happens cfg) (serving cfg) p ∧ sr_exited p = true ∧ sr_signal p = SignalDone)).
Proof.
  split; [|intros Hok; split].
  - intros p Hp%server_reachable Hc. destruct Hp as [_ _ H1 H2 Hd]. rewrite (Hd Hc) in H1, H2. done.
  - destruct (happened cfg ex_abandoned (ticking_server cfg)) as [p|] eqn:E; [|by vm_compute in E].
    exists p. split; [exact (ticking_reachable _ _ _ Hok E)|]. vm_compute in E. injection E as <-. simpl.
    split_and!; [done..|lia|by apply list_elem_of_here|done].
  - destruct (happened cfg ex_orderly (ticking_server cfg)) as [p|] eqn:E; [|by vm_compute in E].
    exists p. split; [exact (ticking_reachable _ _ _ Hok E)|]. vm_compute in E. by injection E as <-.
Qed.
Lemma shutdown_order_witness : let cfg := cf_Scheduler Defaults in
  ∃ p, reachable (happens cfg) (serving cfg) p ∧ sr_exited p = true ∧ (0 < sr_requests p)%nat ∧ sr_closed p = false.
Proof.
  destruct (shutdown_order (cf_Scheduler Defaults)) as [_ [(p & Hp & He & _ & Hr & _ & Hc) _]]; [reflexivity|].
  exists p. split; [exact Hp|]. split; [exact He|]. split; [exact Hr|exact Hc].
Defined.

(** ** Loops *)

Fixpoint made (guarded : bool) (intervals : list Z) (ms : list move) (s : Loops) : option Loops :=
  match ms with
  | [] => Some s
  | m :: ms => s ← make guarded intervals m s; made guarded intervals ms s
  end.
Lemma made_steps guarded intervals ms s s' : made guarded intervals ms s = Some s' → steps (moves guarded intervals) s ms s'.
Proof.
  revert s. induction ms as [|m ms IH]; intros s; simpl; [intros [= <-]; constructor|].
  intros (s1 & Hm & Hs)%bind_Some. econstructor; [exact Hm|by apply IH].
Qed.
(** The worker, every minute. *)
Definition ex_intervals : list Z := [60 * 1000000000].
Definition ex_moves : Loops → move → Loops → Prop := moves true ex_intervals.
Definition ex_loops (ms : list move) : Loops := default new_loops (made true ex_intervals ms new_loops).
Lemma ex_loops_reachable ms : is_Some (made true ex_intervals ms new_loops) → reachable ex_moves (eq new_loops) (ex_loops ms).
Proof.
  intros [s Hs]. exists new_loops, ms. split; [done|]. apply made_steps. unfold ex_loops. by rewrite Hs.
Qed.
(** A tick during a call of [RunOnce] is skipped; then [Stop]. *)
Definition ex_skipped : list move := [Start; LoopTicker 0; LoopSelect 0; RunBegin; LoopTick 0; LoopSelect 0].
Definition ex_stopping : list move := ex_skipped ++ [RunEnd; LoopTick 0; StopCancel].

Lemma loops_exclusive_witness :
  tally working (lo_loops (ex_loops ex_skipped)) = 0 ∧ lo_lock (ex_loops ex_skipped) = true ∧
  lo_wg (ex_loops ex_skipped) = 1.
Proof.
  destruct (loops_exclusive true ex_intervals (ex_loops ex_skipped)) as (Hl & Hg & _).
  - apply ex_loops_reachable. by vm_compute; eexists.
  - specialize (Hl eq_refl). rewrite Hg. split_and!; by vm_compute.
Defined.
Lemma stop_drains_witness :
  ∃ s', steps ex_moves (ex_loops ex_stopping) [LoopFinish 0; LoopSelect 0; LoopExit 0] s' ∧
    ((∃ s'', ex_moves s' StopReturn s'') ∨ ∃ m s'', without_tick m = true ∧ ex_moves s' m s'').
Proof.
  destruct (made true ex_intervals [LoopFinish 0; LoopSelect 0; LoopExit 0] (ex_loops ex_stopping)) as [s'|] eqn:E;
    [|by vm_compute in E].
  exists s'. split; [exact (made_steps _ _ _ _ _ E)|].
  destruct (stop_drains true ex_intervals (ex_loops ex_stopping)) with (2 := eq_refl true)
    (ms := [LoopFinish 0; LoopSelect 0; LoopExit 0]) (s' := s') as (_ & [Hr|[Hm|Hp]] & Hcalm).
  - apply ex_loops_reachable. by vm_compute; eexists.
  - intros c Hc. assert (c = 0)%nat as -> by (vm_compute in Hc; lia). by apply (bool_decide_unpack _).
  - exact (made_steps _ _ _ _ _ E).
  - by repeat constructor.
  - by left.
  - by right.
  - rewrite Hcalm in Hp; [done|]. by repeat constructor.
Defined.
(** A second [Start] without a [Stop] overwrites the first context: the loop
    that waits for it is stuck until its next tick, and so is [Stop]. *)
Example double_start_waits :
  let s := ex_loops [Start; LoopTicker 0; LoopSelect 0; Start; LoopTicker 1; LoopSelect 1; StopCancel; LoopExit 1] in
  lo_loops s = [Waiting 0; Exited] ∧ make true ex_intervals StopReturn s = None ∧ make true ex_intervals (LoopExit 0) s = None ∧
  is_Some (made true ex_intervals [LoopTick 0; LoopFinish 0; LoopSelect 0; LoopExit 0; StopReturn] s).
Proof. vm_compute. split_and!; try done. by eexists. Qed.
