(* ===== verification/BootFacts.v ===== *)
(** * Facts about starting and restarting

    Which users and sessions a store opened on a file has, and what becomes
    of them; that a start without failures succeeds; what tasks do to the
    tables. *)
From Stdlib Require Import Ascii.
From S2P Require Import Prelude GoErrors GoStrings GoNumbers GoTime Sha256 Json JsonFacts Domain World Shard Index.
From S2P Require Import Repo Rebuild Reader Migrate Records Auth AuthClaims Config AppLog Services Http Hubctl.
From S2P Require Import HttpServer Middleware Worker Scheduler Lifecycle Boot StoreFacts RebuildFacts.
From S2P Require Import StoreRuns ServiceSpec ServiceInv ServiceLoops ServiceRuns HttpFacts HttpClaims HttpSession.
From S2P Require Import MiddlewareClaims ConfigClaims MigrateClaims.

(** ** Users without a password *)

(** A property of a struct that every field's decoder keeps is kept. *)
Lemma decode_struct_keeps {R} (P : R → Prop) table j r r' :
  Forall (λ f : string * decoder R, ∀ j r r', P r → f.2 j r = Some r' → P r') table →
  P r → decode_struct table j r = Some r' → P r'.
Proof.
  intros Ht Hr. rewrite Forall_forall in Ht. destruct j; try done; [by intros [= <-]|]. simpl.
  match goal with |- decode_members _ ?l _ = _ → _ => rename l into members end.
  revert r Hr. induction members as [|[key v] members IH]; intros r Hr; simpl; [by intros [= <-]|].
  destruct (find_field table (unquote key)) as [dec|] eqn:Hf; [|by apply IH].
  intros (r1 & Hdec & Hrest)%bind_Some. apply (IH r1); [|done].
  assert (∃ name, (name, dec) ∈ table) as [name Hin].
  { unfold find_field in Hf. destruct (List.find _ table) as [f|] eqn:E.
    - injection Hf as <-. apply List.find_some in E as [E _]. exists f.1. rewrite <- surjective_pairing.
      by apply list_elem_of_In.
    - apply fmap_Some in Hf as (f & E2 & ->). apply List.find_some in E2 as [E2 _]. exists f.1.
      rewrite <- surjective_pairing. by apply list_elem_of_In. }
  by apply (Ht (name, dec) Hin v r).
Qed.
Lemma via_keeps {R A} (P : R → Prop) (dec : decoder A) get put j r r' :
  (∀ a, dec j (get r) = Some a → P (put a r)) → via dec get put j r = Some r' → P r'.
Proof. unfold via. intros Hp (a & Ha & [= <-])%bind_Some. by apply Hp. Qed.

Definition hashless (u : User) : Prop := us_PasswordHash u = "".
Lemma user_decode_hashless j u u' : hashless u → decode_struct user_fields j u = Some u' → hashless u'.
Proof.
  apply decode_struct_keeps. repeat constructor; intros j' r r' Hr; by apply (via_keeps hashless).
Qed.
Lemma dec_elems_hashless l old users :
  Forall hashless old → Auth.dec_elems (decode_struct user_fields) zero_user l old = Some users → Forall hashless users.
Proof.
  revert old users. induction l as [|j l IH]; intros old users Ho; simpl; [by intros [= <-]|].
  intros (u & Hu & (us & Hus & [= <-])%bind_Some)%bind_Some. constructor.
  - apply user_decode_hashless in Hu; [done|]. by destruct Ho.
  - apply IH in Hus; [done|]. by destruct Ho.
Qed.
(** The file holds no hash, so the users that come from it have none. *)
Lemma decode_hashless data d : decode_disk data empty_disk = Some d → Forall hashless (default [] (ds_Users d)).
Proof.
  unfold decode_disk. intros (j & _ & Hd)%bind_Some.
  apply (decode_struct_keeps (λ d, Forall hashless (default [] (ds_Users d)))) in Hd; [done| |by constructor].
  constructor; [|constructor; [|constructor]]; intros j' r r' Hr; apply (via_keeps (λ d, Forall hashless (default [] (ds_Users d)))).
  - intros users Hu. simpl. destruct j'; try done; [by injection Hu as <-; constructor|].
    apply fmap_Some in Hu as (us & Hus & ->). by apply dec_elems_hashless in Hus.
  - by intros sessions _.
Qed.

(** ** A store nobody can log in to *)

(** [over old expires]: [expires] is when a session of [old] ends. *)
Definition ends_with (old : list Session) (s : Session) : Prop := ∃ x, x ∈ old ∧ se_ExpiresAt s = se_ExpiresAt x.
Definition lists_users (old : list Session) (d : diskState) : Prop :=
  default [] (ds_Users d) ≠ [] ∧ Forall (ends_with old) (default [] (ds_Sessions d)).
(** A file with users, and with sessions that end when those of [old] do. *)
Definition sealed_file (old : list Session) (data : bytes) : Prop :=
  ∃ d, decode_disk data empty_disk = Some d ∧ lists_users old d.
Record sealed (old : list Session) (s : Store) : Prop := {
  sealed_data : lists_users old (st_data s);
  sealed_users : Forall hashless (st_users s);
  sealed_disk : ∃ data, st_disk s = Some data ∧ sealed_file old data
}.

Section sealed.
Context `{AuthEnv, !AuthLaws H} (old : list Session).

Lemma encode_sealed d data : lists_users old d → encode_disk d = Some data → sealed_file old data.
Proof.
  intros [Hu Hs] Henc%decode_encode. exists (disk_clean d). split; [done|]. split.
  - rewrite disk_clean_users. by destruct (default [] (ds_Users d)).
  - rewrite disk_clean_sessions. by apply Forall_fmap.
Qed.
Lemma Open_sealed boot s s' :
  (∃ data, st_disk s = Some data ∧ sealed_file old data) → Auth.Open boot s = (s', Ok ()) → sealed old s'.
Proof.
  intros (data & Hdata & d & Hd & Hl). unfold Auth.Open, load, mbind, op_bind, modify.
  destruct (fs_call _ _) as [s1 [u1|e1]] eqn:E1; apply fs_call_data in E1 as [D1 K1]; [|done].
  unfold gets. rewrite K1. simpl. rewrite Hdata, D1. simpl. rewrite Hd. simpl.
  unfold st_users. simpl. pose proof (decode_hashless _ _ Hd) as Hh. pose proof Hl as [Hne _].
  rewrite bool_decide_false by done. simpl. intros [= <-]. split; [done..|]. simpl. exists data. rewrite K1. simpl.
  split; [done|]. by exists d.
Qed.

Lemma sealed_login u p s : sealed old s → List.find (credentials u p) (st_users s) = None.
Proof.
  intros [_ Hh _]. induction Hh as [|x l Hx _ IH]; [done|]. simpl. unfold credentials at 1.
  by rewrite Hx, bcrypt_empty, andb_false_r.
Qed.
Lemma Open_keeps_file boot s s' r :
  (∃ data, st_disk s = Some data ∧ sealed_file old data) → Auth.Open boot s = (s', r) → st_disk s' = st_disk s.
Proof.
  intros (data & Hdata & d & Hd & Hne & _). unfold Auth.Open, load, mbind, op_bind, modify.
  destruct (fs_call _ _) as [s1 [u1|e1]] eqn:E1; apply fs_call_data in E1 as [D1 K1]; [|by intros [= <- _]].
  unfold gets. rewrite K1. simpl. rewrite Hdata, D1. simpl. rewrite Hd. simpl. unfold st_users. simpl.
  rewrite bool_decide_false by done. simpl. intros [= <- _]. simpl. by rewrite K1.
Qed.
Lemma revoke_ends token now l : Forall (ends_with old) l → Forall (ends_with old) (revoke token now l).
Proof.
  induction 1 as [|x l Hx Hl IH]; [constructor|]. simpl. destruct (has_token token x); [|by constructor].
  constructor; [|done]. by case_bool_decide.
Qed.
Lemma act_sealed a s : sealed old s → sealed old (act a s).
Proof.
  intros Hs. destruct a as [u p ttl now|token now]; simpl.
  - unfold Login, Authenticate, mbind, op_bind, gets, must. by rewrite (sealed_login u p s Hs).
  - pose proof Hs as [[Hne Hends] Hh Hdisk]. unfold Logout, mbind, op_bind, gets, ensure.
    destruct (existsb _ _); [|done]. unfold modify. set (s1 := set_data _ s).
    assert (lists_users old (st_data s1)) as Hl1.
    { split; [done|]. simpl. destruct (ds_Sessions (st_data s)); [by apply revoke_ends|constructor]. }
    destruct (persist s1) as [s2 r] eqn:E. apply persist_data in E as [Hd Hr].
    assert (sealed old s2) as Hs2; [|by destruct r].
    split; [by rewrite Hd|unfold st_users; by rewrite Hd|]. destruct r as [u|e].
    + destruct Hr as (data & Henc & ->). exists data. split; [done|]. by apply (encode_sealed (st_data s1)).
    + by rewrite Hr.
Qed.
Lemma acts_sealed l s : sealed old s → sealed old (acts l s).
Proof.
  revert s. induction l as [|a l IH]; intros s Hs; [done|]. simpl. by apply IH, act_sealed.
Qed.
(** Only a token of a session of the file resolves, and only as long as that
    one would have lasted. *)
Lemma sealed_resolve token t s u : sealed old s → snd (Resolve token t s) = Ok u → ∃ x, x ∈ old ∧ t < se_ExpiresAt x.
Proof.
  intros [[_ Hends] _ _]. unfold Resolve, mbind, op_bind, gets. change (default [] (ds_Sessions (st_data s))) with (st_sessions s) in Hends.
  destruct (List.find (has_token token) (st_sessions s)) as [x|] eqn:Hf; [|done]. apply List.find_some in Hf as [Hx _].
  rewrite Forall_forall in Hends. destruct (Hends x) as (y & Hy & He); [by apply list_elem_of_In|].
  unfold lift. simpl. unfold session_user, Before. destruct (bool_decide _); [done|].
  destruct (Z.ltb_spec t (se_ExpiresAt x)); [|done]. simpl. intros _. exists y. split; [done|lia].
Qed.
End sealed.

(** ** A start, case by case *)

Definition with_world (dir : string) (w : World) (h : Host) : Host :=
  h <| ho_machine ::= λ m, m <| mc_dbs := <[index_path dir := w_db w]> (mc_dbs m) |> <| mc_fs := w_fs w |>
       <| mc_tick := w_tick w |> |>.
Definition with_log (entries : list Entry) (h : Host) : Host := h <| ho_log := ho_log h ++ entries |>.
(** The application that is started over the users of [s] on the host [h]. *)
Definition launched (cfg : Config) (writer : Writer) (s : Auth.Store) (h : Host) : App :=
  let world := world_at (data_dir cfg) (ho_machine h) in
  {| ap_config := cfg; ap_writer := writer;
     ap_logger := AppLog.New (lg_Level (cf_Logging cfg)) (lg_Format (cf_Logging cfg));
     ap_process := {| pc_world := world; pc_auth := s; pc_scheduler := Some true; pc_worker := true;
                      pc_tick := ho_http_tick h |};
     ap_worker := idle_worker world; ap_server := started_server cfg |}.

Definition logger_of (cfg : Config) : Logger := AppLog.New (lg_Level (cf_Logging cfg)) (lg_Format (cf_Logging cfg)).
Definition start_log (cfg : Config) : list Entry :=
  entry (logger_of cfg) InfoLevel [] "scheduler started" ++
  entry (logger_of cfg) InfoLevel [("interval", FDuration (sg_ReevalInterval (cf_Scheduler cfg)))] "reeval worker started".
Definition listen_log (cfg : Config) : list Entry :=
  entry (logger_of cfg) InfoLevel [("addr", FText (":" +:+ itoa (sv_Port (cf_Server cfg))))] "http server starting".

(** How much is logged before a loop without a ticker ends the process, if it
    does before [main] listens. *)
Definition panic_log (early : nat → bool) (cfg : Config) : option (list Entry) :=
  if panics (started_scheduler cfg) && early 0%nat then Some []
  else if negb (tickers_ok (cf_Scheduler cfg)) && early 1%nat then
    Some (entry (logger_of cfg) InfoLevel [] "scheduler started")
  else if negb (tickers_ok (cf_Scheduler cfg)) && early 2%nat then Some (start_log cfg)
  else None.
Lemma positive_leb d : (0 <? d) = negb (d <=? 0).
Proof. by rewrite Z.leb_antisym, negb_involutive. Qed.
Lemma started_panics cfg :
  panics (started_scheduler cfg) || panics (started_worker cfg) = negb (tickers_ok (cf_Scheduler cfg)).
Proof.
  unfold tickers_ok. cbn -[Z.leb Z.ltb]. rewrite !positive_leb.
  by destruct (_ <=? _), (_ <=? _), (_ <=? _).
Qed.
Lemma panic_log_None early cfg : tickers_ok (cf_Scheduler cfg) = true → panic_log early cfg = None.
Proof.
  intros Hok. pose proof (started_panics cfg) as Hp. rewrite Hok in Hp. apply orb_false_elim in Hp as [Hp _].
  unfold panic_log. by rewrite Hp, Hok.
Qed.
Lemma panic_log_Some early cfg log : panic_log early cfg = Some log → tickers_ok (cf_Scheduler cfg) = false.
Proof. destruct (tickers_ok _) eqn:Hok; [|done]. by rewrite panic_log_None. Qed.

Section start.
Context `{Env, Migrations, ConfigEnv, AuthEnv}.

Lemma main_start_cases early args h :
  main_start early args h =
    match Load (config_path args) with
    | Err text =>
        (h <| ho_machine ::= λ m, m <| mc_err := mc_err m ++ ["load config: " +:+ text] |> |>, Err (Exit 1))
    | Ok cfg =>
        let dir := data_dir cfg in
        match Migrate.New dir (st_ShardMaxSize (cf_Storage cfg)) (st_SyncOnWrite (cf_Storage cfg))
                (world_at dir (ho_machine h)) with
        | (w, Err e) =>
            (with_log (entry (logger_of cfg) ErrorLevel [("error", FText (error_text domain_error_text e))]
               "failed to open store") (with_world dir w h), Err (Exit 1))
        | (w, Ok writer) =>
            match Auth.Open (bootstrap_users cfg) (auth_at (authPath cfg) (with_world dir w h)) with
            | (s, Err e) =>
                (put_auth (authPath cfg) s (with_world dir w h),
                 Err (Panic ("open auth store: " +:+ error_text auth_error_text e)))
            | (s, Ok _) =>
                let h := put_auth (authPath cfg) s (with_world dir w h) in
                match panic_log early cfg with
                | Some log => (with_log log h, Err ticker_panic)
                | None => (with_log (start_log cfg ++ listen_log cfg) h, Ok (launched cfg writer s h))
                end
            end
        end
    end.
Proof.
  unfold main_start, load_config, mbind, op_bind.
  destruct (Load (config_path args)) as [cfg|text]; [|done].
  unfold mret at 1, op_ret. unfold open_store at 1, on_machine at 1, Hubctl.on_store, mbind at 1, op_bind. cbv zeta.
  destruct (Migrate.New _ _ _ _) as [w [writer|e]]; [|done]. cbv beta iota delta [mret op_ret].
  unfold New_server, open_auth, mbind, op_bind. fold (with_world (data_dir cfg) w h).
  destruct (Auth.Open _ _) as [s [u|e]]; [|done].
  unfold ticker_race, panic_log, existsb. rewrite !orb_false_r, started_panics.
  unfold gets, logs, modify, with_log, start_log, listen_log, raise. cbv beta iota zeta delta [mret op_ret id].
  destruct (_ && early 0%nat); [f_equal; cbn; by rewrite app_nil_r|]. cbv beta iota.
  destruct (_ && early 1%nat); [done|]. cbv beta iota.
  destruct (_ && early 2%nat); f_equal; cbn; by rewrite <- ?app_assoc.
Qed.
End start.

(** ** Databases over many starts *)

Lemma db_step_schema d l d' : db_step d l d' → db_schema d' = db_schema d.
Proof. by inversion 1. Qed.
Lemma steps_schema d ls d' : steps db_step d ls d' → db_schema d' = db_schema d.
Proof. induction 1 as [|d1 l d2 ls d3 Hs _ IH]; [done|]. by rewrite IH, (db_step_schema _ _ _ Hs). Qed.

(** What a sequence of transactions keeps of tables in their invariant. *)
Record grown (d d' : DB) : Prop := {
  grown_inv : db_inv d';
  grown_later : later d d';
  grown_schema : db_schema d' = db_schema d
}.
Lemma grown_steps d d' : db_inv d → db_steps d d' → grown d d'.
Proof.
  intros Hi [ls Hs]. split; [by eapply steps_inv|by eapply steps_later|by eapply steps_schema].
Qed.
Lemma grown_refl d : db_inv d → grown d d.
Proof. intros Hi. apply grown_steps; [done|]. exists []. constructor. Qed.

Section databases.
Context `{Env} `{Migrations} `{!MigrationLaws H0} (ms : list (string * Z)).

(** A database whose migrations are not all applied yet holds what the applied
    ones made; once they are, its tables are in their invariant. *)
Definition db_sound (d : DB) : Prop :=
  (∃ k, (k < length ms)%nat ∧ db_schema d = take k ms.*2 ∧ scripts (take k ms) new_db = Some d) ∨
  (db_schema d = ms.*2 ∧ db_inv d).
Lemma sound_inv d : db_sound d → db_schema d = ms.*2 → db_inv d.
Proof.
  intros [(k & Hk & Hs & _)|[_ Hi]] E; [|done]. rewrite E in Hs. apply (f_equal length) in Hs.
  rewrite length_take, length_fmap in Hs. lia.
Qed.
Lemma sound_grown d d' : db_schema d = ms.*2 → grown d d' → db_sound d'.
Proof. intros Hs [Hi _ He]. right. by rewrite He. Qed.
Lemma scripts_append l1 l2 d : scripts (l1 ++ l2) d = d' ← scripts l1 d; scripts l2 d'.
Proof.
  revert d. induction l1 as [|[name v] l1 IH]; intros d; [done|]. simpl.
  destruct (run_migration name d); [apply IH|done].
Qed.

Context (Hms : versioned ms) (Hnew : ∀ d, scripts ms new_db = Some d → db_inv d).

(** A database that is not there yet is a new one. *)
Lemma sound_new : db_sound new_db.
Proof.
  destruct (decide (ms = [])) as [E|E].
  - right. rewrite E. split; [done|]. apply Hnew. by rewrite E.
  - left. exists 0%nat. split_and!; [|done..]. destruct ms; [done|simpl; lia].
Qed.
(** Opening a store finishes its migrations, or applies some of them. *)
Lemma New_sound dir max sync w w' r :
  db_sound (w_db w) → Migrate.New dir max sync w = (w', r) →
  db_sound (w_db w') ∧ w_fs w' = w_fs w ∧ (db_schema (w_db w) = ms.*2 → w_db w' = w_db w) ∧
  (result_is_ok r = true → db_schema (w_db w') = ms.*2).
Proof.
  intros Hd Hr.
  assert (∃ k, (k ≤ length ms)%nat ∧ db_schema (w_db w) = take k ms.*2) as (k & Hk & Hs).
  { destruct Hd as [(k & ? & ? & _)|[Hs _]]; [exists k; split; [lia|done]|]. exists (length ms). split; [done|].
    by rewrite take_ge by (by rewrite length_fmap). }
  assert (db_schema (w_db w) = ms.*2 → k = length ms) as Hfull.
  { intros E. rewrite E in Hs. apply (f_equal length) in Hs. rewrite length_take, length_fmap in Hs. lia. }
  assert (ends (Migrate.New dir max sync) w (λ w' r, db_sound (w_db w') ∧ w_fs w' = w_fs w ∧
    (db_schema (w_db w) = ms.*2 → w_db w' = w_db w) ∧ (result_is_ok r = true → db_schema (w_db w') = ms.*2))) as He;
    [|unfold ends in He; by rewrite Hr in He].
  apply (ends_New ms k); [done..|]. intros j w1 r1 Hj Hsc Hf Hr1.
  assert (db_schema (w_db w1) = take (k + j) ms.*2) as Hs1.
  { by rewrite (scripts_schema _ _ _ Hsc), Hs, fmap_take, fmap_drop, take_take_drop. }
  assert (result_is_ok r1 = true → db_schema (w_db w1) = ms.*2) as Hok.
  { destruct r1 as [u|]; [|done]. intros _. rewrite Hs1, (Hr1 u) by done. apply take_ge. rewrite length_fmap. lia. }
  split_and!; [|done| |done].
  - destruct Hd as [(k' & Hk' & Hs' & Hsc')|[Hs' Hi]].
    + assert (k' = k) as ->.
      { rewrite Hs in Hs'. apply (f_equal length) in Hs'. rewrite !length_take, length_fmap in Hs'. lia. }
      assert (scripts (take (k + j) ms) new_db = Some (w_db w1)) as Hall.
      { by rewrite <- take_take_drop, scripts_append, Hsc'. }
      destruct (decide (k + j = length ms)%nat) as [E|E].
      * right. rewrite Hs1, E, take_ge by (by rewrite length_fmap). split; [done|].
        apply Hnew. by rewrite <- Hall, E, take_ge.
      * left. exists (k + j)%nat. split_and!; [lia|done|done].
    + right. specialize (Hfull Hs'). subst k. assert (j = 0)%nat as -> by lia. injection Hsc as <-. done.
  - intros E. specialize (Hfull E). subst k. assert (j = 0)%nat as -> by lia. by injection Hsc as <-.
Qed.
End databases.

(** ** What the running process does to its tables *)

Section requests.
Context `{Env, AuthEnv, HttpEnv, Router} (logger : Logger) (nil : string → bool) (writer : Writer) (cfg : Config).

(** The middleware only reads the clock. *)
Lemma serve_request_process r p log :
  xc_process (serve_request logger nil writer cfg r p log) =
  clock_ticked (fst (ServeHTTP writer cfg r (clock_ticked p))).
Proof.
  unfold serve_request, chain, loggingMiddleware, clock_read, recoveryMiddleware, route_handler.
  change ((exchange p log) <| xc_process ::= clock_ticked |>) with (exchange (clock_ticked p) log).
  change (xc_process (exchange (clock_ticked p) log)) with (clock_ticked p).
  destruct (ServeHTTP _ _ _ _) as [p' response]. by rewrite respond_spec.
Qed.
Lemma request_grown `{!Sequential H, !EnvLaws H} r p log :
  db_inv (w_db (pc_world p)) →
  grown (w_db (pc_world p)) (w_db (pc_world (xc_process (serve_request logger nil writer cfg r p log)))).
Proof.
  intros Hi. rewrite serve_request_process. destruct (ServeHTTP _ _ _ _) as [p' response] eqn:E.
  pose proof (request_commits writer cfg r (clock_ticked p) p' response Hi E) as (Hi' & Hl & Hst). simpl.
  split; [done..|]. destruct Hst as [->|(i & params & rt & _ & _ & _ & [(c & _ & Hs & _)|(_ & ls & Hs & _)])];
    [done|by apply db_step_schema in Hs|by apply steps_schema in Hs].
Qed.
Lemma serve_request_auth r p log :
  pc_auth (xc_process (serve_request logger nil writer cfg r p log)) =
  acts (auth_actions writer cfg r (clock_ticked p)) (pc_auth p).
Proof. rewrite serve_request_process. simpl. by rewrite ServeHTTP_auth. Qed.
End requests.

Section tasks.
Context `{Env, !Sequential H, !EnvLaws H} (writer : Writer).

Lemma reconciliation_grown cfg root w :
  db_inv (w_db w) →
  grown (w_db w) (w_db (fst (runWithRetry writer cfg "reconciliation" (runReconciliationOnce root) w))).
Proof.
  intros Hi. apply grown_steps; [done|]. apply (retry_steps writer); [done|]. intros w1 _. exists []. unfold runReconciliationOnce.
  pose proof (stays_Reconcile root (w1, empty_reconcile)) as [Hd _].
  destruct (Reconcile root (w1, empty_reconcile)) as [[w2 rp] [u|e]]; simpl in *; rewrite Hd; constructor.
Qed.
Lemma escalation_grown cfg ext maxLevel w :
  db_inv (w_db w) → is_i64 maxLevel →
  grown (w_db w) (w_db (fst (runWithRetry writer cfg "escalation" (runEscalationOnce writer ext maxLevel) w))).
Proof. intros Hi Hm. apply grown_steps; [done|]. by apply (activity_steps writer (AEscalate cfg ext maxLevel)). Qed.
Lemma sweep_grown fuel k :
  db_inv (w_db (wk_world k)) → is_i64 (wk_reevaled k) →
  grown (w_db (wk_world k)) (w_db (wk_world (worker_tick writer fuel k))) ∧
  is_i64 (wk_reevaled (worker_tick writer fuel k)).
Proof.
  intros Hi Hr. unfold worker_tick, RunOnce. simpl. destruct (wk_running k); simpl; [split; [by apply grown_refl|done]|].
  destruct (sweep _ _ _) as [k' r] eqn:Hs. apply sweep_steps in Hs as (ids & [Hst Hn] & _); [|done]. simpl in *.
  assert (grown (w_db (wk_world k)) (w_db (wk_world k')) ∧ is_i64 (wk_reevaled k')) as Hg.
  { split; [apply grown_steps; [done|by eexists]|]. rewrite Hn. apply i64_range. }
  by destruct r as [[[]|]|].
Qed.
End tasks.

(** ** The life of a machine *)

(** The level is a Go [int] also when the configuration file gives it. *)
Definition yaml_levels `{ConfigEnv} : Prop :=
  ∀ data c, yaml_Unmarshal data Defaults = Ok c → is_i64 (bc_MaxEscalationLevel (cf_Business c)).
Lemma Load_level `{ConfigEnv} path cfg :
  yaml_levels → Load path = Ok cfg → is_i64 (bc_MaxEscalationLevel (cf_Business cfg)).
Proof.
  intros Hy. unfold Load. set (b := if bool_decide _ then _ else _).
  assert (∀ c, b = Ok c → is_i64 (bc_MaxEscalationLevel (cf_Business c))) as Hb.
  { unfold b. intros c. case_bool_decide; [by intros [= <-]|]. destruct (read_config path) as [data|]; [|done].
    destruct (yaml_Unmarshal data Defaults) as [c'|] eqn:E; [|done]. intros [= <-]. by apply Hy in E. }
  destruct b as [c|]; [|done]. specialize (Hb c eq_refl). cbv zeta. destruct (Validate _); [|done]. intros [= <-].
  rewrite applyEnvOverrides_setting. unfold overridden. cbn [cf_Business bc_MaxEscalationLevel]. unfold setting.
  case_bool_decide; [done|]. unfold Atoi, ParseInt. destruct (match to_bytes _ with [] => None | _ => _ end) as [z|]; [|done].
  simpl. by case_bool_decide.
Qed.

Section life.
Context `{Env, !Sequential H, !EnvLaws H} `{Migrations, !MigrationLaws H0} `{ConfigEnv, AuthEnv, HttpEnv, Router}.
Context (nil : string → bool) (ms : list (string * Z)) (Hms : versioned ms).
Context (Hnew : ∀ d, scripts ms new_db = Some d → db_inv d) (Hlevels : yaml_levels).
Implicit Types (l : life).

(** The machine's databases are sound; the one the process works on has all
    its migrations. *)
Record life_ok l : Prop := {
  ok_databases : map_Forall (λ _ d, db_sound ms d) (mc_dbs (machine_of l));
  ok_running : match l with
               | Up h a => db_schema (w_db (pc_world (ap_process a))) = ms.*2 ∧ is_i64 (wk_reevaled (ap_worker a)) ∧
                   is_i64 (bc_MaxEscalationLevel (cf_Business (ap_config a)))
               | Down _ => True
               end
}.
(** What a database with all its migrations becomes. *)
Definition outgrown (l l' : life) : Prop :=
  ∀ key d, mc_dbs (machine_of l) !! key = Some d → db_schema d = ms.*2 →
    ∃ d', mc_dbs (machine_of l') !! key = Some d' ∧ db_schema d' = ms.*2 ∧ later d d'.
#[export] Instance outgrown_refl : Reflexive outgrown.
Proof. intros l key d Hd Hs. by exists d. Qed.
#[export] Instance outgrown_trans : Transitive outgrown.
Proof.
  intros l1 l2 l3 H12 H23 key d Hd Hs. destruct (H12 key d Hd Hs) as (d2 & Hd2 & Hs2 & Hl2).
  destruct (H23 key d2 Hd2 Hs2) as (d3 & Hd3 & Hs3 & Hl3). exists d3. split_and!; [done..|by etrans].
Qed.

Lemma running_inv h a : life_ok (Up h a) → db_inv (w_db (pc_world (ap_process a))).
Proof.
  intros [Hd (Hs & _)]. apply (sound_inv ms); [|done].
  exact (map_Forall_lookup_1 _ _ (index_path (data_dir (ap_config a))) _ Hd (lookup_insert_eq _ _ _)).
Qed.
(** The process changes its tables by transactions. *)
Lemma running_step h a h' a' :
  life_ok (Up h a) → ho_machine h' = ho_machine h → ap_config a' = ap_config a →
  grown (w_db (pc_world (ap_process a))) (w_db (pc_world (ap_process a'))) → is_i64 (wk_reevaled (ap_worker a')) →
  life_ok (Up h' a') ∧ outgrown (Up h a) (Up h' a').
Proof.
  intros Hok Hh Ha Hg Hr. pose proof (running_inv _ _ Hok) as Hi. destruct Hok as [Hd (Hs & _ & Hl)].
  simpl in Hd. split.
  - split; simpl; rewrite ?Hh, Ha; [|split_and!; [|done|done]; by rewrite (grown_schema _ _ Hg)].
    intros key d Hkey. destruct (decide (index_path (data_dir (ap_config a)) = key)) as [<-|Hne].
    + rewrite lookup_insert_eq in Hkey. injection Hkey as <-. by eapply sound_grown.
    + apply (Hd key). rewrite lookup_insert_ne in * by done. done.
  - intros key d. simpl. rewrite Hh, Ha. intros Hkey Hsd.
    destruct (decide (index_path (data_dir (ap_config a)) = key)) as [<-|Hne].
    + rewrite lookup_insert_eq in *. injection Hkey as <-. eexists. split; [done|].
      split; [by rewrite (grown_schema _ _ Hg)|apply Hg].
    + rewrite lookup_insert_ne in * by done. by exists d.
Qed.
(** A start, as far as it gets: the databases of the machine, once the store
    has been tried. *)
Lemma opened_step dbs key w w' dir max sync r h :
  key = index_path dir → w = world_at dir h → dbs = mc_dbs h →
  map_Forall (λ _ d, db_sound ms d) dbs → Migrate.New dir max sync w = (w', r) →
  map_Forall (λ _ d, db_sound ms d) (<[key := w_db w']> dbs) ∧
  (∀ k d, dbs !! k = Some d → db_schema d = ms.*2 →
     ∃ d', <[key := w_db w']> dbs !! k = Some d' ∧ db_schema d' = ms.*2 ∧ later d d') ∧
  w_fs w' = mc_fs h ∧ (result_is_ok r = true → db_schema (w_db w') = ms.*2).
Proof.
  intros -> -> -> Hd Hr.
  assert (db_sound ms (w_db (world_at dir h))) as Hs.
  { simpl. destruct (mc_dbs h !! index_path dir) as [d|] eqn:E; [by apply (Hd _ _ E)|].
    by apply sound_new. }
  destruct (New_sound ms Hms Hnew _ _ _ _ _ _ Hs Hr) as (Hs' & Hfs & Hsame & Hok). split_and!; [| |done|done].
  - by apply map_Forall_insert_2.
  - intros k d Hk Hsd. destruct (decide (index_path dir = k)) as [<-|Hne].
    + exists d. rewrite lookup_insert_eq. simpl in Hsame. rewrite Hk in Hsame. simpl in Hsame. by rewrite Hsame.
    + exists d. by rewrite lookup_insert_ne.
Qed.
Lemma start_step early args h :
  life_ok (Down h) →
  let l' := match main_start early args h with (h, Ok a) => Up h a | (h, Err _) => Down h end in
  life_ok l' ∧ outgrown (Down h) l'.
Proof.
  intros [Hd _] l'. subst l'. rewrite main_start_cases. simpl in Hd.
  destruct (Load (config_path args)) as [cfg|text] eqn:Hload; [|split; [by split|intros key d; by exists d]].
  cbv zeta. destruct (Migrate.New _ _ _ _) as [w r] eqn:Hr.
  destruct (opened_step _ _ _ _ _ _ _ _ _ eq_refl eq_refl eq_refl Hd Hr) as (Hd' & Hout & _ & Hok).
  destruct r as [writer|e]; [|split; [by split|exact Hout]].
  destruct (Auth.Open _ _) as [s [u|e]]; [|split; [by split|exact Hout]].
  destruct (panic_log early cfg); [split; [by split|exact Hout]|].
  set (h' := put_auth _ _ _). set (a := launched _ _ _ _).
  assert (mc_dbs (machine_of (Up (with_log (start_log cfg ++ listen_log cfg) h') a)) = <[index_path (data_dir cfg) := w_db w]> (mc_dbs (ho_machine h))
    ∧ w_db (pc_world (ap_process a)) = w_db w) as [E Ew].
  { simpl. by rewrite lookup_insert_eq, insert_insert_eq. }
  split; [split; [by rewrite E|]|].
  - split_and!; [by rewrite Ew; apply Hok|by apply (bool_decide_eq_true_1 _)|]. by apply (Load_level (config_path args)).
  - intros key d. rewrite E. apply Hout.
Qed.
Lemma ticks_Some interval l l' : ticks interval l = Some l' → l' = l.
Proof. unfold ticks. destruct (panicking _); [done|]. by intros [= <-]. Qed.
Lemma life_step l e l' : life_ok l → lives nil l e l' → life_ok l' ∧ outgrown l l'.
Proof.
  intros Hok Hl. unfold lives in Hl. destruct l as [h|h a], e as [early args|r| | |fuel| |]; simpl in Hl; try done.
  - injection Hl as <-. by apply start_step.
  - injection Hl as <-. destruct (answer nil r h a) as [h' a'] eqn:E. unfold answer in E. injection E as <- <-.
    pose proof (running_inv _ _ Hok) as Hi.
    apply running_step; [done..| |apply Hok]. by apply request_grown.
  - apply ticks_Some in Hl as ->. pose proof (running_inv _ _ Hok) as Hi. apply running_step; [done..| |apply Hok].
    simpl. apply (escalation_grown (ap_writer a)); [done|apply Hok].
  - apply ticks_Some in Hl as ->. pose proof (running_inv _ _ Hok) as Hi. apply running_step; [done..| |apply Hok].
    simpl. by apply (reconciliation_grown (ap_writer a)).
  - apply ticks_Some in Hl as ->.
    destruct (sweep_grown (ap_writer a) fuel ((ap_worker a) <| wk_world := pc_world (ap_process a) |>)) as [Hg Hr];
      [by apply (running_inv h)|apply Hok|]. by apply running_step.
  - apply bind_Some in Hl as (p & _ & [= <-]). destruct Hok as [Hd _]. split; [by split|]. intros key d. by exists d.
  - injection Hl as <-. destruct Hok as [Hd _]. split; [by split|]. intros key d. by exists d.
Qed.
Lemma life_steps l es l' : life_ok l → steps (lives nil) l es l' → life_ok l' ∧ outgrown l l'.
Proof.
  intros Hok Hs. induction Hs as [l|l1 e l2 es l3 He _ IH]; [done|].
  destruct (life_step _ _ _ Hok He) as [Hok2 Hout]. destruct (IH Hok2) as [Hok3 Hout']. split; [done|by etrans].
Qed.

(** *** A user file of before *)

Context `{!AuthLaws H2} (path : string) (old : list Session).

(** The file at [path] holds users without passwords, as does the store the
    process has opened on it. *)
Definition sealed_life l : Prop :=
  match l with
  | Down h => ∃ data, mc_fs (ho_machine h) !! path = Some data ∧ sealed_file old data
  | Up h a => authPath (ap_config a) = path ∧ sealed old (pc_auth (ap_process a))
  end.
(** Every start is with a configuration that keeps the users there. *)
Definition keeps_path (e : happening) : Prop :=
  match e with
  | HStart _ args => ∀ cfg, Load (config_path args) = Ok cfg → authPath cfg = path
  | _ => True
  end.
Lemma start_sealed early args h :
  life_ok (Down h) → sealed_life (Down h) → keeps_path (HStart early args) →
  sealed_life (match main_start early args h with (h, Ok a) => Up h a | (h, Err _) => Down h end).
Proof.
  intros [Hd _] (data & Hdata & Hf) Hp. rewrite main_start_cases. simpl in Hd, Hp.
  destruct (Load (config_path args)) as [cfg|text]; [|by exists data].
  cbv zeta. destruct (Migrate.New _ _ _ _) as [w r] eqn:Hr. rewrite (Hp cfg eq_refl).
  destruct (opened_step _ _ _ _ _ _ _ _ _ eq_refl eq_refl eq_refl Hd Hr) as (_ & _ & Hfs & _).
  destruct r as [writer|e]; [|exists data; simpl; by rewrite Hfs].
  set (s0 := auth_at _ _).
  assert (∃ data, st_disk s0 = Some data ∧ sealed_file old data) as Hs0.
  { exists data. simpl. by rewrite Hfs. }
  destruct (Auth.Open _ s0) as [s r] eqn:E.
  assert (mc_fs (ho_machine (put_auth path s (with_world (data_dir cfg) w h))) !! path = Some data) as Hkept.
  { simpl. rewrite lookup_partial_alter_eq, (Open_keeps_file old _ _ _ _ Hs0 E). simpl. by rewrite Hfs. }
  destruct r as [[]|e]; [|by exists data]. destruct (panic_log early cfg); [by exists data|].
  split; [by apply Hp|]. simpl. by eapply Open_sealed.
Qed.
Lemma halt_sealed h a : sealed_life (Up h a) → sealed_life (Down (halt h a)).
Proof.
  intros [Hpath [_ _ (data & Hdata & Hf)]]. exists data. split; [|done].
  rewrite <- Hdata, <- Hpath. apply (lookup_partial_alter_eq (λ _, st_disk (pc_auth (ap_process a)))).
Qed.
Lemma sealed_step l e l' : life_ok l → sealed_life l → keeps_path e → lives nil l e l' → sealed_life l'.
Proof.
  intros Hok Hs Hp Hl. unfold lives in Hl. destruct l as [h|h a], e as [early args|r| | |fuel| |]; simpl in Hl; try done.
  - injection Hl as <-. by apply start_sealed.
  - injection Hl as <-. destruct Hs as [Ha Hs]. split; [done|]. simpl. rewrite serve_request_auth. by apply acts_sealed.
  - by apply ticks_Some in Hl as ->.
  - by apply ticks_Some in Hl as ->.
  - by apply ticks_Some in Hl as ->.
  - apply bind_Some in Hl as (p & _ & [= <-]). by apply halt_sealed.
  - injection Hl as <-. by apply halt_sealed.
Qed.
Lemma sealed_steps l es l' :
  life_ok l → sealed_life l → Forall keeps_path es → steps (lives nil) l es l' → sealed_life l'.
Proof.
  intros Hok Hs Hp Hst. induction Hst as [l|l1 e l2 es l3 He _ IH]; [done|]. apply Forall_cons in Hp as [Hp Hps].
  destruct (life_step _ _ _ Hok He) as [Hok2 _]. apply IH; [done| |done]. exact (sealed_step _ _ _ Hok Hs Hp He).
Qed.
End life.

Lemma sealed_refuses `{Env, AuthEnv, !AuthLaws H0, HttpEnv, Router} writer cfg old r p params :
  sealed old (pc_auth p) → chi_match (patterns writer cfg) (hr_Method r) (hr_Path r) = Matched 2 params →
  snd (ServeHTTP writer cfg r p) =
    match Decode login_fields zero_login (hr_Body r) with
    | Some _ => unauthorized "" "INVALID_CREDENTIALS" "用户名或密码错误"
    | None => writeBadRequest r ("invalid JSON: " +:+ body_error (hr_Body r))
    end.
Proof.
  intros Hs Hm. unfold ServeHTTP, dispatch. fold (patterns writer cfg). rewrite Hm.
  cbn [routes lookup list_lookup rt_mounted rt_roles rt_handler open_route authenticated andb].
  unfold mbind, op_bind, mret, op_ret. simpl. unfold login, mbind, op_bind, decode_body, must, time_now, http_ask, on_auth. simpl.
  destruct (Decode _ _ _) as [req|]; [|done]. unfold Login, Authenticate, mbind, op_bind, gets, must. simpl.
  by rewrite (sealed_login _ _ _ _ Hs).
Qed.

(** ** A start without failures *)

(** The disk and the random source work, and the passwords can be hashed. *)
Record auth_calm `{AuthEnv} (boot : list BootstrapUser) : Prop := {
  calm_disk n : auth_fault n = None;
  calm_random n : is_Some (match auth_random n with Ok b => Some b | Err _ => None end);
  calm_hash n b : b ∈ boot → is_Some (match bcrypt_generate n (bu_Password b) with Ok h => Some h | Err _ => None end)
}.

Section first.
Context `{AuthEnv, !AuthLaws H} (boot : list BootstrapUser) (Hcalm : auth_calm boot).

Lemma wp_fs_call what s (Q : () → Auth.Store → Prop) :
  (∀ s', st_data s' = st_data s → st_disk s' = st_disk s → Q () s') → wp (fs_call what) s Q.
Proof.
  intros HQ. unfold fs_call. apply wp_bind. eexists _, _. split; [done|]. rewrite (calm_disk _ Hcalm).
  apply wp_ret. by apply HQ.
Qed.
Lemma wp_persist s (Q : () → Auth.Store → Prop) :
  is_Some (encode_disk (st_data s)) →
  (∀ s', st_data s' = st_data s → st_disk s' = encode_disk (st_data s) → Q () s') → wp persist s Q.
Proof.
  intros [data Hdata] HQ. unfold persist. apply wp_bind, wp_fs_call. intros s1 D1 K1. apply wp_bind, wp_gets.
  rewrite D1, Hdata. apply wp_bind. eexists _, _. split; [done|].
  apply wp_bind, wp_fs_call. intros s2 D2 K2. apply wp_bind, wp_fs_call. intros s3 D3 K3.
  apply wp_modify, HQ; simpl; congruence.
Qed.
Lemma wp_hashPassword b s (Q : string → Auth.Store → Prop) :
  b ∈ boot → (∀ h s', st_data s' = st_data s → st_disk s' = st_disk s → Q h s') → wp (hashPassword (bu_Password b)) s Q.
Proof.
  intros Hb HQ. unfold hashPassword. apply wp_bind. eexists _, _. split; [done|].
  destruct (calm_hash _ Hcalm (st_tick s) b Hb) as [h Hh]. destruct (bcrypt_generate _ _); [|done].
  apply wp_ret. by apply HQ.
Qed.
Lemma wp_provision seeds ids names s (Q : () → Auth.Store → Prop) :
  seeds ⊆ boot → Forall seed_ok seeds → NoDup (bu_ID <$> seeds) → NoDup (bu_Username <$> seeds) →
  (∀ b, b ∈ seeds → (bu_ID b ∉ ids) ∧ (bu_Username b ∉ names)) →
  (∀ s', st_sessions s' = st_sessions s → Q () s') → wp (provision seeds ids names) s Q.
Proof.
  intros Hsub Hok. revert ids names s. induction Hok as [|b seeds Hb _ IH]; intros ids names s Hi Hn Hf HQ;
    [by apply wp_ret, HQ|].
  rewrite !fmap_cons in *. apply NoDup_cons in Hi as [Hi1 Hi2], Hn as [Hn1 Hn2].
  destruct Hb as (Hid & Hname & Hlen & Hrole). destruct (Hf b) as [Hfi Hfn]; [by left|]. cbn [provision].
  apply wp_bind, wp_ensure.
  { rewrite !bool_decide_false, (proj2 (Z.ltb_ge _ _)), Hrole by (done || lia). done. }
  apply wp_bind, wp_ensure; [by rewrite bool_decide_false|]. apply wp_bind, wp_ensure; [by rewrite bool_decide_false|].
  apply wp_bind. destruct (wp_hashPassword b s (λ h s', st_data s' = st_data s)) as (s1 & h & Hh & D1);
    [set_solver|done|]. eexists _, _. rewrite Hh. split; [done|].
  apply wp_bind, wp_modify, IH; [set_solver|done..| |].
  - intros b' Hb'. destruct (Hf b') as [Hfi' Hfn']; [by right|].
    assert (bu_ID b' ∈ bu_ID <$> seeds) by by apply list_elem_of_fmap_2.
    assert (bu_Username b' ∈ bu_Username <$> seeds) by by apply list_elem_of_fmap_2. set_solver.
  - intros s' Hs'. apply HQ. rewrite Hs'. unfold st_sessions. simpl. by rewrite D1.
Qed.
Lemma wp_Open s :
  st_disk s = None → Forall seed_ok boot → NoDup (bu_ID <$> boot) → NoDup (bu_Username <$> boot) →
  wp (Auth.Open boot) s (λ _ _, True).
Proof.
  intros Hdisk Hok Hi Hn. unfold Auth.Open. apply wp_bind, wp_modify, wp_bind. unfold load.
  apply wp_bind, wp_fs_call. intros s1 D1 K1. apply wp_bind, wp_gets. rewrite K1. simpl. rewrite Hdisk.
  apply wp_ret. apply wp_bind, wp_gets. destruct (_ && _); [|by apply wp_ret].
  apply wp_bind, wp_provision; [done..|intros b _; split; apply not_elem_of_empty|]. intros s2 Hs2. apply wp_persist; [|done].
  assert (default [] (ds_Sessions (st_data s2)) = []) as Hnone.
  { fold (st_sessions s2). rewrite Hs2. unfold st_sessions. by rewrite D1. }
  unfold encode_disk. rewrite Hnone. by eexists.
Qed.
(** A user with a password that matches logs in. *)
Lemma wp_Login u p ttl now s user :
  List.find (credentials u p) (st_users s) = Some user → @formattable utc (now + ttl) →
  Forall (λ x, Forall (@formattable utc) (session_times x)) (st_sessions s) →
  wp (Login u p ttl now) s (λ answer _, answer.1.1 = user ∧ answer.2 = now + ttl).
Proof.
  intros Hf Ht Hs. unfold Login, Authenticate. apply wp_bind, wp_bind, wp_gets. rewrite Hf. eexists _, _. split; [done|].
  apply wp_bind. unfold newToken. apply wp_bind. eexists _, _. split; [done|].
  destruct (calm_random _ Hcalm (st_tick s)) as [b Hb]. destruct (auth_random _); [|done].
  apply wp_ret. apply wp_bind, wp_modify, wp_bind, wp_persist; [|by intros; apply wp_ret].
  unfold encode_disk. simpl. fold (st_sessions s).
  match goal with |- is_Some (if ?b then _ else _) => assert (b = true) as ->; [|by eexists] end.
  apply forallb_forall. intros t Hin. apply list_elem_of_In, list_elem_of_bind in Hin as (x & Hx & Hin).
    apply (bool_decide_eq_true_2 _). rewrite Forall_forall in Hs. apply elem_of_app in Hin as [Hin|Hin].
  - specialize (Hs x Hin). rewrite Forall_forall in Hs. by apply Hs.
  - apply list_elem_of_singleton in Hin as ->. apply list_elem_of_singleton in Hx as ->. done.
Qed.
End first.

(** A login that succeeds is answered with its token. *)
Lemma login_served `{Env, AuthEnv, HttpEnv, Router} writer cfg r p params req s user token expires :
  chi_match (patterns writer cfg) (hr_Method r) (hr_Path r) = Matched 2 params →
  Decode login_fields zero_login (hr_Body r) = Some req →
  Login (lr_Username req) (lr_Password req) (ac_SessionTTL (cf_Auth cfg)) (wall_now (pc_tick p)) (pc_auth p) =
    (s, Ok (user, token, expires)) →
  snd (ServeHTTP writer cfg r p) = writeJSON 200 (LoggedIn token expires user).
Proof.
  intros Hm Hdec Hl. unfold ServeHTTP, dispatch. fold (patterns writer cfg). rewrite Hm.
  cbn [routes lookup list_lookup rt_mounted rt_roles rt_handler open_route authenticated andb].
  unfold mbind, op_bind, mret, op_ret. simpl.
  unfold login, mbind, op_bind, decode_body, must, time_now, http_ask, on_auth, reply, mret, op_ret. simpl.
  rewrite Hdec. simpl. by rewrite Hl.
Qed.
(** The store of a new database opens, if nothing fails. *)
Lemma fresh_New `{Env, !Faultless H} `{Migrations, !MigrationLaws H0} ms (Hms : versioned ms) dir max sync w :
  w_db w = new_db → is_Some (scripts ms new_db) →
  ∃ w' writer, Migrate.New dir max sync w = (w', Ok writer) ∧ Some (w_db w') = scripts ms new_db ∧ w_fs w' = w_fs w.
Proof.
  intros Hw Hs. destruct (wp_New ms 0 w dir max sync Hms) as (w' & writer & Hr & _); [by rewrite Hw|by rewrite Hw|].
  exists w', writer. split; [done|].
  assert (ends (Migrate.New dir max sync) w (λ w' r, ∀ u, r = Ok u → Some (w_db w') = scripts ms new_db ∧ w_fs w' = w_fs w)) as He.
  { apply (ends_New ms 0); [done|lia|by rewrite Hw|]. intros j w1 r Hj Hsc Hf Hok u Hu.
    rewrite (Hok u Hu), Nat.sub_0_r in Hsc. simpl in Hsc. rewrite Hw, take_ge in Hsc by done. done. }
  unfold ends in He. rewrite Hr in He. by apply (He writer).
Qed.
