(* ===== verification/BootClaims.v ===== *)
(** * Theorems about the process as a whole

    How a start ends, what a first start offers, what a second one takes away,
    and what no sequence of starts, requests, tasks and ends can do to the
    cases. *)
From Stdlib Require Import Ascii.
From S2P Require Import Prelude GoErrors GoStrings GoNumbers GoTime GoPaths Sha256 Json JsonFacts Domain World Shard Index.
From S2P Require Import Repo Rebuild Reader Migrate Records Auth AuthClaims Config AppLog Services Http Hubctl.
From S2P Require Import HttpServer Middleware Worker Scheduler Lifecycle Boot StoreFacts RebuildFacts.
From S2P Require Import StoreRuns ServiceSpec ServiceInv ServiceLoops ServiceRuns ServiceClaims HttpFacts HttpClaims HttpSession.
From S2P Require Import MiddlewareClaims ConfigClaims MigrateClaims LifecycleClaims BootFacts.

(** ** A machine *)

Definition user_json (id name password role : string) : json :=
  JObj [jtext "id" id; jtext "username" name; jtext "password" password; jtext "role" role].
Definition users_variable : string := of_bytes (print (JArr [
  user_json "u-1" "lamp" "a long password" "admin"; user_json "u-2" "sign" "another password" "venue_operator"])).
(** The bootstrap users are in the environment, all else is the default. *)
Definition ex_variables : ConfigEnv := {|
  Getenv name := if bool_decide (name = "SHENZHEN_LIGHT_GOVERNANCE_AUTH_BOOTSTRAP_USERS") then users_variable else "";
  read_config _ := Ok []; yaml_Unmarshal _ c := Ok c; json_error _ := "invalid" |}.
Definition ex_host : Host := {|
  ho_machine := {| mc_dbs := ∅; mc_fs := ∅; mc_tick := 0; mc_out := []; mc_err := [] |};
  ho_log := []; ho_auth_tick := 0; ho_http_tick := 0 |}.
Definition ex_nil : string → bool := λ _, true.
Definition ex_live (l : life) (e : happening) : option life :=
  live (H := calm) (H0 := repository) (H1 := ex_variables) (H2 := plain_env) (H3 := ex_http) (H4 := ex_router ex_id) ex_nil l e.
Fixpoint ex_lives (es : list happening) (l : life) : option life :=
  match es with
  | [] => Some l
  | e :: es => l ← ex_live l e; ex_lives es l
  end.
Definition ex_first : life := Eval vm_compute in default (Down ex_host) (ex_live (Down ex_host) (HStart (λ _, true) ["lightgovernance"])).
Example ex_first_up : match ex_first with
  | Up h a => mc_fs (ho_machine h) !! "data/auth.json" ≠ None ∧ authPath (ap_config a) = "data/auth.json" ∧
      mc_dbs (ho_machine h) !! "./data/index.db" = Some empty_db ∧ length (ho_log h) = 3%nat
  | Down _ => False
  end.
Proof. vm_compute. split_and!; done. Qed.

(** The first server panics if it has an interval for that; with positive
    intervals none of its successors does. *)
Lemma first_panics cfg :
  (∃ p, happens (cf_Scheduler cfg) (started_server cfg) LoopPanics p) ↔ tickers_ok (cf_Scheduler cfg) = false.
Proof.
  unfold happens, happen. simpl. fold (started_scheduler cfg) (started_worker cfg).
  rewrite started_panics. destruct (tickers_ok _); simpl; [|by split; [|eexists]]. by split; [intros [p Hp]|].
Qed.
Lemma positive_never_panics cfg p :
  tickers_ok (cf_Scheduler cfg) = true → reachable (happens (cf_Scheduler cfg)) (eq (started_server cfg)) p →
  happen (cf_Scheduler cfg) LoopPanics p = None.
Proof.
  intros Hok (p0 & es & <- & Hes).
  assert (server_ok (cf_Scheduler cfg) p) as [Hs Hw _ _ _].
  { apply server_reachable. by exists (started_server cfg), es. }
  unfold tickers_ok in Hok. cbn [scheduler_intervals worker_intervals app forallb] in Hok. guards.
  unfold happen. destruct (sr_exited p); [done|].
  rewrite (positive_calm _ _ _ Hs), (positive_calm _ _ _ Hw); [done|by repeat constructor..].
Qed.

Section process.
Context `{Env} `{Migrations, !MigrationLaws H0} `{ConfigEnv, AuthEnv, HttpEnv, Router}.
Context (nil : string → bool) (ms : list (string * Z)) (Hms : versioned ms).
Context (Hnew : ∀ d, scripts ms new_db = Some d → db_inv d).
Implicit Types (h : Host) (a : App).

Lemma Load_bounds path cfg : Load path = Ok cfg → in_bounds cfg.
Proof.
  unfold Load. destruct (if bool_decide _ then _ else _) as [c|]; [|done]. cbv zeta.
  destruct (Validate _) as [[]|] eqn:Hv; [|done]. intros [= <-]. by apply Validate_spec in Hv as [? _].
Qed.
Lemma readyz_answer writer cfg r params p :
  chi_match (patterns writer cfg) (hr_Method r) (hr_Path r) = Matched 1 params →
  pc_scheduler p = Some true → pc_worker p = true →
  rs_Status (snd (ServeHTTP writer cfg r p)) =
  if result_is_ok (snd (Ping (pc_world p))) && bool_decide (temp_fault (pc_tick p) = None) then 200 else 503.
Proof.
  intros Hm Hs Hw. unfold ServeHTTP, dispatch. fold (patterns writer cfg). rewrite Hm.
  cbn [routes lookup list_lookup rt_mounted rt_roles rt_handler open_route authenticated andb].
  unfold mbind, op_bind, mret, op_ret. simpl.
  unfold readyz, mbind, op_bind, HttpServer.on_store, http_ask, gets, reply, mret, op_ret.
  destruct (Ping (pc_world p)) as [w ping]. simpl. rewrite Hs, Hw. simpl. by rewrite !andb_true_r.
Qed.

(** C14: how a start ends. On a machine whose databases hold what earlier starts
    have left, [main] comes to its [ListenAndServe] only with a valid
    configuration, a database with every migration applied and its tables in
    their invariant, and the goroutines of scheduler and worker started; as
    long as the process lives the server is then ready exactly if the database
    answers and the data directory can be written. Otherwise the process exits
    with status 1, for the configuration (nothing on the machine has been
    touched then) or for the store (no file has been touched), or it panics
    after the migrations: for the file of the users, or because a loop cannot
    make its ticker. The last happens only if one of the three intervals is
    not positive, which [Load] accepts; the panic can then also come after
    [main] listens, and with positive intervals it never does. *)
Theorem start_outcome early args h h' r :
  map_Forall (λ _ d, db_sound ms d) (mc_dbs (ho_machine h)) → main_start early args h = (h', r) →
  match r with
  | Ok a =>
      let cfg := cf_Scheduler (ap_config a) in
      Load (config_path args) = Ok (ap_config a) ∧ in_bounds (ap_config a) ∧
      db_schema (w_db (pc_world (ap_process a))) = ms.*2 ∧ db_inv (w_db (pc_world (ap_process a))) ∧
      serving cfg (ap_server a) ∧
      ((∃ p, happens cfg (ap_server a) LoopPanics p) ↔ tickers_ok cfg = false) ∧
      (tickers_ok cfg = true → ∀ p, reachable (happens cfg) (eq (ap_server a)) p → happen cfg LoopPanics p = None) ∧
      ∀ rq params, chi_match (patterns (ap_writer a) (ap_config a)) (hr_Method rq) (hr_Path rq) = Matched 1 params →
        rs_Status (snd (ServeHTTP (ap_writer a) (ap_config a) rq (ap_process a))) =
          if result_is_ok (snd (Ping (pc_world (ap_process a)))) && bool_decide (temp_fault (pc_tick (ap_process a)) = None)
          then 200 else 503
  | Err (Exit status) => status = 1 ∧
      ((∃ text, Load (config_path args) = Err text ∧ h' = h <| ho_machine ::= λ m, m <| mc_err := mc_err m ++
           ["load config: " +:+ text] |> |>) ∨
       (∃ cfg, Load (config_path args) = Ok cfg ∧ mc_fs (ho_machine h') = mc_fs (ho_machine h) ∧
          ∃ e, ho_log h' = ho_log h ++ entry (logger_of cfg) ErrorLevel [("error", FText e)] "failed to open store"))
  | Err (Panic text) => ∃ cfg s s' opened, Load (config_path args) = Ok cfg ∧
      Auth.Open (bootstrap_users cfg) s = (s', opened) ∧ st_disk s = mc_fs (ho_machine h) !! authPath cfg ∧
      db_schema (default new_db (mc_dbs (ho_machine h') !! index_path (data_dir cfg))) = ms.*2 ∧
      match opened with
      | Err e => text = "open auth store: " +:+ error_text auth_error_text e
      | Ok _ => text = "non-positive interval for NewTicker" ∧ tickers_ok (cf_Scheduler cfg) = false
      end
  end.
Proof.
  intros Hd. rewrite main_start_cases. destruct (Load (config_path args)) as [cfg|text] eqn:Hload.
  2: { intros [= <- <-]. split; [done|]. left. by exists text. }
  cbv zeta. destruct (Migrate.New _ _ _ _) as [w opened] eqn:Hopen.
  destruct (opened_step ms Hms Hnew _ _ _ _ _ _ _ _ _ eq_refl eq_refl eq_refl Hd Hopen) as (Hd' & _ & Hfs & Hok).
  destruct opened as [writer|e].
  2: { intros [= <- <-]. split; [done|]. right. exists cfg. split_and!; [done|done|]. by eexists. }
  specialize (Hok eq_refl). set (h1 := with_world _ w h).
  assert (db_schema (default new_db (mc_dbs (ho_machine h1) !! index_path (data_dir cfg))) = ms.*2) as Hschema.
  { simpl. by rewrite lookup_insert_eq. }
  destruct (Auth.Open _ _) as [s opened] eqn:Hauth. destruct opened as [u|e].
  2: { intros [= <- <-]. exists cfg. do 3 eexists. split_and!; [done|exact Hauth|simpl; by rewrite Hfs|done|done]. }
  destruct (panic_log early cfg) as [log|] eqn:Hp; intros [= <- <-].
  - exists cfg. do 3 eexists. split_and!; [done|exact Hauth|simpl; by rewrite Hfs|done|]. simpl.
    split; [done|]. by eapply panic_log_Some.
  - assert (w_db (pc_world (ap_process (launched cfg writer s (put_auth (authPath cfg) s h1)))) = w_db w) as Ew.
    { simpl. by rewrite lookup_insert_eq. }
    rewrite Ew. split_and!; [done|by eapply Load_bounds|done| |done|apply first_panics| |].
    + apply (sound_inv ms); [|done]. apply (Hd' (index_path (data_dir cfg))). by rewrite lookup_insert_eq.
    + intros Hok' p Hp'. by apply (positive_never_panics cfg).
    + intros rq params Hm. by eapply readyz_answer.
Qed.
(** C8: what survives. Take any life of a machine that starts without
    databases: starts with any arguments, which may each fail or name another
    data directory, requests of any kind, escalations, reconciliations, sweeps,
    ends and ticker panics of the process, in any order and with any failures,
    but one after the other: no other goroutine writes to the database while
    one of them is under way, and the process ends between two of them. Every
    database that is completely migrated has its tables in their invariant, so
    has the one the process works on; and from any point of this life to any
    later one, over any number of restarts, no case is lost, its status moves
    along the status machine, and what was logged, escalated, referred and
    imported is still there. Requests at the same time can break it
    ([complete_overwrites_cancel]). *)
Theorem cases_survive `{!Sequential H, !EnvLaws H} h es1 l1 es2 l2 :
  yaml_levels → mc_dbs (ho_machine h) = ∅ → steps (lives nil) (Down h) es1 l1 → steps (lives nil) l1 es2 l2 →
  (∀ key d, mc_dbs (machine_of l2) !! key = Some d → db_schema d = ms.*2 → db_inv d) ∧
  match l2 with Up _ a => db_inv (w_db (pc_world (ap_process a))) | Down _ => True end ∧
  (∀ key d1, mc_dbs (machine_of l1) !! key = Some d1 → db_schema d1 = ms.*2 →
     ∃ d2, mc_dbs (machine_of l2) !! key = Some d2 ∧ later d1 d2).
Proof.
  intros Hy Hh H1s H2s. assert (life_ok ms (Down h)) as Hok.
  { split; [|done]. simpl. rewrite Hh. apply map_Forall_empty. }
  destruct (life_steps nil ms Hms Hnew Hy _ _ _ Hok H1s) as [Hok1 _].
  destruct (life_steps nil ms Hms Hnew Hy _ _ _ Hok1 H2s) as [Hok2 Hout]. split_and!.
  - intros key d Hd. apply sound_inv. by apply (ok_databases _ _ Hok2 key).
  - destruct l2; [done|]. by eapply running_inv.
  - intros key d1 Hd1 Hs. destruct (Hout key d1 Hd1 Hs) as (d2 & ? & _ & ?). by exists d2.
Qed.

(** C15: a first start serves its users. On a machine without a database and
    without a file of users at the configured place, with bootstrap users that
    have IDs and names of their own, a role and a password of twelve bytes,
    with positive intervals for the loops (which [Load] does not check), and
    if nothing fails from the outside and SQLite accepts the scripts, the
    server starts, however the loops are scheduled; each of these users, and with the password it was given,
    logs in over HTTP, for the configured time; and what the process leaves
    behind is a file with the users, without sessions. *)
Theorem first_start_serves `{!AuthLaws H2, !Faultless H} early args h cfg :
  let boot := bootstrap_users cfg in
  Load (config_path args) = Ok cfg → tickers_ok (cf_Scheduler cfg) = true →
  mc_dbs (ho_machine h) !! index_path (data_dir cfg) = None →
  mc_fs (ho_machine h) !! authPath cfg = None → is_Some (scripts ms new_db) →
  boot ≠ [] → Forall seed_ok boot → NoDup (bu_ID <$> boot) → NoDup (bu_Username <$> boot) → auth_calm boot →
  ∃ h' a, main_start early args h = (h', Ok a) ∧ Some (w_db (pc_world (ap_process a))) = scripts ms new_db ∧
    (∀ b rq params req, b ∈ boot →
       chi_match (patterns (ap_writer a) cfg) (hr_Method rq) (hr_Path rq) = Matched 2 params →
       Decode login_fields zero_login (hr_Body rq) = Some req →
       lr_Username req = bu_Username b → lr_Password req = bu_Password b →
       let expires := wall_now (pc_tick (ap_process a)) + ac_SessionTTL (cf_Auth cfg) in
       @formattable utc expires →
       ∃ token user, us_ID user = bu_ID b ∧ us_Role user = bu_Role b ∧
         snd (ServeHTTP (ap_writer a) cfg rq (ap_process a)) = writeJSON 200 (LoggedIn token expires user)) ∧
    ∃ data, mc_fs (ho_machine (halt h' a)) !! authPath cfg = Some data ∧ sealed_file [] data.
Proof.
  intros boot Hload Htick Hdb Hfile Hscripts Hne Hok Hid Hname Hcalm. rewrite main_start_cases, Hload. cbv zeta.
  destruct (fresh_New ms Hms (data_dir cfg) (st_ShardMaxSize (cf_Storage cfg)) (st_SyncOnWrite (cf_Storage cfg))
    (world_at (data_dir cfg) (ho_machine h))) as (w & writer & Hopen & Hw & Hfs); [simpl; by rewrite Hdb|done|].
  rewrite Hopen. set (h1 := with_world _ w h). set (s0 := auth_at _ h1).
  assert (st_disk s0 = None) as Hdisk by (simpl; by rewrite Hfs).
  destruct (wp_Open boot Hcalm s0 Hdisk Hok Hid Hname) as (s & [] & Hauth & _). fold boot. rewrite Hauth, panic_log_None by done.
  destruct (Open_provisions boot s0 s (Ok ()) Hdisk Hne Hauth) as (_ & _ & Hnd & Hseeds & Hss & Hd & _).
  set (a := launched _ _ _ _). exists (with_log (start_log cfg ++ listen_log cfg) (put_auth (authPath cfg) s h1)), a.
  split; [done|]. split; [simpl; by rewrite lookup_insert_eq|]. split.
  - intros b rq params req Hb Hm Hdec Hu Hp Ht.
    destruct (seeded_authenticate boot (st_users s) b Hnd Hseeds Hb) as (user & Hf & Hus & _ & Hrole & _).
    destruct (wp_Login boot Hcalm (bu_Username b) (bu_Password b) (ac_SessionTTL (cf_Auth cfg))
      (wall_now (pc_tick (ap_process a))) s user Hf Ht) as (s' & [[user' token] expires'] & Hl & Hans);
      [by rewrite Hss|]. simpl in Hans. destruct Hans as [-> ->].
    exists token, user. split_and!; [done|done|]. apply (login_served _ _ _ _ params req s'); [done..|].
    by rewrite Hu, Hp.
  - assert (is_Some (encode_disk (st_data s))) as [data Hdata].
    { unfold encode_disk. fold (st_sessions s). rewrite Hss. by eexists. }
    exists data. split.
    + rewrite <- Hdata, <- Hd. apply (lookup_partial_alter_eq (λ _, st_disk s)).
    + apply (encode_sealed [] (st_data s)); [|done]. split; [|fold (st_sessions s); by rewrite Hss].
      fold (st_users s). by destruct Hseeds.
Qed.
(** C20: what a restart takes away. Once the file of users exists (a first start
    leaves one), nobody logs in any more: through any further starts, as long
    as they keep the file in its place, requests, tasks and ends, every login
    whose body can be read is refused with 401, by whatever name and password;
    and if the configuration requires authentication, a request on a route
    below [/api] is only permitted before the end of some session that was in
    the file at the outset. A file without sessions, or whose sessions have
    ended, closes these routes to everybody for good. *)
Theorem restart_locks_out `{!AuthLaws H2, !Sequential H, !EnvLaws H} path old h es h' a :
  yaml_levels → map_Forall (λ _ d, db_sound ms d) (mc_dbs (ho_machine h)) →
  (∃ data, mc_fs (ho_machine h) !! path = Some data ∧ sealed_file old data) →
  Forall (keeps_path path) es → steps (lives nil) (Down h) es (Up h' a) →
  let p := ap_process a in
  let writer := ap_writer a in
  let cfg := ap_config a in
  (∀ r params, chi_match (patterns writer cfg) (hr_Method r) (hr_Path r) = Matched 2 params →
     snd (ServeHTTP writer cfg r p) =
       match Decode login_fields zero_login (hr_Body r) with
       | Some _ => unauthorized "" "INVALID_CREDENTIALS" "用户名或密码错误"
       | None => writeBadRequest r ("invalid JSON: " +:+ body_error (hr_Body r))
       end) ∧
  (∀ r i params rt, routed_to writer cfg r i params rt → rt_mounted rt = true → ac_Required (cf_Auth cfg) = true →
     permitted cfg rt r p → ∃ x, x ∈ old ∧ wall_now (pc_tick p) < se_ExpiresAt x).
Proof.
  intros Hy Hd Hf Hp Hst p writer cfg.
  assert (life_ok ms (Down h)) as Hok by by split.
  destruct (sealed_steps nil ms Hms Hnew Hy path old _ _ _ Hok Hf Hp Hst) as [_ Hs]. split.
  - intros r params Hm. by apply (sealed_refuses writer cfg old r p params).
  - intros r i params rt _ Hmount Hreq Hperm. unfold permitted in Hperm. rewrite Hmount, Hreq in Hperm.
    destruct Hperm as (user & _ & Hres & _). by apply (sealed_resolve old _ _ _ user Hs) in Hres.
Qed.
End process.

(** ** A life *)

Definition ex_steps := steps (lives (H := calm) (H0 := repository) (H1 := ex_variables) (H2 := plain_env) (H3 := ex_http)
  (H4 := ex_router ex_id) ex_nil).
Lemma ex_lives_steps es l l' : ex_lives es l = Some l' → ex_steps l es l'.
Proof.
  revert l. induction es as [|e es IH]; intros l; simpl; [intros [= <-]; constructor|].
  intros (l1 & He & Hl)%bind_Some. econstructor; [exact He|by apply IH].
Qed.
Definition ex_start : happening := HStart (λ _, true) ["lightgovernance"].
(** The token in the answer to the first login of the administrator. *)
Definition ex_token : string := Eval vm_compute in
  match ex_first with
  | Up _ a => token_of (snd (ex_serve ex_id (ex_log_in "lamp" "a long password") (clock_ticked (ap_process a))))
  | Down _ => ""
  end.
Definition ex_item_body : bytes :=
  print (JObj [jtext "external_ref" "R-1"; jtext "title" "facade light"; jtext "reported_by" "clerk"]).
(** A rule and a case; then tasks, an end and another start. *)
Definition ex_one_day : list happening := [
  ex_start; HRequest (ex_log_in "lamp" "a long password"); HRequest (ex_new_rule ("Bearer " +:+ ex_token));
  HRequest (ex_request "POST" "/api/items/" ("Bearer " +:+ ex_token) no_query ex_item_body)].
Definition ex_the_next : list happening := [HEscalate; HReconcile; HSweep 1; HEnd; ex_start; HSweep 1].
Definition ex_evening : life := Eval vm_compute in default (Down ex_host) (ex_lives ex_one_day (Down ex_host)).
Definition ex_morning : life := Eval vm_compute in default (Down ex_host) (ex_lives ex_the_next ex_evening).
Definition cases_at (l : life) : option (list (string * ItemStatus)) :=
  (λ d, (λ i, (ic_ExternalRef i, ic_Status i)) <$> db_items d) <$> mc_dbs (machine_of l) !! "./data/index.db".
Example ex_cases : cases_at ex_evening = Some [("R-1", StatusAdjudicated)] ∧ cases_at ex_morning = Some [("R-1", StatusAdjudicated)].
Proof. by vm_compute. Qed.
(** What was logged of the three requests of the day. *)
Example ex_logged : match ex_evening with
  | Up h _ => (λ e, (en_message e, snd <$> List.find (λ f, bool_decide (f.1 = "status")) (en_fields e))) <$> drop 3 (ho_log h)
  | Down _ => []
  end = [("request", Some (FInt 200)); ("request", Some (FInt 201)); ("request", Some (FInt 201))].
Proof. vm_compute. reflexivity. Qed.

Lemma repository_tables d : scripts (H := repository) repository_versions new_db = Some d → db_inv d.
Proof. intros E. assert (d = empty_db) as -> by (vm_compute in E; by injection E as <-). apply empty_inv. Qed.
Lemma ex_levels : yaml_levels (H := ex_variables).
Proof. intros data c [= <-]. by apply (bool_decide_eq_true_1 _). Qed.

Lemma start_outcome_witness :
  ∃ h a, main_start (H := calm) (H0 := repository) (H1 := ex_variables) (H2 := plain_env) (λ _, true) ["lightgovernance"]
    ex_host = (h, Ok a) ∧ serving (cf_Scheduler (ap_config a)) (ap_server a) ∧ in_bounds (ap_config a) ∧ ap_config a <> Defaults.
Proof.
  destruct (main_start (H := calm) (H0 := repository) (H1 := ex_variables) (H2 := plain_env) (λ _, true) ["lightgovernance"]
    ex_host) as [h [a|e]] eqn:E; [|by vm_compute in E].
  exists h, a. split; [done|].
  destruct (start_outcome (H := calm) (H0 := repository) (MigrationLaws0 := repository_laws) (H1 := ex_variables)
    (H2 := plain_env) (H3 := ex_http) (H4 := ex_router ex_id) repository_versions repository_versioned repository_tables
    (λ _, true) ["lightgovernance"] ex_host h (Ok a)) as (Hl & Hb & _ & _ & Hs & _); [apply map_Forall_empty|exact E|].
  split; [exact Hs|]. split; [exact Hb|]. intros Hd. rewrite Hd in Hl. by vm_compute in Hl.
Defined.
(** With an interval of the sweeps below zero, which [Load] accepts, the process
    panics before [main] listens, or after it. *)
Definition stuck_variables : ConfigEnv := {|
  Getenv name := if bool_decide (name = "SHENZHEN_LIGHT_GOVERNANCE_SCHEDULER_REEVAL_INTERVAL") then "-1s"
                 else Getenv (ConfigEnv := ex_variables) name;
  read_config _ := Ok []; yaml_Unmarshal _ c := Ok c; json_error _ := "invalid" |}.
Definition stuck_start (early : bool) : Host * result stop App :=
  main_start (H := calm) (H0 := repository) (H1 := stuck_variables) (H2 := plain_env) (λ _, early) ["lightgovernance"] ex_host.
Example stuck_starts :
  snd (stuck_start true) = Err (Panic "non-positive interval for NewTicker") ∧
  match stuck_start false with
  | (_, Ok a) => is_Some (happen (cf_Scheduler (ap_config a)) LoopPanics (ap_server a))
  | _ => False
  end.
Proof. vm_compute. split; [reflexivity|]. by eexists. Qed.
Lemma cases_survive_witness :
  ∃ d1 d2, mc_dbs (machine_of ex_evening) !! "./data/index.db" = Some d1 ∧ length (db_items d1) = 1%nat ∧
    mc_dbs (machine_of ex_morning) !! "./data/index.db" = Some d2 ∧ later d1 d2 ∧ db_inv d2.
Proof.
  destruct (mc_dbs (machine_of ex_evening) !! "./data/index.db") as [d1|] eqn:E1; [|by vm_compute in E1].
  destruct (cases_survive (H := calm) (H0 := repository) (MigrationLaws0 := repository_laws) (H1 := ex_variables)
    (H2 := plain_env) (H3 := ex_http) (H4 := ex_router ex_id) ex_nil repository_versions repository_versioned
    repository_tables ex_host ex_one_day ex_evening ex_the_next ex_morning) as (Hinv & _ & Hlater).
  - exact ex_levels.
  - reflexivity.
  - apply ex_lives_steps. vm_compute. reflexivity.
  - apply ex_lives_steps. vm_compute. reflexivity.
  - destruct (Hlater _ d1 E1) as (d2 & E2 & Hl).
    { vm_compute in E1. injection E1 as <-. reflexivity. }
    exists d1, d2. split; [done|]. split; [vm_compute in E1; injection E1 as <-; reflexivity|].
    split; [exact E2|]. split; [exact Hl|]. apply (Hinv _ d2 E2). vm_compute in E2. injection E2 as <-. reflexivity.
Defined.
Definition ex_started_config : Config := Eval vm_compute in match ex_first with Up _ a => ap_config a | Down _ => Defaults end.
Lemma first_start_serves_witness :
  ∃ h a token user, main_start (H := calm) (H0 := repository) (H1 := ex_variables) (H2 := plain_env) (λ _, true)
    ["lightgovernance"] ex_host = (h, Ok a) ∧ us_ID user = "u-2" ∧
    snd (ServeHTTP (H := calm) (H0 := plain_env) (H1 := ex_http) (H2 := ex_router ex_id) (ap_writer a) ex_started_config
      (ex_log_in "sign" "another password") (ap_process a)) = writeJSON 200 (LoggedIn token (1000 + 8 * Hour) user).
Proof.
  destruct (first_start_serves (H := calm) (H0 := repository) (MigrationLaws0 := repository_laws) (H1 := ex_variables)
    (H2 := plain_env) (H3 := ex_http) (H4 := ex_router ex_id) repository_versions repository_versioned
    (λ _, true) ["lightgovernance"] ex_host ex_started_config) as (h & a & Hm & _ & Hlogin & _).
  - vm_compute. reflexivity.
  - reflexivity.
  - reflexivity.
  - reflexivity.
  - vm_compute. by eexists.
  - discriminate.
  - by repeat constructor.
  - apply (bool_decide_eq_true_1 _). vm_compute. reflexivity.
  - apply (bool_decide_eq_true_1 _). vm_compute. reflexivity.
  - by split; intros; eexists.
  - assert (ap_config a = ex_started_config ∧ ap_writer a = {| rootDir := "./data"; maxShardSize := 1048576; syncOnWrite := true |}
      ∧ pc_tick (ap_process a) = 0%nat) as (Hc & Hw & Ht).
    { vm_compute in Hm. injection Hm as _ <-. vm_compute. done. }
    destruct (Hlogin {| bu_ID := "u-2"; bu_Username := "sign"; bu_Password := "another password"; bu_Role := RoleVenueOperator |}
      (ex_log_in "sign" "another password") (λ _, ex_id) {| lr_Username := "sign"; lr_Password := "another password" |})
      as (token & user & Hid & _ & Hans).
    + vm_compute. apply list_elem_of_further, list_elem_of_here.
    + rewrite Hw. vm_compute. reflexivity.
    + vm_compute. reflexivity.
    + reflexivity.
    + reflexivity.
    + rewrite Ht. apply (bool_decide_eq_true_1 _). vm_compute. reflexivity.
    + exists h, a, token, user. split; [exact Hm|]. split; [exact Hid|].
      rewrite Hans, Ht. reflexivity.
Defined.
(** The machine after the first process has ended, with the file it left; the
    second process, after a task. *)
Definition ex_left : Host := Eval vm_compute in match ex_first with Up h a => halt h a | Down h => h end.
Definition ex_second : life := Eval vm_compute in default (Down ex_host) (ex_lives [ex_start; HEscalate] (Down ex_left)).
Lemma restart_locks_out_witness :
  ∃ h a, ex_second = Up h a ∧
    snd (ServeHTTP (H := calm) (H0 := plain_env) (H1 := ex_http) (H2 := ex_router ex_id) (ap_writer a) (ap_config a)
      (ex_log_in "lamp" "a long password") (ap_process a)) = unauthorized "" "INVALID_CREDENTIALS" "用户名或密码错误".
Proof.
  destruct ex_second as [h|h a] eqn:E; [by vm_compute in E|]. exists h, a. split; [done|].
  destruct (restart_locks_out (H := calm) (H0 := repository) (MigrationLaws0 := repository_laws) (H1 := ex_variables)
    (H2 := plain_env) (H3 := ex_http) (H4 := ex_router ex_id) ex_nil repository_versions repository_versioned
    repository_tables "data/auth.json" [] ex_left [ex_start; HEscalate] h a) as (Hlogin & _).
  - exact ex_levels.
  - assert (mc_dbs (ho_machine ex_left) = {["./data/index.db" := empty_db]}) as -> by (vm_compute; reflexivity).
    apply map_Forall_singleton. right. split; [reflexivity|apply empty_inv].
  - eexists. split; [vm_compute; reflexivity|]. eexists. split; [vm_compute; reflexivity|]. split; [done|constructor].
  - repeat constructor; intros cfg Hl; vm_compute in Hl; injection Hl as <-; vm_compute; reflexivity.
  - rewrite <- E. apply ex_lives_steps. vm_compute. reflexivity.
  - etransitivity; [apply (Hlogin _ (λ _, ex_id))|vm_compute; reflexivity].
    vm_compute in E. injection E as _ <-. vm_compute. reflexivity.
Defined.
